(** * ArchWiki/optimizer.py: the page optimizer of arch-wiki-docs

    A shallow embedding of [Optimizer] (src/ArchWiki/optimizer.py) and the
    properties of its five steps: [strip_page], [fix_layout],
    [replace_css_links], [update_links] and [fix_footer].

    Conventions of the embedding.
    - A Python [str] is a [string]; its characters are the [ascii] values.
    - An lxml element is a record of its tag, attributes, text and tail together
      with the list of its children; every element carries the identity of the
      Python object ([uid]), and a handle held by the program (an entry of a
      list returned by [cssselect] or [xpath]) is such an identity.
    - A Python exception is a value of [exn]; a method that may raise returns a
      [result]. *)

From Stdlib Require Import List String Ascii Bool Arith Lia Permutation.
Import ListNotations.
Open Scope string_scope.

(** ** Python strings *)

Module Str.

(** [s[n:]] *)
Fixpoint drop (n : nat) (s : string) : string :=
  match n, s with
  | 0, _ => s
  | S _, EmptyString => EmptyString
  | S n', String _ s' => drop n' s'
  end.

(** [s.startswith(p)] *)
Fixpoint startswith (p s : string) : bool :=
  match p with
  | EmptyString => true
  | String a p' =>
      match s with
      | EmptyString => false
      | String b s' => Ascii.eqb a b && startswith p' s'
      end
  end.

(** truth value of a string: [if s:] *)
Definition truthy (s : string) : bool :=
  match s with EmptyString => false | String _ _ => true end.

(** [c in s] *)
Fixpoint mem (c : ascii) (s : string) : bool :=
  match s with
  | EmptyString => false
  | String d s' => Ascii.eqb c d || mem c s'
  end.

(** [s.replace(a, b)] for one-character [a] and [b] *)
Fixpoint replace (a b : ascii) (s : string) : string :=
  match s with
  | EmptyString => EmptyString
  | String c s' => String (if Ascii.eqb c a then b else c) (replace a b s')
  end.

(** [s.split(sep, maxsplit=1)] when it has two parts, i.e. when [sep] occurs
    in [s]: the text before the first [sep] and the text after it. [None]
    stands for the one-element list [[s]]. *)
Fixpoint split_once (sep : ascii) (s : string) : option (string * string) :=
  match s with
  | EmptyString => None
  | String c s' =>
      if Ascii.eqb c sep then Some (EmptyString, s')
      else match split_once sep s' with
           | Some (a, b) => Some (String c a, b)
           | None => None
           end
  end.

(** [s.endswith("/")] *)
Fixpoint ends_with_slash (s : string) : bool :=
  match s with
  | EmptyString => false
  | String c EmptyString => Ascii.eqb c "/"
  | String _ s' => ends_with_slash s'
  end.

(** [s[s.rfind("/") + 1:]], the second component of [os.path.split(s)] *)
Fixpoint path_tail (s : string) : string :=
  match s with
  | EmptyString => EmptyString
  | String c s' =>
      if mem "/" s' then path_tail s'
      else if Ascii.eqb c "/" then s' else s
  end.

(** [s[:s.rfind("/") + 1]] *)
Fixpoint path_dir (s : string) : string :=
  match s with
  | EmptyString => EmptyString
  | String c s' => if mem "/" s then String c (path_dir s') else EmptyString
  end.

(** [s == "/" * len(s)] *)
Fixpoint all_slashes (s : string) : bool :=
  match s with
  | EmptyString => true
  | String c s' => Ascii.eqb c "/" && all_slashes s'
  end.

(** [s.rstrip("/")] *)
Fixpoint rstrip_slashes (s : string) : string :=
  match s with
  | EmptyString => EmptyString
  | String c s' =>
      let r := rstrip_slashes s' in
      if Ascii.eqb c "/" && negb (truthy r) then EmptyString else String c r
  end.

(** the first component of [os.path.split(s)] *)
Definition path_head (s : string) : string :=
  let head := path_dir s in
  if truthy head && negb (all_slashes head) then rstrip_slashes head else head.

(** [os.path.join(a, b)] (posixpath, two arguments) *)
Definition path_join (a b : string) : string :=
  if startswith "/" b then b
  else if negb (truthy a) || ends_with_slash a then a ++ b
  else a ++ "/" ++ b.

End Str.

(** ** The regular expression of [update_links]

    [re.match("^/index.php/(.+?)(?:#(.+))?$", href)], followed in the order
    in which the backtracking matcher tries the alternatives. In a pattern
    without flags [.] is any character but a newline, and [$] matches at the
    end of the string and just before a newline that ends the string. *)

Module Re.

Definition is_nl (c : ascii) : bool := Ascii.eqb c "010".

(** [$] against what is left of the string *)
Definition at_end (s : string) : bool :=
  match s with
  | EmptyString => true
  | String c EmptyString => is_nl c
  | _ => false
  end.

(** the longest run of [.] at the front of [s], and what follows it *)
Fixpoint span_line (s : string) : string * string :=
  match s with
  | EmptyString => (EmptyString, EmptyString)
  | String c s' =>
      if is_nl c then (EmptyString, s)
      else let (a, b) := span_line s' in (String c a, b)
  end.

(** [(.+)$]: the greedy group takes the whole run, and a shorter run is
    never followed by the end of the string *)
Definition dot_plus_end (s : string) : option string :=
  let (f, r) := span_line s in
  if Str.truthy f && at_end r then Some f else None.

(** [(?:#(.+))?$] *)
Definition fragment_end (s : string) : option (option string) :=
  match match s with
        | String "#" s' => dot_plus_end s'
        | _ => None
        end with
  | Some f => Some (Some f)
  | None => if at_end s then Some None else None
  end.

(** the lazy group [(.+?)] once it holds a character: it is extended by one
    more [.] only when the rest of the pattern fails here. The result is
    what the group takes from [s], and the second group. *)
Fixpoint lazy_more (s : string) : option (string * option string) :=
  match fragment_end s with
  | Some g2 => Some (EmptyString, g2)
  | None =>
      match s with
      | EmptyString => None
      | String c s' =>
          if is_nl c then None
          else match lazy_more s' with
               | Some (t, g2) => Some (String c t, g2)
               | None => None
               end
      end
  end.

(** [^/index.php/]: the dot of the pattern is not escaped *)
Definition index_php (s : string) : option string :=
  if Str.startswith "/index" s then
    match Str.drop 6 s with
    | String c s' =>
        if negb (is_nl c) && Str.startswith "php/" s' then Some (Str.drop 4 s')
        else None
    | EmptyString => None
    end
  else None.

(** the whole match: [group(1)] and [group(2)] *)
Definition internal_link (s : string) : option (string * option string) :=
  match index_php s with
  | Some (String c s') =>
      if is_nl c then None
      else match lazy_more s' with
           | Some (t, g2) => Some (String c t, g2)
           | None => None
           end
  | _ => None
  end.

End Re.

(** ** The wiki object

    [self.wiki] is used through two methods, which belong to the ArchWiki
    class and are taken as they are given. *)

Record ArchWiki := {
  resolve_redirect : string -> string;
  get_local_filename : string -> string -> string
}.

(** ** [update_links] on one attribute value *)

Section Links.

(** [urllib.parse.unquote] *)
Variable unquote : string -> string.
Variable wiki : ArchWiki.
Variable relbase : string.

(** lines 110-113 *)
Definition strip_origin (href : string) : string :=
  if Str.startswith "https://wiki.archlinux.org/" href then Str.drop 26 href
  else if Str.startswith "http://wiki.archlinux.org/" href then Str.drop 25 href
  else href.

(** lines 118-123: [title.split("#", maxsplit=1)] unpacked into two names,
    or [ValueError] when there is one part only *)
Definition split_title (title : string) : string * string :=
  match Str.split_once "#" title with
  | Some (t, fragment) => (t, Str.replace " " "_" fragment)
  | None => (title, EmptyString)
  end.

(** lines 128-129 *)
Definition with_fragment (href fragment : string) : string :=
  if Str.truthy fragment then href ++ "#" ++ fragment else href.

(** lines 117-129, given the two groups of the match *)
Definition local_href (g1 : string) (g2 : option string) : string :=
  let title := resolve_redirect wiki g1 in
  let (title, fragment) := split_title title in
  let fragment :=
    match g2 with
    | Some f => if Str.truthy f then f else fragment
    | None => fragment
    end in
  let href := get_local_filename wiki title relbase in
  with_fragment href fragment.

(** lines 107-130: the value given to [a.set("href", _)], or [None] when
    the attribute is not set *)
Definition new_href (href : string) : option string :=
  let href := unquote href in
  let href := strip_origin href in
  match Re.internal_link href with
  | Some (g1, g2) => Some (local_href g1 g2)
  | None => None
  end.

(** lines 133-136: the value given to [i.set("src", _)] *)
Definition new_src (src : string) : option string :=
  if Str.truthy src && Str.startswith "/images/" src
  then Some (Str.path_join relbase ("File__" ++ Str.path_tail src))
  else None.

End Links.

(** ** Exceptions *)

Inductive exn :=
| IndexError          (* [l[0]] on an empty list *)
| ValueError          (* lxml: an element put below itself; a value that is
                         not XML text *)
| AttributeError      (* a method called on [None] *)
| FileExistsError     (* [os.makedirs] of a directory that exists *)
| OSError.            (* any other failure of the operating system *)

Inductive result (A : Type) :=
| Ok (a : A)
| Raise (e : exn).
Arguments Ok {A} a.
Arguments Raise {A} e.

Definition bind {A B : Type} (r : result A) (k : A -> result B) : result B :=
  match r with
  | Ok a => k a
  | Raise e => Raise e
  end.

Notation "x <- r ;; k" := (bind r (fun x => k))
  (at level 61, r at next level, right associativity).

(** a [for] loop whose body may raise *)
Fixpoint for_each {A S : Type} (body : A -> S -> result S) (l : list A) (s : S)
  : result S :=
  match l with
  | [] => Ok s
  | a :: l' => s' <- body a s ;; for_each body l' s'
  end.

(** What a piece of code leaves behind: the state it has reached, and the
    exception when it has raised one. *)
Record outcome (S : Type) := mkOutcome {
  after : S;
  raised : option exn
}.
Arguments mkOutcome {S} after raised.
Arguments after {S} o.
Arguments raised {S} o.

(** the [result] of a piece of code that either completes or raises *)
Definition completed {S : Type} (o : outcome S) : result S :=
  match raised o with
  | None => Ok (after o)
  | Some e => Raise e
  end.

(** a [for] loop whose body raises before it changes anything: the loop stops
    at the first exception, with the state that the turns before it have left *)
Fixpoint for_each_run {A S : Type} (body : A -> S -> result S) (l : list A) (s : S)
  : outcome S :=
  match l with
  | [] => mkOutcome s None
  | a :: l' =>
      match body a s with
      | Ok s' => for_each_run body l' s'
      | Raise e => mkOutcome s (Some e)
      end
  end.

(** ** The element tree *)

(** The tag of a node: a name, or lxml's [Comment] for a comment node. *)
Inductive tag_t :=
| Tag (name : string)
| CommentTag.

Record element := mkElement {
  uid : nat;                         (* identity of the Python object *)
  tag : tag_t;
  attrib : list (string * string);   (* in insertion order *)
  text : string;
  tail : string                      (* lxml keeps the text after an element with it *)
}.

#[warnings="-register-all"]
Inductive node := Node (e : element) (children : list node).

Definition elem (n : node) : element := match n with Node e _ => e end.
Definition children (n : node) : list node := match n with Node _ cs => cs end.

(** *** Attributes: [e.get(k)], [e.set(k, v)], [e.attrib.pop(k)], [e.tag = t] *)

Fixpoint attr_get (k : string) (a : list (string * string)) : option string :=
  match a with
  | [] => None
  | (k', v) :: a' => if String.eqb k' k then Some v else attr_get k a'
  end.

Fixpoint attr_set (k v : string) (a : list (string * string))
  : list (string * string) :=
  match a with
  | [] => [(k, v)]
  | (k', v') :: a' =>
      if String.eqb k' k then (k', v) :: a' else (k', v') :: attr_set k v a'
  end.

Fixpoint attr_pop (k : string) (a : list (string * string))
  : list (string * string) :=
  match a with
  | [] => []
  | (k', v') :: a' => if String.eqb k' k then a' else (k', v') :: attr_pop k a'
  end.

Definition get (k : string) (e : element) : option string := attr_get k (attrib e).

Definition set (k v : string) (e : element) : element :=
  mkElement (uid e) (tag e) (attr_set k v (attrib e)) (text e) (tail e).

(** lxml stores a value only when it is XML text: a character below [U+0020]
    other than the tab, the line feed and the carriage return makes [e.set]
    raise [ValueError] ("All strings must be XML compatible"), and the element
    stays as it is. [set] is [e.set(k, v)] for a value that is XML text;
    [try_set] is [e.set(k, v)] for any value. *)
Definition xml_char (c : ascii) : bool :=
  let n := nat_of_ascii c in
  (32 <=? n)%nat || Nat.eqb n 9 || Nat.eqb n 10 || Nat.eqb n 13.

Fixpoint xml_text (s : string) : bool :=
  match s with
  | EmptyString => true
  | String c s' => xml_char c && xml_text s'
  end.

Definition try_set (k v : string) (e : element) : result element :=
  if xml_text v then Ok (set k v e) else Raise ValueError.

Definition pop (k : string) (e : element) : element :=
  mkElement (uid e) (tag e) (attr_pop k (attrib e)) (text e) (tail e).

Definition set_tag (t : string) (e : element) : element :=
  mkElement (uid e) (Tag t) (attrib e) (text e) (tail e).

(** *** Document order *)

(** every element of the tree with its parent, in document order *)
Fixpoint edges (parent : option element) (n : node)
  : list (option element * element) :=
  match n with
  | Node e cs => (parent, e) :: flat_map (edges (Some e)) cs
  end.

Definition elements (n : node) : list element := map snd (edges None n).
Definition uids (n : node) : list nat := map uid (elements n).

(** Distinct objects have distinct identities. *)
Definition wf (n : node) : Prop := NoDup (uids n).

(** *** Mutation through a handle *)

Fixpoint map_tree (f : element -> element) (n : node) : node :=
  match n with
  | Node e cs => Node (f e) (map (map_tree f) cs)
  end.

(** apply [f] to the element whose identity is [u] *)
Definition update (u : nat) (f : element -> element) (n : node) : node :=
  map_tree (fun e => if Nat.eqb (uid e) u then f e else e) n.

(** delete, below the root, every node that satisfies [p], with its subtree
    and its tail *)
Fixpoint prune (p : element -> bool) (n : node) : node :=
  match n with
  | Node e cs =>
      Node e (flat_map (fun c => if p (elem c) then [] else [prune p c]) cs)
  end.

Definition has_uid (u : nat) (e : element) : bool := Nat.eqb (uid e) u.

(** the element of identity [u] *)
Definition element_of (u : nat) (root : node) : option element :=
  find (has_uid u) (elements root).

(** the body of a loop that reads the element of the handle [u] and sets one
    of its attributes, which may raise: [f] gives the element as the body
    leaves it *)
Definition update_try (u : nat) (f : element -> result element) (n : node)
  : result node :=
  match element_of u n with
  | Some e => e' <- f e ;; Ok (update u (fun _ => e') n)
  | None => Ok n
  end.

(** [e.getparent().remove(e)]: the root has no parent; an element that an
    earlier removal took out of the tree with its parent is removed from that
    parent, which leaves the tree as it is. *)
Definition remove_from_parent (u : nat) (n : node) : result node :=
  if has_uid u (elem n) then Raise AttributeError else Ok (prune (has_uid u) n).

(** [lxml.etree.strip_elements(root, t)] with [with_tail=True]: the root is
    never deleted. *)
Definition strip_elements (t : tag_t -> bool) (n : node) : node :=
  prune (fun e => t (tag e)) n.

Definition first_some {A B : Type} (f : A -> option B) : list A -> option B :=
  fix go (l : list A) : option B :=
    match l with
    | [] => None
    | a :: l' => match f a with Some b => Some b | None => go l' end
    end.

(** the subtree of the element [u] *)
Fixpoint find_node (u : nat) (n : node) : option node :=
  match n with
  | Node e cs => if has_uid u e then Some n else first_some (find_node u) cs
  end.

(** put [x] before the [i]-th child of the element [pu], or after the last
    child when there is no [i]-th child *)
Fixpoint add_child (pu i : nat) (x : node) (n : node) : node :=
  match n with
  | Node e cs =>
      let cs' := map (add_child pu i x) cs in
      Node e (if has_uid pu e then firstn i cs' ++ x :: skipn i cs' else cs')
  end.

(** [parent.insert(0, child)] for an element [child] of the tree: lxml refuses
    to put an element below itself; otherwise the element leaves its place,
    with its tail, and becomes the first child of [parent]. A handle that is
    not in the tree does not occur: the handles come from a selection on the
    tree, and an element that is moved stays in it. *)
Definition insert_first (parent child : nat) (n : node) : result node :=
  match find_node child n with
  | Some x =>
      if existsb (Nat.eqb parent) (uids x) then Raise ValueError
      else Ok (add_child parent 0 x (prune (has_uid child) n))
  | None => Ok n
  end.

(** an identity that no element of the tree has: a new Python object *)
Definition fresh (n : node) : nat := S (list_max (uids n)).

(** [lxml.etree.Element(t)] *)
Definition new_element (u : nat) (t : string) : node :=
  Node (mkElement u (Tag t) [] EmptyString EmptyString) [].

(** *** Selectors

    A selection is the list of the handles of the matching elements, in
    document order. *)

Definition is_tag (t : string) (e : element) : bool :=
  match tag e with
  | Tag name => String.eqb name t
  | CommentTag => false
  end.

Definition is_element (e : element) : bool :=
  match tag e with Tag _ => true | CommentTag => false end.

Definition attr_is (k v : string) (e : element) : bool :=
  match get k e with
  | Some v' => String.eqb v' v
  | None => false
  end.

(** [#i] *)
Definition has_id (i : string) (e : element) : bool :=
  is_element e && attr_is "id" i e.

Definition select (p : element -> bool) (n : node) : list nat :=
  map uid (filter p (elements n)).

(** [root.cssselect("#i")] *)
Definition cssselect_id (i : string) (n : node) : list nat := select (has_id i) n.

(** [root.cssselect("a")] *)
Definition cssselect_tag (t : string) (n : node) : list nat := select (is_tag t) n.

(** [.c]: the class attribute, split at white space, has the word [c] *)
Definition is_space (c : ascii) : bool :=
  Ascii.eqb c " " || Ascii.eqb c "009" || Ascii.eqb c "010" || Ascii.eqb c "013".

Fixpoint words_from (w : string) (s : string) : list string :=
  match s with
  | EmptyString => if Str.truthy w then [w] else []
  | String c s' =>
      if is_space c
      then (if Str.truthy w then [w] else []) ++ words_from EmptyString s'
      else words_from (w ++ String c EmptyString) s'
  end.

Definition has_class (c : string) (e : element) : bool :=
  is_element e &&
  match get "class" e with
  | Some v => existsb (String.eqb c) (words_from EmptyString v)
  | None => false
  end.

(** ** The optimizer *)

Section Optimizer.

Variable unquote : string -> string.
Variable wiki : ArchWiki.

(** [self.relbase], the path from the directory of the output file to the
    base directory, as [os.path.relpath] gives it for the directories of the
    caller; it is XML text, like the style of [fix_layout], so that the
    [set] of [fix_layout] and of [replace_css_links] do not raise. *)
Variable relbase : string.

(** *** [strip_page] *)

(** [#archnavbar, #mw-page-base, #mw-head-base, #mw-navigation] *)
Definition is_chrome (e : element) : bool :=
  has_id "archnavbar" e || has_id "mw-page-base" e ||
  has_id "mw-head-base" e || has_id "mw-navigation" e.

Definition is_comment (t : tag_t) : bool :=
  match t with CommentTag => true | Tag _ => false end.

Definition is_script (t : tag_t) : bool :=
  match t with Tag name => String.eqb name "script" | CommentTag => false end.

Definition strip_page (root : node) : result node :=
  let bodyContent := cssselect_id "bodyContent" root in
  let pLang := cssselect_id "p-lang" root in
  root <- match pLang, bodyContent with
          | p :: _, b :: _ => insert_first b p root
          | _, _ => Ok root
          end ;;
  root <- for_each remove_from_parent (select is_chrome root) root ;;
  let root := strip_elements is_comment root in
  let root := strip_elements is_script root in
  Ok root.

(** *** [fix_layout] *)

Definition fix_layout (root : node) : node :=
  let root :=
    fold_left (fun r c => update c (set "style" "margin: 0") r)
              (cssselect_id "content" root) root in
  fold_left (fun r f => update f (set "style" "margin: 0") r)
            (cssselect_id "footer" root) root.

(** *** [replace_css_links] *)

(** [//head/link[@rel="stylesheet"]] *)
Definition is_stylesheet_link (x : option element * element) : bool :=
  match fst x with
  | Some parent => is_tag "head" parent
  | None => false
  end && is_tag "link" (snd x) && attr_is "rel" "stylesheet" (snd x).

Definition xpath_stylesheet_links (root : node) : list nat :=
  map (fun x => uid (snd x)) (filter is_stylesheet_link (edges None root)).

Definition css_href : string := Str.path_join relbase "ArchWikiOffline.css".

Definition replace_css_links (root : node) : result node :=
  match xpath_stylesheet_links root with
  | [] => Raise IndexError                 (* [links[0]] *)
  | first :: rest =>
      let root := update first (set "href" css_href) root in
      for_each remove_from_parent rest root
  end.

(** *** [update_links] *)

(** lines 105-130, the body of the first loop: the new [href] is a text
    made from the link, the resolver and the Path Mapper, and [a.set] takes it
    or raises *)
Definition update_anchor (a : element) : result element :=
  match get "href" a with
  | Some href =>
      match new_href unquote wiki relbase href with
      | Some href' => try_set "href" href' a
      | None => Ok a
      end
  | None => Ok a
  end.

(** lines 133-136, the body of the second loop *)
Definition update_image (i : element) : result element :=
  match get "src" i with
  | Some src =>
      match new_src relbase src with
      | Some src' => try_set "src" src' i
      | None => Ok i
      end
  | None => Ok i
  end.

(** The two loops. An exception of [a.set] or [i.set] ends the step: the
    anchors and images of the turns before it keep their new values, and the
    others are not reached. *)
Definition update_links (root : node) : outcome node :=
  let anchors :=
    for_each_run (fun a => update_try a update_anchor) (cssselect_tag "a" root) root in
  match raised anchors with
  | Some _ => anchors
  | None =>
      let root := after anchors in
      for_each_run (fun i => update_try i update_image) (cssselect_tag "img" root) root
  end.

(** *** [fix_footer] *)

(** [div.printfooter] *)
Definition is_printfooter (e : element) : bool :=
  is_tag "div" e && has_class "printfooter" e.

(** the body of the loop. [attrib.pop("class")] finds its key: the element
    was selected by its class. *)
Definition fix_footer_body (printfooter : nat) (root : node) : result node :=
  let root := update printfooter (pop "class") root in
  let root := update printfooter (set_tag "li") root in
  match cssselect_id "footer-info" root with
  | [] => Raise IndexError                 (* [cssselect("#footer-info")[0]] *)
  | f_list :: _ =>
      root <- insert_first f_list printfooter root ;;
      let br := new_element (fresh root) "br" in
      Ok (add_child f_list 3 br root)
  end.

Definition fix_footer (root : node) : result node :=
  for_each fix_footer_body (select is_printfooter root) root.

(** *** The five steps of [optimize], lines 38-42 *)

Definition transform (root : node) : result node :=
  root <- strip_page root ;;
  let root := fix_layout root in
  root <- replace_css_links root ;;
  root <- completed (update_links root) ;;
  fix_footer root.

End Optimizer.

(** ** [optimize]

    The method reads its input, runs the five steps, and writes the result.
    What is outside the program is taken as it is given: [os.path.relpath]
    (which depends on the working directory), the parser and the serializer of
    lxml, and the file system with [os.makedirs] and the writing of a file. *)

Section Optimize.

Variable unquote : string -> string.
Variable wiki : ArchWiki.
Variable base_directory : string.

(** [os.path.relpath(path, start)] *)
Variable relpath : string -> string -> string.

(** [lxml.html.parse(fin).getroot()] on the data of [fin]; [None] when the
    data has no root element *)
Variable parse : string -> option node.

(** [lxml.etree.tostring(root, pretty_print=True, encoding="unicode",
    method="html", doctype="<!DOCTYPE html>")] *)
Variable tostring : node -> string.

(** the file system *)
Variable FS : Type.

(** [os.makedirs(name)]: the file system that the call leaves, and the
    exception when it raises one *)
Variable makedirs : string -> FS -> outcome FS.

(** [f = open(name, "w"); f.write(data); f.close()] *)
Variable write_file : string -> string -> FS -> outcome FS.

(** lines 45-48: [FileExistsError] is the one exception that is caught *)
Definition ensure_directory (name : string) (fs : FS) : outcome FS :=
  let made := makedirs name fs in
  match raised made with
  | Some FileExistsError => mkOutcome (after made) None
  | _ => made
  end.

(** How a call of [optimize] ends. The method has no [return] statement: a
    call that returns gives [None], and what it leaves is the document
    [self.root] and the file system. A call that raises leaves the file
    system as the calls made before the exception have left it. *)
Inductive finished :=
| Returned (root : node) (fs : FS)
| Raised (e : exn) (fs : FS).

Definition optimize (fin fout : string) (fs : FS) : finished :=
  let relbase := relpath base_directory (Str.path_head fout) in
  match parse fin with
  | None => Raised AttributeError fs        (* [None.cssselect] *)
  | Some root =>
      match transform unquote wiki relbase root with
      | Raise e => Raised e fs
      | Ok root =>
          let made := ensure_directory (Str.path_head fout) fs in
          match raised made with
          | Some e => Raised e (after made)
          | None =>
              let written := write_file fout (tostring root) (after made) in
              match raised written with
              | Some e => Raised e (after written)
              | None => Returned root (after written)
              end
          end
      end
  end.

End Optimize.

(** ** Observations on a document *)

Definition mem_uid (u : nat) (us : list nat) : bool := existsb (Nat.eqb u) us.

(** a decision procedure for [wf] *)
Fixpoint distinct (l : list nat) : bool :=
  match l with
  | [] => true
  | x :: l' => negb (mem_uid x l') && distinct l'
  end.

(** [e.get(k)] for the element [e] of identity [u] *)
Definition attribute (k : string) (u : nat) (root : node) : option string :=
  match element_of u root with
  | Some e => get k e
  | None => None
  end.

(** the element [cu] is the first child of the element [pu] *)
Fixpoint first_child (pu cu : nat) (n : node) : bool :=
  match n with
  | Node e cs =>
      (has_uid pu e &&
       match cs with
       | c :: _ => has_uid cu (elem c)
       | [] => false
       end)
      || existsb (first_child pu cu) cs
  end.

(** the element [u] is reached from the root through elements that do not
    satisfy [q], the root and [u] included *)
Fixpoint clear_path (q : element -> bool) (u : nat) (n : node) : bool :=
  match n with
  | Node e cs => negb (q e) && (has_uid u e || existsb (clear_path q u) cs)
  end.

(** the elements that [strip_page] deletes *)
Definition deleted (e : element) : bool :=
  is_chrome e || is_comment (tag e) || is_script (tag e).

(** ** Instances for the examples *)

Module Example.

Definition hex_digit (c : ascii) : option nat :=
  let n := nat_of_ascii c in
  if ((48 <=? n) && (n <=? 57))%nat then Some (n - 48)
  else if ((65 <=? n) && (n <=? 70))%nat then Some (n - 55)
  else if ((97 <=? n) && (n <=? 102))%nat then Some (n - 87)
  else None.

(** [urllib.parse.unquote] on the strings whose escapes stand for ASCII
    characters: [%XX] with two hexadecimal digits is the character of that
    code, and a [%] that starts no escape is kept. An escape from [%80] on
    is part of a UTF-8 sequence, which this instance does not decode. *)
Definition escape (a b : ascii) : option ascii :=
  match hex_digit a, hex_digit b with
  | Some x, Some y =>
      if (16 * x + y <? 128)%nat then Some (ascii_of_nat (16 * x + y)) else None
  | _, _ => None
  end.

Fixpoint unquote (s : string) : string :=
  match s with
  | EmptyString => EmptyString
  | String c s1 =>
      match s1 with
      | String a (String b s3) =>
          match (if Ascii.eqb c "%" then escape a b else None) with
          | Some d => String d (unquote s3)
          | None => String c (unquote s1)
          end
      | _ => String c (unquote s1)
      end
  end.

(** a wiki with one redirect, [Old] to the section [My Section] of [New],
    that keeps the page of a title in [<base>/en/<title>.html] *)
Definition wiki : ArchWiki := {|
  resolve_redirect := fun title =>
    if String.eqb title "Old" then "New#My Section" else title;
  get_local_filename := fun title base => base ++ "/en/" ++ title ++ ".html"
|}.

Definition el (u : nat) (t : string) (a : list (string * string))
           (cs : list node) : node :=
  Node (mkElement u (Tag t) a EmptyString EmptyString) cs.

Definition comment (u : nat) (t : string) : node :=
  Node (mkElement u CommentTag [] t EmptyString) [].

(** a page of the wiki, reduced to the elements that the optimizer looks at *)
Definition page : node :=
  el 0 "html" [] [
    el 1 "head" [] [
      el 2 "link" [("rel", "stylesheet"); ("href", "/load.php?a")] [];
      el 3 "script" [] [];
      el 4 "link" [("rel", "stylesheet"); ("href", "/load.php?b")] [] ];
    el 5 "body" [] [
      el 6 "div" [("id", "archnavbar")] [];
      comment 7 "[if lt IE 7]";
      el 8 "div" [("id", "content")] [
        el 9 "div" [("id", "bodyContent")] [
          el 10 "a" [("href", "/index.php/Foo#Bar")] [];
          el 11 "a" [("href", "https://wiki.archlinux.org/index.php/Old")] [];
          el 12 "a" [("href", "/index.php/Old#Explicit%20one")] [];
          el 13 "img" [("src", "/images/Foo.png")] [];
          el 14 "div" [("class", "printfooter")] [] ] ];
      el 15 "div" [("id", "mw-navigation")] [
        el 16 "div" [("id", "p-lang"); ("class", "portal")] [
          el 17 "a" [("href", "http://wiki.archlinux.de/title/Foo")] [] ] ];
      el 18 "div" [("id", "footer")] [
        el 19 "ul" [("id", "footer-info")] [
          el 20 "li" [("id", "footer-info-lastmod")] [];
          el 21 "li" [("id", "footer-info-copyright")] [] ] ] ] ].

(** a page without a print footer and without a list of footer information *)
Definition plain_page : node :=
  el 0 "html" [] [
    el 1 "head" [] [ el 2 "link" [("rel", "stylesheet"); ("href", "/load.php")] [] ];
    el 3 "body" [] [ el 4 "div" [("id", "content")] [ el 5 "p" [] [] ] ] ].

(** a page with a print footer and without a list of footer information *)
Definition unfooted_page : node :=
  el 0 "html" [] [
    el 1 "head" [] [ el 2 "link" [("rel", "stylesheet"); ("href", "/load.php")] [] ];
    el 3 "body" [] [
      el 4 "div" [("id", "content")] [
        el 5 "div" [("class", "printfooter")] [] ] ] ].

(** a page without a stylesheet *)
Definition unstyled_page : node :=
  el 0 "html" [] [
    el 1 "head" [] [ el 2 "title" [] [] ];
    el 3 "body" [] [ el 4 "div" [("id", "content")] [] ] ].

(** a page whose content block is inside the navigation *)
Definition nested_page : node :=
  el 0 "html" [] [
    el 1 "head" [] [ el 2 "link" [("rel", "stylesheet"); ("href", "/load.php")] [] ];
    el 3 "body" [] [
      el 4 "div" [("id", "mw-navigation")] [
        el 5 "div" [("id", "bodyContent")] [];
        el 6 "div" [("id", "p-lang")] [] ] ] ].

(** a page whose language block is also a print footer *)
Definition footer_language_page : node :=
  el 0 "html" [] [
    el 1 "head" [] [ el 2 "link" [("rel", "stylesheet"); ("href", "/load.php")] [] ];
    el 3 "body" [] [
      el 4 "div" [("id", "bodyContent")] [];
      el 5 "div" [("id", "p-lang"); ("class", "printfooter")] [];
      el 6 "ul" [("id", "footer-info")] [] ] ].

(** a page whose first stylesheet link has a navigation identifier *)
Definition navigation_link_page : node :=
  el 0 "html" [] [
    el 1 "head" [] [
      el 2 "link" [("rel", "stylesheet"); ("id", "mw-head-base");
                   ("href", "/load.php?a")] [];
      el 3 "link" [("rel", "stylesheet"); ("href", "/load.php?b")] [] ];
    el 4 "body" [] [] ].

(** a page whose language block is a stylesheet [link] outside the [head],
    and whose content block is the [head] *)
Definition language_link_page : node :=
  el 0 "html" [] [
    el 1 "head" [("id", "bodyContent")] [];
    el 2 "body" [] [
      el 3 "link" [("rel", "stylesheet"); ("id", "p-lang"); ("href", "/load.php")] [] ] ].

(** a page with two language blocks, the second around the content block *)
Definition twin_language_page : node :=
  el 0 "html" [] [
    el 1 "head" [] [ el 2 "link" [("rel", "stylesheet"); ("href", "/load.php")] [] ];
    el 3 "body" [] [
      el 4 "div" [("id", "p-lang")] [];
      el 5 "div" [("id", "p-lang")] [
        el 6 "div" [("id", "bodyContent")] [] ] ] ].

(** a page with a link whose decoded title has a control character, before
    an image of the wiki *)
Definition control_page : node :=
  el 0 "html" [] [
    el 1 "head" [] [ el 2 "link" [("rel", "stylesheet"); ("href", "/load.php")] [] ];
    el 3 "body" [] [
      el 4 "a" [("href", "/index.php/Foo%01#Bar")] [];
      el 5 "img" [("src", "/images/Foo.png")] [] ] ].

(** the file system as the log of the calls made on it *)
Inductive call :=
| Makedirs (name : string)
| WriteFile (name data : string).

Definition makedirs (name : string) (log : list call) : outcome (list call) :=
  mkOutcome (log ++ [Makedirs name])%list None.

Definition write_file (name data : string) (log : list call) : outcome (list call) :=
  mkOutcome (log ++ [WriteFile name data])%list None.

(** a file system without the right to write: [os.makedirs] has found the
    directory, and [open] raises *)
Definition makedirs_exists (name : string) (log : list call) : outcome (list call) :=
  mkOutcome (log ++ [Makedirs name])%list (Some FileExistsError).

Definition write_file_denied (name data : string) (log : list call)
  : outcome (list call) :=
  mkOutcome (log ++ [WriteFile name data])%list (Some OSError).

(** a parser that knows one input, and a serializer that lists the tags *)
Definition parse (data : string) : option node :=
  if String.eqb data "<plain_page>" then Some plain_page else None.

Definition tostring (root : node) : string :=
  concat " " (map (fun e => match tag e with Tag t => t | CommentTag => "!" end)
                  (elements root)).

(** [os.path.relpath] for an output directory just below the base *)
Definition relpath (path start : string) : string := "..".

End Example.

(** * Properties *)

(** ** Strings and the regular expression *)

#[local] Arguments Ascii.eqb : simpl never.
#[local] Arguments String.eqb : simpl never.
#[local] Arguments Nat.eqb : simpl nomatch.
#[local] Arguments elements : simpl never.
#[local] Arguments uids : simpl never.

Lemma truthy_append (a b : string) :
  Str.truthy (a ++ b) = Str.truthy a || Str.truthy b.
Proof. destruct a; reflexivity. Qed.


Lemma split_once_first (sep : ascii) (a b : string) :
  Str.mem sep a = false ->
  Str.split_once sep (a ++ String sep b) = Some (a, b).
Proof.
  induction a as [|c a IH]; simpl; intros H.
  - rewrite Ascii.eqb_refl. reflexivity.
  - apply orb_false_iff in H as [Hc Ha].
    rewrite Ascii.eqb_sym, Hc, (IH Ha). reflexivity.
Qed.

Lemma path_tail_no_slash (s : string) :
  Str.mem "/" s = false -> Str.path_tail s = s.
Proof.
  destruct s as [|c s]; simpl; intros H; [reflexivity|].
  apply orb_false_iff in H as [Hc Hs].
  rewrite Hs, Ascii.eqb_sym, Hc. reflexivity.
Qed.

Lemma path_tail_after_slash (d name : string) :
  Str.mem "/" name = false -> Str.path_tail (d ++ String "/" name) = name.
Proof.
  intros H. induction d as [|c d IH]; simpl.
  - rewrite H. reflexivity.
  - rewrite IH.
    replace (Str.mem "/" (d ++ String "/" name)) with true; [reflexivity|].
    clear. induction d as [|c d IH]; simpl; [reflexivity|].
    rewrite <- IH. symmetry. apply orb_true_r.
Qed.




(** The lazy group takes the whole line when no [#] occurs in it. *)
Lemma lazy_more_title_only (t : string) :
  Str.mem "#" t = false -> Str.mem "010" t = false ->
  Re.lazy_more t = Some (t, None).
Proof.
  intros Hh Hn. induction t as [|c t IH]; [reflexivity|].
  simpl in Hh, Hn.
  apply orb_false_iff in Hh as [Hc Hh], Hn as [Hcn Hn].
  specialize (IH Hh Hn).
  assert (Hnl : Re.is_nl c = false)
    by (unfold Re.is_nl; rewrite Ascii.eqb_sym; exact Hcn).
  unfold Re.lazy_more; fold Re.lazy_more.
  destruct t as [|d t].
  - unfold Re.fragment_end. simpl Re.at_end. rewrite Hnl.
    destruct c as [[] [] [] [] [] [] [] []]; try reflexivity;
      discriminate Hc.
  - assert (Hfe : Re.fragment_end (String c (String d t)) = None).
    { unfold Re.fragment_end. simpl Re.at_end.
      destruct c as [[] [] [] [] [] [] [] []]; try reflexivity.
      discriminate Hc. }
    rewrite Hfe, Hnl, IH. reflexivity.
Qed.

Lemma index_php_prefix (s : string) :
  Re.index_php ("/index.php/" ++ s) = Some s.
Proof. reflexivity. Qed.


Lemma internal_link_title_only (t : string) :
  Str.truthy t = true -> Str.mem "#" t = false -> Str.mem "010" t = false ->
  Re.internal_link ("/index.php/" ++ t) = Some (t, None).
Proof.
  intros Ht Hh Hn. destruct t as [|c t]; [discriminate Ht|].
  simpl in Hh, Hn.
  apply orb_false_iff in Hh as [Hc Hh], Hn as [Hcn Hn].
  unfold Re.internal_link. rewrite index_php_prefix.
  unfold Re.is_nl. rewrite Ascii.eqb_sym, Hcn.
  rewrite (lazy_more_title_only t Hh Hn). reflexivity.
Qed.

(** The second group of a match is never empty. *)
Lemma dot_plus_end_truthy (s f : string) :
  Re.dot_plus_end s = Some f -> Str.truthy f = true.
Proof.
  unfold Re.dot_plus_end. destruct (Re.span_line s) as [a b].
  destruct (Str.truthy a) eqn:Ha; simpl; [|discriminate].
  destruct (Re.at_end b); [|discriminate]. intros [= <-]. exact Ha.
Qed.

Lemma lazy_more_truthy (s t f : string) :
  Re.lazy_more s = Some (t, Some f) -> Str.truthy f = true.
Proof.
  revert t. induction s as [|c s IH]; intros t.
  - simpl. unfold Re.fragment_end. simpl. discriminate.
  - unfold Re.lazy_more; fold Re.lazy_more.
    destruct (Re.fragment_end (String c s)) as [g2|] eqn:Hfe.
    + intros [= <- ->]. unfold Re.fragment_end in Hfe.
      destruct (match String c s with
                | String "#" s' => Re.dot_plus_end s'
                | _ => None
                end) as [f'|] eqn:Hd.
      * injection Hfe as [= ->].
        destruct c as [[] [] [] [] [] [] [] []]; try discriminate Hd.
        exact (dot_plus_end_truthy _ _ Hd).
      * destruct (Re.at_end (String c s)); discriminate Hfe.
    + destruct (Re.is_nl c); [discriminate|].
      destruct (Re.lazy_more s) as [[t' g2]|] eqn:Hl; [|discriminate].
      intros [= <- ->]. exact (IH _ eq_refl).
Qed.

Lemma internal_link_truthy (s t f : string) :
  Re.internal_link s = Some (t, Some f) -> Str.truthy f = true.
Proof.
  unfold Re.internal_link. destruct (Re.index_php s) as [[|c r]|]; try discriminate.
  destruct (Re.is_nl c); [discriminate|].
  destruct (Re.lazy_more r) as [[t' g2]|] eqn:Hl; [|discriminate].
  intros [= <- ->]. exact (lazy_more_truthy _ _ _ Hl).
Qed.

(** ** Attributes *)

Lemma attr_get_set_same (k v : string) (a : list (string * string)) :
  attr_get k (attr_set k v a) = Some v.
Proof.
  induction a as [|[k' v'] a IH]; simpl.
  - rewrite String.eqb_refl. reflexivity.
  - destruct (String.eqb k' k) eqn:E; simpl; rewrite E; [reflexivity|exact IH].
Qed.

Lemma attr_get_set_other (k k' v : string) (a : list (string * string)) :
  k <> k' -> attr_get k' (attr_set k v a) = attr_get k' a.
Proof.
  intros Hk. induction a as [|[k0 v0] a IH]; simpl.
  - destruct (String.eqb_spec k k'); [contradiction|reflexivity].
  - destruct (String.eqb_spec k0 k) as [->|Hne]; simpl.
    + destruct (String.eqb_spec k k'); [contradiction|reflexivity].
    + destruct (String.eqb k0 k'); [reflexivity|exact IH].
Qed.

Lemma attr_set_same (k v : string) (a : list (string * string)) :
  attr_get k a = Some v -> attr_set k v a = a.
Proof.
  induction a as [|[k' v'] a IH]; simpl; [discriminate|].
  destruct (String.eqb k' k).
  - intros [= ->]. reflexivity.
  - intros H. rewrite (IH H). reflexivity.
Qed.

Lemma get_set_same (k v : string) (e : element) : get k (set k v e) = Some v.
Proof. apply attr_get_set_same. Qed.

Lemma get_set_other (k k' v : string) (e : element) :
  k <> k' -> get k' (set k v e) = get k' e.
Proof. apply attr_get_set_other. Qed.

Lemma set_same (k v : string) (e : element) : get k e = Some v -> set k v e = e.
Proof.
  destruct e as [u t a tx tl]. unfold get, set. simpl. intros H.
  rewrite (attr_set_same _ _ _ H). reflexivity.
Qed.

(** ** Trees *)

(** Induction on a tree with the property at hand for every child. *)
Section NodeInduction.

Variable P : node -> Prop.
Hypothesis step : forall e cs, Forall P cs -> P (Node e cs).

Fixpoint node_children_ind (n : node) : P n :=
  match n with
  | Node e cs =>
      step e cs
        ((fix all (l : list node) : Forall P l :=
            match l with
            | [] => Forall_nil P
            | c :: l' => Forall_cons c (node_children_ind c) (all l')
            end) cs)
  end.

End NodeInduction.

Lemma map_flat_map {A B C : Type} (f : B -> C) (g : A -> list B) (l : list A) :
  map f (flat_map g l) = flat_map (fun a => map f (g a)) l.
Proof.
  induction l as [|a l IH]; simpl; [reflexivity|].
  rewrite map_app, IH. reflexivity.
Qed.

Lemma flat_map_map {A B C : Type} (f : A -> B) (g : B -> list C) (l : list A) :
  flat_map g (map f l) = flat_map (fun a => g (f a)) l.
Proof.
  induction l as [|a l IH]; simpl; [reflexivity|]. rewrite IH. reflexivity.
Qed.

Lemma flat_map_ext_Forall {A B : Type} (f g : A -> list B) (l : list A) :
  Forall (fun a => f a = g a) l -> flat_map f l = flat_map g l.
Proof.
  induction 1 as [|a l Ha _ IH]; simpl; [reflexivity|]. rewrite Ha, IH. reflexivity.
Qed.

Lemma map_ext_Forall {A B : Type} (f g : A -> B) (l : list A) :
  Forall (fun a => f a = g a) l -> map f l = map g l.
Proof.
  induction 1 as [|a l Ha _ IH]; simpl; [reflexivity|]. rewrite Ha, IH. reflexivity.
Qed.

Lemma edges_snd (parent : option element) (n : node) :
  map snd (edges parent n) = elements n.
Proof.
  destruct n as [e cs]. reflexivity.
Qed.

Lemma elements_Node (e : element) (cs : list node) :
  elements (Node e cs) = e :: flat_map elements cs.
Proof.
  unfold elements. simpl. f_equal. rewrite map_flat_map.
  apply flat_map_ext_Forall, Forall_forall. intros c _. apply edges_snd.
Qed.

Lemma uids_Node (e : element) (cs : list node) :
  uids (Node e cs) = uid e :: flat_map uids cs.
Proof.
  unfold uids. rewrite elements_Node. simpl. f_equal. apply map_flat_map.
Qed.

Lemma elements_root (n : node) : In (elem n) (elements n).
Proof. destruct n as [e cs]. rewrite elements_Node. left. reflexivity. Qed.

Lemma elements_map_tree (f : element -> element) (n : node) :
  elements (map_tree f n) = map f (elements n).
Proof.
  induction n as [e cs IH] using node_children_ind. cbn.
  rewrite !elements_Node. cbn. f_equal.
  rewrite flat_map_map, map_flat_map. apply flat_map_ext_Forall. exact IH.
Qed.

Lemma edges_map_tree (f : element -> element) (parent : option element) (n : node) :
  edges (option_map f parent) (map_tree f n) =
  map (fun x => (option_map f (fst x), f (snd x))) (edges parent n).
Proof.
  revert parent. induction n as [e cs IH] using node_children_ind.
  intros parent. cbn. f_equal.
  rewrite flat_map_map, map_flat_map. apply flat_map_ext_Forall.
  eapply Forall_impl; [|exact IH]. cbn. intros c Hc. apply (Hc (Some e)).
Qed.

Lemma map_tree_ext (f g : element -> element) (n : node) :
  (forall e, In e (elements n) -> f e = g e) -> map_tree f n = map_tree g n.
Proof.
  induction n as [e cs IH] using node_children_ind. intros H. cbn.
  rewrite (H e) by (rewrite elements_Node; left; reflexivity). f_equal.
  apply map_ext_Forall. rewrite Forall_forall in *.
  intros c Hc. apply (IH c Hc). intros e' He'. apply H.
  rewrite elements_Node. right. apply in_flat_map. exists c. split; assumption.
Qed.

Lemma map_tree_id (f : element -> element) (n : node) :
  (forall e, In e (elements n) -> f e = e) -> map_tree f n = n.
Proof.
  induction n as [e cs IH] using node_children_ind. intros H. cbn.
  rewrite (H e) by (rewrite elements_Node; left; reflexivity). f_equal.
  rewrite <- (map_id cs) at 2.
  apply map_ext_Forall. rewrite Forall_forall in *.
  intros c Hc. apply (IH c Hc). intros e' He'. apply H.
  rewrite elements_Node. right. apply in_flat_map. exists c. split; assumption.
Qed.

Lemma map_tree_map_tree (f g : element -> element) (n : node) :
  map_tree g (map_tree f n) = map_tree (fun e => g (f e)) n.
Proof.
  induction n as [e cs IH] using node_children_ind. cbn. f_equal.
  rewrite map_map. apply map_ext_Forall. exact IH.
Qed.

Lemma uids_map_tree (f : element -> element) (n : node) :
  (forall e, uid (f e) = uid e) -> uids (map_tree f n) = uids n.
Proof.
  intros H. unfold uids. rewrite elements_map_tree, map_map.
  apply map_ext. exact H.
Qed.

(** *** Identities *)

Lemma mem_uid_In (u : nat) (us : list nat) : mem_uid u us = true <-> In u us.
Proof.
  unfold mem_uid. rewrite existsb_exists. split.
  - intros (x & Hx & E). apply Nat.eqb_eq in E. subst. exact Hx.
  - intros H. exists u. split; [exact H|apply Nat.eqb_refl].
Qed.

Lemma mem_uid_false (u : nat) (us : list nat) : mem_uid u us = false <-> ~ In u us.
Proof.
  rewrite <- mem_uid_In. destruct (mem_uid u us); split; congruence.
Qed.

(** In a well-formed tree an element is determined by its identity. *)
Lemma NoDup_map_injective {A B : Type} (f : A -> B) (l : list A) (x y : A) :
  NoDup (map f l) -> In x l -> In y l -> f x = f y -> x = y.
Proof.
  induction l as [|a l IH]; cbn; intros Hnd Hx Hy E; [contradiction|].
  inversion Hnd as [|? ? Hna Hnd']; subst.
  destruct Hx as [->|Hx], Hy as [->|Hy].
  - reflexivity.
  - exfalso. apply Hna. rewrite E. apply in_map. exact Hy.
  - exfalso. apply Hna. rewrite <- E. apply in_map. exact Hx.
  - apply IH; assumption.
Qed.

Lemma wf_uid_injective (n : node) (x y : element) :
  wf n -> In x (elements n) -> In y (elements n) -> uid x = uid y -> x = y.
Proof. apply NoDup_map_injective. Qed.

Lemma NoDup_map_filter {A B : Type} (key : A -> B) (keep : A -> bool) :
  forall l : list A, NoDup (map key l) -> NoDup (map key (filter keep l)).
Proof.
  intros l. set (p := keep). set (f := key).
  induction l as [|a l IH]; cbn; intros Hnd; [constructor|].
  inversion Hnd as [|? ? Hna Hnd']; subst.
  destruct (p a); cbn; [|exact (IH Hnd')].
  constructor; [|exact (IH Hnd')].
  intros Hin. apply Hna. apply in_map_iff in Hin as (x & E & Hx).
  apply filter_In in Hx as [Hx _]. rewrite <- E. apply in_map. exact Hx.
Qed.

Lemma select_NoDup (p : element -> bool) (n : node) : wf n -> NoDup (select p n).
Proof. apply NoDup_map_filter. Qed.

Lemma select_mem (p : element -> bool) (n : node) (e : element) :
  wf n -> In e (elements n) -> mem_uid (uid e) (select p n) = p e.
Proof.
  intros Hwf He. destruct (p e) eqn:Hp.
  - apply mem_uid_In. apply in_map. apply filter_In. split; assumption.
  - apply mem_uid_false. intros Hin.
    apply in_map_iff in Hin as (x & E & Hx). apply filter_In in Hx as [Hx Hpx].
    rewrite (wf_uid_injective n x e Hwf Hx He E) in Hpx. congruence.
Qed.

(** *** A loop of updates is one pass over the tree *)

Lemma fold_update (f : element -> element) (us : list nat) (n : node) :
  (forall e, uid (f e) = uid e) -> NoDup us ->
  fold_left (fun r u => update u f r) us n =
  map_tree (fun e => if mem_uid (uid e) us then f e else e) n.
Proof.
  intros Hf. revert n. induction us as [|u us IH]; intros n Hnd; cbn.
  - symmetry. apply map_tree_id. reflexivity.
  - inversion Hnd as [|? ? Hnu Hnd']; subst.
    rewrite (IH _ Hnd'). unfold update. rewrite map_tree_map_tree.
    apply map_tree_ext. intros e _.
    destruct (Nat.eqb_spec (uid e) u) as [E|Hne].
    + rewrite Hf, E. apply mem_uid_false in Hnu. rewrite Hnu. reflexivity.
    + reflexivity.
Qed.

Lemma for_select_update (p : element -> bool) (f : element -> element) (n : node) :
  wf n -> (forall e, uid (f e) = uid e) ->
  fold_left (fun r u => update u f r) (select p n) n =
  map_tree (fun e => if p e then f e else e) n.
Proof.
  intros Hwf Hf. rewrite (fold_update f _ _ Hf (select_NoDup p n Hwf)).
  apply map_tree_ext. intros e He. rewrite (select_mem p n e Hwf He). reflexivity.
Qed.

(** ** [update_links] *)

Section LinkProperties.

Variable unquote : string -> string.
Variable wiki : ArchWiki.
Variable relbase : string.

(** the element that the body of the first loop leaves when [a.set] takes
    the new value *)
Definition rewritten_anchor (a : element) : element :=
  match get "href" a with
  | Some href =>
      match new_href unquote wiki relbase href with
      | Some href' => set "href" href' a
      | None => a
      end
  | None => a
  end.

(** the element that the body of the second loop leaves when [i.set] takes
    the new value *)
Definition rewritten_image (i : element) : element :=
  match get "src" i with
  | Some src =>
      match new_src relbase src with
      | Some src' => set "src" src' i
      | None => i
      end
  | None => i
  end.

(** the document that the two loops leave when every value is taken *)
Definition rewritten_links (root : node) : node :=
  let root :=
    fold_left (fun r a => update a rewritten_anchor r) (cssselect_tag "a" root) root in
  fold_left (fun r i => update i rewritten_image r) (cssselect_tag "img" root) root.

(** what the two loops of [update_links] do to one element, when they reach
    it and the new value is taken *)
Definition update_element (e : element) : element :=
  let e' := if is_tag "a" e then rewritten_anchor e else e in
  if is_tag "img" e' then rewritten_image e' else e'.

Lemma uid_update_anchor (e : element) :
  uid (rewritten_anchor e) = uid e.
Proof.
  unfold rewritten_anchor. destruct (get "href" e); [|reflexivity].
  destruct (new_href _ _ _ _); reflexivity.
Qed.

Lemma tag_update_anchor (e : element) :
  tag (rewritten_anchor e) = tag e.
Proof.
  unfold rewritten_anchor. destruct (get "href" e); [|reflexivity].
  destruct (new_href _ _ _ _); reflexivity.
Qed.

Lemma uid_update_image (e : element) : uid (rewritten_image e) = uid e.
Proof.
  unfold rewritten_image. destruct (get "src" e); [|reflexivity].
  destruct (new_src _ _); reflexivity.
Qed.

Lemma update_links_map_tree (root : node) :
  wf root ->
  rewritten_links root = map_tree update_element root.
Proof.
  intros Hwf. unfold rewritten_links, cssselect_tag.
  rewrite (for_select_update _ _ _ Hwf uid_update_anchor).
  rewrite for_select_update.
  - rewrite map_tree_map_tree. reflexivity.
  - unfold wf. rewrite uids_map_tree; [exact Hwf|].
    intros e. destruct (is_tag "a" e); [apply uid_update_anchor|reflexivity].
  - apply uid_update_image.
Qed.

Lemma update_element_anchor (a : element) :
  is_tag "a" a = true ->
  update_element a = rewritten_anchor a.
Proof.
  intros Ha. unfold update_element. rewrite Ha.
  unfold is_tag in *. rewrite tag_update_anchor.
  destruct (tag a) as [name|]; [|discriminate].
  apply String.eqb_eq in Ha. subst name. reflexivity.
Qed.

Lemma update_element_image (i : element) :
  is_tag "img" i = true -> update_element i = rewritten_image i.
Proof.
  intros Hi. unfold update_element.
  replace (is_tag "a" i) with false; [rewrite Hi; reflexivity|].
  unfold is_tag in *. destruct (tag i) as [name|]; [|reflexivity].
  apply String.eqb_eq in Hi. subst name. reflexivity.
Qed.

(** the element that [update_links] leaves in the place of [e] *)
Lemma update_links_element (root : node) (e : element) :
  wf root -> In e (elements root) ->
  In (update_element e) (elements (rewritten_links root)).
Proof.
  intros Hwf He. rewrite (update_links_map_tree _ Hwf), elements_map_tree.
  apply in_map. exact He.
Qed.

Lemma local_href_explicit (g1 f : string) :
  Str.truthy f = true ->
  local_href wiki relbase g1 (Some f) =
  get_local_filename wiki (fst (split_title (resolve_redirect wiki g1))) relbase
    ++ "#" ++ f.
Proof.
  intros Hf. unfold local_href, with_fragment.
  destruct (split_title (resolve_redirect wiki g1)) as [t fr]. simpl.
  rewrite Hf, Hf. reflexivity.
Qed.

Lemma local_href_redirect (g1 : string) :
  local_href wiki relbase g1 None =
  with_fragment
    (get_local_filename wiki (fst (split_title (resolve_redirect wiki g1))) relbase)
    (snd (split_title (resolve_redirect wiki g1))).
Proof.
  unfold local_href.
  destruct (split_title (resolve_redirect wiki g1)) as [t fr]. reflexivity.
Qed.


Lemma split_title_fragment (t f : string) :
  Str.mem "#" t = false ->
  split_title (t ++ String "#" f) = (t, Str.replace " " "_" f).
Proof.
  intros H. unfold split_title. rewrite (split_once_first _ _ _ H). reflexivity.
Qed.

End LinkProperties.

(** *** Reading an attribute through a handle *)

Lemma find_has_uid (l : list element) (e : element) :
  NoDup (map uid l) -> In e l -> find (has_uid (uid e)) l = Some e.
Proof.
  induction l as [|x l IH]; cbn; intros Hnd He; [contradiction|].
  inversion Hnd as [|? ? Hnx Hnd']; subst. unfold has_uid at 1.
  destruct (Nat.eqb_spec (uid x) (uid e)) as [E|Hne].
  - destruct He as [->|He]; [reflexivity|].
    exfalso. apply Hnx. rewrite E. apply in_map. exact He.
  - destruct He as [->|He]; [congruence|]. apply IH; assumption.
Qed.

Lemma element_of_wf (root : node) (e : element) :
  wf root -> In e (elements root) -> element_of (uid e) root = Some e.
Proof. apply find_has_uid. Qed.

Lemma element_of_map_tree (f : element -> element) (root : node) (e : element) :
  wf root -> (forall x, uid (f x) = uid x) -> In e (elements root) ->
  element_of (uid e) (map_tree f root) = Some (f e).
Proof.
  intros Hwf Hf He. rewrite <- (Hf e). apply element_of_wf.
  - unfold wf. rewrite (uids_map_tree _ _ Hf). exact Hwf.
  - rewrite elements_map_tree. apply in_map. exact He.
Qed.

Lemma distinct_NoDup (l : list nat) : distinct l = true -> NoDup l.
Proof.
  induction l as [|x l IH]; cbn; intros H; constructor;
    apply andb_true_iff in H as [Hx Hl].
  - apply mem_uid_false. apply negb_true_iff. exact Hx.
  - exact (IH Hl).
Qed.

Section LinkTheorems.

Variable unquote : string -> string.
Variable wiki : ArchWiki.
Variable relbase : string.

Lemma uid_update_element (e : element) :
  uid (update_element unquote wiki relbase e) = uid e.
Proof.
  unfold update_element.
  destruct (is_tag "a" e);
    [destruct (is_tag "img" _)|destruct (is_tag "img" e)];
    rewrite ?uid_update_image, ?uid_update_anchor; reflexivity.
Qed.

End LinkTheorems.

(** ** The loops of [update_links] *)

Lemma element_of_Some (u : nat) (n : node) (e : element) :
  element_of u n = Some e -> In e (elements n) /\ uid e = u.
Proof.
  intros H. apply find_some in H as [He Hu]. split; [exact He|].
  apply Nat.eqb_eq. exact Hu.
Qed.

Lemma element_of_None (u : nat) (n : node) (e : element) :
  element_of u n = None -> In e (elements n) -> uid e <> u.
Proof.
  intros H He E. apply (find_none _ _ H) in He. unfold has_uid in He.
  apply Nat.eqb_neq in He. contradiction.
Qed.

Lemma mem_uid_app (u : nat) (l1 l2 : list nat) :
  mem_uid u (l1 ++ l2) = mem_uid u l1 || mem_uid u l2.
Proof. apply existsb_app. Qed.

Lemma outcome_eta {S : Type} (o : outcome S) (s : S) (r : option exn) :
  after o = s -> raised o = r -> o = mkOutcome s r.
Proof. destruct o. cbn. intros -> ->. reflexivity. Qed.

Lemma select_In (q : element -> bool) (n : node) (u : nat) :
  In u (select q n) <-> exists e, In e (elements n) /\ q e = true /\ uid e = u.
Proof.
  unfold select. rewrite in_map_iff. split.
  - intros (e & E & He). apply filter_In in He as [He Hq]. exists e. auto.
  - intros (e & He & Hq & E). exists e. split; [exact E|].
    apply filter_In. auto.
Qed.

Section Loop.

Variable f : element -> result element.
Variable g : element -> element.

Hypothesis f_g : forall e e', f e = Ok e' -> e' = g e.
Hypothesis uid_g : forall e, uid (g e) = uid e.

(** one turn that does not raise is an update *)
Lemma update_try_Ok (u : nat) (n n' : node) :
  wf n -> update_try u f n = Ok n' -> n' = update u g n.
Proof.
  intros Hwf H. unfold update_try in H.
  destruct (element_of u n) as [e|] eqn:He.
  - destruct (f e) as [e'|] eqn:Hf; [|discriminate]. cbn [bind] in H.
    injection H as <-. apply element_of_Some in He as [He Hu].
    unfold update. apply map_tree_ext. intros x Hx.
    destruct (Nat.eqb_spec (uid x) u) as [E|_]; [|reflexivity].
    rewrite (wf_uid_injective n x e Hwf Hx He) by congruence.
    exact (f_g e e' Hf).
  - injection H as <-. unfold update. symmetry. apply map_tree_id.
    intros x Hx. destruct (Nat.eqb_spec (uid x) u) as [E|_]; [|reflexivity].
    exfalso. exact (element_of_None u n x He Hx E).
Qed.

(** A run of the loop has updated the elements of the turns that it has
    made; it has made them all, or it has raised at an element that it has
    left as it was. *)
Lemma for_each_run_update (us : list nat) (n : node) :
  wf n -> NoDup us -> incl us (uids n) ->
  let run := for_each_run (fun u => update_try u f) us n in
  exists done,
    incl done us /\
    after run = map_tree (fun e => if mem_uid (uid e) done then g e else e) n /\
    (forall e, In e (elements n) -> mem_uid (uid e) done = true -> f e = Ok (g e)) /\
    match raised run with
    | None => done = us
    | Some err =>
        exists e, In e (elements n) /\ In (uid e) us /\
                  mem_uid (uid e) done = false /\ f e = Raise err
    end.
Proof.
  revert n. induction us as [|u us IH]; intros n Hwf Hnd Hin; cbn zeta.
  - exists []. cbn. split; [apply incl_refl|]. split.
    + symmetry. apply map_tree_id. reflexivity.
    + split; [intros e _ H; discriminate|reflexivity].
  - cbn [for_each_run]. inversion Hnd as [|? ? Hnu Hnd']; subst.
    assert (Hu : In u (uids n)) by (apply Hin; left; reflexivity).
    unfold uids in Hu. apply in_map_iff in Hu as (e & Hue & He).
    assert (Hel : element_of u n = Some e)
      by (rewrite <- Hue; exact (element_of_wf n e Hwf He)).
    destruct (update_try u f n) as [n1|err] eqn:Hbody.
    + assert (E1 := update_try_Ok u n n1 Hwf Hbody).
      assert (Hfe : f e = Ok (g e)).
      { unfold update_try in Hbody. rewrite Hel in Hbody.
        destruct (f e) as [e'|] eqn:Hf; [|discriminate].
        rewrite (f_g e e' Hf). reflexivity. }
      set (h := fun x => if Nat.eqb (uid x) u then g x else x) in *.
      assert (Hh : forall x, uid (h x) = uid x)
        by (intros x; unfold h; destruct (Nat.eqb (uid x) u); [apply uid_g|reflexivity]).
      assert (Hu1 : uids n1 = uids n)
        by (rewrite E1; unfold update; apply uids_map_tree; exact Hh).
      assert (Hwf1 : wf n1) by (unfold wf; rewrite Hu1; exact Hwf).
      assert (Hin1 : incl us (uids n1))
        by (rewrite Hu1; intros v Hv; apply Hin; right; exact Hv).
      destruct (IH n1 Hwf1 Hnd' Hin1) as (done & Hsub & Hafter & Hok & Hend).
      exists (u :: done). split; [|split; [|split]].
      * intros v [<-|Hv]; [left; reflexivity|right; exact (Hsub v Hv)].
      * rewrite Hafter, E1. unfold update. rewrite map_tree_map_tree.
        apply map_tree_ext. intros x _. fold (h x). rewrite Hh. cbn [mem_uid existsb].
        unfold h. destruct (Nat.eqb_spec (uid x) u) as [E|Hne]; cbn [orb].
        -- replace (mem_uid (uid x) done) with false; [reflexivity|].
           symmetry. apply (mem_uid_false (uid x) done). intros Hd. apply Hnu.
           rewrite <- E. exact (Hsub _ Hd).
        -- reflexivity.
      * intros x Hx Hm. cbn [mem_uid existsb] in Hm.
        destruct (Nat.eqb_spec (uid x) u) as [E|Hne].
        -- rewrite (wf_uid_injective n x e Hwf Hx He) by congruence. exact Hfe.
        -- cbn [orb] in Hm. apply Hok; [|exact Hm].
           rewrite E1. unfold update. rewrite elements_map_tree.
           replace x with (h x) at 1
             by (unfold h; destruct (Nat.eqb_spec (uid x) u); [contradiction|reflexivity]).
           apply in_map. exact Hx.
      * destruct (raised (for_each_run (fun u0 => update_try u0 f) us n1)) as [err|].
        -- destruct Hend as (x1 & Hx1 & Hus & Hnd1 & Hraise).
           rewrite E1 in Hx1. unfold update in Hx1. rewrite elements_map_tree in Hx1.
           apply in_map_iff in Hx1 as (x & Ex & Hx). fold (h x) in Ex.
           assert (Hne : uid x <> u).
           { intros E. apply Hnu. rewrite <- E, <- (Hh x), Ex. exact Hus. }
           assert (Exx : x1 = x)
             by (rewrite <- Ex; unfold h; destruct (Nat.eqb_spec (uid x) u);
                 [contradiction|reflexivity]).
           subst x1. rewrite Exx in Hraise, Hnd1, Hus.
           exists x. split; [exact Hx|]. split; [right; exact Hus|].
           split; [|exact Hraise]. cbn [mem_uid existsb].
           destruct (Nat.eqb_spec (uid x) u); [contradiction|exact Hnd1].
        -- rewrite Hend. reflexivity.
    + exists []. cbn [after raised]. split; [intros v []|]. split.
      * symmetry. apply map_tree_id. reflexivity.
      * split; [intros x _ H; discriminate|].
        exists e. split; [exact He|]. split; [left; symmetry; exact Hue|].
        split; [reflexivity|].
        unfold update_try in Hbody. rewrite Hel in Hbody.
        destruct (f e); [discriminate|]. cbn in Hbody. congruence.
Qed.

End Loop.

Section LinkRun.

Variable unquote : string -> string.
Variable wiki : ArchWiki.
Variable relbase : string.

(** the value that a loop of [update_links] gives to [set] for an element,
    when it gives one *)
Definition written (e : element) : option string :=
  if is_tag "a" e then
    match get "href" e with
    | Some href => new_href unquote wiki relbase href
    | None => None
    end
  else if is_tag "img" e then
    match get "src" e with
    | Some src => new_src relbase src
    | None => None
    end
  else None.

(** what the loops of [update_links] do with an element that they reach *)
Definition attempt (e : element) : result element :=
  if is_tag "a" e then update_anchor unquote wiki relbase e
  else if is_tag "img" e then update_image relbase e
  else Ok e.

Lemma update_anchor_Ok (a a' : element) :
  update_anchor unquote wiki relbase a = Ok a' ->
  a' = rewritten_anchor unquote wiki relbase a.
Proof.
  unfold update_anchor, rewritten_anchor, try_set.
  destruct (get "href" a); [|congruence].
  destruct (new_href _ _ _ _) as [v|]; [|congruence].
  destruct (xml_text v); [congruence|discriminate].
Qed.

Lemma update_image_Ok (i i' : element) :
  update_image relbase i = Ok i' -> i' = rewritten_image relbase i.
Proof.
  unfold update_image, rewritten_image, try_set.
  destruct (get "src" i); [|congruence].
  destruct (new_src _ _) as [v|]; [|congruence].
  destruct (xml_text v); [congruence|discriminate].
Qed.

Lemma is_tag_exclusive (t t' : string) (e : element) :
  is_tag t e = true -> t <> t' -> is_tag t' e = false.
Proof.
  unfold is_tag. destruct (tag e) as [name|]; [|discriminate].
  intros H Hne. apply String.eqb_eq in H. subst name.
  apply String.eqb_neq. exact Hne.
Qed.

Lemma update_element_other (e : element) :
  is_tag "a" e = false -> is_tag "img" e = false ->
  update_element unquote wiki relbase e = e.
Proof. intros Ha Hi. unfold update_element. rewrite Ha, Hi. reflexivity. Qed.

(** An element that is reached is updated when the new value is XML text,
    and makes the step raise [ValueError] when it is not. *)
Lemma attempt_written (e : element) :
  attempt e =
  match written e with
  | Some v => if xml_text v then Ok (update_element unquote wiki relbase e)
              else Raise ValueError
  | None => Ok e
  end.
Proof.
  unfold attempt, written. destruct (is_tag "a" e) eqn:Ha.
  - rewrite (update_element_anchor unquote wiki relbase e Ha).
    unfold update_anchor, rewritten_anchor, try_set.
    destruct (get "href" e); [|reflexivity].
    destruct (new_href _ _ _ _); reflexivity.
  - destruct (is_tag "img" e) eqn:Hi; [|reflexivity].
    rewrite (update_element_image unquote wiki relbase e Hi).
    unfold update_image, rewritten_image, try_set.
    destruct (get "src" e); [|reflexivity].
    destruct (new_src _ _); reflexivity.
Qed.

Lemma written_None (e : element) :
  written e = None -> update_element unquote wiki relbase e = e.
Proof.
  unfold written. destruct (is_tag "a" e) eqn:Ha.
  - rewrite (update_element_anchor unquote wiki relbase e Ha).
    unfold rewritten_anchor. destruct (get "href" e); [|reflexivity].
    intros ->. reflexivity.
  - destruct (is_tag "img" e) eqn:Hi.
    + rewrite (update_element_image unquote wiki relbase e Hi).
      unfold rewritten_image. destruct (get "src" e); [|reflexivity].
      intros ->. reflexivity.
    + intros _. exact (update_element_other e Ha Hi).
Qed.

Lemma attempt_Ok (e e' : element) :
  attempt e = Ok e' -> e' = update_element unquote wiki relbase e.
Proof.
  rewrite attempt_written. destruct (written e) as [v|] eqn:Hw.
  - destruct (xml_text v); [congruence|discriminate].
  - rewrite (written_None e Hw). congruence.
Qed.

Lemma attempt_Raise (e : element) (err : exn) :
  attempt e = Raise err ->
  err = ValueError /\ exists v, written e = Some v /\ xml_text v = false.
Proof.
  rewrite attempt_written. destruct (written e) as [v|]; [|discriminate].
  destruct (xml_text v) eqn:Hv; [discriminate|].
  intros [= <-]. split; [reflexivity|]. exists v. auto.
Qed.

(** What [update_links] leaves: the elements of the turns that were made are
    updated, the others are as they were; the step has made every turn, or it
    has raised at an element that it has left as it was. *)
Lemma update_links_run (root : node) :
  wf root ->
  let run := update_links unquote wiki relbase root in
  exists done,
    after run =
      map_tree (fun e => if mem_uid (uid e) done
                         then update_element unquote wiki relbase e else e) root /\
    (forall e, In e (elements root) -> mem_uid (uid e) done = true ->
               attempt e = Ok (update_element unquote wiki relbase e)) /\
    match raised run with
    | None =>
        after run = rewritten_links unquote wiki relbase root /\
        forall e, In e (elements root) ->
                  attempt e = Ok (update_element unquote wiki relbase e)
    | Some err =>
        exists e, In e (elements root) /\ mem_uid (uid e) done = false /\
                  attempt e = Raise err
    end.
Proof.
  intros Hwf run. unfold run, update_links, cssselect_tag.
  assert (Hsel : forall q n, incl (select q n) (uids n)).
  { intros q n u Hu. unfold select in Hu. apply in_map_iff in Hu as (e & <- & He).
    apply filter_In in He as [He _]. unfold uids. apply in_map. exact He. }
  destruct (for_each_run_update (update_anchor unquote wiki relbase) (rewritten_anchor unquote wiki relbase)
              (update_anchor_Ok) (uid_update_anchor unquote wiki relbase)
              (select (is_tag "a") root) root Hwf
              (select_NoDup _ root Hwf) (Hsel _ root))
    as (done1 & Hsub1 & Hafter1 & Hok1 & Hend1).
  cbv zeta.
  set (run1 := for_each_run (fun a => update_try a (update_anchor unquote wiki relbase))
                            (select (is_tag "a") root) root) in *.
  assert (Hanchor : forall e, In e (elements root) -> mem_uid (uid e) done1 = true ->
                              is_tag "a" e = true).
  { intros e He Hm. rewrite <- (select_mem (is_tag "a") root e Hwf He).
    apply mem_uid_In. apply Hsub1. apply mem_uid_In. exact Hm. }
  destruct (raised run1) as [err|] eqn:Hr1.
  - (* the first loop has raised *)
    exists done1. rewrite Hr1. split; [|split].
    + rewrite Hafter1. apply map_tree_ext. intros e He.
      destruct (mem_uid (uid e) done1) eqn:Hm; [|reflexivity].
      symmetry. exact (update_element_anchor unquote wiki relbase e (Hanchor e He Hm)).
    + intros e He Hm. unfold attempt. rewrite (Hanchor e He Hm).
      rewrite (update_element_anchor unquote wiki relbase e (Hanchor e He Hm)).
      exact (Hok1 e He Hm).
    + destruct Hend1 as (e & He & Hin & Hm & Hraise).
      exists e. split; [exact He|]. split; [exact Hm|].
      unfold attempt. apply (select_In (is_tag "a") root) in Hin as (e0 & He0 & Ha & E).
      rewrite (wf_uid_injective root e e0 Hwf He He0) by congruence.
      rewrite Ha. rewrite <- (wf_uid_injective root e e0 Hwf He He0) by congruence.
      exact Hraise.
  - (* the first loop has made every turn *)
    subst done1.
    set (h := fun e => if is_tag "a" e then rewritten_anchor unquote wiki relbase e else e).
    assert (Hn1 : after run1 = map_tree h root).
    { rewrite Hafter1. apply map_tree_ext. intros e He.
      rewrite (select_mem (is_tag "a") root e Hwf He). reflexivity. }
    assert (Hh : forall e, uid (h e) = uid e).
    { intros e. unfold h. destruct (is_tag "a" e); [|reflexivity].
      apply uid_update_anchor. }
    assert (Hht : forall e, tag (h e) = tag e).
    { intros e. unfold h. destruct (is_tag "a" e); [|reflexivity].
      apply tag_update_anchor. }
    rewrite Hn1.
    assert (Hwf1 : wf (map_tree h root))
      by (unfold wf; rewrite (uids_map_tree _ _ Hh); exact Hwf).
    destruct (for_each_run_update (update_image relbase) (rewritten_image relbase)
                (update_image_Ok) (uid_update_image relbase)
                (select (is_tag "img") (map_tree h root)) (map_tree h root) Hwf1
                (select_NoDup _ _ Hwf1) (Hsel _ _))
      as (done2 & Hsub2 & Hafter2 & Hok2 & Hend2).
    cbv zeta in Hafter2, Hend2.
    set (run2 := for_each_run (fun i => update_try i (update_image relbase))
                              (select (is_tag "img") (map_tree h root))
                              (map_tree h root)) in *.
    assert (Hin1 : forall e, In e (elements root) -> In (h e) (elements (map_tree h root)))
      by (intros e He; rewrite elements_map_tree; apply in_map; exact He).
    assert (Himage : forall e, In e (elements root) -> mem_uid (uid e) done2 = true ->
                               is_tag "img" e = true /\ h e = e).
    { intros e He Hm.
      assert (Hi : is_tag "img" (h e) = true).
      { rewrite <- (select_mem (is_tag "img") _ (h e) Hwf1 (Hin1 e He)).
        rewrite Hh. apply mem_uid_In. apply Hsub2. apply mem_uid_In. exact Hm. }
      assert (Hi' : is_tag "img" e = true)
        by (unfold is_tag in *; rewrite Hht in Hi; exact Hi).
      split; [exact Hi'|]. unfold h.
      rewrite (is_tag_exclusive "img" "a" e Hi') by discriminate. reflexivity. }
    assert (Hpoint : forall e, In e (elements root) ->
              (if mem_uid (uid (h e)) done2 then rewritten_image relbase (h e) else h e) =
              (if mem_uid (uid e) (select (is_tag "a") root ++ done2) then update_element unquote wiki relbase e else e)).
    { intros e He. rewrite Hh, mem_uid_app, (select_mem (is_tag "a") root e Hwf He).
      destruct (mem_uid (uid e) done2) eqn:Hm.
      - destruct (Himage e He Hm) as [Hi Ee]. rewrite Ee, orb_true_r.
        symmetry. exact (update_element_image unquote wiki relbase e Hi).
      - rewrite orb_false_r. unfold h. destruct (is_tag "a" e) eqn:Ha; [|reflexivity].
        symmetry. exact (update_element_anchor unquote wiki relbase e Ha). }
    exists (select (is_tag "a") root ++ done2)%list. split; [|split].
    + rewrite Hafter2, map_tree_map_tree. apply map_tree_ext. exact Hpoint.
    + intros e He Hm. rewrite mem_uid_app in Hm. unfold attempt.
      destruct (is_tag "a" e) eqn:Ha.
      * rewrite (update_element_anchor unquote wiki relbase e Ha).
        apply Hok1; [exact He|]. rewrite (select_mem _ root e Hwf He). exact Ha.
      * rewrite (select_mem _ root e Hwf He), Ha in Hm. cbn [orb] in Hm.
        destruct (Himage e He Hm) as [Hi Ee]. rewrite Hi.
        rewrite (update_element_image unquote wiki relbase e Hi).
        rewrite <- Ee. apply Hok2; [exact (Hin1 e He)|]. rewrite Hh. exact Hm.
    + destruct (raised run2) as [err|] eqn:Hr2.
      * destruct Hend2 as (e1 & He1 & Hin & Hm & Hraise).
        rewrite elements_map_tree in He1. apply in_map_iff in He1 as (e & <- & He).
        rewrite Hh in Hin, Hm.
        assert (Hi : is_tag "img" e = true).
        { apply (select_In (is_tag "img")) in Hin as (e0 & He0 & Hi0 & E).
          rewrite elements_map_tree in He0. apply in_map_iff in He0 as (e0' & <- & He0').
          rewrite Hh in E.
          rewrite (wf_uid_injective root e e0' Hwf He He0') by congruence.
          unfold is_tag in *. rewrite Hht in Hi0. exact Hi0. }
        assert (Ha : is_tag "a" e = false)
          by (apply (is_tag_exclusive "img"); [exact Hi|discriminate]).
        assert (Ee : h e = e) by (unfold h; rewrite Ha; reflexivity).
        rewrite Ee in Hraise. exists e. split; [exact He|]. split.
        -- rewrite mem_uid_app, (select_mem _ root e Hwf He), Ha, Hm. reflexivity.
        -- unfold attempt. rewrite Ha, Hi. exact Hraise.
      * subst done2.
        assert (Hall : forall e, In e (elements root) ->
                  (if mem_uid (uid (h e)) (select (is_tag "img") (map_tree h root))
                   then rewritten_image relbase (h e) else h e) = update_element unquote wiki relbase e).
        { intros e He. rewrite Hh.
          replace (mem_uid (uid e) (select (is_tag "img") (map_tree h root)))
            with (is_tag "img" (h e))
            by (rewrite <- (Hh e); symmetry;
                exact (select_mem _ _ (h e) Hwf1 (Hin1 e He))).
          reflexivity. }
        split.
        -- rewrite Hafter2, map_tree_map_tree.
           rewrite (update_links_map_tree unquote wiki relbase root Hwf).
           apply map_tree_ext. exact Hall.
        -- intros e He. unfold attempt. destruct (is_tag "a" e) eqn:Ha.
           ++ rewrite (update_element_anchor unquote wiki relbase e Ha).
              apply Hok1; [exact He|]. rewrite (select_mem _ root e Hwf He). exact Ha.
           ++ assert (Ee : h e = e) by (unfold h; rewrite Ha; reflexivity).
              destruct (is_tag "img" e) eqn:Hi.
              ** rewrite (update_element_image unquote wiki relbase e Hi).
                 rewrite <- Ee. apply Hok2; [exact (Hin1 e He)|].
                 rewrite (select_mem _ _ (h e) Hwf1 (Hin1 e He)), Ee. exact Hi.
              ** rewrite (update_element_other e Ha Hi). reflexivity.
Qed.

(** the element of a handle after the step: as it was, or updated *)
Lemma update_links_element_of (root : node) (e : element) :
  wf root -> In e (elements root) ->
  let run := update_links unquote wiki relbase root in
  uids (after run) = uids root /\
  (element_of (uid e) (after run) = Some e \/
   element_of (uid e) (after run) = Some (update_element unquote wiki relbase e) /\
   attempt e = Ok (update_element unquote wiki relbase e)) /\
  (raised run = None ->
   element_of (uid e) (after run) = Some (update_element unquote wiki relbase e)).
Proof.
  intros Hwf He run.
  destruct (update_links_run root Hwf) as (done & Hafter & Hok & Hend).
  fold run in Hafter, Hend.
  set (h := fun x => if mem_uid (uid x) done
                     then update_element unquote wiki relbase x else x) in *.
  assert (Hh : forall x, uid (h x) = uid x).
  { intros x. unfold h. destruct (mem_uid (uid x) done); [|reflexivity].
    apply uid_update_element. }
  assert (Hel : element_of (uid e) (after run) = Some (h e))
    by (rewrite Hafter; exact (element_of_map_tree h root e Hwf Hh He)).
  split; [rewrite Hafter; exact (uids_map_tree h root Hh)|]. split.
  - rewrite Hel. unfold h. destruct (mem_uid (uid e) done) eqn:Hm.
    + right. split; [reflexivity|exact (Hok e He Hm)].
    + left. reflexivity.
  - intros Hr. rewrite Hr in Hend. destruct Hend as [Hrw _].
    rewrite Hrw, (update_links_map_tree unquote wiki relbase root Hwf).
    apply element_of_map_tree; [exact Hwf| |exact He]. apply uid_update_element.
Qed.

(** A step that completes has made every update. *)
Lemma update_links_completed (root : node) :
  wf root -> raised (update_links unquote wiki relbase root) = None ->
  after (update_links unquote wiki relbase root) =
  map_tree (update_element unquote wiki relbase) root.
Proof.
  intros Hwf Hr. destruct (update_links_run root Hwf) as (done & _ & _ & Hend).
  rewrite Hr in Hend. destruct Hend as [Hrw _].
  rewrite Hrw. exact (update_links_map_tree unquote wiki relbase root Hwf).
Qed.

Lemma completed_update_links (t out : node) (k : node -> result node) :
  wf t ->
  (r <- completed (update_links unquote wiki relbase t) ;; k r) = Ok out ->
  raised (update_links unquote wiki relbase t) = None /\
  k (rewritten_links unquote wiki relbase t) = Ok out.
Proof.
  intros Hwf H. unfold completed in H.
  destruct (raised (update_links unquote wiki relbase t)) eqn:Hr; [discriminate|].
  split; [reflexivity|]. cbn [bind] in H.
  rewrite (update_links_completed t Hwf Hr) in H.
  rewrite (update_links_map_tree unquote wiki relbase t Hwf). exact H.
Qed.

(** The step raises nothing but the [ValueError] of [set]. *)
Lemma update_links_ValueError (root : node) (err : exn) :
  wf root -> raised (update_links unquote wiki relbase root) = Some err ->
  err = ValueError.
Proof.
  intros Hwf Hr. destruct (update_links_run root Hwf) as (done & _ & _ & Hend).
  rewrite Hr in Hend. destruct Hend as (e & _ & _ & Hraise).
  exact (proj1 (attempt_Raise e err Hraise)).
Qed.

(** The step completes when every value that it has to set is XML text. *)
Lemma update_links_completes (root : node) :
  wf root ->
  (forall e v, In e (elements root) -> written e = Some v -> xml_text v = true) ->
  raised (update_links unquote wiki relbase root) = None.
Proof.
  intros Hwf Hall. destruct (update_links_run root Hwf) as (done & _ & _ & Hend).
  destruct (raised (update_links unquote wiki relbase root)) as [err|]; [|reflexivity].
  destruct Hend as (e & He & _ & Hraise).
  destruct (attempt_Raise e err Hraise) as (_ & v & Hw & Hv).
  rewrite (Hall e v He Hw) in Hv. discriminate.
Qed.

(** The step raises when it reaches an element with a value that is not XML
    text, and it leaves that element as it was. *)
Lemma update_links_refused (root : node) (e : element) (v : string) :
  wf root -> In e (elements root) -> written e = Some v -> xml_text v = false ->
  raised (update_links unquote wiki relbase root) = Some ValueError /\
  element_of (uid e) (after (update_links unquote wiki relbase root)) = Some e.
Proof.
  intros Hwf He Hw Hv.
  assert (Ha : attempt e = Raise ValueError)
    by (rewrite attempt_written, Hw, Hv; reflexivity).
  destruct (update_links_run root Hwf) as (done & Hafter & Hok & Hend). split.
  - destruct (raised (update_links unquote wiki relbase root)) as [err|] eqn:Hr.
    + rewrite (update_links_ValueError root err Hwf Hr). reflexivity.
    + destruct Hend as [_ Hall]. rewrite (Hall e He) in Ha. discriminate.
  - rewrite Hafter.
    set (h := fun x => if mem_uid (uid x) done
                       then update_element unquote wiki relbase x else x).
    assert (Hh : forall x, uid (h x) = uid x).
    { intros x. unfold h. destruct (mem_uid (uid x) done); [|reflexivity].
      apply uid_update_element. }
    rewrite (element_of_map_tree h root e Hwf Hh He). f_equal. unfold h.
    destruct (mem_uid (uid e) done) eqn:Hm; [|reflexivity].
    rewrite (Hok e He Hm) in Ha. discriminate.
Qed.

(** nothing to set: the step completes and leaves the document as it is *)
Lemma update_links_quiet (root : node) :
  wf root -> (forall e, In e (elements root) -> written e = None) ->
  update_links unquote wiki relbase root = mkOutcome root None.
Proof.
  intros Hwf Hall.
  assert (Hr : raised (update_links unquote wiki relbase root) = None).
  { apply update_links_completes; [exact Hwf|].
    intros e v He Hw. rewrite (Hall e He) in Hw. discriminate. }
  apply outcome_eta; [|exact Hr].
  rewrite (update_links_completed root Hwf Hr). apply map_tree_id.
  intros e He. exact (written_None e (Hall e He)).
Qed.

End LinkRun.

(** *** Reading an attribute after the step *)

Section LinkAttributes.

Variable unquote : string -> string.
Variable wiki : ArchWiki.
Variable relbase : string.

(** an attribute of an element after a step that has completed *)
Lemma attribute_update_links (k : string) (root : node) (e : element) :
  wf root -> In e (elements root) ->
  raised (update_links unquote wiki relbase root) = None ->
  attribute k (uid e) (after (update_links unquote wiki relbase root)) =
  get k (update_element unquote wiki relbase e).
Proof.
  intros Hwf He Hr. unfold attribute.
  rewrite (proj2 (proj2 (update_links_element_of unquote wiki relbase root e Hwf He)) Hr).
  reflexivity.
Qed.

(** the value that the step has to set on an anchor whose link is internal *)
Lemma written_anchor (a : element) (href g1 : string) (g2 : option string) :
  is_tag "a" a = true -> get "href" a = Some href ->
  Re.internal_link (strip_origin (unquote href)) = Some (g1, g2) ->
  written unquote wiki relbase a = Some (local_href wiki relbase g1 g2).
Proof.
  intros Htag Hhref Hm. unfold written, new_href. rewrite Htag, Hhref, Hm.
  reflexivity.
Qed.

(** the value that the step has to set on an image of the wiki *)
Lemma written_image (i : element) (src : string) :
  is_tag "img" i = true -> get "src" i = Some src ->
  Str.startswith "/images/" src = true ->
  written unquote wiki relbase i =
  Some (Str.path_join relbase ("File__" ++ Str.path_tail src)).
Proof.
  intros Htag Hsrc Hpre. unfold written, new_src.
  rewrite (is_tag_exclusive "img" "a" i Htag) by discriminate.
  rewrite Htag, Hsrc, Hpre.
  replace (Str.truthy src) with true by (destruct src; [discriminate Hpre|reflexivity]).
  reflexivity.
Qed.

(** the new value of the attribute that the step has set *)
Lemma update_element_written (e : element) (v : string) :
  written unquote wiki relbase e = Some v ->
  (is_tag "a" e = true /\
   get "href" (update_element unquote wiki relbase e) = Some v) \/
  (is_tag "img" e = true /\
   get "src" (update_element unquote wiki relbase e) = Some v).
Proof.
  unfold written. destruct (is_tag "a" e) eqn:Ha.
  - intros Hw. left. split; [reflexivity|].
    rewrite (update_element_anchor unquote wiki relbase e Ha). unfold rewritten_anchor.
    destruct (get "href" e); [|discriminate]. rewrite Hw. apply get_set_same.
  - destruct (is_tag "img" e) eqn:Hi; [|discriminate].
    intros Hw. right. split; [reflexivity|].
    rewrite (update_element_image unquote wiki relbase e Hi). unfold rewritten_image.
    destruct (get "src" e); [|discriminate]. rewrite Hw. apply get_set_same.
Qed.

(** the new value of the [href] of an anchor whose link is internal *)
Lemma update_links_href (root : node) (a : element) (href g1 : string)
      (g2 : option string) :
  wf root -> In a (elements root) -> is_tag "a" a = true ->
  get "href" a = Some href ->
  Re.internal_link (strip_origin (unquote href)) = Some (g1, g2) ->
  raised (update_links unquote wiki relbase root) = None ->
  attribute "href" (uid a) (after (update_links unquote wiki relbase root)) =
  Some (local_href wiki relbase g1 g2).
Proof.
  intros Hwf Ha Htag Hhref Hm Hr.
  rewrite (attribute_update_links _ _ _ Hwf Ha Hr).
  destruct (update_element_written a _ (written_anchor a href g1 g2 Htag Hhref Hm))
    as [[_ H]|[Hi _]]; [exact H|].
  rewrite (is_tag_exclusive "img" "a" a Hi) in Htag by discriminate. discriminate.
Qed.

(** the new value of the [src] of an image of the wiki *)
Lemma update_links_src (root : node) (i : element) (src : string) :
  wf root -> In i (elements root) -> is_tag "img" i = true ->
  get "src" i = Some src -> Str.startswith "/images/" src = true ->
  raised (update_links unquote wiki relbase root) = None ->
  attribute "src" (uid i) (after (update_links unquote wiki relbase root)) =
  Some (Str.path_join relbase ("File__" ++ Str.path_tail src)).
Proof.
  intros Hwf Hi Htag Hsrc Hpre Hr.
  rewrite (attribute_update_links _ _ _ Hwf Hi Hr).
  destruct (update_element_written i _ (written_image i src Htag Hsrc Hpre))
    as [[Ha _]|[_ H]]; [|exact H].
  rewrite (is_tag_exclusive "a" "img" i Ha) in Htag by discriminate. discriminate.
Qed.

(** an attribute of an element whose new value the step has refused *)
Lemma attribute_refused (k : string) (root : node) (e : element) (v : string) :
  wf root -> In e (elements root) ->
  written unquote wiki relbase e = Some v -> xml_text v = false ->
  raised (update_links unquote wiki relbase root) = Some ValueError /\
  attribute k (uid e) (after (update_links unquote wiki relbase root)) = get k e.
Proof.
  intros Hwf He Hw Hv.
  destruct (update_links_refused unquote wiki relbase root e v Hwf He Hw Hv) as [Hr Hel].
  split; [exact Hr|]. unfold attribute. rewrite Hel. reflexivity.
Qed.


End LinkAttributes.


Lemma page_wf : wf Example.page.
Proof. apply distinct_NoDup. reflexivity. Qed.



Lemma control_page_wf : wf Example.control_page.
Proof. apply distinct_NoDup. reflexivity. Qed.


(** C2 (amended). When the resolved title of an internal link has a fragment
    after [#] and [update_links] completes: without an explicit fragment in
    the link, the new [href] is the local file name of the title part,
    followed by [#] and the fragment of the resolved title with every space
    replaced by an underscore (and by nothing when that fragment is empty);
    with an explicit fragment, it is the local file name of the title part
    followed by [#] and the explicit fragment. *)
Theorem update_links_redirect_fragment
  (unquote : string -> string) (wiki : ArchWiki) (relbase : string)
  (root : node) (a : element) (href Old New Section : string)
  (explicit : option string) :
  wf root -> In a (elements root) -> is_tag "a" a = true ->
  get "href" a = Some href ->
  Re.internal_link (strip_origin (unquote href)) = Some (Old, explicit) ->
  Str.mem "#" New = false ->
  resolve_redirect wiki Old = New ++ "#" ++ Section ->
  raised (update_links unquote wiki relbase root) = None ->
  attribute "href" (uid a) (after (update_links unquote wiki relbase root)) =
  Some (match explicit with
        | None => with_fragment (get_local_filename wiki New relbase)
                                (Str.replace " " "_" Section)
        | Some fragment => get_local_filename wiki New relbase ++ "#" ++ fragment
        end).
Proof.
  intros Hwf Ha Htag Hhref Hm HNew Hres Hr.
  rewrite (update_links_href unquote wiki relbase root a href _ _
             Hwf Ha Htag Hhref Hm Hr). f_equal.
  assert (Hs : split_title (resolve_redirect wiki Old)
               = (New, Str.replace " " "_" Section))
    by (rewrite Hres; apply (split_title_fragment New Section HNew)).
  destruct explicit as [fragment|].
  - rewrite (local_href_explicit _ _ _ _ (internal_link_truthy _ _ _ Hm)), Hs.
    reflexivity.
  - rewrite local_href_redirect, Hs. reflexivity.
Qed.

Lemma update_links_redirect_fragment_witness :
  attribute "href" 11
    (after (update_links Example.unquote Example.wiki ".." Example.page))
  = Some "../en/New.html#My_Section".
Proof.
  refine (update_links_redirect_fragment Example.unquote Example.wiki ".."
            Example.page
            (mkElement 11 (Tag "a")
               [("href", "https://wiki.archlinux.org/index.php/Old")] "" "")
            "https://wiki.archlinux.org/index.php/Old" "Old" "New" "My Section"
            None page_wf _ _ _ _ _ _ _); try reflexivity.
  vm_compute. tauto.
Defined.

(** The claim C2 as it is worded, for a link without an explicit fragment and
    a step that completes: the fragment of the resolved title is appended as
    the resolver gives it. *)
Definition redirect_fragment_as_supplied : Prop :=
  forall (unquote : string -> string) (wiki : ArchWiki) (relbase : string)
         (root : node) (a : element) (href Old New Section : string),
    wf root -> In a (elements root) -> is_tag "a" a = true ->
    get "href" a = Some href ->
    Re.internal_link (strip_origin (unquote href)) = Some (Old, None) ->
    Str.mem "#" New = false ->
    resolve_redirect wiki Old = New ++ "#" ++ Section ->
    raised (update_links unquote wiki relbase root) = None ->
    attribute "href" (uid a) (after (update_links unquote wiki relbase root)) =
    Some (get_local_filename wiki New relbase ++ "#" ++ Section).

(** The link to [Old], which redirects to [New#My Section], becomes
    [../en/New.html#My_Section] and not [../en/New.html#My Section]. *)
Lemma redirect_fragment_as_supplied_fails : ~ redirect_fragment_as_supplied.
Proof.
  intros claim.
  assert (H := claim Example.unquote Example.wiki ".." Example.page
            (mkElement 11 (Tag "a")
               [("href", "https://wiki.archlinux.org/index.php/Old")] "" "")
            "https://wiki.archlinux.org/index.php/Old" "Old" "New" "My Section"
            page_wf).
  vm_compute in H.
  assert (E := H (or_intror (or_intror (or_intror (or_intror (or_intror
                 (or_intror (or_intror (or_intror (or_intror (or_intror
                 (or_intror (or_introl eq_refl))))))))))))
                 eq_refl eq_refl eq_refl eq_refl eq_refl eq_refl).
  discriminate E.
Qed.

(** C7. The fragment of a resolved title has its spaces replaced by
    underscores before it is used, and none is left; a fragment of the link
    itself is used as it is. *)
Theorem fragment_normalization_asymmetric
  (unquote : string -> string) (wiki : ArchWiki) (relbase : string)
  (href g1 title fragment : string) (g2 : option string) :
  Re.internal_link (strip_origin (unquote href)) = Some (g1, g2) ->
  Str.mem "#" title = false ->
  resolve_redirect wiki g1 = title ++ "#" ++ fragment ->
  Str.mem " " (Str.replace " " "_" fragment) = false /\
  match g2 with
  | None =>
      new_href unquote wiki relbase href =
      Some (with_fragment (get_local_filename wiki title relbase)
                          (Str.replace " " "_" fragment))
  | Some explicit =>
      new_href unquote wiki relbase href =
      Some (get_local_filename wiki title relbase ++ "#" ++ explicit)
  end.
Proof.
  intros Hm Ht Hres. split.
  - clear. induction fragment as [|c f IH]; [reflexivity|]. cbn.
    rewrite IH. destruct (Ascii.eqb_spec c " ") as [->|Hc]; [reflexivity|].
    destruct (Ascii.eqb_spec " " c); [congruence|reflexivity].
  - assert (Hs : split_title (resolve_redirect wiki g1)
                 = (title, Str.replace " " "_" fragment))
      by (rewrite Hres; apply (split_title_fragment title fragment Ht)).
    unfold new_href. rewrite Hm. destruct g2 as [explicit|].
    + rewrite (local_href_explicit _ _ _ _ (internal_link_truthy _ _ _ Hm)), Hs.
      reflexivity.
    + rewrite local_href_redirect, Hs. reflexivity.
Qed.

Lemma fragment_normalization_asymmetric_witness :
  new_href Example.unquote Example.wiki ".." "/index.php/Old" =
    Some "../en/New.html#My_Section" /\
  new_href Example.unquote Example.wiki ".." "/index.php/Old#Explicit%20one" =
    Some "../en/New.html#Explicit one".
Proof.
  split.
  - exact (proj2 (fragment_normalization_asymmetric Example.unquote Example.wiki
                    ".." "/index.php/Old" "Old" "New" "My Section" None
                    eq_refl eq_refl eq_refl)).
  - exact (proj2 (fragment_normalization_asymmetric Example.unquote Example.wiki
                    ".." "/index.php/Old#Explicit%20one" "Old" "New" "My Section"
                    (Some "Explicit one") eq_refl eq_refl eq_refl)).
Defined.

(** C6 (amended). An image of the document whose [src] begins with
    [/images/]: when [update_links] completes, the image has as its [src] the
    relative base joined with [File__] and the last segment of the old value;
    for [/images/<name>] and a relative base as [os.path.relpath] gives it
    (not empty, no slash at its end) that is the relative base, a slash,
    [File__] and the name. When that new value is not XML text, the step
    raises [ValueError] and the image keeps its [src]. *)
Theorem update_links_image
  (unquote : string -> string) (wiki : ArchWiki) (relbase : string)
  (root : node) (i : element) (src : string) :
  wf root -> In i (elements root) -> is_tag "img" i = true ->
  get "src" i = Some src -> Str.startswith "/images/" src = true ->
  let run := update_links unquote wiki relbase root in
  let new := Str.path_join relbase ("File__" ++ Str.path_tail src) in
  (raised run = None -> attribute "src" (uid i) (after run) = Some new)
  /\
  (forall name,
      src = "/images/" ++ name -> Str.mem "/" name = false ->
      Str.truthy relbase = true -> Str.ends_with_slash relbase = false ->
      raised run = None ->
      attribute "src" (uid i) (after run) = Some (relbase ++ "/File__" ++ name))
  /\
  (xml_text new = false ->
   raised run = Some ValueError /\ attribute "src" (uid i) (after run) = Some src).
Proof.
  intros Hwf Hi Htag Hsrc Hpre run new. subst run.
  assert (Hnew : raised (update_links unquote wiki relbase root) = None ->
                 attribute "src" (uid i) (after (update_links unquote wiki relbase root))
                 = Some new)
    by exact (update_links_src unquote wiki relbase root i src Hwf Hi Htag Hsrc Hpre).
  split; [exact Hnew|]. split.
  - intros name -> Hname Hrel Hslash Hr. rewrite (Hnew Hr). f_equal. unfold new.
    change (("/images/" ++ name)%string) with (("/images" ++ String "/" name)%string).
    rewrite (path_tail_after_slash "/images" name Hname).
    unfold Str.path_join. rewrite Hrel, Hslash. reflexivity.
  - intros Hv. rewrite <- Hsrc.
    apply (attribute_refused unquote wiki relbase "src" root i new Hwf Hi); [|exact Hv].
    exact (written_image unquote wiki relbase i src Htag Hsrc Hpre).
Qed.

Lemma update_links_image_witness :
  attribute "src" 13
    (after (update_links Example.unquote Example.wiki ".." Example.page))
  = Some "../File__Foo.png".
Proof.
  refine (proj1 (proj2 (update_links_image Example.unquote Example.wiki ".."
                   Example.page
                   (mkElement 13 (Tag "img") [("src", "/images/Foo.png")] "" "")
                   "/images/Foo.png" page_wf _ _ _ _))
                "Foo.png" _ _ _ _ _); try reflexivity.
  vm_compute. tauto.
Defined.

(** The claim C6 as it is worded: every image of the wiki has the new [src]
    after the step. *)
Definition images_rewritten : Prop :=
  forall (unquote : string -> string) (wiki : ArchWiki) (relbase : string)
         (root : node) (i : element) (src : string),
    wf root -> In i (elements root) -> is_tag "img" i = true ->
    get "src" i = Some src -> Str.startswith "/images/" src = true ->
    attribute "src" (uid i) (after (update_links unquote wiki relbase root)) =
    Some (Str.path_join relbase ("File__" ++ Str.path_tail src)).

(** The loop over the anchors comes first: the [ValueError] of the link
    [/index.php/Foo%01#Bar] ends the step before any image is reached, and
    the image keeps the [src] [/images/Foo.png]. *)
Lemma images_rewritten_fails : ~ images_rewritten.
Proof.
  intros claim.
  assert (H := claim Example.unquote Example.wiki ".." Example.control_page
            (mkElement 5 (Tag "img") [("src", "/images/Foo.png")] "" "")
            "/images/Foo.png" control_page_wf).
  vm_compute in H.
  assert (E := H (or_intror (or_intror (or_intror (or_intror (or_intror
                 (or_introl eq_refl))))))
                 eq_refl eq_refl eq_refl).
  discriminate E.
Qed.

(** ** Deleting elements *)

(** [l1] is [l2] with some of its entries left out. *)
Inductive subseq {A : Type} : list A -> list A -> Prop :=
| subseq_nil : subseq [] []
| subseq_skip (a : A) (l1 l2 : list A) : subseq l1 l2 -> subseq l1 (a :: l2)
| subseq_keep (a : A) (l1 l2 : list A) : subseq l1 l2 -> subseq (a :: l1) (a :: l2).

Lemma subseq_refl {A : Type} (l : list A) : subseq l l.
Proof. induction l; constructor; assumption. Qed.

Lemma subseq_empty {A : Type} (l : list A) : subseq [] l.
Proof. induction l; constructor; assumption. Qed.

Lemma subseq_app {A : Type} (l1 l2 m1 m2 : list A) :
  subseq l1 l2 -> subseq m1 m2 -> subseq (l1 ++ m1) (l2 ++ m2).
Proof.
  induction 1 as [|a l1 l2 _ IH|a l1 l2 _ IH]; cbn; intros Hm.
  - exact Hm.
  - apply subseq_skip. exact (IH Hm).
  - apply subseq_keep. exact (IH Hm).
Qed.

Lemma subseq_skip_app {A : Type} (a l m : list A) :
  subseq l m -> subseq l (a ++ m)%list.
Proof.
  intros H. induction a as [|x a IH]; cbn; [exact H|]. apply subseq_skip. exact IH.
Qed.

Lemma subseq_In {A : Type} (l1 l2 : list A) (x : A) :
  subseq l1 l2 -> In x l1 -> In x l2.
Proof.
  induction 1 as [|a l1 l2 _ IH|a l1 l2 _ IH]; cbn; intros Hx.
  - exact Hx.
  - right. exact (IH Hx).
  - destruct Hx as [->|Hx]; [left; reflexivity|right; exact (IH Hx)].
Qed.

Lemma subseq_map {A B : Type} (f : A -> B) (l1 l2 : list A) :
  subseq l1 l2 -> subseq (map f l1) (map f l2).
Proof. induction 1; cbn; constructor; assumption. Qed.

Lemma subseq_NoDup {A : Type} (l1 l2 : list A) :
  subseq l1 l2 -> NoDup l2 -> NoDup l1.
Proof.
  induction 1 as [|a l1 l2 _ IH|a l1 l2 Hs IH]; intros Hnd.
  - exact Hnd.
  - inversion Hnd; subst. auto.
  - inversion Hnd as [|? ? Hna Hnd']; subst. constructor; [|auto].
    intros Hin. apply Hna. exact (subseq_In _ _ _ Hs Hin).
Qed.

(** the children that [prune p] keeps, pruned *)
Definition prune_children (p : element -> bool) (cs : list node) : list node :=
  flat_map (fun c => if p (elem c) then [] else [prune p c]) cs.

Lemma prune_Node (p : element -> bool) (e : element) (cs : list node) :
  prune p (Node e cs) = Node e (prune_children p cs).
Proof. reflexivity. Qed.

Lemma elem_prune (p : element -> bool) (n : node) : elem (prune p n) = elem n.
Proof. destruct n; reflexivity. Qed.

Lemma edges_prune_subseq (p : element -> bool) (parent : option element) (n : node) :
  subseq (edges parent (prune p n)) (edges parent n).
Proof.
  revert parent. induction n as [e cs IH] using node_children_ind.
  intros parent. cbn. apply subseq_keep.
  induction IH as [|c cs Hc _ IHcs]; cbn; [constructor|].
  destruct (p (elem c)); cbn.
  - apply subseq_skip_app. exact IHcs.
  - apply subseq_app; [apply Hc|exact IHcs].
Qed.

Lemma elements_prune_subseq (p : element -> bool) (n : node) :
  subseq (elements (prune p n)) (elements n).
Proof. apply subseq_map, edges_prune_subseq. Qed.

Lemma prune_wf (p : element -> bool) (n : node) : wf n -> wf (prune p n).
Proof.
  apply subseq_NoDup. unfold uids. apply subseq_map, elements_prune_subseq.
Qed.

(** What is left below the root does not satisfy [p]. *)
Lemma edges_prune_kept (p : element -> bool) (parent : option element) (n : node)
      (x : option element * element) :
  In x (edges parent (prune p n)) -> x = (parent, elem n) \/ p (snd x) = false.
Proof.
  revert parent x. induction n as [e cs IH] using node_children_ind.
  intros parent x. cbn. intros [<-|Hx]; [left; reflexivity|right].
  apply in_flat_map in Hx as (c' & Hc' & Hx).
  apply in_flat_map in Hc' as (c & Hc & Hc').
  destruct (p (elem c)) eqn:Hp; [contradiction|].
  destruct Hc' as [<-|[]]. rewrite Forall_forall in IH.
  destruct (IH c Hc _ _ Hx) as [->|H]; [exact Hp|exact H].
Qed.

(** Nothing is deleted when nothing below the root satisfies [p]. *)
Lemma prune_nothing (p : element -> bool) (n : node) :
  (forall e, In e (flat_map elements (children n)) -> p e = false) ->
  prune p n = n.
Proof.
  induction n as [e cs IH] using node_children_ind. cbn [children].
  intros H. rewrite prune_Node. f_equal. unfold prune_children.
  induction IH as [|c cs Hc _ IHcs]; cbn; [reflexivity|].
  rewrite (H (elem c)) by (cbn; apply in_or_app; left; apply elements_root).
  cbn. f_equal.
  - apply Hc. intros x Hx. apply H. cbn. apply in_or_app. left.
    destruct c as [ec ccs]. rewrite elements_Node. right. exact Hx.
  - apply IHcs. intros x Hx. apply H. cbn. apply in_or_app. right. exact Hx.
Qed.

Lemma prune_prune (p q : element -> bool) (n : node) :
  prune q (prune p n) = prune (fun e => p e || q e) n.
Proof.
  induction n as [e cs IH] using node_children_ind.
  rewrite !prune_Node. f_equal. unfold prune_children.
  induction IH as [|c cs Hc _ IHcs]; cbn; [reflexivity|].
  destruct (p (elem c)) eqn:Hp; cbn; [exact IHcs|].
  rewrite elem_prune. destruct (q (elem c)); cbn; [exact IHcs|].
  rewrite Hc, IHcs. reflexivity.
Qed.

Lemma prune_ext (p q : element -> bool) (n : node) :
  (forall e, p e = q e) -> prune p n = prune q n.
Proof.
  intros H. induction n as [e cs IH] using node_children_ind.
  rewrite !prune_Node. f_equal. unfold prune_children.
  induction IH as [|c cs Hc _ IHcs]; cbn; [reflexivity|].
  rewrite <- H, Hc, IHcs. reflexivity.
Qed.

(** A loop of removals deletes the elements of the list. *)
Lemma for_each_remove (us : list nat) (n : node) :
  ~ In (uid (elem n)) us ->
  for_each remove_from_parent us n =
  Ok (prune (fun e => mem_uid (uid e) us) n).
Proof.
  revert n. induction us as [|u us IH]; intros n Hroot; cbn.
  - rewrite prune_nothing; reflexivity.
  - unfold remove_from_parent at 1. unfold has_uid at 1.
    destruct (Nat.eqb_spec (uid (elem n)) u) as [E|Hne].
    + exfalso. apply Hroot. left. symmetry. exact E.
    + cbn. rewrite IH.
      * rewrite prune_prune. reflexivity.
      * rewrite elem_prune. intros Hin. apply Hroot. right. exact Hin.
Qed.

Lemma elements_children (n : node) (e : element) :
  In e (flat_map elements (children n)) -> In e (elements n).
Proof. destruct n as [x cs]. rewrite elements_Node. intros H. right. exact H. Qed.

(** The part of the document up to the first deleted element is not touched. *)
Lemma edges_prune_prefix (p : element -> bool) (n : node) :
  forall (parent : option element) (pre post : list (option element * element)),
    edges parent n = (pre ++ post)%list ->
    Forall (fun x => p (snd x) = false) pre ->
    exists post', edges parent (prune p n) = (pre ++ post')%list.
Proof.
  induction n as [e cs IH] using node_children_ind.
  intros parent pre post Heq Hpre.
  destruct pre as [|x pre]; [eexists; reflexivity|].
  cbn in Heq. injection Heq as <- Heq. inversion Hpre as [|? ? _ Hpre']; subst.
  clear Hpre. rewrite prune_Node. cbn.
  enough (exists post', flat_map (edges (Some e)) (prune_children p cs) = (pre ++ post')%list)
    as [post' ->] by (eexists; reflexivity).
  revert pre post Heq Hpre'.
  induction IH as [|c cs Hc _ IHcs]; intros pre post Heq Hpre.
  - cbn in Heq. destruct pre; [|discriminate]. eexists; reflexivity.
  - destruct pre as [|x pre]; [eexists; reflexivity|].
    cbn in Heq. assert (Hx : x = (Some e, elem c)).
    { destruct c as [ec ccs]. cbn in Heq. injection Heq as Hx _.
      symmetry. exact Hx. }
    inversion Hpre as [|? ? Hpx _]; subst x. cbn in Hpx.
    unfold prune_children. cbn. rewrite Hpx. cbn.
    fold (prune_children p cs).

    change ((Some e, elem c) :: (pre ++ post)%list)
      with ((((Some e, elem c) :: pre) ++ post)%list) in Heq.
    apply app_eq_app in Heq as [mid [[Hl Hr]|[Hl Hr]]].
    + (* the prefix ends in this child *)
      destruct (Hc (Some e) _ _ Hl Hpre) as [post' Hpost]. rewrite Hpost.
      exists (post' ++ flat_map (edges (Some e)) (prune_children p cs))%list.
      rewrite <- app_assoc. reflexivity.
    + (* the prefix ends in a later child *)
      rewrite Hl in Hpre. apply Forall_app in Hpre as [Hall Hrest].
      rewrite (prune_nothing p c).
      * destruct (IHcs mid post Hr Hrest) as [post' Hpost]. rewrite Hpost.
        exists post'. rewrite app_assoc, <- Hl. reflexivity.
      * intros y Hy. apply elements_children in Hy.
        rewrite <- (edges_snd (Some e)) in Hy.
        apply in_map_iff in Hy as (z & <- & Hz).
        rewrite Forall_forall in Hall. exact (Hall z Hz).
Qed.

(** ** [replace_css_links] *)

Lemma filter_first {A : Type} (f : A -> bool) (l : list A) (a : A) (r : list A) :
  filter f l = a :: r ->
  exists pre post,
    l = (pre ++ a :: post)%list /\ filter f pre = [] /\ f a = true /\
    filter f post = r.
Proof.
  induction l as [|x l IH]; cbn; [discriminate|].
  destruct (f x) eqn:Hx.
  - intros [= -> <-]. exists [], l. repeat split. exact Hx.
  - intros H. destruct (IH H) as (pre & post & -> & Hpre & Ha & Hpost).
    exists (x :: pre), post. cbn. rewrite Hx. repeat split; assumption.
Qed.

Lemma filter_none {A : Type} (f : A -> bool) (l : list A) :
  (forall x, In x l -> f x = false) -> filter f l = [].
Proof.
  induction l as [|x l IH]; cbn; intros H; [reflexivity|].
  rewrite (H x (or_introl eq_refl)). apply IH. intros y Hy. apply H. right. exact Hy.
Qed.

Lemma filter_map_swap {A B : Type} (f : B -> bool) (g : A -> B) (l : list A) :
  filter f (map g l) = map g (filter (fun a => f (g a)) l).
Proof.
  induction l as [|x l IH]; cbn; [reflexivity|].
  destruct (f (g x)); cbn; rewrite IH; reflexivity.
Qed.

Lemma NoDup_map_app_disjoint {A B : Type} (f : A -> B) (l1 l2 : list A) (y z : A) :
  NoDup (map f (l1 ++ l2)) -> In y l1 -> In z l2 -> f y <> f z.
Proof.
  induction l1 as [|x l1 IH]; cbn; intros Hnd Hy Hz; [contradiction|].
  inversion Hnd as [|? ? Hnx Hnd']; subst. destruct Hy as [->|Hy].
  - intros E. apply Hnx. rewrite E. apply in_map. apply in_or_app. right. exact Hz.
  - exact (IH Hnd' Hy Hz).
Qed.

Lemma uids_edges (parent : option element) (n : node) :
  uids n = map (fun x => uid (snd x)) (edges parent n).
Proof. unfold uids. rewrite <- (edges_snd parent), map_map. reflexivity. Qed.

Lemma edges_root (parent : option element) (n : node) :
  exists l, edges parent n = (parent, elem n) :: l.
Proof. destruct n as [e cs]. eexists. reflexivity. Qed.

Section CssProperties.

Variable relbase : string.

Lemma is_stylesheet_link_set_href (u : nat) (v : string)
      (x : option element * element) :
  let g := fun e => if Nat.eqb (uid e) u then set "href" v e else e in
  is_stylesheet_link (option_map g (fst x), g (snd x)) = is_stylesheet_link x.
Proof.
  intros g.
  assert (Htag : forall t e, is_tag t (g e) = is_tag t e)
    by (intros t e; unfold g; destruct (Nat.eqb (uid e) u); reflexivity).
  assert (Hrel : forall e, attr_is "rel" "stylesheet" (g e)
                           = attr_is "rel" "stylesheet" e).
  { intros e. unfold g. destruct (Nat.eqb (uid e) u); [|reflexivity].
    unfold attr_is. rewrite get_set_other; [reflexivity|discriminate]. }
  destruct x as [[q|] e]; unfold is_stylesheet_link; cbn;
    rewrite ?Htag, ?Hrel; reflexivity.
Qed.

(** the document that [replace_css_links] leaves *)
Lemma replace_css_links_result (root : node) (first : nat) (rest : list nat) :
  wf root ->
  xpath_stylesheet_links root = first :: rest ->
  let root' := prune (fun e => mem_uid (uid e) rest)
                     (update first (set "href" (css_href relbase)) root) in
  replace_css_links relbase root = Ok root' /\
  wf root' /\ ~ In (uid (elem root)) rest /\
  exists x0,
    filter is_stylesheet_link (edges None root') = [x0] /\
    uid (snd x0) = first /\ get "href" (snd x0) = Some (css_href relbase).
Proof.
  intros Hwf Hx root'. unfold replace_css_links. rewrite Hx.
  set (g := fun e => if Nat.eqb (uid e) first then set "href" (css_href relbase) e else e).
  assert (Hg : forall e, uid (g e) = uid e)
    by (intros e; unfold g; destruct (Nat.eqb (uid e) first); reflexivity).
  change (update first (set "href" (css_href relbase)) root) with (map_tree g root)
    in root' |- *.
  set (root1 := map_tree g root) in root' |- *.
  set (G := fun x : option element * element => (option_map g (fst x), g (snd x))).
  assert (HE1 : edges None root1 = map G (edges None root))
    by (apply (edges_map_tree g None root)).
  assert (Hwf1 : wf root1)
    by (unfold wf, root1; rewrite (uids_map_tree _ _ Hg); exact Hwf).
  assert (Hx1 : map (fun x => uid (snd x)) (filter is_stylesheet_link (edges None root1))
                = first :: rest).
  { rewrite HE1, filter_map_swap, map_map. rewrite <- Hx.
    unfold xpath_stylesheet_links.
    rewrite (filter_ext _ is_stylesheet_link
               (fun x => is_stylesheet_link_set_href first (css_href relbase) x)).
    apply map_ext. intros x. apply Hg. }
  destruct (filter is_stylesheet_link (edges None root1)) as [|x0 r] eqn:Hf;
    [discriminate|].
  cbn in Hx1. injection Hx1 as Hfirst Hrest.
  destruct (filter_first _ _ _ _ Hf) as (pre & post & Hsplit & Hpre & Hsel & Hpost).
  set (p := fun e => mem_uid (uid e) rest) in root' |- *.
  assert (Hnd : NoDup (map (fun x => uid (snd x)) (pre ++ x0 :: post)))
    by (rewrite <- Hsplit, <- (uids_edges None); exact Hwf1).
  assert (Hkeep : Forall (fun x => p (snd x) = false) (pre ++ [x0])).
  { apply Forall_forall. intros y Hy. apply mem_uid_false. intros Hin.
    rewrite <- Hrest, <- Hpost in Hin.
    apply in_map_iff in Hin as (z & E & Hz). apply filter_In in Hz as [Hz _].
    replace (pre ++ x0 :: post)%list with ((pre ++ [x0]) ++ post)%list in Hnd
      by (rewrite <- app_assoc; reflexivity).
    exact (NoDup_map_app_disjoint _ _ _ y z Hnd Hy Hz (eq_sym E)). }
  assert (Hroot : ~ In (uid (elem root1)) rest).
  { destruct (edges_root None root1) as [l Hl].
    assert (Hin : In (None, elem root1) (pre ++ [x0])).
    { rewrite Hsplit in Hl. destruct pre as [|y pre]; cbn in *.
      - injection Hl as -> _. left. reflexivity.
      - injection Hl as -> _. left. reflexivity. }
    rewrite Forall_forall in Hkeep. apply mem_uid_false. exact (Hkeep _ Hin). }
  rewrite (for_each_remove rest root1 Hroot). fold p. fold root'.
  assert (Hwf' : wf root') by (apply prune_wf; exact Hwf1).
  destruct (edges_prune_prefix p root1 None (pre ++ [x0]) post) as [post' Hpost'];
    [rewrite Hsplit, <- app_assoc; reflexivity|exact Hkeep|].
  fold root' in Hpost'.
  assert (Hkept : forall y, In y (edges None root') ->
                            uid (snd y) = first \/ is_stylesheet_link y = false).
  { intros y Hy.
    destruct (edges_prune_kept p None root1 y Hy) as [->|Hp]; [right; reflexivity|].
    destruct (is_stylesheet_link y) eqn:Hy'; [left|right; reflexivity].
    assert (Hy1 : In y (filter is_stylesheet_link (edges None root1))).
    { apply filter_In. split; [|exact Hy'].
      exact (subseq_In _ _ _ (edges_prune_subseq p None root1) Hy). }
    rewrite Hf in Hy1. destruct Hy1 as [<-|Hy1]; [exact Hfirst|].
    exfalso. apply mem_uid_false in Hp. apply Hp. rewrite <- Hrest.
    apply (in_map (fun x => uid (snd x))). exact Hy1. }
  assert (Hnd' : NoDup (map (fun x => uid (snd x)) ((pre ++ [x0]) ++ post')))
    by (rewrite <- Hpost', <- (uids_edges None); exact Hwf').
  assert (Hnone : filter is_stylesheet_link post' = []).
  { apply filter_none. intros y Hy.
    destruct (Hkept y) as [E|H]; [rewrite Hpost'; apply in_or_app; right; exact Hy| |exact H].
    exfalso.
    apply (NoDup_map_app_disjoint _ _ _ x0 y Hnd');
      [apply in_or_app; right; left; reflexivity|exact Hy|].
    cbn. rewrite E. exact Hfirst. }
  split; [reflexivity|]. split; [exact Hwf'|].
  split.
  { replace (uid (elem root)) with (uid (elem root1)); [exact Hroot|].
    unfold root1. destruct root. cbn. apply Hg. }
  exists x0. split; [|split; [exact Hfirst|]].
  - rewrite Hpost', !filter_app, Hpre, Hnone. cbn. rewrite Hsel. reflexivity.
  - assert (Hx0 : In x0 (edges None root1))
      by (rewrite Hsplit; apply in_or_app; right; left; reflexivity).
    rewrite HE1 in Hx0. apply in_map_iff in Hx0 as (x & <- & _).
    cbn in Hfirst |- *. rewrite Hg in Hfirst. unfold g.
    apply Nat.eqb_eq in Hfirst. rewrite Hfirst. apply get_set_same.
Qed.

(** On a document with at least one stylesheet link below a [head],
    [replace_css_links] succeeds and leaves exactly one such link: the first
    one in document order, with the local stylesheet joined to the relative
    base as its [href]; every other one is gone from the document. *)
Lemma replace_css_links_first (root : node) (first : nat) (rest : list nat) :
  wf root ->
  xpath_stylesheet_links root = first :: rest ->
  exists root',
    replace_css_links relbase root = Ok root' /\
    xpath_stylesheet_links root' = [first] /\
    attribute "href" first root' =
      Some (Str.path_join relbase "ArchWikiOffline.css") /\
    (forall u, In u rest -> ~ In u (uids root')) /\
    wf root'.
Proof.
  intros Hwf Hx.
  destruct (replace_css_links_result root first rest Hwf Hx)
    as (Hrun & Hwf' & Hroot & x0 & Hone & Hfirst & Hhref).
  eexists. split; [exact Hrun|]. split; [|split; [|split; [|exact Hwf']]].
  - unfold xpath_stylesheet_links. rewrite Hone. cbn. rewrite Hfirst. reflexivity.
  - assert (Hin : In x0 [x0]) by (left; reflexivity).
    rewrite <- Hone in Hin. apply filter_In in Hin as [Hin _].
    apply (in_map snd) in Hin. rewrite edges_snd in Hin.
    pose proof (element_of_wf _ (snd x0) Hwf' Hin) as He.
    rewrite Hfirst in He. unfold attribute. rewrite He. exact Hhref.
  - intros u Hu Hin. rewrite (uids_edges None) in Hin.
    apply in_map_iff in Hin as (y & E & Hy).
    destruct (edges_prune_kept _ None _ y Hy) as [->|Hp].
    + apply Hroot. cbn [snd] in E. rewrite <- E in Hu. unfold update in Hu.
      destruct root as [e cs]. cbn in Hu.
      destruct (Nat.eqb (uid e) first); exact Hu.
    + apply mem_uid_false in Hp. apply Hp. rewrite E. exact Hu.
Qed.

(** Without a stylesheet link, [links[0]] raises. *)
Lemma replace_css_links_empty (root : node) :
  xpath_stylesheet_links root = [] ->
  replace_css_links relbase root = Raise IndexError.
Proof. intros H. unfold replace_css_links. rewrite H. reflexivity. Qed.

End CssProperties.

(** ** [fix_footer] *)

Lemma attr_get_pop_other (k k' : string) (a : list (string * string)) :
  k <> k' -> attr_get k' (attr_pop k a) = attr_get k' a.
Proof.
  intros Hk. induction a as [|[k0 v0] a IH]; cbn; [reflexivity|].
  destruct (String.eqb_spec k0 k) as [->|Hne].
  - destruct (String.eqb_spec k k'); [contradiction|reflexivity].
  - cbn. destruct (String.eqb k0 k'); [reflexivity|exact IH].
Qed.

Lemma select_map_tree (q : element -> bool) (f : element -> element) (n : node) :
  (forall e, uid (f e) = uid e) ->
  (forall e, In e (elements n) -> q (f e) = q e) ->
  select q (map_tree f n) = select q n.
Proof.
  intros Hu Hq. unfold select.
  rewrite elements_map_tree, filter_map_swap, map_map.
  rewrite (filter_ext_in _ q (elements n) Hq).
  apply map_ext. exact Hu.
Qed.

(** what the first two statements of the loop of [fix_footer] do to an element *)
Definition to_list_item (u : nat) (e : element) : element :=
  if Nat.eqb (uid e) u then set_tag "li" (pop "class" e) else e.

Lemma update_to_list_item (u : nat) (n : node) :
  update u (set_tag "li") (update u (pop "class") n) = map_tree (to_list_item u) n.
Proof.
  unfold update. rewrite map_tree_map_tree. apply map_tree_ext. intros e _.
  unfold to_list_item. destruct (Nat.eqb_spec (uid e) u) as [E|Hne].
  - cbn. apply Nat.eqb_eq in E. rewrite E. reflexivity.
  - apply Nat.eqb_neq in Hne. rewrite Hne. reflexivity.
Qed.

Lemma uid_to_list_item (u : nat) (e : element) : uid (to_list_item u e) = uid e.
Proof. unfold to_list_item. destruct (Nat.eqb (uid e) u); reflexivity. Qed.

Lemma has_id_to_list_item (i : string) (u : nat) (e : element) :
  (Nat.eqb (uid e) u = true -> is_element e = true) ->
  has_id i (to_list_item u e) = has_id i e.
Proof.
  intros H. unfold to_list_item. destruct (Nat.eqb (uid e) u); [|reflexivity].
  unfold has_id. rewrite (H eq_refl). cbn. unfold attr_is, get. cbn.
  rewrite attr_get_pop_other; [reflexivity|discriminate].
Qed.

Lemma is_tag_is_element (t : string) (e : element) :
  is_tag t e = true -> is_element e = true.
Proof. unfold is_tag, is_element. destruct (tag e); [reflexivity|discriminate]. Qed.

(** C5 (amended). [fix_footer] leaves a document without a print footer as it
    is, and raises the [IndexError] of [cssselect("#footer-info")[0]] on a
    document with a print footer and without a list of footer information. *)
Theorem fix_footer_failure (root : node) :
  wf root ->
  (select is_printfooter root = [] -> fix_footer root = Ok root) /\
  (select is_printfooter root <> [] -> cssselect_id "footer-info" root = [] ->
   fix_footer root = Raise IndexError).
Proof.
  intros Hwf. unfold fix_footer. split.
  - intros ->. reflexivity.
  - destruct (select is_printfooter root) as [|u us] eqn:Hsel; [congruence|].
    intros _ Hnone. cbn. unfold fix_footer_body.
    rewrite update_to_list_item.
    unfold cssselect_id in *. rewrite select_map_tree, Hnone; [reflexivity| |].
    + apply uid_to_list_item.
    + intros e He. apply has_id_to_list_item. intros E. apply Nat.eqb_eq in E.
      assert (Hu : In u (select is_printfooter root)) by (rewrite Hsel; left; reflexivity).
      apply select_In in Hu as (e' & He' & Hq & E').
      rewrite (wf_uid_injective root e e' Hwf He He') by congruence.
      unfold is_printfooter in Hq. apply andb_true_iff in Hq as [Hq _].
      exact (is_tag_is_element _ _ Hq).
Qed.

Lemma plain_page_wf : wf Example.plain_page.
Proof. apply distinct_NoDup. reflexivity. Qed.

Lemma unfooted_page_wf : wf Example.unfooted_page.
Proof. apply distinct_NoDup. reflexivity. Qed.

Lemma fix_footer_failure_witness :
  fix_footer Example.plain_page = Ok Example.plain_page /\
  fix_footer Example.unfooted_page = Raise IndexError.
Proof.
  split.
  - apply (proj1 (fix_footer_failure Example.plain_page plain_page_wf)).
    reflexivity.
  - apply (proj2 (fix_footer_failure Example.unfooted_page unfooted_page_wf)).
    + vm_compute. discriminate.
    + reflexivity.
Defined.

(** The claim C5 as it is worded: the step fails whenever the document has no
    list of footer information. *)
Definition footer_info_required : Prop :=
  forall root : node,
    wf root -> cssselect_id "footer-info" root = [] ->
    fix_footer root = Raise IndexError.

(** A page with neither a print footer nor a list of footer information is left
    as it is. *)
Lemma footer_info_required_fails : ~ footer_info_required.
Proof.
  intros claim.
  assert (H := claim Example.plain_page plain_page_wf eq_refl).
  vm_compute in H. discriminate H.
Qed.

(** ** Subtrees *)

Lemma first_some_Some {A B : Type} (f : A -> option B) (l : list A) (b : B) :
  first_some f l = Some b -> exists a, In a l /\ f a = Some b.
Proof.
  induction l as [|a l IH]; cbn; [discriminate|].
  destruct (f a) as [b'|] eqn:Ha.
  - intros [= <-]. exists a. auto.
  - intros H. destruct (IH H) as (a' & Hin & Ha'). exists a'. auto.
Qed.

Lemma first_some_None {A B : Type} (f : A -> option B) (l : list A) :
  first_some f l = None -> forall a, In a l -> f a = None.
Proof.
  induction l as [|a l IH]; cbn; [contradiction|].
  destruct (f a) as [b'|] eqn:Ha; [discriminate|].
  intros H a' [<-|Hin]; [exact Ha|exact (IH H a' Hin)].
Qed.

Lemma find_node_Node (u : nat) (e : element) (cs : list node) :
  find_node u (Node e cs) =
  if has_uid u e then Some (Node e cs) else first_some (find_node u) cs.
Proof. reflexivity. Qed.

Lemma find_node_uid (u : nat) (n x : node) :
  find_node u n = Some x -> uid (elem x) = u.
Proof.
  revert x. induction n as [e cs IH] using node_children_ind. intros x.
  rewrite find_node_Node. destruct (has_uid u e) eqn:Hu.
  - intros [= <-]. apply Nat.eqb_eq. exact Hu.
  - intros H. apply first_some_Some in H as (c & Hc & H).
    rewrite Forall_forall in IH. exact (IH c Hc x H).
Qed.

Lemma elements_child (e : element) (cs : list node) (c : node) (x : element) :
  In c cs -> In x (elements c) -> In x (elements (Node e cs)).
Proof.
  intros Hc Hx. rewrite elements_Node. right. apply in_flat_map. exists c. auto.
Qed.

Lemma uids_child (e : element) (cs : list node) (c : node) (v : nat) :
  In c cs -> In v (uids c) -> In v (uids (Node e cs)).
Proof.
  intros Hc Hv. rewrite uids_Node. right. apply in_flat_map. exists c. auto.
Qed.

Lemma find_node_elements (u : nat) (n x : node) :
  find_node u n = Some x -> forall e, In e (elements x) -> In e (elements n).
Proof.
  revert x. induction n as [e cs IH] using node_children_ind. intros x.
  rewrite find_node_Node. destruct (has_uid u e).
  - intros [= <-] y Hy. exact Hy.
  - intros H y Hy. apply first_some_Some in H as (c & Hc & H).
    rewrite Forall_forall in IH. exact (elements_child e cs c y Hc (IH c Hc x H y Hy)).
Qed.

Lemma find_node_uids (u : nat) (n x : node) :
  find_node u n = Some x -> forall v, In v (uids x) -> In v (uids n).
Proof.
  intros H v Hv. unfold uids in *. apply in_map_iff in Hv as (e & <- & He).
  apply in_map. exact (find_node_elements u n x H e He).
Qed.

Lemma find_node_found (u : nat) (n : node) :
  In u (uids n) -> exists x, find_node u n = Some x.
Proof.
  induction n as [e cs IH] using node_children_ind.
  rewrite uids_Node, find_node_Node. unfold has_uid.
  destruct (Nat.eqb_spec (uid e) u) as [E|Hne]; [eexists; reflexivity|].
  intros [E|Hin]; [contradiction|].
  apply in_flat_map in Hin as (c & Hc & Hu).
  induction IH as [|a cs Ha _ IHcs]; [contradiction|]. cbn.
  destruct (find_node u a) as [x|] eqn:Hfa; [eexists; reflexivity|].
  destruct Hc as [->|Hc]; [|exact (IHcs Hc)].
  destruct (Ha Hu) as [x Hx]. congruence.
Qed.

(** *** Children of a well-formed tree *)

Lemma NoDup_app_disjoint {A : Type} (l1 l2 : list A) (v : A) :
  NoDup (l1 ++ l2) -> In v l1 -> In v l2 -> False.
Proof.
  intros Hnd H1 H2. rewrite <- (map_id (l1 ++ l2)%list) in Hnd.
  exact (NoDup_map_app_disjoint (fun a => a) l1 l2 v v Hnd H1 H2 eq_refl).
Qed.

Lemma wf_Node (e : element) (cs : list node) :
  wf (Node e cs) -> ~ In (uid e) (flat_map uids cs) /\ NoDup (flat_map uids cs).
Proof.
  unfold wf. rewrite uids_Node. intros H. inversion H; subst. auto.
Qed.

Lemma NoDup_flat_map_child {A B : Type} (f : A -> list B) (l : list A) (a : A) :
  NoDup (flat_map f l) -> In a l -> NoDup (f a).
Proof.
  induction l as [|x l IH]; cbn; intros Hnd Ha; [contradiction|].
  destruct Ha as [->|Ha].
  - exact (NoDup_app_remove_r _ _ Hnd).
  - exact (IH (NoDup_app_remove_l _ _ Hnd) Ha).
Qed.

Lemma NoDup_flat_map_share {A B : Type} (f : A -> list B) (l : list A)
      (a a' : A) (v : B) :
  NoDup (flat_map f l) -> In a l -> In a' l -> In v (f a) -> In v (f a') -> a = a'.
Proof.
  induction l as [|x l IH]; cbn; intros Hnd Ha Ha' Hv Hv'; [contradiction|].
  destruct Ha as [->|Ha], Ha' as [->|Ha'].
  - reflexivity.
  - exfalso. apply (NoDup_app_disjoint _ _ v Hnd Hv).
    apply in_flat_map. exists a'. auto.
  - exfalso. apply (NoDup_app_disjoint _ _ v Hnd Hv').
    apply in_flat_map. exists a. auto.
  - exact (IH (NoDup_app_remove_l _ _ Hnd) Ha Ha' Hv Hv').
Qed.

Lemma wf_child (e : element) (cs : list node) (c : node) :
  wf (Node e cs) -> In c cs -> wf c.
Proof.
  intros Hwf Hc. apply wf_Node in Hwf as [_ Hnd].
  exact (NoDup_flat_map_child uids cs c Hnd Hc).
Qed.

Lemma wf_children_share (e : element) (cs : list node) (c c' : node) (v : nat) :
  wf (Node e cs) -> In c cs -> In c' cs -> In v (uids c) -> In v (uids c') -> c = c'.
Proof.
  intros Hwf. apply wf_Node in Hwf as [_ Hnd].
  exact (NoDup_flat_map_share uids cs c c' v Hnd).
Qed.

Lemma wf_root_not_below (e : element) (cs : list node) (c : node) :
  wf (Node e cs) -> In c cs -> ~ In (uid e) (uids c).
Proof.
  intros Hwf Hc Hin. apply wf_Node in Hwf as [Hroot _]. apply Hroot.
  apply in_flat_map. exists c. auto.
Qed.

(** *** Paths *)

Lemma clear_path_Node (q : element -> bool) (u : nat) (e : element) (cs : list node) :
  clear_path q u (Node e cs) =
  negb (q e) && (has_uid u e || existsb (clear_path q u) cs).
Proof. reflexivity. Qed.

Lemma clear_path_In (q : element -> bool) (u : nat) (n : node) :
  clear_path q u n = true -> In u (uids n).
Proof.
  induction n as [e cs IH] using node_children_ind.
  rewrite clear_path_Node, uids_Node. intros H.
  apply andb_true_iff in H as [_ H]. apply orb_true_iff in H as [H|H].
  - left. apply Nat.eqb_eq. exact H.
  - right. apply existsb_exists in H as (c & Hc & H).
    rewrite Forall_forall in IH. apply in_flat_map. exists c. auto.
Qed.

Lemma clear_path_root (q : element -> bool) (u : nat) (n : node) :
  clear_path q u n = true -> q (elem n) = false.
Proof.
  destruct n as [e cs]. rewrite clear_path_Node. intros H.
  apply andb_true_iff in H as [H _]. apply negb_true_iff. exact H.
Qed.

Lemma clear_path_weaken (q q' : element -> bool) (u : nat) (n : node) :
  (forall e, In e (elements n) -> q' e = true -> q e = true) ->
  clear_path q u n = true -> clear_path q' u n = true.
Proof.
  induction n as [e cs IH] using node_children_ind.
  rewrite !clear_path_Node. intros Hq H.
  apply andb_true_iff in H as [He H]. apply andb_true_iff. split.
  - apply negb_true_iff in He. apply negb_true_iff.
    destruct (q' e) eqn:Hq'; [|reflexivity].
    rewrite (Hq e) in He; [discriminate|apply (elements_root (Node e cs))|exact Hq'].
  - apply orb_true_iff in H as [H|H]; apply orb_true_iff; [left; exact H|right].
    apply existsb_exists in H as (c & Hc & H). apply existsb_exists.
    exists c. split; [exact Hc|]. rewrite Forall_forall in IH.
    apply (IH c Hc); [|exact H].
    intros x Hx. apply Hq. exact (elements_child e cs c x Hc Hx).
Qed.

(** An element below [P] is not reached without passing [P]. *)
Lemma clear_path_not_below (q : element -> bool) (P B : nat) (n x : node) :
  wf n -> find_node P n = Some x -> In B (uids x) ->
  clear_path (fun e => q e || has_uid P e) B n = false.
Proof.
  revert x. induction n as [e cs IH] using node_children_ind.
  intros x Hwf Hfind HB. rewrite clear_path_Node.
  rewrite find_node_Node in Hfind. destruct (has_uid P e) eqn:HP.
  - rewrite orb_true_r. reflexivity.
  - apply first_some_Some in Hfind as (c & Hc & Hfind).
    assert (HBc : In B (uids c)) by exact (find_node_uids P c x Hfind B HB).
    rewrite orb_false_r. destruct (q e); [reflexivity|]. cbn.
    apply orb_false_iff. split.
    + apply Nat.eqb_neq. intros E.
      apply (wf_root_not_below e cs c Hwf Hc). rewrite E. exact HBc.
    + apply not_true_iff_false. intros H.
      apply existsb_exists in H as (c' & Hc' & H).
      assert (c = c')
        by exact (wf_children_share e cs c c' B Hwf Hc Hc' HBc
                    (clear_path_In _ _ _ H)).
      subst c'. rewrite Forall_forall in IH.
      rewrite (IH c Hc x (wf_child e cs c Hwf Hc) Hfind HB) in H. discriminate.
Qed.

Lemma In_prune_children (p : element -> bool) (cs : list node) (c : node) :
  In c cs -> p (elem c) = false -> In (prune p c) (prune_children p cs).
Proof.
  intros Hc Hp. unfold prune_children. apply in_flat_map. exists c.
  split; [exact Hc|]. rewrite Hp. left. reflexivity.
Qed.

Lemma clear_path_prune (p : element -> bool) (P B : nat) (n : node) :
  clear_path (fun e => p e || has_uid P e) B n = true ->
  clear_path p B (prune (has_uid P) n) = true.
Proof.
  induction n as [e cs IH] using node_children_ind.
  rewrite prune_Node, !clear_path_Node. intros H.
  apply andb_true_iff in H as [He H]. apply andb_true_iff. split.
  - apply negb_true_iff in He. apply orb_false_iff in He as [He _].
    apply negb_true_iff. exact He.
  - apply orb_true_iff in H as [H|H]; apply orb_true_iff; [left; exact H|right].
    apply existsb_exists in H as (c & Hc & H). apply existsb_exists.
    exists (prune (has_uid P) c). rewrite Forall_forall in IH.
    split; [|exact (IH c Hc H)].
    apply In_prune_children; [exact Hc|].
    apply clear_path_root in H. apply orb_false_iff in H as [_ H]. exact H.
Qed.

Lemma elem_add_child (pu i : nat) (x n : node) : elem (add_child pu i x n) = elem n.
Proof. destruct n; reflexivity. Qed.

Lemma add_child_Node (pu i : nat) (x : node) (e : element) (cs : list node) :
  add_child pu i x (Node e cs) =
  Node e (if has_uid pu e
          then (firstn i (map (add_child pu i x) cs)
                  ++ x :: skipn i (map (add_child pu i x) cs))%list
          else map (add_child pu i x) cs).
Proof. reflexivity. Qed.

(** The moved element is the first child of its new parent after the
    deletions, when neither it nor an element on the way to the parent is
    deleted. *)
Lemma first_child_add_prune (p : element -> bool) (B : nat) (x n : node) :
  clear_path p B n = true -> p (elem x) = false ->
  first_child B (uid (elem x)) (prune p (add_child B 0 x n)) = true.
Proof.
  intros H Hx. induction n as [e cs IH] using node_children_ind.
  rewrite clear_path_Node in H. apply andb_true_iff in H as [_ H].
  rewrite add_child_Node. destruct (has_uid B e) eqn:HB.
  - cbn [firstn skipn app]. rewrite prune_Node. unfold prune_children.
    cbn [flat_map]. rewrite Hx. cbn. rewrite HB, elem_prune.
    unfold has_uid. rewrite Nat.eqb_refl. reflexivity.
  - cbn in H. rewrite prune_Node. cbn. apply orb_true_iff. right.
    apply existsb_exists in H as (c & Hc & H). apply existsb_exists.
    exists (prune p (add_child B 0 x c)). rewrite Forall_forall in IH.
    split; [|exact (IH c Hc H)].
    apply In_prune_children.
    + apply in_map. exact Hc.
    + rewrite elem_add_child. exact (clear_path_root _ _ _ H).
Qed.

Lemma first_child_In (pu cu : nat) (n : node) :
  first_child pu cu n = true -> In pu (uids n) /\ In cu (uids n).
Proof.
  induction n as [e cs IH] using node_children_ind. cbn [first_child].
  rewrite uids_Node. intros H. apply orb_true_iff in H as [H|H].
  - apply andb_true_iff in H as [Hp Hc]. split.
    + left. apply Nat.eqb_eq. exact Hp.
    + destruct cs as [|c cs]; [discriminate|]. right. cbn. apply in_or_app. left.
      apply Nat.eqb_eq in Hc. rewrite <- Hc. unfold uids. apply in_map.
      apply elements_root.
  - apply existsb_exists in H as (c & Hc & H). rewrite Forall_forall in IH.
    destruct (IH c Hc H) as [H1 H2].
    split; right; apply in_flat_map; exists c; auto.
Qed.

(** ** [strip_page] *)

Lemma In_insert_at {A : Type} (i : nat) (x : A) (l : list A) (a : A) :
  In a (firstn i l ++ x :: skipn i l) -> a = x \/ In a l.
Proof.
  intros H. rewrite <- (firstn_skipn i l) at 1.
  apply in_app_or in H as [H|[H|H]].
  - right. apply in_or_app. left. exact H.
  - left. symmetry. exact H.
  - right. apply in_or_app. right. exact H.
Qed.

Lemma elements_add_child (pu i : nat) (x n : node) (e : element) :
  In e (elements (add_child pu i x n)) -> In e (elements n) \/ In e (elements x).
Proof.
  induction n as [e0 cs IH] using node_children_ind.
  rewrite add_child_Node, !elements_Node. intros [<-|H]; [left; left; reflexivity|].
  apply in_flat_map in H as (c' & Hc' & He).
  assert (Hcase : c' = x \/ In c' (map (add_child pu i x) cs)).
  { destruct (has_uid pu e0); [exact (In_insert_at _ _ _ _ Hc')|right; exact Hc']. }
  destruct Hcase as [->|Hin]; [right; exact He|].
  apply in_map_iff in Hin as (c & <- & Hc). rewrite Forall_forall in IH.
  destruct (IH c Hc He) as [H|H]; [left|right; exact H].
  right. apply in_flat_map. exists c. auto.
Qed.

Lemma elements_prune (p : element -> bool) (n : node) (e : element) :
  In e (elements (prune p n)) -> In e (elements n).
Proof. apply subseq_In, elements_prune_subseq. Qed.

(** A move brings no new element into the document. *)
Lemma elements_moved (parent child i : nat) (n x : node) (e : element) :
  find_node child n = Some x ->
  In e (elements (add_child parent i x (prune (has_uid child) n))) ->
  In e (elements n).
Proof.
  intros Hfind H. apply elements_add_child in H as [H|H].
  - exact (elements_prune _ _ _ H).
  - exact (find_node_elements _ _ _ Hfind _ H).
Qed.

Lemma has_id_other (i j : string) (e : element) :
  has_id i e = true -> i <> j -> has_id j e = false.
Proof.
  unfold has_id, attr_is. intros H Hij.
  apply andb_true_iff in H as [_ H]. apply andb_false_iff. right.
  destruct (get "id" e) as [v|]; [|reflexivity].
  apply String.eqb_eq in H. subst v. apply String.eqb_neq. exact Hij.
Qed.

Lemma has_id_element (i : string) (e : element) :
  has_id i e = true -> is_comment (tag e) = false.
Proof.
  unfold has_id, is_element. intros H. apply andb_true_iff in H as [H _].
  destruct (tag e); [reflexivity|discriminate].
Qed.

Lemma language_block_not_chrome (e : element) :
  has_id "p-lang" e = true -> is_chrome e = false.
Proof.
  intros H. unfold is_chrome.
  rewrite !(has_id_other "p-lang" _ e H) by discriminate. reflexivity.
Qed.

(** C10 (amended). When the document has a content block and a language block,
    no element on the way from the root down to the content block, both
    included, is the language block or an element that the step deletes
    (navigation, comment, script), and the language block is not a [script]
    element, then [strip_page] succeeds, and after it the language block is in
    the document as the first child of the content block, wherever it was
    before. *)
Theorem strip_page_language_block_first
  (root : node) (B P : nat) (bs ps : list nat) :
  wf root ->
  cssselect_id "bodyContent" root = B :: bs ->
  cssselect_id "p-lang" root = P :: ps ->
  clear_path (fun e => deleted e || has_uid P e) B root = true ->
  (forall p, element_of P root = Some p -> is_script (tag p) = false) ->
  exists root',
    strip_page root = Ok root' /\
    first_child B P root' = true /\ In P (uids root').
Proof.
  intros Hwf HB HP Hpath Hscript.
  assert (HPin : In P (select (has_id "p-lang") root))
    by (fold (cssselect_id "p-lang" root); rewrite HP; left; reflexivity).
  apply select_In in HPin as (ep & Hep & Hid & Huid).
  assert (HPu : In P (uids root)) by (rewrite <- Huid; apply in_map; exact Hep).
  destruct (find_node_found P root HPu) as [x Hfind].
  assert (Hx : elem x = ep).
  { apply (wf_uid_injective root _ _ Hwf); [|exact Hep|].
    - exact (find_node_elements _ _ _ Hfind _ (elements_root x)).
    - rewrite (find_node_uid _ _ _ Hfind). symmetry. exact Huid. }
  assert (Hchrome : forall t e, (forall y, In y (elements t) -> In y (elements root)) ->
                      In e (elements root) ->
                      mem_uid (uid e) (select is_chrome t) = true -> is_chrome e = true).
  { intros t e Hsub He Hm. apply mem_uid_In, select_In in Hm as (e' & He' & Hc & E).
    rewrite (wf_uid_injective root e e' Hwf He (Hsub _ He')) by congruence.
    exact Hc. }
  unfold strip_page. rewrite HB, HP. unfold insert_first. rewrite Hfind.
  destruct (existsb (Nat.eqb B) (uids x)) eqn:Hcycle.
  { apply (mem_uid_In B (uids x)) in Hcycle.
    rewrite (clear_path_not_below deleted P B root x Hwf Hfind Hcycle) in Hpath.
    discriminate. }
  cbn [bind].
  set (t1 := add_child B 0 x (prune (has_uid P) root)).
  assert (Hsub : forall y, In y (elements t1) -> In y (elements root))
    by (intros y; apply (elements_moved B P 0 root x y Hfind)).
  assert (Hroot : deleted (elem root) || has_uid P (elem root) = false)
    by exact (clear_path_root _ _ _ Hpath).
  apply orb_false_iff in Hroot as [Hroot _].
  rewrite for_each_remove.
  2:{ intros Hin. apply mem_uid_In in Hin.
      unfold t1 in Hin at 1. rewrite elem_add_child, elem_prune in Hin.
      apply (Hchrome t1 _ Hsub (elements_root root)) in Hin.
      unfold deleted in Hroot. rewrite Hin in Hroot. discriminate. }
  cbn [bind]. unfold strip_elements. rewrite !prune_prune.
  eexists. split; [reflexivity|].
  set (p := fun e => mem_uid (uid e) (select is_chrome t1)
                     || (is_comment (tag e) || is_script (tag e))).
  assert (Hfirst : first_child B (uid (elem x)) (prune p t1) = true).
  { apply first_child_add_prune.
    - apply clear_path_prune. revert Hpath. apply clear_path_weaken.
      intros e He H. apply orb_true_iff in H as [H|H]; [|rewrite H; apply orb_true_r].
      apply orb_true_iff. left. unfold deleted. unfold p in H.
      apply orb_true_iff in H as [H|H].
      + rewrite (Hchrome t1 e Hsub He H). reflexivity.
      + rewrite <- orb_assoc, H. apply orb_true_r.
    - rewrite Hx. unfold p.
      rewrite (has_id_element _ _ Hid).
      rewrite (Hscript ep) by (rewrite <- Huid; exact (element_of_wf root ep Hwf Hep)).
      cbn [orb]. rewrite orb_false_r. apply not_true_iff_false. intros H.
      apply (Hchrome t1 ep Hsub Hep) in H.
      rewrite (language_block_not_chrome ep Hid) in H. discriminate. }
  rewrite (find_node_uid _ _ _ Hfind) in Hfirst.
  split; [exact Hfirst|exact (proj2 (first_child_In _ _ _ Hfirst))].
Qed.

Lemma strip_page_language_block_first_witness :
  exists root',
    strip_page Example.page = Ok root' /\
    first_child 9 16 root' = true /\ In 16 (uids root').
Proof.
  refine (strip_page_language_block_first Example.page 9 16 [] [] page_wf
            eq_refl eq_refl eq_refl _).
  vm_compute. intros p [= <-]. reflexivity.
Defined.

(** The claim C10 as it is worded: on every document with a content block
    and a language block. *)
Definition language_block_always_first : Prop :=
  forall (root : node) (B P : nat) (bs ps : list nat),
    wf root ->
    cssselect_id "bodyContent" root = B :: bs ->
    cssselect_id "p-lang" root = P :: ps ->
    exists root', strip_page root = Ok root' /\ first_child B P root' = true.

Lemma nested_page_wf : wf Example.nested_page.
Proof. apply distinct_NoDup. reflexivity. Qed.

(** On a page whose content block is inside [#mw-navigation], the language
    block is moved into the content block and deleted with it. *)
Lemma language_block_always_first_fails : ~ language_block_always_first.
Proof.
  intros claim.
  destruct (claim Example.nested_page 5 6 [] [] nested_page_wf eq_refl eq_refl)
    as (root' & Hstrip & Hfirst).
  vm_compute in Hstrip. injection Hstrip as <-.
  vm_compute in Hfirst. discriminate Hfirst.
Qed.

(** ** Moving an element *)

Lemma find_node_absent (u : nat) (n : node) :
  ~ In u (uids n) -> find_node u n = None.
Proof.
  intros H. destruct (find_node u n) as [x|] eqn:Hf; [|reflexivity].
  exfalso. apply H. apply (find_node_uids u n x Hf).
  rewrite <- (find_node_uid u n x Hf). unfold uids. apply in_map, elements_root.
Qed.

Lemma first_some_split {A B : Type} (f : A -> option B) (l1 l2 : list A) (a : A) :
  (forall x, In x l1 -> f x = None) ->
  first_some f (l1 ++ a :: l2) =
  match f a with Some b => Some b | None => first_some f l2 end.
Proof.
  induction l1 as [|x l1 IH]; cbn; intros H; [reflexivity|].
  rewrite (H x (or_introl eq_refl)). apply IH. intros y Hy. apply H. right. exact Hy.
Qed.

Lemma prune_children_none (p : element -> bool) (cs : list node) :
  (forall c e, In c cs -> In e (elements c) -> p e = false) ->
  prune_children p cs = cs.
Proof.
  induction cs as [|c cs IH]; intros H; [reflexivity|].
  unfold prune_children. cbn.
  rewrite (H c (elem c) (or_introl eq_refl) (elements_root c)). cbn.
  fold (prune_children p cs). rewrite IH.
  - rewrite (prune_nothing p c); [reflexivity|].
    intros e He. apply (H c e (or_introl eq_refl)). exact (elements_children c e He).
  - intros c' e Hc' He. exact (H c' e (or_intror Hc') He).
Qed.

Lemma prune_children_app (p : element -> bool) (l1 l2 : list node) :
  prune_children p (l1 ++ l2) = (prune_children p l1 ++ prune_children p l2)%list.
Proof. apply flat_map_app. Qed.

Lemma has_uid_absent (u : nat) (c : node) (e : element) :
  ~ In u (uids c) -> In e (elements c) -> has_uid u e = false.
Proof.
  intros H He. apply Nat.eqb_neq. intros E. apply H. rewrite <- E.
  unfold uids. apply in_map. exact He.
Qed.

Lemma add_child_absent (pu i : nat) (x n : node) :
  ~ In pu (uids n) -> add_child pu i x n = n.
Proof.
  induction n as [e cs IH] using node_children_ind. intros H.
  rewrite add_child_Node.
  rewrite (has_uid_absent pu (Node e cs) e H (elements_root (Node e cs))).
  f_equal. rewrite <- (map_id cs) at 2. apply map_ext_Forall.
  rewrite Forall_forall in *. intros c Hc. apply (IH c Hc).
  intros Hin. apply H. exact (uids_child e cs c pu Hc Hin).
Qed.

Lemma map_add_child_absent (pu i : nat) (x : node) (cs : list node) :
  (forall c, In c cs -> ~ In pu (uids c)) -> map (add_child pu i x) cs = cs.
Proof.
  intros H. rewrite <- (map_id cs) at 2. apply map_ext_Forall.
  apply Forall_forall. intros c Hc. exact (add_child_absent pu i x c (H c Hc)).
Qed.

(** what being well formed says of one child among the others *)
Lemma wf_split (e : element) (l1 l2 : list node) (c : node) :
  wf (Node e (l1 ++ c :: l2)) ->
  wf c /\
  (forall v, In v (uids c) -> v <> uid e) /\
  (forall v c', In v (uids c) -> In c' (l1 ++ l2) -> ~ In v (uids c')).
Proof.
  intros Hwf. assert (Hc : In c (l1 ++ c :: l2)) by (apply in_elt).
  split; [exact (wf_child _ _ _ Hwf Hc)|]. split.
  - intros v Hv E. subst v. exact (wf_root_not_below _ _ _ Hwf Hc Hv).
  - intros v c' Hv Hc' Hv'.
    assert (Hin' : In c' (l1 ++ c :: l2)).
    { apply in_app_or in Hc' as [H|H]; apply in_or_app; [left|right; right]; exact H. }
    assert (E := wf_children_share _ _ _ _ v Hwf Hc Hin' Hv Hv'). subst c'.
    apply wf_Node in Hwf as [_ Hnd].
    rewrite flat_map_app in Hnd. cbn in Hnd.
    apply in_app_or in Hc' as [H|H].
    + apply (NoDup_app_disjoint _ _ v Hnd).
      * apply in_flat_map. exists c. auto.
      * apply in_or_app. left. exact Hv.
    + apply NoDup_app_remove_l in Hnd.
      apply (NoDup_app_disjoint _ _ v Hnd Hv).
      apply in_flat_map. exists c. auto.
Qed.

Lemma flat_map_elt {A B : Type} (f : A -> list B) (l1 l2 : list A) (a : A) :
  flat_map f (l1 ++ a :: l2) = (flat_map f l1 ++ f a ++ flat_map f l2)%list.
Proof. rewrite flat_map_app. reflexivity. Qed.

(** The element [u] and what is below it are all that [prune (has_uid u)]
    takes from a well-formed document. *)
Lemma edges_prune_uid (u : nat) (n : node) :
  forall (parent : option element) (x : node),
    wf n -> find_node u n = Some x -> uid (elem n) <> u ->
    exists q,
      In (Some q, elem x) (edges parent n) /\
      Permutation (edges parent n)
                  (edges parent (prune (has_uid u) n) ++ edges (Some q) x).
Proof.
  induction n as [e cs IH] using node_children_ind.
  intros parent x Hwf Hfind Hroot. cbn [elem] in Hroot.
  rewrite find_node_Node in Hfind.
  replace (has_uid u e) with false in Hfind
    by (symmetry; apply Nat.eqb_neq; exact Hroot).
  apply first_some_Some in Hfind as (c & Hc & Hfind).
  destruct (in_split c cs Hc) as (l1 & l2 & ->).
  destruct (wf_split e l1 l2 c Hwf) as (Hwfc & _ & Hothers).
  assert (Hu : In u (uids c)).
  { apply (find_node_uids u c x Hfind). rewrite <- (find_node_uid u c x Hfind).
    unfold uids. apply in_map, elements_root. }
  assert (Hl : forall l, (forall c', In c' l -> In c' (l1 ++ l2)) ->
                         prune_children (has_uid u) l = l).
  { intros l Hsub. apply prune_children_none. intros c' y Hc' Hy.
    exact (has_uid_absent u c' y (Hothers u c' Hu (Hsub c' Hc')) Hy). }
  rewrite prune_Node, prune_children_app.
  change (c :: l2) with ([c] ++ l2)%list. rewrite prune_children_app.
  rewrite (Hl l1) by (intros c' H; apply in_or_app; left; exact H).
  rewrite (Hl l2) by (intros c' H; apply in_or_app; right; exact H).
  rewrite Forall_forall in IH.
  cbn [edges]. rewrite !flat_map_app.
  assert (Hc1 : flat_map (edges (Some e)) [c] = edges (Some e) c)
    by (cbn; apply app_nil_r).
  assert (Hc2 : prune_children (has_uid u) [c] =
                if has_uid u (elem c) then [] else [prune (has_uid u) c])
    by (unfold prune_children; cbn; apply app_nil_r).
  rewrite Hc1, Hc2. clear Hc1 Hc2.
  destruct (has_uid u (elem c)) eqn:Hcu.
  - (* the child is the element *)
    assert (x = c).
    { destruct c as [ec ccs]. rewrite find_node_Node in Hfind.
      cbn [elem] in Hcu. rewrite Hcu in Hfind. congruence. }
    subst x. exists e. split.
    + right. apply in_or_app. right. apply in_or_app. left.
      destruct c as [ec ccs]. left. reflexivity.
    + cbn [flat_map app]. apply perm_skip.
      rewrite <- app_assoc. apply Permutation_app_head.
      apply Permutation_app_comm.
  - (* the element is below the child *)
    destruct (IH c (in_elt c l1 l2) (Some e) x Hwfc Hfind) as (q & Hq & Hperm).
    { apply Nat.eqb_neq. exact Hcu. }
    exists q. split.
    + right. apply in_or_app. right. apply in_or_app. left. exact Hq.
    + cbn [flat_map app]. rewrite app_nil_r. apply perm_skip.
      rewrite <- !app_assoc. apply Permutation_app_head.
      rewrite (Permutation_app_comm (flat_map (edges (Some e)) l2)).
      rewrite app_assoc. apply Permutation_app_tail. exact Hperm.
Qed.

(** A new child adds its elements to the document, below its parent. *)
Lemma edges_add_child (pu i : nat) (x n : node) :
  forall (parent : option element) (ep : element),
    wf n -> In ep (elements n) -> uid ep = pu ->
    Permutation (edges parent (add_child pu i x n))
                (edges parent n ++ edges (Some ep) x).
Proof.
  induction n as [e cs IH] using node_children_ind.
  intros parent ep Hwf Hep Hu. rewrite add_child_Node. cbn [edges].
  destruct (has_uid pu e) eqn:He.
  - assert (ep = e).
    { apply (wf_uid_injective (Node e cs) ep e Hwf Hep (elements_root (Node e cs))).
      apply Nat.eqb_eq in He. congruence. }
    subst ep. rewrite map_add_child_absent.
    2:{ intros c Hc Hin. apply (wf_root_not_below e cs c Hwf Hc). congruence. }
    cbn [app]. apply perm_skip.
    rewrite flat_map_elt. rewrite <- (firstn_skipn i cs) at 3.
    rewrite flat_map_app, <- app_assoc. apply Permutation_app_head.
    apply Permutation_app_comm.
  - rewrite elements_Node in Hep. destruct Hep as [E|Hep].
    { subst ep. apply Nat.eqb_neq in He. contradiction. }
    apply in_flat_map in Hep as (c & Hc & Hep).
    destruct (in_split c cs Hc) as (l1 & l2 & ->).
    destruct (wf_split e l1 l2 c Hwf) as (Hwfc & _ & Hothers).
    assert (Hpu : In pu (uids c)) by (rewrite <- Hu; apply in_map; exact Hep).
    rewrite map_app. cbn [map].
    rewrite (map_add_child_absent pu i x l1)
      by (intros c' H; apply (Hothers pu c' Hpu); apply in_or_app; left; exact H).
    rewrite (map_add_child_absent pu i x l2)
      by (intros c' H; apply (Hothers pu c' Hpu); apply in_or_app; right; exact H).
    rewrite Forall_forall in IH.
    assert (Hperm := IH c (in_elt c l1 l2) (Some e) ep Hwfc Hep Hu).
    cbn [app]. apply perm_skip. rewrite !flat_map_elt, <- !app_assoc.
    apply Permutation_app_head.
    rewrite (Permutation_app_comm (flat_map (edges (Some e)) l2)).
    rewrite app_assoc. apply Permutation_app_tail. exact Hperm.
Qed.

Lemma wf_edges (parent : option element) (n : node) :
  wf n <-> NoDup (map (fun x => uid (snd x)) (edges parent n)).
Proof. unfold wf. rewrite (uids_edges parent). reflexivity. Qed.

Lemma uids_elements_In (n : node) (e : element) :
  In e (elements n) -> In (uid e) (uids n).
Proof. apply in_map. Qed.

Lemma In_uids (n : node) (u : nat) :
  In u (uids n) -> exists e, In e (elements n) /\ uid e = u.
Proof.
  intros H. apply in_map_iff in H as (e & E & He). exists e. auto.
Qed.

(** the pairs of a subtree, with any parent for its root *)
Lemma edges_reparent (q q' : option element) (x : node) :
  exists l, edges q x = (q, elem x) :: l /\ edges q' x = (q', elem x) :: l.
Proof. destruct x as [e cs]. eexists. split; reflexivity. Qed.

(** What a move does to the document: the moved element has a new parent, and
    nothing else changes but the order. *)
Lemma edges_moved (f u : nat) (n x : node) (ef : element) :
  wf n -> find_node u n = Some x -> uid (elem n) <> u ->
  In ef (elements n) -> uid ef = f -> ~ In f (uids x) ->
  exists q l rest,
    edges (Some q) x = (Some q, elem x) :: l /\
    Permutation (edges None n) ((Some q, elem x) :: l ++ rest) /\
    Permutation (edges None (add_child f 0 x (prune (has_uid u) n)))
                ((Some ef, elem x) :: l ++ rest).
Proof.
  intros Hwf Hfind Hroot Hef Hf Hcycle.
  destruct (edges_prune_uid u n None x Hwf Hfind Hroot) as (q & _ & Hperm).
  destruct (edges_reparent (Some q) (Some ef) x) as (l & Hq & Hq').
  exists q, l, (edges None (prune (has_uid u) n)). split; [exact Hq|]. split.
  - rewrite Hperm, Hq. rewrite Permutation_app_comm. reflexivity.
  - assert (Hef' : In ef (elements (prune (has_uid u) n))).
    { assert (Hin : In (uid ef) (map (fun y => uid (snd y)) (edges None n)))
        by (rewrite <- (uids_edges None); apply uids_elements_In; exact Hef).
      rewrite Hperm, map_app in Hin. apply in_app_or in Hin as [Hin|Hin].
      - rewrite <- (uids_edges None) in Hin. apply In_uids in Hin as (e' & He' & E).
        rewrite (wf_uid_injective n ef e' Hwf Hef (elements_prune _ _ _ He'));
          [exact He'|congruence].
      - rewrite <- (uids_edges (Some q)) in Hin. rewrite Hf in Hin. contradiction. }
    rewrite (edges_add_child f 0 x _ None ef (prune_wf _ _ Hwf) Hef' Hf).
    rewrite Hq'. rewrite Permutation_app_comm. reflexivity.
Qed.

(** ** The first child of an element *)

Lemma first_child_Node (pu cu : nat) (e : element) (cs : list node) :
  first_child pu cu (Node e cs) =
  (has_uid pu e && match cs with c :: _ => has_uid cu (elem c) | [] => false end)
  || existsb (first_child pu cu) cs.
Proof. reflexivity. Qed.

Lemma first_child_below (pu cu : nat) (n : node) :
  first_child pu cu n = true -> In cu (flat_map uids (children n)).
Proof.
  induction n as [e cs IH] using node_children_ind.
  rewrite first_child_Node. cbn [children]. intros H.
  apply orb_true_iff in H as [H|H].
  - apply andb_true_iff in H as [_ H]. destruct cs as [|c cs]; [discriminate|].
    cbn. apply in_or_app. left. apply Nat.eqb_eq in H. rewrite <- H.
    apply uids_elements_In, elements_root.
  - apply existsb_exists in H as (c & Hc & H).
    apply in_flat_map. exists c. split; [exact Hc|].
    exact (proj2 (first_child_In _ _ _ H)).
Qed.

Lemma In_insert_at_old {A : Type} (i : nat) (x a : A) (l : list A) :
  In a l -> In a (firstn i l ++ x :: skipn i l).
Proof.
  intros H. rewrite <- (firstn_skipn i l) in H.
  apply in_app_or in H as [H|H]; apply in_or_app; [left|right; right]; exact H.
Qed.

Lemma first_child_add_first (B : nat) (x n : node) :
  In B (uids n) -> first_child B (uid (elem x)) (add_child B 0 x n) = true.
Proof.
  induction n as [e cs IH] using node_children_ind.
  rewrite uids_Node, add_child_Node, first_child_Node. intros H.
  destruct (has_uid B e) eqn:HB.
  - cbn. unfold has_uid. rewrite Nat.eqb_refl. reflexivity.
  - destruct H as [E|H]; [apply Nat.eqb_neq in HB; contradiction|].
    apply in_flat_map in H as (c & Hc & H). apply orb_true_iff. right.
    apply existsb_exists. exists (add_child B 0 x c).
    rewrite Forall_forall in IH. split; [apply in_map; exact Hc|exact (IH c Hc H)].
Qed.

Lemma first_child_add_other (pu i B P : nat) (x n : node) :
  pu <> B -> first_child B P n = true ->
  first_child B P (add_child pu i x n) = true.
Proof.
  intros Hne. induction n as [e cs IH] using node_children_ind.
  rewrite add_child_Node, !first_child_Node. intros H.
  apply orb_true_iff in H as [H|H]; apply orb_true_iff.
  - left. apply andb_true_iff in H as [HB Hc]. rewrite HB. cbn.
    replace (has_uid pu e) with false.
    + destruct cs as [|c cs]; [discriminate|]. cbn. rewrite elem_add_child. exact Hc.
    + symmetry. apply Nat.eqb_neq. apply Nat.eqb_eq in HB. congruence.
  - right. apply existsb_exists in H as (c & Hc & H). apply existsb_exists.
    exists (add_child pu i x c). rewrite Forall_forall in IH.
    split; [|exact (IH c Hc H)].
    destruct (has_uid pu e); [apply In_insert_at_old|]; apply in_map; exact Hc.
Qed.

Lemma first_child_add_inside (pu i B P : nat) (x n : node) :
  In pu (uids n) -> first_child B P x = true ->
  first_child B P (add_child pu i x n) = true.
Proof.
  intros Hpu Hx. induction n as [e cs IH] using node_children_ind.
  rewrite add_child_Node, first_child_Node. apply orb_true_iff. right.
  apply existsb_exists. rewrite uids_Node in Hpu.
  destruct (has_uid pu e) eqn:He.
  - exists x. split; [apply in_elt|exact Hx].
  - destruct Hpu as [E|Hpu]; [apply Nat.eqb_neq in He; contradiction|].
    apply in_flat_map in Hpu as (c & Hc & Hpu).
    exists (add_child pu i x c). rewrite Forall_forall in IH.
    split; [apply in_map; exact Hc|exact (IH c Hc Hpu)].
Qed.

Lemma first_child_map_tree (f : element -> element) (pu cu : nat) (n : node) :
  (forall e, uid (f e) = uid e) ->
  first_child pu cu (map_tree f n) = first_child pu cu n.
Proof.
  intros Hf. induction n as [e cs IH] using node_children_ind.
  cbn [map_tree]. rewrite !first_child_Node. unfold has_uid at 1 3. rewrite Hf.
  f_equal.
  - f_equal. destruct cs as [|c cs]; [reflexivity|]. cbn.
    destruct c as [ec ccs]. cbn. unfold has_uid. rewrite Hf. reflexivity.
  - clear -IH. induction IH as [|c cs Hc _ IHcs]; [reflexivity|].
    cbn. rewrite Hc, IHcs. reflexivity.
Qed.

Lemma uids_prune_Node (p : element -> bool) (e : element) (cs : list node) (v : nat) :
  In v (uids (prune p (Node e cs))) ->
  v = uid e \/
  exists c, In c cs /\ p (elem c) = false /\ In v (uids (prune p c)).
Proof.
  rewrite prune_Node, uids_Node. intros [E|H]; [left; symmetry; exact E|right].
  apply in_flat_map in H as (c' & Hc' & Hv).
  apply in_flat_map in Hc' as (c & Hc & Hc').
  destruct (p (elem c)) eqn:Hp; [contradiction|].
  destruct Hc' as [<-|[]]. exists c. auto.
Qed.

Lemma uids_prune (p : element -> bool) (n : node) (v : nat) :
  In v (uids (prune p n)) -> In v (uids n).
Proof.
  intros H. apply In_uids in H as (e & He & <-).
  apply uids_elements_In. exact (elements_prune p n e He).
Qed.

(** A first child that is still in the document after a deletion is still the
    first child of its parent. *)
Lemma first_child_prune (p : element -> bool) (B P : nat) (n : node) :
  wf n -> first_child B P n = true -> In P (uids (prune p n)) ->
  first_child B P (prune p n) = true.
Proof.
  induction n as [e cs IH] using node_children_ind.
  intros Hwf H HP. assert (Hbelow := first_child_below B P _ H).
  cbn [children] in Hbelow.
  apply uids_prune_Node in HP as [E|(c0 & Hc0 & Hp0 & HP0)].
  { exfalso. apply wf_Node in Hwf as [Hroot _]. apply Hroot. rewrite <- E.
    exact Hbelow. }
  rewrite prune_Node, first_child_Node. rewrite first_child_Node in H.
  apply orb_true_iff in H as [H|H]; apply orb_true_iff.
  - left. apply andb_true_iff in H as [HB Hc]. rewrite HB. cbn.
    destruct cs as [|c1 cs']; [discriminate|].
    assert (c0 = c1).
    { apply (wf_children_share e (c1 :: cs') c0 c1 P Hwf Hc0 (or_introl eq_refl)).
      - exact (uids_prune p c0 P HP0).
      - apply Nat.eqb_eq in Hc. rewrite <- Hc.
        apply uids_elements_In, elements_root. }
    subst c0. unfold prune_children. cbn. rewrite Hp0. cbn.
    rewrite elem_prune. exact Hc.
  - right. apply existsb_exists in H as (c & Hc & H).
    assert (c0 = c).
    { apply (wf_children_share e cs c0 c P Hwf Hc0 Hc).
      - exact (uids_prune p c0 P HP0).
      - exact (proj2 (first_child_In _ _ _ H)). }
    subst c0. apply existsb_exists. exists (prune p c).
    split; [exact (In_prune_children p cs c Hc Hp0)|].
    rewrite Forall_forall in IH.
    exact (IH c Hc (wf_child e cs c Hwf Hc) H HP0).
Qed.

Lemma find_node_root (u : nat) (n : node) :
  has_uid u (elem n) = true -> find_node u n = Some n.
Proof. destruct n as [e cs]. cbn [elem]. rewrite find_node_Node. intros ->. reflexivity. Qed.

Lemma find_node_split (u : nat) (e : element) (l1 l2 : list node) (c x : node) :
  wf (Node e (l1 ++ c :: l2)) -> find_node u c = Some x ->
  find_node u (Node e (l1 ++ c :: l2)) = Some x.
Proof.
  intros Hwf Hfind. destruct (wf_split e l1 l2 c Hwf) as (_ & Hroot & Hothers).
  assert (Hu : In u (uids c)).
  { apply (find_node_uids u c x Hfind). rewrite <- (find_node_uid u c x Hfind).
    apply uids_elements_In, elements_root. }
  rewrite find_node_Node.
  replace (has_uid u e) with false
    by (symmetry; apply Nat.eqb_neq; intros E; exact (Hroot u Hu (eq_sym E))).
  rewrite first_some_split, Hfind; [reflexivity|].
  intros c' Hc'. apply find_node_absent. apply (Hothers u c' Hu).
  apply in_or_app. left. exact Hc'.
Qed.

(** When another element is taken out of the document, a first child stays
    the first child of its parent, in the document or in what is taken out. *)
Lemma first_child_detach (u B P : nat) (n : node) :
  forall x,
    wf n -> first_child B P n = true -> find_node u n = Some x -> u <> P ->
    first_child B P x = true \/ first_child B P (prune (has_uid u) n) = true.
Proof.
  induction n as [e cs IH] using node_children_ind.
  intros x Hwf H Hfind HuP.
  destruct (has_uid u e) eqn:Hue.
  { rewrite (find_node_root u (Node e cs) Hue) in Hfind.
    injection Hfind as <-. left. exact H. }
  rewrite find_node_Node, Hue in Hfind.
  apply first_some_Some in Hfind as (c0 & Hc0 & Hfind).
  assert (Hu0 : In u (uids c0)).
  { apply (find_node_uids u c0 x Hfind). rewrite <- (find_node_uid u c0 x Hfind).
    apply uids_elements_In, elements_root. }
  rewrite first_child_Node in H. apply orb_true_iff in H as [H|H].
  - (* the parent is the root *)
    right. apply andb_true_iff in H as [HB Hc]. rewrite prune_Node, first_child_Node.
    apply orb_true_iff. left. rewrite HB. cbn.
    destruct cs as [|c1 cs']; [discriminate|].
    unfold prune_children. cbn.
    replace (has_uid u (elem c1)) with false.
    + cbn. rewrite elem_prune. exact Hc.
    + symmetry. apply Nat.eqb_neq. apply Nat.eqb_eq in Hc. congruence.
  - apply existsb_exists in H as (c & Hc & H).
    rewrite Forall_forall in IH.
    destruct (in_dec Nat.eq_dec u (uids c)) as [Huc|Huc].
    + (* the element is in the child of the parent *)
      assert (c0 = c) by exact (wf_children_share e cs c0 c u Hwf Hc0 Hc Hu0 Huc).
      subst c0.
      destruct (IH c Hc x (wf_child e cs c Hwf Hc) H Hfind HuP) as [Hx|Hx];
        [left; exact Hx|].
      destruct (has_uid u (elem c)) eqn:Huc'.
      * left. rewrite (find_node_root u c Huc') in Hfind. injection Hfind as <-.
        exact H.
      * right. rewrite prune_Node, first_child_Node. apply orb_true_iff. right.
        apply existsb_exists. exists (prune (has_uid u) c).
        split; [exact (In_prune_children _ cs c Hc Huc')|exact Hx].
    + (* the element is elsewhere *)
      right. rewrite prune_Node, first_child_Node. apply orb_true_iff. right.
      apply existsb_exists. exists c. split; [|exact H].
      rewrite <- (prune_nothing (has_uid u) c) at 1.
      * apply In_prune_children; [exact Hc|].
        exact (has_uid_absent u c (elem c) Huc (elements_root c)).
      * intros y Hy. exact (has_uid_absent u c y Huc (elements_children c y Hy)).
Qed.

(** Moving a first child to the front of its parent changes nothing. *)
Lemma move_first_child (B P : nat) (n : node) :
  wf n -> first_child B P n = true ->
  exists x,
    find_node P n = Some x /\ ~ In B (uids x) /\
    add_child B 0 x (prune (has_uid P) n) = n.
Proof.
  induction n as [e cs IH] using node_children_ind.
  intros Hwf H. rewrite first_child_Node in H. apply orb_true_iff in H as [H|H].
  - apply andb_true_iff in H as [HB Hc].
    destruct cs as [|c1 cs']; [discriminate|].
    change (c1 :: cs') with ([] ++ c1 :: cs')%list in Hwf.
    destruct (wf_split e [] cs' c1 Hwf) as (_ & Hroot & Hothers).
    cbn [app] in Hwf, Hothers.
    assert (HP : In P (uids c1)).
    { apply Nat.eqb_eq in Hc. rewrite <- Hc. apply uids_elements_In, elements_root. }
    exists c1. split; [|split].
    + apply (find_node_split P e [] cs' c1 c1 Hwf). exact (find_node_root P c1 Hc).
    + apply Nat.eqb_eq in HB. rewrite <- HB. intros Hin. exact (Hroot _ Hin eq_refl).
    + rewrite prune_Node. unfold prune_children. cbn [flat_map]. rewrite Hc.
      cbn [app]. fold (prune_children (has_uid P) cs').
      rewrite prune_children_none.
      2:{ intros c' y Hc' Hy. exact (has_uid_absent P c' y (Hothers P c' HP Hc') Hy). }
      rewrite add_child_Node, HB. cbn [firstn skipn app].
      rewrite map_add_child_absent; [reflexivity|].
      intros c' Hc' Hin. apply (wf_root_not_below e (c1 :: cs') c' Hwf (or_intror Hc')).
      apply Nat.eqb_eq in HB. rewrite HB. exact Hin.
  - apply existsb_exists in H as (c & Hc & H).
    destruct (in_split c cs Hc) as (l1 & l2 & ->).
    destruct (wf_split e l1 l2 c Hwf) as (Hwfc & Hroot & Hothers).
    destruct (first_child_In _ _ _ H) as [HBc HPc].
    rewrite Forall_forall in IH.
    destruct (IH c (in_elt c l1 l2) Hwfc H) as (x & Hfind & Hcycle & Hback).
    exists x. split; [exact (find_node_split P e l1 l2 c x Hwf Hfind)|].
    split; [exact Hcycle|].
    assert (Hl : forall l, (forall c', In c' l -> In c' (l1 ++ l2)) ->
                           prune_children (has_uid P) l = l).
    { intros l Hsub. apply prune_children_none. intros c' y Hc' Hy.
      exact (has_uid_absent P c' y (Hothers P c' HPc (Hsub c' Hc')) Hy). }
    assert (HPc' : has_uid P (elem c) = false).
    { apply Nat.eqb_neq. intros E. assert (Hb := first_child_below B P _ H).
      destruct c as [ec ccs]. cbn [elem] in E. cbn [children] in Hb.
      apply wf_Node in Hwfc as [Hr _]. apply Hr. rewrite E. exact Hb. }
    rewrite prune_Node, prune_children_app.
    change (c :: l2) with ([c] ++ l2)%list. rewrite prune_children_app.
    rewrite (Hl l1) by (intros c' Hc'; apply in_or_app; left; exact Hc').
    rewrite (Hl l2) by (intros c' Hc'; apply in_or_app; right; exact Hc').
    unfold prune_children at 1. cbn [flat_map]. rewrite HPc'. cbn [app].
    rewrite add_child_Node.
    replace (has_uid B e) with false
      by (symmetry; apply Nat.eqb_neq; intros E; exact (Hroot B HBc (eq_sym E))).
    rewrite map_app. cbn [map]. rewrite Hback.
    rewrite !map_add_child_absent; [reflexivity| |].
    + intros c' Hc'. apply (Hothers B c' HBc). apply in_or_app. right. exact Hc'.
    + intros c' Hc'. apply (Hothers B c' HBc). apply in_or_app. left. exact Hc'.
Qed.

Lemma insert_first_first_child (B P : nat) (n : node) :
  wf n -> first_child B P n = true -> insert_first B P n = Ok n.
Proof.
  intros Hwf H. destruct (move_first_child B P n Hwf H) as (x & Hfind & Hcycle & Hback).
  unfold insert_first. rewrite Hfind.
  apply (mem_uid_false B (uids x)) in Hcycle. unfold mem_uid in Hcycle.
  rewrite Hcycle, Hback. reflexivity.
Qed.

(** ** More on documents *)

Lemma Permutation_filter_same {A : Type} (f : A -> bool) (l1 l2 : list A) :
  Permutation l1 l2 -> Permutation (filter f l1) (filter f l2).
Proof.
  induction 1 as [|a l1 l2 _ IH|a b l|l1 l2 l3 _ IH1 _ IH2]; cbn.
  - constructor.
  - destruct (f a); [apply perm_skip|]; exact IH.
  - destruct (f a), (f b); try reflexivity. apply perm_swap.
  - exact (Permutation_trans IH1 IH2).
Qed.

(** A loop of removals that ends without an exception did not meet the root. *)
Lemma for_each_remove_Ok (us : list nat) (n n' : node) :
  for_each remove_from_parent us n = Ok n' ->
  ~ In (uid (elem n)) us /\ n' = prune (fun e => mem_uid (uid e) us) n.
Proof.
  intros H. assert (Hroot : ~ In (uid (elem n)) us).
  { revert n H. induction us as [|u us IH]; intros n H; [intros []|].
    cbn in H. unfold remove_from_parent in H at 1. unfold has_uid in H at 1.
    destruct (Nat.eqb_spec (uid (elem n)) u) as [E|Hne]; [discriminate|].
    cbn in H. apply IH in H. rewrite elem_prune in H.
    intros [E|Hin]; [congruence|contradiction]. }
  split; [exact Hroot|]. rewrite (for_each_remove us n Hroot) in H. congruence.
Qed.

Lemma prune_uid_keeps (u v : nat) (n x : node) :
  wf n -> find_node u n = Some x -> uid (elem n) <> u ->
  In v (uids n) -> ~ In v (uids x) -> In v (uids (prune (has_uid u) n)).
Proof.
  intros Hwf Hfind Hroot Hv Hx.
  destruct (edges_prune_uid u n None x Hwf Hfind Hroot) as (q & _ & Hperm).
  rewrite (uids_edges None) in Hv.
  rewrite Hperm, map_app in Hv. apply in_app_or in Hv as [Hv|Hv].
  - rewrite (uids_edges None). exact Hv.
  - rewrite <- (uids_edges (Some q)) in Hv. contradiction.
Qed.

(** the parent in a pair of the document order is an element of the document *)
Lemma edges_parent (parent : option element) (n : node) (q e : element) :
  In (Some q, e) (edges parent n) -> Some q = parent \/ In q (elements n).
Proof.
  revert parent. induction n as [e0 cs IH] using node_children_ind.
  intros parent. cbn [edges]. intros [E|H]; [left; congruence|right].
  apply in_flat_map in H as (c & Hc & H). rewrite Forall_forall in IH.
  destruct (IH c Hc (Some e0) H) as [E|Hq].
  - injection E as ->. apply (elements_root (Node e0 cs)).
  - exact (elements_child e0 cs c q Hc Hq).
Qed.

Lemma edges_below_root (n : node) (e : element) :
  In e (flat_map elements (children n)) ->
  exists q, In (Some q, e) (edges None n).
Proof.
  destruct n as [e0 cs]. cbn [children edges]. intros H.
  apply in_flat_map in H as (c & Hc & H).
  rewrite <- (edges_snd (Some e0)) in H.
  apply in_map_iff in H as ([q e'] & E & H). cbn in E. subst e'.
  destruct q as [q|].
  - exists q. right. apply in_flat_map. exists c. auto.
  - exfalso. clear - H. revert H. generalize e0.
    induction c as [ec ccs IH] using node_children_ind. intros e1 [H|H];
      [discriminate|].
    apply in_flat_map in H as (d & Hd & H). rewrite Forall_forall in IH.
    exact (IH d Hd ec H).
Qed.

Lemma below_root_not_root (n : node) (e : element) :
  wf n -> In e (flat_map elements (children n)) -> uid e <> uid (elem n).
Proof.
  destruct n as [e0 cs]. cbn [children elem]. intros Hwf H E.
  apply wf_Node in Hwf as [Hroot _]. apply Hroot. rewrite <- E.
  apply in_flat_map in H as (c & Hc & H). apply in_flat_map.
  exists c. split; [exact Hc|exact (uids_elements_In c e H)].
Qed.

Lemma fresh_not_in (n : node) : ~ In (fresh n) (uids n).
Proof.
  unfold fresh. intros H.
  assert (Hle : Forall (fun k => k <= list_max (uids n))%nat (uids n))
    by (apply list_max_le; apply Nat.le_refl).
  rewrite Forall_forall in Hle. specialize (Hle _ H). lia.
Qed.

(** ** The document after each step *)

(** the language block is the first child of the content block, when the
    document has both *)
Definition language_first (t : node) : Prop :=
  forall b p,
    In b (elements t) -> In p (elements t) ->
    has_id "bodyContent" b = true -> has_id "p-lang" p = true ->
    first_child (uid b) (uid p) t = true.

(** at most one element of the document satisfies [q] *)
Definition at_most_one (q : element -> bool) (t : node) : Prop :=
  forall e e',
    In e (elements t) -> In e' (elements t) -> q e = true -> q e' = true -> e = e'.

Lemma language_first_prune (p : element -> bool) (t : node) :
  wf t -> language_first t -> language_first (prune p t).
Proof.
  intros Hwf H b l Hb Hl Hidb Hidl.
  apply first_child_prune; [exact Hwf| |exact (uids_elements_In _ _ Hl)].
  apply H; try assumption; apply (elements_prune p t); assumption.
Qed.

Lemma language_first_map_tree (f : element -> element) (t : node) :
  (forall e, uid (f e) = uid e) ->
  (forall i e, In e (elements t) -> has_id i (f e) = has_id i e) ->
  language_first t -> language_first (map_tree f t).
Proof.
  intros Hu Hid H b l Hb Hl Hidb Hidl.
  rewrite elements_map_tree in Hb, Hl.
  apply in_map_iff in Hb as (b0 & <- & Hb), Hl as (l0 & <- & Hl).
  rewrite first_child_map_tree, !Hu by exact Hu.
  rewrite Hid in Hidb, Hidl by assumption. exact (H b0 l0 Hb Hl Hidb Hidl).
Qed.

(** A move leaves a well-formed document well formed. *)
Lemma moved_wf (f u : nat) (n x : node) :
  wf n -> find_node u n = Some x -> uid (elem n) <> u ->
  In f (uids n) -> ~ In f (uids x) ->
  wf (add_child f 0 x (prune (has_uid u) n)).
Proof.
  intros Hwf Hfind Hroot Hf Hcycle.
  apply In_uids in Hf as (ef & Hef & Hf).
  destruct (edges_moved f u n x ef Hwf Hfind Hroot Hef Hf Hcycle)
    as (q & l & rest & _ & Hold & Hnew).
  apply (wf_edges None). apply (wf_edges None) in Hwf.
  apply (Permutation_map (fun y => uid (snd y))) in Hold, Hnew.
  cbn in Hold, Hnew.
  apply (Permutation_NoDup (Permutation_sym Hnew)).
  exact (Permutation_NoDup Hold Hwf).
Qed.

Lemma select_head (q : element -> bool) (t : node) (u : nat) (us : list nat) :
  select q t = u :: us -> exists e, In e (elements t) /\ q e = true /\ uid e = u.
Proof. intros H. apply select_In. rewrite H. left. reflexivity. Qed.

Lemma select_empty (q : element -> bool) (t : node) (e : element) :
  select q t = [] -> In e (elements t) -> q e = false.
Proof.
  intros H He. destruct (q e) eqn:Hq; [|reflexivity].
  assert (Hin : In (uid e) (select q t)) by (apply select_In; exists e; auto).
  rewrite H in Hin. contradiction.
Qed.

(** the first statement of [strip_page], lines 62-65 *)
Definition relocate (root : node) : result node :=
  match cssselect_id "p-lang" root, cssselect_id "bodyContent" root with
  | p :: _, b :: _ => insert_first b p root
  | _, _ => Ok root
  end.

Lemma relocate_result (root t0 : node) :
  wf root -> relocate root = Ok t0 ->
  wf t0 /\ elem t0 = elem root /\
  (forall e, In e (elements t0) -> In e (elements root)) /\
  (at_most_one (has_id "p-lang") root -> at_most_one (has_id "bodyContent") root ->
   language_first t0).
Proof.
  intros Hwf H. unfold relocate, cssselect_id in H.
  destruct (select (has_id "p-lang") root) as [|P ps] eqn:HP.
  { injection H as <-. repeat split; auto.
    intros _ _ b l _ Hl _ Hidl. rewrite (select_empty _ _ l HP Hl) in Hidl.
    discriminate. }
  destruct (select (has_id "bodyContent") root) as [|B bs] eqn:HB.
  { injection H as <-. repeat split; auto.
    intros _ _ b l Hb _ Hidb _. rewrite (select_empty _ _ b HB Hb) in Hidb.
    discriminate. }
  destruct (select_head _ _ _ _ HP) as (eP & HeP & HidP & HuP).
  destruct (select_head _ _ _ _ HB) as (eB & HeB & HidB & HuB).
  unfold insert_first in H.
  destruct (find_node_found P root) as [x Hfind];
    [rewrite <- HuP; exact (uids_elements_In _ _ HeP)|].
  rewrite Hfind in H.
  destruct (existsb (Nat.eqb B) (uids x)) eqn:Hcycle; [discriminate|].
  injection H as <-. apply (mem_uid_false B (uids x)) in Hcycle.
  assert (HBin : In B (uids root)) by (rewrite <- HuB; exact (uids_elements_In _ _ HeB)).
  assert (Hroot : uid (elem root) <> P).
  { intros E. apply Nat.eqb_eq in E. rewrite (find_node_root P root E) in Hfind.
    injection Hfind as <-. contradiction. }
  split; [exact (moved_wf B P root x Hwf Hfind Hroot HBin Hcycle)|].
  split; [rewrite elem_add_child, elem_prune; reflexivity|].
  split; [intros e; exact (elements_moved B P 0 root x e Hfind)|].
  intros HoneP HoneB b l Hb Hl Hidb Hidl.
  apply (elements_moved B P 0 root x b Hfind) in Hb.
  apply (elements_moved B P 0 root x l Hfind) in Hl.
  rewrite (HoneB b eB Hb HeB Hidb HidB), (HoneP l eP Hl HeP Hidl HidP), HuB.
  replace (uid eP) with (uid (elem x))
    by (rewrite (find_node_uid P root x Hfind); symmetry; exact HuP).
  apply first_child_add_first.
  exact (prune_uid_keeps P B root x Hwf Hfind Hroot HBin Hcycle).
Qed.

Lemma strip_page_relocate (root : node) :
  strip_page root =
  (t0 <- relocate root ;;
   t0' <- for_each remove_from_parent (select is_chrome t0) t0 ;;
   Ok (strip_elements is_script (strip_elements is_comment t0'))).
Proof. reflexivity. Qed.

Lemma strip_page_result (root t1 : node) :
  wf root -> strip_page root = Ok t1 ->
  wf t1 /\ elem t1 = elem root /\
  (forall e, In e (elements t1) -> In e (elements root)) /\
  (forall e, In e (elements t1) -> is_chrome e = false) /\
  (forall e, In e (flat_map elements (children t1)) ->
             is_comment (tag e) = false /\ is_script (tag e) = false) /\
  (at_most_one (has_id "p-lang") root -> at_most_one (has_id "bodyContent") root ->
   language_first t1).
Proof.
  intros Hwf H. rewrite strip_page_relocate in H.
  destruct (relocate root) as [t0|] eqn:Hrel; [|discriminate]. cbn [bind] in H.
  destruct (relocate_result root t0 Hwf Hrel) as (Hwf0 & Hroot0 & Hsub0 & Hlang0).
  destruct (for_each remove_from_parent (select is_chrome t0) t0) as [t0'|] eqn:Hrm;
    [|discriminate].
  cbn [bind] in H. injection H as <-.
  apply for_each_remove_Ok in Hrm as [Hnotroot ->].
  unfold strip_elements. rewrite !prune_prune.
  set (p := fun e => mem_uid (uid e) (select is_chrome t0)
                     || (is_comment (tag e) || is_script (tag e))).
  assert (Hkept : forall y, In y (edges None (prune p t0)) ->
                            y = (None, elem t0) \/ p (snd y) = false)
    by (intros y; apply edges_prune_kept).
  split; [exact (prune_wf p t0 Hwf0)|].
  split; [rewrite elem_prune; exact Hroot0|].
  split; [intros e He; exact (Hsub0 e (elements_prune p t0 e He))|].
  split; [|split].
  - intros e He. assert (He0 := elements_prune p t0 e He).
    rewrite <- (select_mem is_chrome t0 e Hwf0 He0).
    rewrite <- (edges_snd None) in He. apply in_map_iff in He as (y & <- & Hy).
    destruct (Hkept y Hy) as [->|Hp].
    + apply mem_uid_false. exact Hnotroot.
    + unfold p in Hp. apply orb_false_iff in Hp as [Hp _]. exact Hp.
  - intros e He. apply edges_below_root in He as (q & Hq).
    destruct (Hkept _ Hq) as [E|Hp]; [discriminate|].
    unfold p in Hp. cbn [snd] in Hp. apply orb_false_iff in Hp as [_ Hp].
    apply orb_false_iff in Hp. exact Hp.
  - intros HoneP HoneB. apply language_first_prune; [exact Hwf0|].
    exact (Hlang0 HoneP HoneB).
Qed.

(** *** [fix_layout] *)

(** what the two loops of [fix_layout] do to one element *)
Definition layout_element (e : element) : element :=
  let e' := if has_id "content" e then set "style" "margin: 0" e else e in
  if has_id "footer" e' then set "style" "margin: 0" e' else e'.

Lemma uid_set (k v : string) (e : element) : uid (set k v e) = uid e.
Proof. reflexivity. Qed.

Lemma has_id_set (i k v : string) (e : element) :
  k <> "id" -> has_id i (set k v e) = has_id i e.
Proof.
  intros Hk. unfold has_id, attr_is, is_element. cbn [tag set].
  rewrite get_set_other by exact Hk. reflexivity.
Qed.

Lemma uid_layout_element (e : element) : uid (layout_element e) = uid e.
Proof.
  unfold layout_element.
  destruct (has_id "content" e); destruct (has_id "footer" _); reflexivity.
Qed.

Lemma fix_layout_map_tree (t : node) :
  wf t -> fix_layout t = map_tree layout_element t.
Proof.
  intros Hwf. unfold fix_layout, cssselect_id.
  rewrite (for_select_update _ _ _ Hwf (uid_set "style" "margin: 0")).
  rewrite for_select_update.
  - rewrite map_tree_map_tree. reflexivity.
  - unfold wf. rewrite uids_map_tree; [exact Hwf|].
    intros e. destruct (has_id "content" e); reflexivity.
  - apply uid_set.
Qed.

Lemma has_id_layout_element (i : string) (e : element) :
  has_id i (layout_element e) = has_id i e.
Proof.
  unfold layout_element.
  destruct (has_id "content" e); destruct (has_id "footer" _);
    rewrite ?has_id_set by discriminate; reflexivity.
Qed.

(** [fix_layout] has nothing to do on an element *)
Definition layout_done (e : element) : Prop :=
  has_id "content" e || has_id "footer" e = true ->
  get "style" e = Some "margin: 0".

Lemma layout_done_fixed (e : element) : layout_done e -> layout_element e = e.
Proof.
  unfold layout_done, layout_element. intros H.
  destruct (has_id "content" e) eqn:Hc.
  - rewrite (set_same _ _ _ (H eq_refl)).
    destruct (has_id "footer" e); [exact (set_same _ _ _ (H eq_refl))|reflexivity].
  - destruct (has_id "footer" e) eqn:Hf; [|reflexivity].
    exact (set_same _ _ _ (H eq_refl)).
Qed.

Lemma layout_done_layout_element (e : element) : layout_done (layout_element e).
Proof.
  unfold layout_done. rewrite !has_id_layout_element. intros H.
  unfold layout_element.
  destruct (has_id "content" e) eqn:Hc.
  - destruct (has_id "footer" (set "style" "margin: 0" e)); apply get_set_same.
  - cbn in H. rewrite H. apply get_set_same.
Qed.

(** *** [fix_footer] *)

Lemma moved_elements (f u : nat) (n x : node) :
  wf n -> find_node u n = Some x -> uid (elem n) <> u ->
  In f (uids n) -> ~ In f (uids x) ->
  Permutation (elements (add_child f 0 x (prune (has_uid u) n))) (elements n).
Proof.
  intros Hwf Hfind Hroot Hf Hcycle.
  apply In_uids in Hf as (ef & Hef & Hf).
  destruct (edges_moved f u n x ef Hwf Hfind Hroot Hef Hf Hcycle)
    as (q & l & rest & _ & Hold & Hnew).
  rewrite <- !(edges_snd None).
  apply (Permutation_map snd) in Hold, Hnew. cbn in Hold, Hnew.
  exact (Permutation_trans Hnew (Permutation_sym Hold)).
Qed.

Lemma moved_first_child (f u B P : nat) (n x : node) :
  wf n -> first_child B P n = true -> find_node u n = Some x ->
  uid (elem n) <> u -> u <> P -> f <> B ->
  In f (uids n) -> ~ In f (uids x) ->
  first_child B P (add_child f 0 x (prune (has_uid u) n)) = true.
Proof.
  intros Hwf H Hfind Hroot HuP HfB Hf Hcycle.
  destruct (first_child_detach u B P n x Hwf H Hfind HuP) as [Hx|Hn].
  - apply first_child_add_inside; [|exact Hx].
    exact (prune_uid_keeps u f n x Hwf Hfind Hroot Hf Hcycle).
  - apply first_child_add_other; assumption.
Qed.

Lemma is_stylesheet_link_not_link (q : option element) (e : element) :
  is_tag "link" e = false -> is_stylesheet_link (q, e) = false.
Proof.
  intros H. unfold is_stylesheet_link. cbn. rewrite H.
  rewrite andb_false_r. reflexivity.
Qed.

Lemma moved_links (f u : nat) (n x : node) :
  wf n -> find_node u n = Some x -> uid (elem n) <> u ->
  In f (uids n) -> ~ In f (uids x) -> is_tag "link" (elem x) = false ->
  Permutation
    (filter is_stylesheet_link (edges None (add_child f 0 x (prune (has_uid u) n))))
    (filter is_stylesheet_link (edges None n)).
Proof.
  intros Hwf Hfind Hroot Hf Hcycle Hlink.
  apply In_uids in Hf as (ef & Hef & Hf).
  destruct (edges_moved f u n x ef Hwf Hfind Hroot Hef Hf Hcycle)
    as (q & l & rest & _ & Hold & Hnew).
  apply (Permutation_filter_same is_stylesheet_link) in Hold, Hnew.
  cbn [filter] in Hold, Hnew.
  rewrite (is_stylesheet_link_not_link (Some q) _ Hlink) in Hold.
  rewrite (is_stylesheet_link_not_link (Some ef) _ Hlink) in Hnew.
  exact (Permutation_trans Hnew (Permutation_sym Hold)).
Qed.

Definition br_element (u : nat) : element :=
  mkElement u (Tag "br") [] EmptyString EmptyString.

Lemma added_br_edges (f i u : nat) (n : node) (ef : element) :
  wf n -> In ef (elements n) -> uid ef = f ->
  Permutation (edges None (add_child f i (new_element u "br") n))
              (edges None n ++ [(Some ef, br_element u)]).
Proof. intros Hwf Hef Hf. exact (edges_add_child f i _ n None ef Hwf Hef Hf). Qed.

(** what one turn of the loop of [fix_footer] does, when it does not raise *)
Lemma fix_footer_body_Ok (u : nat) (t t' : node) :
  wf t -> In u (uids t) -> fix_footer_body u t = Ok t' ->
  exists f x ef,
    let tl := map_tree (to_list_item u) t in
    let tm := add_child f 0 x (prune (has_uid u) tl) in
    In ef (elements tl) /\ has_id "footer-info" ef = true /\ uid ef = f /\
    find_node u tl = Some x /\ ~ In f (uids x) /\ uid (elem tl) <> u /\
    wf tl /\ wf tm /\
    t' = add_child f 3 (new_element (fresh tm) "br") tm.
Proof.
  intros Hwf Hu H. unfold fix_footer_body in H.
  rewrite update_to_list_item in H. set (tl := map_tree (to_list_item u) t) in *.
  assert (Hwfl : wf tl)
    by (unfold wf, tl; rewrite (uids_map_tree _ _ (uid_to_list_item u)); exact Hwf).
  assert (Hul : In u (uids tl))
    by (unfold tl; rewrite (uids_map_tree _ _ (uid_to_list_item u)); exact Hu).
  unfold cssselect_id in H.
  destruct (select (has_id "footer-info") tl) as [|f fs] eqn:Hsel; [discriminate|].
  destruct (select_head _ _ _ _ Hsel) as (ef & Hef & Hid & Hf).
  unfold insert_first in H. destruct (find_node_found u tl Hul) as [x Hfind].
  rewrite Hfind in H.
  destruct (existsb (Nat.eqb f) (uids x)) eqn:Hcycle; [discriminate|].
  apply (mem_uid_false f (uids x)) in Hcycle. cbn [bind] in H. injection H as <-.
  assert (Hfl : In f (uids tl)) by (rewrite <- Hf; exact (uids_elements_In _ _ Hef)).
  assert (Hroot : uid (elem tl) <> u).
  { intros E. apply Nat.eqb_eq in E. rewrite (find_node_root u tl E) in Hfind.
    injection Hfind as <-. contradiction. }
  exists f, x, ef. cbn zeta. repeat split; try assumption.
  exact (moved_wf f u tl x Hwfl Hfind Hroot Hfl Hcycle).
Qed.

(** ** A second run *)

Section Rerun.

Variable unquote : string -> string.
Variable wiki : ArchWiki.
Variable relbase : string.

(** [update_links] has nothing to set on an element *)
Definition links_done (e : element) : Prop :=
  written unquote wiki relbase e = None.

(** the head has one stylesheet link, which is the local one *)
Definition one_stylesheet (t : node) : Prop :=
  exists x0,
    filter is_stylesheet_link (edges None t) = [x0] /\
    get "href" (snd x0) = Some (css_href relbase).

(** what the steps before [fix_footer] have established, with what is known
    of the print footers in [F] *)
Definition kept (F : element -> Prop) (t : node) : Prop :=
  wf t /\
  (forall e, In e (elements t) ->
             is_chrome e = false /\ layout_done e /\ links_done e /\ F e) /\
  (forall e, In e (flat_map elements (children t)) ->
             is_comment (tag e) = false /\ is_script (tag e) = false) /\
  one_stylesheet t.

(** a document on which the steps have nothing to do, but for the move of
    the language block *)
Definition tidy (t : node) : Prop :=
  kept (fun e => is_printfooter e = false) t.

(** a document on which no step has anything to do *)
Definition settled (t : node) : Prop := tidy t /\ language_first t.

(** After the move of the language block, [strip_page] has nothing to delete
    in a tidy document. *)
Lemma tidy_strip_page (t t0 : node) :
  tidy t -> relocate t = Ok t0 ->
  (forall e, In e (elements t0) -> In e (elements t)) ->
  (forall e, In e (flat_map elements (children t0)) ->
             In e (flat_map elements (children t))) ->
  strip_page t = Ok t0.
Proof.
  intros (Hwf & Hel & Hbelow & _) Hrel Hsub Hsubc. rewrite strip_page_relocate.
  rewrite Hrel. cbn [bind].
  replace (select is_chrome t0) with (@nil nat).
  2:{ symmetry. unfold select. rewrite filter_none; [reflexivity|].
      intros e He. exact (proj1 (Hel e (Hsub e He))). }
  cbn [for_each bind]. unfold strip_elements.
  rewrite (prune_nothing (fun e => is_comment (tag e)) t0)
    by (intros e He; exact (proj1 (Hbelow e (Hsubc e He)))).
  rewrite (prune_nothing (fun e => is_script (tag e)) t0)
    by (intros e He; exact (proj2 (Hbelow e (Hsubc e He)))).
  reflexivity.
Qed.

Lemma settled_strip_page (t : node) : settled t -> strip_page t = Ok t.
Proof.
  intros [Htidy Hlang]. apply (tidy_strip_page t t Htidy); auto.
  destruct Htidy as (Hwf & _). unfold relocate, cssselect_id.
  destruct (select (has_id "p-lang") t) as [|P ps] eqn:HP; [reflexivity|].
  destruct (select (has_id "bodyContent") t) as [|B bs] eqn:HB; [reflexivity|].
  destruct (select_head _ _ _ _ HP) as (eP & HeP & HidP & <-).
  destruct (select_head _ _ _ _ HB) as (eB & HeB & HidB & <-).
  apply insert_first_first_child; [exact Hwf|].
  exact (Hlang eB eP HeB HeP HidB HidP).
Qed.

Lemma tidy_fix_layout (t : node) : tidy t -> fix_layout t = t.
Proof.
  intros (Hwf & Hel & _). rewrite (fix_layout_map_tree t Hwf).
  apply map_tree_id. intros e He. apply layout_done_fixed.
  exact (proj1 (proj2 (Hel e He))).
Qed.

Lemma tidy_replace_css_links (t : node) :
  tidy t -> replace_css_links relbase t = Ok t.
Proof.
  intros (Hwf & _ & _ & x0 & Hone & Hhref).
  unfold replace_css_links, xpath_stylesheet_links. rewrite Hone. cbn [map for_each].
  f_equal. unfold update. apply map_tree_id. intros e He.
  destruct (Nat.eqb_spec (uid e) (uid (snd x0))) as [E|_]; [|reflexivity].
  assert (Hx0 : In (snd x0) (elements t)).
  { assert (Hin : In x0 [x0]) by (left; reflexivity).
    rewrite <- Hone in Hin. apply filter_In in Hin as [Hin _].
    apply (in_map snd) in Hin. rewrite edges_snd in Hin. exact Hin. }
  rewrite (wf_uid_injective t e (snd x0) Hwf He Hx0 E).
  exact (set_same _ _ _ Hhref).
Qed.

Lemma tidy_update_links (t : node) :
  tidy t -> update_links unquote wiki relbase t = mkOutcome t None.
Proof.
  intros (Hwf & Hel & _). apply update_links_quiet; [exact Hwf|].
  intros e He. exact (proj1 (proj2 (proj2 (Hel e He)))).
Qed.

Lemma tidy_fix_footer (t : node) : tidy t -> fix_footer t = Ok t.
Proof.
  intros (_ & Hel & _). unfold fix_footer.
  replace (select is_printfooter t) with (@nil nat); [reflexivity|].
  symmetry. unfold select. rewrite filter_none; [reflexivity|].
  intros e He. exact (proj2 (proj2 (proj2 (Hel e He)))).
Qed.

(** On a document that [strip_page] leaves tidy, the other steps change
    nothing. *)
Lemma tidy_transform (t t0 : node) :
  strip_page t = Ok t0 -> tidy t0 -> transform unquote wiki relbase t = Ok t0.
Proof.
  intros H1 H. unfold transform. rewrite H1. cbn [bind].
  rewrite (tidy_fix_layout t0 H).
  rewrite (tidy_replace_css_links t0 H). cbn [bind].
  rewrite (tidy_update_links t0 H). cbn [completed raised after bind].
  exact (tidy_fix_footer t0 H).
Qed.

(** On a settled document, every step succeeds and changes nothing. *)
Lemma settled_transform (t : node) :
  settled t -> transform unquote wiki relbase t = Ok t.
Proof.
  intros H. exact (tidy_transform t t (settled_strip_page t H) (proj1 H)).
Qed.

End Rerun.

(** *** Elements that differ in some attribute values only *)

(** [e'] is [e] up to the values of the attributes in [ks] *)
Definition same_but (ks : list string) (e e' : element) : Prop :=
  uid e' = uid e /\ tag e' = tag e /\
  forall k, ~ In k ks -> get k e' = get k e.

Lemma same_but_refl (ks : list string) (e : element) : same_but ks e e.
Proof. repeat split. Qed.

Lemma same_but_set (ks : list string) (k v : string) (e : element) :
  In k ks -> same_but ks e (set k v e).
Proof.
  intros Hk. repeat split. intros k' Hk'. apply get_set_other.
  intros E. subst k'. contradiction.
Qed.

Lemma same_but_trans (ks : list string) (e1 e2 e3 : element) :
  same_but ks e1 e2 -> same_but ks e2 e3 -> same_but ks e1 e3.
Proof.
  intros (Hu & Ht & Hg) (Hu' & Ht' & Hg'). repeat split; try congruence.
  intros k Hk. rewrite (Hg' k Hk). exact (Hg k Hk).
Qed.

Lemma same_but_more (ks ks' : list string) (e e' : element) :
  incl ks ks' -> same_but ks e e' -> same_but ks' e e'.
Proof.
  intros Hi (Hu & Ht & Hg). repeat split; try assumption.
  intros k Hk. apply Hg. intros Hin. exact (Hk (Hi k Hin)).
Qed.

Lemma same_but_has_id (ks : list string) (i : string) (e e' : element) :
  ~ In "id" ks -> same_but ks e e' -> has_id i e' = has_id i e.
Proof.
  intros Hk (_ & Ht & Hg). unfold has_id, is_element, attr_is.
  rewrite Ht, (Hg "id" Hk). reflexivity.
Qed.

Lemma same_but_is_chrome (ks : list string) (e e' : element) :
  ~ In "id" ks -> same_but ks e e' -> is_chrome e' = is_chrome e.
Proof.
  intros Hk H. unfold is_chrome. rewrite !(same_but_has_id ks _ e e' Hk H).
  reflexivity.
Qed.

Lemma same_but_is_tag (ks : list string) (t : string) (e e' : element) :
  same_but ks e e' -> is_tag t e' = is_tag t e.
Proof. intros (_ & Ht & _). unfold is_tag. rewrite Ht. reflexivity. Qed.

Lemma same_but_is_printfooter (ks : list string) (e e' : element) :
  ~ In "class" ks -> same_but ks e e' -> is_printfooter e' = is_printfooter e.
Proof.
  intros Hk H. unfold is_printfooter, has_class.
  rewrite (same_but_is_tag ks "div" e e' H).
  destruct H as (_ & Ht & Hg). unfold is_element. rewrite Ht, (Hg "class" Hk).
  reflexivity.
Qed.

Lemma same_but_layout_done (ks : list string) (e e' : element) :
  ~ In "id" ks -> ~ In "style" ks -> same_but ks e e' ->
  layout_done e -> layout_done e'.
Proof.
  intros Hid Hstyle H Hdone. unfold layout_done in *.
  rewrite !(same_but_has_id ks _ e e' Hid H).
  destruct H as (_ & _ & Hg). rewrite (Hg "style" Hstyle). exact Hdone.
Qed.

Lemma same_but_stylesheet_link (ks : list string) (f : element -> element)
      (x : option element * element) :
  ~ In "rel" ks ->
  (forall q, fst x = Some q -> same_but ks q (f q)) -> same_but ks (snd x) (f (snd x)) ->
  is_stylesheet_link (option_map f (fst x), f (snd x)) = is_stylesheet_link x.
Proof.
  intros Hk Hq He. destruct x as [q e]. unfold is_stylesheet_link, attr_is. cbn in *.
  rewrite (same_but_is_tag ks "link" e (f e) He).
  destruct He as (_ & _ & Hg). rewrite (Hg "rel" Hk).
  destruct q as [q|]; [|reflexivity]. cbn.
  rewrite (same_but_is_tag ks "head" q (f q) (Hq q eq_refl)). reflexivity.
Qed.

Lemma same_but_layout_element (e : element) :
  same_but ["style"] e (layout_element e).
Proof.
  unfold layout_element.
  destruct (has_id "content" e); destruct (has_id "footer" _);
    repeat first [apply same_but_refl
                 | eapply same_but_trans;
                   [|apply same_but_set; left; reflexivity]].
Qed.

Section RewrittenLinks.

Variable unquote : string -> string.
Variable wiki : ArchWiki.
Variable relbase : string.

Lemma same_but_update_element (e : element) :
  same_but ["href"; "src"] e (update_element unquote wiki relbase e).
Proof.
  unfold update_element. eapply same_but_trans.
  - instantiate (1 := if is_tag "a" e then rewritten_anchor unquote wiki relbase e else e).
    destruct (is_tag "a" e); [|apply same_but_refl].
    unfold rewritten_anchor. destruct (get "href" e); [|apply same_but_refl].
    destruct (new_href _ _ _ _); [|apply same_but_refl].
    apply same_but_set. left. reflexivity.
  - destruct (is_tag "img" _); [|apply same_but_refl].
    unfold rewritten_image. destruct (get "src" _); [|apply same_but_refl].
    destruct (new_src _ _); [|apply same_but_refl].
    apply same_but_set. right. left. reflexivity.
Qed.

(** The local file names are not internal links, and the relative base is a
    relative path. *)
Hypothesis local_not_internal :
  forall g1 g2,
    Re.internal_link (strip_origin (unquote (local_href wiki relbase g1 g2))) = None.
Hypothesis relbase_relative : Str.startswith "/" relbase = false.

Lemma startswith_slash_images (s : string) :
  Str.startswith "/" s = false -> Str.startswith "/images/" s = false.
Proof.
  destruct s as [|c s]; [reflexivity|]. cbn. intros H.
  rewrite andb_true_r in H. rewrite H. reflexivity.
Qed.

Lemma new_src_joined (b : string) :
  Str.startswith "/" b = false -> new_src relbase (Str.path_join relbase b) = None.
Proof.
  intros Hb. unfold new_src.
  replace (Str.startswith "/images/" (Str.path_join relbase b)) with false;
    [rewrite andb_false_r; reflexivity|].
  symmetry. apply startswith_slash_images. unfold Str.path_join. rewrite Hb.
  destruct relbase as [|c r]; [exact Hb|].
  destruct (negb (Str.truthy (String c r)) || Str.ends_with_slash (String c r));
    exact relbase_relative.
Qed.

Lemma new_src_settled (src src' : string) :
  new_src relbase src = Some src' -> new_src relbase src' = None.
Proof.
  unfold new_src at 1. destruct (Str.truthy src && Str.startswith "/images/" src);
    [|discriminate].
  intros [= <-]. apply new_src_joined. reflexivity.
Qed.

Lemma new_href_settled (href href' : string) :
  new_href unquote wiki relbase href = Some href' ->
  new_href unquote wiki relbase href' = None.
Proof.
  unfold new_href at 1.
  destruct (Re.internal_link (strip_origin (unquote href))) as [[g1 g2]|];
    [|discriminate].
  intros [= <-]. unfold new_href. rewrite local_not_internal. reflexivity.
Qed.

(** [update_links] has nothing more to set on an element that it has
    updated. *)
Lemma update_element_settled (e : element) :
  links_done unquote wiki relbase (update_element unquote wiki relbase e).
Proof.
  unfold links_done, written. destruct (is_tag "a" e) eqn:Ha.
  - rewrite (update_element_anchor _ _ _ e Ha).
    replace (is_tag "a" (rewritten_anchor unquote wiki relbase e)) with true
      by (unfold is_tag; rewrite tag_update_anchor; symmetry; exact Ha).
    unfold rewritten_anchor. destruct (get "href" e) as [href|] eqn:Hh.
    + destruct (new_href unquote wiki relbase href) as [href'|] eqn:Hn.
      * rewrite get_set_same. exact (new_href_settled href href' Hn).
      * rewrite Hh. exact Hn.
    + rewrite Hh. reflexivity.
  - destruct (is_tag "img" e) eqn:Hi.
    + rewrite (update_element_image _ _ _ e Hi).
      assert (Ht : forall t, is_tag t (rewritten_image relbase e) = is_tag t e).
      { intros t. unfold is_tag, rewritten_image. destruct (get "src" e); [|reflexivity].
        destruct (new_src _ _); reflexivity. }
      rewrite !Ht, Ha, Hi.
      unfold rewritten_image. destruct (get "src" e) as [src|] eqn:Hs.
      * destruct (new_src relbase src) as [src'|] eqn:Hn.
        -- rewrite get_set_same. exact (new_src_settled src src' Hn).
        -- rewrite Hs. exact Hn.
      * rewrite Hs. reflexivity.
    + rewrite (update_element_other unquote wiki relbase e Ha Hi), Ha, Hi.
      reflexivity.
Qed.

End RewrittenLinks.

(** *** The loop of [fix_footer] *)

Lemma get_to_list_item (k : string) (u : nat) (e : element) :
  k <> "class" -> get k (to_list_item u e) = get k e.
Proof.
  intros Hk. unfold to_list_item. destruct (Nat.eqb (uid e) u); [|reflexivity].
  unfold get. cbn. apply attr_get_pop_other. intros E. apply Hk. symmetry. exact E.
Qed.

Lemma is_tag_to_list_item (t : string) (u : nat) (e : element) :
  (uid e = u -> is_tag "div" e = true) -> t <> "div" -> t <> "li" ->
  is_tag t (to_list_item u e) = is_tag t e.
Proof.
  intros Hdiv Hd Hl. unfold to_list_item.
  destruct (Nat.eqb_spec (uid e) u) as [E|_]; [|reflexivity].
  specialize (Hdiv E). unfold is_tag in *. cbn.
  destruct (tag e) as [name|]; [|discriminate].
  apply String.eqb_eq in Hdiv. subst name.
  destruct (String.eqb_spec "li" t); [congruence|].
  destruct (String.eqb_spec "div" t); [congruence|reflexivity].
Qed.

Lemma is_printfooter_div (e : element) :
  is_printfooter e = true -> is_tag "div" e = true.
Proof. unfold is_printfooter. intros H. apply andb_true_iff in H as [H _]. exact H. Qed.

Lemma is_chrome_to_list_item (u : nat) (e : element) :
  (uid e = u -> is_tag "div" e = true) ->
  is_chrome (to_list_item u e) = is_chrome e.
Proof.
  intros Hdiv. unfold is_chrome. rewrite !has_id_to_list_item; [reflexivity| | | |];
    intros E; apply Nat.eqb_eq in E; exact (is_tag_is_element _ _ (Hdiv E)).
Qed.

Lemma is_printfooter_to_list_item (u : nat) (e : element) :
  is_printfooter (to_list_item u e) =
  if Nat.eqb (uid e) u then false else is_printfooter e.
Proof. unfold to_list_item. destruct (Nat.eqb (uid e) u); reflexivity. Qed.

Lemma tag_to_list_item (u : nat) (e : element) :
  tag (to_list_item u e) = if Nat.eqb (uid e) u then Tag "li" else tag e.
Proof. unfold to_list_item. destruct (Nat.eqb (uid e) u); reflexivity. Qed.

Lemma layout_done_to_list_item (u : nat) (e : element) :
  (uid e = u -> is_tag "div" e = true) ->
  layout_done e -> layout_done (to_list_item u e).
Proof.
  intros Hdiv H. unfold layout_done in *.
  rewrite !has_id_to_list_item, get_to_list_item; [exact H|discriminate| |];
    intros E; apply Nat.eqb_eq in E; exact (is_tag_is_element _ _ (Hdiv E)).
Qed.

Lemma has_id_br (i : string) (u : nat) : has_id i (br_element u) = false.
Proof. reflexivity. Qed.

Lemma elements_tail (t : node) (e : element) :
  In e (elements t) -> uid e <> uid (elem t) -> In e (flat_map elements (children t)).
Proof.
  destruct t as [e0 cs]. rewrite elements_Node. cbn [elem children].
  intros [E|H] Hne; [congruence|exact H].
Qed.

Lemma children_elements (t : node) (e : element) :
  In e (flat_map elements (children t)) -> In e (elements t).
Proof. apply elements_children. Qed.

(** what one turn of the loop leaves of a document: its elements, with the
    print footer turned into a list item and a line break added, and its
    stylesheet links *)
Lemma fix_footer_body_result (u : nat) (t t' : node) :
  wf t ->
  (forall e, In e (elements t) -> uid e = u -> is_tag "div" e = true) ->
  In u (uids t) ->
  fix_footer_body u t = Ok t' ->
  wf t' /\ uid (elem t') = uid (elem t) /\
  (forall e', In e' (elements t') ->
              (exists v, e' = br_element v) \/
              exists e, In e (elements t) /\ e' = to_list_item u e) /\
  (forall e, In e (elements t) -> In (to_list_item u e) (elements t')) /\
  (forall x0, filter is_stylesheet_link (edges None t) = [x0] ->
              filter is_stylesheet_link (edges None t') =
              [(option_map (to_list_item u) (fst x0), to_list_item u (snd x0))]).
Proof.
  intros Hwf Hdiv Hut Hbody.
  destruct (fix_footer_body_Ok u t t' Hwf Hut Hbody)
    as (f & x & ef & Hef & Hidf & Hf & Hfind & Hcycle & Hroot & Hwfl & Hwfm & ->).
  set (tl := map_tree (to_list_item u) t) in *.
  set (tm := add_child f 0 x (prune (has_uid u) tl)) in *.
  set (br := new_element (fresh tm) "br").
  assert (Hfl : In f (uids tl)) by (rewrite <- Hf; exact (uids_elements_In _ _ Hef)).
  assert (Hpm : Permutation (elements tm) (elements tl))
    by exact (moved_elements f u tl x Hwfl Hfind Hroot Hfl Hcycle).
  assert (Hefm : In ef (elements tm))
    by exact (Permutation_in ef (Permutation_sym Hpm) Hef).
  assert (Hpe : Permutation (edges None (add_child f 3 br tm))
                            (edges None tm ++ [(Some ef, br_element (fresh tm))]))
    by exact (added_br_edges f 3 (fresh tm) tm ef Hwfm Hefm Hf).
  assert (Hel' : forall e', In e' (elements (add_child f 3 br tm)) ->
                   (exists v, e' = br_element v) \/
                   exists e, In e (elements t) /\ e' = to_list_item u e).
  { intros e' He'. rewrite <- (edges_snd None) in He'.
    apply (Permutation_in _ (Permutation_map snd Hpe)) in He'.
    rewrite map_app, edges_snd in He'. apply in_app_or in He' as [He'|[<-|[]]];
      [right|left; exists (fresh tm); reflexivity].
    apply (Permutation_in _ Hpm) in He'. unfold tl in He'.
    rewrite elements_map_tree in He'. apply in_map_iff in He' as (e & <- & He).
    exists e. auto. }
  assert (Hin' : forall e, In e (elements t) ->
                           In (to_list_item u e) (elements (add_child f 3 br tm))).
  { intros e He. rewrite <- (edges_snd None).
    apply (Permutation_in _ (Permutation_sym (Permutation_map snd Hpe))).
    rewrite map_app, edges_snd. apply in_or_app. left.
    apply (Permutation_in _ (Permutation_sym Hpm)). unfold tl.
    rewrite elements_map_tree. apply in_map. exact He. }
  assert (Hwf' : wf (add_child f 3 br tm)).
  { apply (wf_edges None).
    apply (Permutation_NoDup (Permutation_sym (Permutation_map (fun y => uid (snd y)) Hpe))).
    rewrite map_app, <- (uids_edges None). cbn [map snd uid br_element].
    apply NoDup_app; [exact Hwfm|repeat constructor; intros []|].
    intros v Hv [<-|[]]. exact (fresh_not_in tm Hv). }
  assert (Hroot' : uid (elem (add_child f 3 br tm)) = uid (elem t)).
  { rewrite elem_add_child. unfold tm. rewrite elem_add_child, elem_prune.
    unfold tl. destruct t as [e0 cs]. cbn. apply uid_to_list_item. }
  split; [exact Hwf'|]. split; [exact Hroot'|]. split; [exact Hel'|].
  split; [exact Hin'|]. intros x0 Hone.
  set (T := fun y : option element * element =>
              (option_map (to_list_item u) (fst y), to_list_item u (snd y))).
  assert (HT : forall y, In y (edges None t) ->
                         is_stylesheet_link (T y) = is_stylesheet_link y).
  { intros [q e] Hy.
    assert (He : In e (elements t))
      by (rewrite <- (edges_snd None); apply (in_map snd) in Hy; exact Hy).
    unfold T, is_stylesheet_link, attr_is. cbn [fst snd].
    rewrite (is_tag_to_list_item "link" u e (Hdiv e He)) by discriminate.
    rewrite get_to_list_item by discriminate.
    destruct q as [q|]; [|reflexivity]. cbn [option_map].
    destruct (edges_parent None t q e Hy) as [E|Hq]; [discriminate|].
    rewrite (is_tag_to_list_item "head" u q (Hdiv q Hq)) by discriminate.
    reflexivity. }
  assert (Hx0 : In x0 (edges None t)).
  { assert (Hin : In x0 [x0]) by (left; reflexivity).
    rewrite <- Hone in Hin. apply filter_In in Hin as [Hin _]. exact Hin. }
  assert (Hsel0 : is_stylesheet_link x0 = true).
  { assert (Hin : In x0 [x0]) by (left; reflexivity).
    rewrite <- Hone in Hin. apply filter_In in Hin as [_ Hin]. exact Hin. }
  assert (Honel : filter is_stylesheet_link (edges None tl) = [T x0]).
  { pose proof (edges_map_tree (to_list_item u) None t) as HE.
    cbn [option_map] in HE. unfold tl. rewrite HE.
    fold T. rewrite filter_map_swap.
    rewrite (filter_ext_in _ is_stylesheet_link (edges None t) HT), Hone.
    reflexivity. }
  assert (Hlinkx : is_tag "link" (elem x) = false).
  { assert (Hx : In (elem x) (elements tl))
      by exact (find_node_elements u tl x Hfind _ (elements_root x)).
    unfold tl in Hx. rewrite elements_map_tree in Hx.
    apply in_map_iff in Hx as (e & E & He).
    assert (Eu : uid e = u).
    { rewrite <- (uid_to_list_item u e), E. exact (find_node_uid u tl x Hfind). }
    rewrite <- E. unfold to_list_item. apply Nat.eqb_eq in Eu. rewrite Eu.
    reflexivity. }
  assert (Hpl : Permutation (filter is_stylesheet_link (edges None tm))
                            [T x0]).
  { rewrite <- Honel.
    exact (moved_links f u tl x Hwfl Hfind Hroot Hfl Hcycle Hlinkx). }
  apply (Permutation_filter_same is_stylesheet_link) in Hpe.
  rewrite filter_app in Hpe. cbn [filter] in Hpe.
  rewrite (is_stylesheet_link_not_link (Some ef) (br_element (fresh tm)) eq_refl),
    app_nil_r in Hpe.
  assert (Hfinal := Permutation_length_1_inv
                      (Permutation_sym (Permutation_trans Hpe Hpl))).
  exact Hfinal.
Qed.

Section FooterLoop.

Variable unquote : string -> string.
Variable wiki : ArchWiki.
Variable relbase : string.

(** what is known of an element while the print footers in [us] wait for
    their turn *)
Definition pending (us : list nat) (e : element) : Prop :=
  is_printfooter e = true -> In (uid e) us.

Definition footer_invariant (us : list nat) (t : node) : Prop :=
  kept unquote wiki relbase (pending us) t /\ NoDup us /\
  forall u, In u us ->
            exists e, In e (elements t) /\ uid e = u /\ is_printfooter e = true.

Lemma links_done_to_list_item (u : nat) (e : element) :
  (uid e = u -> is_tag "div" e = true) ->
  links_done unquote wiki relbase e ->
  links_done unquote wiki relbase (to_list_item u e).
Proof.
  intros Hdiv H. unfold to_list_item.
  destruct (Nat.eqb_spec (uid e) u) as [E|_]; [|exact H].
  reflexivity.
Qed.

Lemma footer_invariant_body (u : nat) (us : list nat) (t t' : node) :
  footer_invariant (u :: us) t -> fix_footer_body u t = Ok t' ->
  footer_invariant us t'.
Proof.
  intros ((Hwf & Hel & Hbelow & x0 & Hone & Hhref) & Hnd & Hpend) Hbody.
  destruct (Hpend u (or_introl eq_refl)) as (eu & Heu & Hueu & Hpf).
  assert (Hdiv : forall e, In e (elements t) -> uid e = u -> is_tag "div" e = true).
  { intros e He E. rewrite (wf_uid_injective t e eu Hwf He Heu) by congruence.
    exact (is_printfooter_div eu Hpf). }
  assert (Hut : In u (uids t)) by (rewrite <- Hueu; exact (uids_elements_In _ _ Heu)).
  destruct (fix_footer_body_result u t t' Hwf Hdiv Hut Hbody)
    as (Hwf' & Hroot' & Hel' & Hin' & Hsheet).
  split; [|split].
  - split; [exact Hwf'|]. split; [|split].
    + (* the elements *)
      intros e' He'. destruct (Hel' e' He') as [[v ->]|(e & He & ->)].
      { split; [reflexivity|]. split; [intros H; discriminate|].
        split; [reflexivity|]. intros H; discriminate. }
      destruct (Hel e He) as (Hc & Hl & Hd & Hp).
      split; [rewrite is_chrome_to_list_item; [exact Hc|exact (Hdiv e He)]|].
      split; [exact (layout_done_to_list_item u e (Hdiv e He) Hl)|].
      split; [exact (links_done_to_list_item u e (Hdiv e He) Hd)|].
      unfold pending. rewrite is_printfooter_to_list_item, uid_to_list_item.
      destruct (Nat.eqb_spec (uid e) u) as [E|Hne]; [discriminate|].
      intros H. destruct (Hp H) as [E|Hin]; [congruence|exact Hin].
    + (* below the root *)
      intros e' He'.
      assert (Hne := below_root_not_root _ e' Hwf' He').
      destruct (Hel' e' (children_elements _ e' He')) as [[v ->]|(e & He & ->)];
        [split; reflexivity|].
      rewrite Hroot', uid_to_list_item in Hne.
      destruct (Hbelow e (elements_tail t e He Hne)) as [Hcm Hsc].
      rewrite tag_to_list_item. destruct (Nat.eqb (uid e) u); auto.
    + (* the stylesheet *)
      exists (option_map (to_list_item u) (fst x0), to_list_item u (snd x0)).
      split; [exact (Hsheet x0 Hone)|].
      cbn [snd]. rewrite get_to_list_item by discriminate. exact Hhref.
  - inversion Hnd; assumption.
  - intros u' Hu'. destruct (Hpend u' (or_intror Hu')) as (e & He & E & Hp).
    exists (to_list_item u e). split; [exact (Hin' e He)|].
    rewrite uid_to_list_item. split; [exact E|].
    rewrite is_printfooter_to_list_item.
    replace (Nat.eqb (uid e) u) with false; [exact Hp|].
    symmetry. apply Nat.eqb_neq. inversion Hnd; subst. congruence.
Qed.

Lemma footer_invariant_loop (us : list nat) (t out : node) :
  footer_invariant us t -> for_each fix_footer_body us t = Ok out ->
  tidy unquote wiki relbase out.
Proof.
  revert t. induction us as [|u us IH]; intros t Hinv H.
  - cbn in H. injection H as <-.
    destruct Hinv as ((Hwf & Hel & Hbelow & Hone) & _ & _).
    split; [exact Hwf|]. split; [|split; assumption].
    intros e He. destruct (Hel e He) as (Hc & Hl & Hd & Hp).
    repeat split; try assumption. unfold pending in Hp.
    destruct (is_printfooter e); [destruct (Hp eq_refl)|reflexivity].
  - cbn in H. destruct (fix_footer_body u t) as [t'|] eqn:Hbody; [|discriminate].
    cbn [bind] in H. exact (IH t' (footer_invariant_body u us t t' Hinv Hbody) H).
Qed.

(** One turn of the loop on a print footer that is not the language block
    leaves the language block where it is. *)
Lemma language_first_body (u : nat) (t t' : node) :
  wf t ->
  (exists e, In e (elements t) /\ uid e = u /\ is_printfooter e = true) ->
  (forall l, In l (elements t) -> has_id "p-lang" l = true -> uid l <> u) ->
  language_first t -> fix_footer_body u t = Ok t' ->
  language_first t'.
Proof.
  intros Hwf (eu & Heu & Hueu & Hpf) Hnot Hlang Hbody.
  assert (Hdiv : forall e, In e (elements t) -> uid e = u -> is_tag "div" e = true).
  { intros e He E. rewrite (wf_uid_injective t e eu Hwf He Heu) by congruence.
    exact (is_printfooter_div eu Hpf). }
  assert (Hut : In u (uids t)) by (rewrite <- Hueu; exact (uids_elements_In _ _ Heu)).
  destruct (fix_footer_body_result u t t' Hwf Hdiv Hut Hbody)
    as (Hwf' & Hroot' & Hel' & Hin' & Hsheet).
  destruct (fix_footer_body_Ok u t t' Hwf Hut Hbody)
    as (f & x & ef & Hef & Hidf & Hf & Hfind & Hcycle & Hroot & Hwfl & Hwfm & ->).
  set (tl := map_tree (to_list_item u) t) in *.
  set (tm := add_child f 0 x (prune (has_uid u) tl)) in *.
  assert (Hfl : In f (uids tl)) by (rewrite <- Hf; exact (uids_elements_In _ _ Hef)).
  assert (Hlangl : language_first tl).
  { apply language_first_map_tree; [apply uid_to_list_item| |exact Hlang].
    intros i e He. apply has_id_to_list_item. intros E. apply Nat.eqb_eq in E.
    exact (is_tag_is_element _ _ (Hdiv e He E)). }
  intros b l Hb Hl Hidb Hidl.
  destruct (Hel' b Hb) as [[v ->]|(b0 & Hb0 & Eb)];
    [rewrite has_id_br in Hidb; discriminate|].
  destruct (Hel' l Hl) as [[v ->]|(l0 & Hl0 & El)];
    [rewrite has_id_br in Hidl; discriminate|].
  assert (Hbl : In b (elements tl))
    by (subst b; unfold tl; rewrite elements_map_tree; apply in_map; exact Hb0).
  assert (Hll : In l (elements tl))
    by (subst l; unfold tl; rewrite elements_map_tree; apply in_map; exact Hl0).
  assert (HfB : f <> uid b).
  { intros E. rewrite <- Hf in E.
    rewrite (wf_uid_injective tl ef b Hwfl Hef Hbl E) in Hidf.
    rewrite (has_id_other _ "footer-info" b Hidb) in Hidf; discriminate. }
  apply first_child_add_other; [exact HfB|].
  apply (moved_first_child f u (uid b) (uid l) tl x Hwfl);
    try assumption; [exact (Hlangl b l Hbl Hll Hidb Hidl)|].
  intros E. subst l. rewrite uid_to_list_item in E.
  rewrite has_id_to_list_item in Hidl
    by (intros E'; apply Nat.eqb_eq in E';
        exact (is_tag_is_element _ _ (Hdiv l0 Hl0 E'))).
  exact (Hnot l0 Hl0 Hidl (eq_sym E)).
Qed.

(** The loop leaves the language block where it is, when the block is not a
    print footer. *)
Lemma language_first_loop (us : list nat) (t out : node) :
  footer_invariant us t -> language_first t ->
  (forall l, In l (elements t) -> has_id "p-lang" l = true ->
             is_printfooter l = false) ->
  for_each fix_footer_body us t = Ok out ->
  language_first out.
Proof.
  revert t. induction us as [|u us IH]; intros t Hinv Hlang Hnpf H.
  - cbn in H. injection H as <-. exact Hlang.
  - cbn in H. destruct (fix_footer_body u t) as [t'|] eqn:Hbody; [|discriminate].
    cbn [bind] in H.
    assert (Hinv' := footer_invariant_body u us t t' Hinv Hbody).
    destruct Hinv as ((Hwf & _) & _ & Hpend).
    destruct (Hpend u (or_introl eq_refl)) as (eu & Heu & Hueu & Hpf).
    assert (Hdiv : forall e, In e (elements t) -> uid e = u -> is_tag "div" e = true).
    { intros e He E. rewrite (wf_uid_injective t e eu Hwf He Heu) by congruence.
      exact (is_printfooter_div eu Hpf). }
    assert (Hut : In u (uids t)) by (rewrite <- Hueu; exact (uids_elements_In _ _ Heu)).
    assert (Hnot : forall l, In l (elements t) -> has_id "p-lang" l = true -> uid l <> u).
    { intros l Hl Hid E.
      rewrite (wf_uid_injective t l eu Hwf Hl Heu) in Hid by congruence.
      rewrite (Hnpf eu Heu Hid) in Hpf. discriminate. }
    apply (IH t' Hinv'); [| |exact H].
    + apply (language_first_body u t t' Hwf); try assumption.
      exists eu. auto.
    + destruct (fix_footer_body_result u t t' Hwf Hdiv Hut Hbody)
        as (_ & _ & Hel' & _).
      intros l' Hl' Hid. destruct (Hel' l' Hl') as [[v ->]|(l & Hl & ->)];
        [reflexivity|].
      rewrite has_id_to_list_item in Hid
        by (intros E; apply Nat.eqb_eq in E;
            exact (is_tag_is_element _ _ (Hdiv l Hl E))).
      rewrite is_printfooter_to_list_item.
      destruct (Nat.eqb (uid l) u); [reflexivity|exact (Hnpf l Hl Hid)].
Qed.

End FooterLoop.

(** *** From a first run to a settled document *)

Lemma children_elements_map_tree (f : element -> element) (t : node) :
  flat_map elements (children (map_tree f t)) =
  map f (flat_map elements (children t)).
Proof.
  destruct t as [e cs]. cbn [map_tree children].
  rewrite flat_map_map, map_flat_map. apply flat_map_ext. intros c.
  apply elements_map_tree.
Qed.

Lemma children_elements_prune (p : element -> bool) (t : node) (e : element) :
  In e (flat_map elements (children (prune p t))) ->
  In e (flat_map elements (children t)).
Proof.
  destruct t as [e0 cs]. rewrite prune_Node. cbn [children]. intros H.
  apply in_flat_map in H as (c' & Hc' & He).
  apply in_flat_map in Hc' as (c & Hc & Hc').
  destruct (p (elem c)); [contradiction|]. destruct Hc' as [<-|[]].
  apply in_flat_map. exists c. split; [exact Hc|exact (elements_prune p c e He)].
Qed.

Lemma same_but_css (relbase : string) (first : nat) (e : element) :
  same_but ["href"]
    e (if Nat.eqb (uid e) first then set "href" (css_href relbase) e else e).
Proof.
  destruct (Nat.eqb (uid e) first); [|apply same_but_refl].
  apply same_but_set. left. reflexivity.
Qed.

Section FirstRun.

Variable unquote : string -> string.
Variable wiki : ArchWiki.
Variable relbase : string.

Hypothesis local_not_internal :
  forall g1 g2,
    Re.internal_link (strip_origin (unquote (local_href wiki relbase g1 g2))) = None.
Hypothesis relbase_relative : Str.startswith "/" relbase = false.

(** the document that the first four steps give to [fix_footer] *)
Lemma transform_footer_invariant (root out : node) :
  wf root ->
  transform unquote wiki relbase root = Ok out ->
  exists t1 t4,
    strip_page root = Ok t1 /\
    footer_invariant unquote wiki relbase (select is_printfooter t4) t4 /\
    fix_footer t4 = Ok out /\
    (language_first t1 -> language_first t4) /\
    (forall e4, In e4 (elements t4) ->
                exists e1, In e1 (elements t1) /\
                           same_but ["style"; "href"; "src"] e1 e4).
Proof.
  intros Hwf H. unfold transform in H.
  destruct (strip_page root) as [t1|] eqn:H1; [|discriminate]. cbn [bind] in H.
  destruct (strip_page_result root t1 Hwf H1)
    as (Hwf1 & _ & Hsub1 & Hchrome1 & Hbelow1 & _).
  rewrite (fix_layout_map_tree t1 Hwf1) in H.
  set (t2 := map_tree layout_element t1) in *.
  assert (Hwf2 : wf t2)
    by (unfold wf, t2; rewrite (uids_map_tree _ _ uid_layout_element); exact Hwf1).
  destruct (replace_css_links relbase t2) as [t3|] eqn:H3; [|discriminate].
  cbn [bind] in H.
  destruct (xpath_stylesheet_links t2) as [|first rest] eqn:Hx;
    [unfold replace_css_links in H3; rewrite Hx in H3; discriminate|].
  destruct (replace_css_links_result relbase t2 first rest Hwf2 Hx)
    as (Hrun & Hwf3 & _ & x0 & Hone3 & _ & Hhref3).
  rewrite Hrun in H3. injection H3 as E3.
  set (g := fun e => if Nat.eqb (uid e) first
                     then set "href" (css_href relbase) e else e) in *.
  change (update first (set "href" (css_href relbase)) t2) with (map_tree g t2) in *.
  set (p := fun e => mem_uid (uid e) rest) in *.
  assert (Hg : forall e, uid (g e) = uid e)
    by (intros e; exact (proj1 (same_but_css relbase first e))).
  assert (Hwf2g : wf (map_tree g t2))
    by (unfold wf; rewrite (uids_map_tree _ _ Hg); exact Hwf2).
  rewrite E3 in Hwf3, Hone3.
  apply (completed_update_links unquote wiki relbase t3 out fix_footer Hwf3) in H
    as [_ H].
  rewrite (update_links_map_tree _ _ _ t3 Hwf3) in H.
  set (U := update_element unquote wiki relbase) in *.
  set (t4 := map_tree U t3) in *.
  assert (HU : forall e, uid (U e) = uid e) by (intros e; apply uid_update_element).
  assert (Hwf4 : wf t4)
    by (unfold wf, t4; rewrite (uids_map_tree _ _ HU); exact Hwf3).
  (* where an element of the fourth document comes from *)
  assert (Horigin : forall e4, In e4 (elements t4) ->
            exists e1 e2 e3,
              In e1 (elements t1) /\ e2 = layout_element e1 /\ e3 = g e2 /\
              e4 = U e3 /\ In e3 (elements t3)).
  { intros e4 He4. unfold t4 in He4. rewrite elements_map_tree in He4.
    apply in_map_iff in He4 as (e3 & <- & He3).
    assert (He3' := He3). rewrite <- E3 in He3'.
    apply elements_prune in He3'. rewrite elements_map_tree in He3'.
    apply in_map_iff in He3' as (e2 & <- & He2).
    unfold t2 in He2. rewrite elements_map_tree in He2.
    apply in_map_iff in He2 as (e1 & <- & He1).
    exists e1, (layout_element e1), (g (layout_element e1)). auto. }
  assert (Hsame : forall e1,
            same_but ["href"; "src"] (layout_element e1) (U (g (layout_element e1))) /\
            same_but ["style"; "href"; "src"] e1 (U (g (layout_element e1)))).
  { intros e1.
    assert (H23 : same_but ["href"; "src"] (layout_element e1) (g (layout_element e1))).
    { apply (same_but_more ["href"]); [|apply same_but_css].
      intros k [<-|[]]. left. reflexivity. }
    assert (H24 := same_but_trans _ _ _ _ H23
                     (same_but_update_element unquote wiki relbase _)).
    split; [exact H24|].
    apply (same_but_trans _ _ (layout_element e1)).
    - apply (same_but_more ["style"]); [|apply same_but_layout_element].
      intros k [<-|[]]. left. reflexivity.
    - apply (same_but_more ["href"; "src"]); [|exact H24].
      intros k Hk. right. exact Hk. }
  exists t1, t4. split; [reflexivity|]. split; [|split; [exact H|split]].
  - split; [|split].
    + split; [exact Hwf4|]. split; [|split].
      * (* the elements *)
        intros e4 He4.
        destruct (Horigin e4 He4) as (e1 & e2 & e3 & He1 & -> & -> & -> & He3).
        destruct (Hsame e1) as [H24 H14].
        split; [|split; [|split]].
        -- assert (Hnid : ~ In "id" ["style"; "href"; "src"])
             by (intros [E|[E|[E|[]]]]; discriminate).
           rewrite (same_but_is_chrome _ _ _ Hnid H14). exact (Hchrome1 e1 He1).
        -- apply (same_but_layout_done ["href"; "src"] (layout_element e1));
             [intros [E|[E|[]]]; discriminate|intros [E|[E|[]]]; discriminate
             |exact H24|apply layout_done_layout_element].
        -- apply update_element_settled; assumption.
        -- intros Hp. apply select_In. exists (U (g (layout_element e1))). auto.
      * (* below the root *)
        intros e4 He4. unfold t4 in He4. rewrite children_elements_map_tree in He4.
        apply in_map_iff in He4 as (e3 & <- & He3). rewrite <- E3 in He3.
        apply children_elements_prune in He3.
        rewrite children_elements_map_tree in He3.
        apply in_map_iff in He3 as (e2 & <- & He2).
        unfold t2 in He2. rewrite children_elements_map_tree in He2.
        apply in_map_iff in He2 as (e1 & <- & He1).
        destruct (Hsame e1) as [_ (_ & Htag & _)]. fold U. rewrite Htag.
        exact (Hbelow1 e1 He1).
      * (* the stylesheet *)
        assert (Hsel0 : is_stylesheet_link x0 = true).
        { assert (Hin : In x0 [x0]) by (left; reflexivity).
          rewrite <- Hone3 in Hin. apply filter_In in Hin as [_ Hin]. exact Hin. }
        assert (Hlink : is_tag "link" (snd x0) = true).
        { unfold is_stylesheet_link in Hsel0.
          apply andb_true_iff in Hsel0 as [Hsel0 _].
          apply andb_true_iff in Hsel0 as [_ Hsel0]. exact Hsel0. }
        exists (option_map U (fst x0), U (snd x0)). split.
        -- pose proof (edges_map_tree U None t3) as HE. cbn [option_map] in HE.
           unfold t4. rewrite HE, filter_map_swap.
           rewrite (filter_ext _ is_stylesheet_link).
           { rewrite Hone3. reflexivity. }
           intros y. apply (same_but_stylesheet_link ["href"; "src"]).
           ++ intros [E|[E|[]]]; discriminate.
           ++ intros q _. apply same_but_update_element.
           ++ apply same_but_update_element.
        -- cbn [snd]. unfold U. rewrite update_element_other; [exact Hhref3| |].
           ++ apply (is_tag_exclusive "link"); [exact Hlink|discriminate].
           ++ apply (is_tag_exclusive "link"); [exact Hlink|discriminate].
    + exact (select_NoDup is_printfooter t4 Hwf4).
    + intros u Hu. apply select_In in Hu as (e & He & Hp & E). exists e. auto.
  - (* the language block *)
    intros Hlang1.
    apply language_first_map_tree; [exact HU| |].
    { intros i e _. apply (same_but_has_id ["href"; "src"]).
      - intros [E|[E|[]]]; discriminate.
      - apply same_but_update_element. }
    rewrite <- E3. apply language_first_prune; [exact Hwf2g|].
    apply language_first_map_tree; [exact Hg| |].
    { intros i e _. apply (same_but_has_id ["href"]).
      - intros [E|[]]; discriminate.
      - apply same_but_css. }
    apply language_first_map_tree; [exact uid_layout_element| |exact Hlang1].
    intros i e _. apply has_id_layout_element.
  - intros e4 He4.
    destruct (Horigin e4 He4) as (e1 & e2 & e3 & He1 & -> & -> & -> & He3).
    exists e1. split; [exact He1|exact (proj2 (Hsame e1))].
Qed.

(** When the five steps succeed, their result is tidy. *)
Lemma transform_tidy (root out : node) :
  wf root -> transform unquote wiki relbase root = Ok out ->
  tidy unquote wiki relbase out.
Proof.
  intros Hwf H.
  destruct (transform_footer_invariant root out Hwf H) as (t1 & t4 & _ & Hinv & H5 & _).
  exact (footer_invariant_loop unquote wiki relbase _ t4 out Hinv H5).
Qed.

Lemma transform_settled (root out : node) :
  wf root ->
  at_most_one (has_id "p-lang") root ->
  at_most_one (has_id "bodyContent") root ->
  (forall e, In e (elements root) -> has_id "p-lang" e = true ->
             is_printfooter e = false) ->
  transform unquote wiki relbase root = Ok out ->
  settled unquote wiki relbase out.
Proof.
  intros Hwf HoneP HoneB Hnpf H.
  destruct (transform_footer_invariant root out Hwf H)
    as (t1 & t4 & H1 & Hinv & H5 & Hlang & Hfrom).
  destruct (strip_page_result root t1 Hwf H1) as (_ & _ & Hsub1 & _ & _ & Hlang1).
  split; [exact (footer_invariant_loop unquote wiki relbase _ t4 out Hinv H5)|].
  apply (language_first_loop unquote wiki relbase _ t4 out Hinv);
    [exact (Hlang (Hlang1 HoneP HoneB))| |exact H5].
  intros l Hl Hid. destruct (Hfrom l Hl) as (e1 & He1 & H14).
  rewrite (same_but_has_id ["style"; "href"; "src"] _ e1) in Hid
    by (try exact H14; intros [E|[E|[E|[]]]]; discriminate).
  rewrite (same_but_is_printfooter ["style"; "href"; "src"] e1)
    by (try exact H14; intros [E|[E|[E|[]]]]; discriminate).
  exact (Hnpf e1 (Hsub1 e1 He1) Hid).
Qed.

End FirstRun.

(** ** Counting, and the mapper of the examples *)

Lemma at_most_one_count (q : element -> bool) (t : node) :
  (List.length (filter q (elements t)) <= 1)%nat -> at_most_one q t.
Proof.
  intros Hlen e e' He He' Hq Hq'.
  assert (Hin : In e (filter q (elements t))) by (apply filter_In; auto).
  assert (Hin' : In e' (filter q (elements t))) by (apply filter_In; auto).
  destruct (filter q (elements t)) as [|a [|b l]]; cbn in Hlen; [contradiction| |lia].
  destruct Hin as [<-|[]], Hin' as [<-|[]]. reflexivity.
Qed.

Lemma forallb_elements (q : element -> bool) (t : node) (e : element) :
  forallb q (elements t) = true -> In e (elements t) -> q e = true.
Proof. intros H He. rewrite forallb_forall in H. exact (H e He). Qed.

Lemma example_unquote_dot (s : string) :
  Example.unquote (String "." s) = String "." (Example.unquote s).
Proof. destruct s as [|a [|b s]]; reflexivity. Qed.

Lemma example_local_not_internal (g1 : string) (g2 : option string) :
  Re.internal_link
    (strip_origin (Example.unquote (local_href Example.wiki ".." g1 g2))) = None.
Proof.
  unfold local_href, with_fragment.
  destruct (split_title (resolve_redirect Example.wiki g1)) as [title fragment].
  destruct (Str.truthy _); cbn [get_local_filename Example.wiki append];
    rewrite example_unquote_dot; reflexivity.
Qed.

(** ** The stylesheet links through the five steps *)

Lemma filter_empty_In {A : Type} (f : A -> bool) (l : list A) (x : A) :
  filter f l = [] -> In x l -> f x = false.
Proof.
  intros H Hx. destruct (f x) eqn:Hf; [|reflexivity].
  assert (Hin : In x (filter f l)) by (apply filter_In; auto).
  rewrite H in Hin. contradiction.
Qed.

Lemma stylesheet_links_fix_layout (t : node) :
  wf t ->
  filter is_stylesheet_link (edges None (fix_layout t)) =
  map (fun y => (option_map layout_element (fst y), layout_element (snd y)))
      (filter is_stylesheet_link (edges None t)).
Proof.
  intros Hwf. rewrite (fix_layout_map_tree t Hwf).
  pose proof (edges_map_tree layout_element None t) as HE. cbn [option_map] in HE.
  rewrite HE, filter_map_swap. f_equal. apply filter_ext. intros y.
  apply (same_but_stylesheet_link ["style"]).
  - intros [E|[]]; discriminate.
  - intros q _. apply same_but_layout_element.
  - apply same_but_layout_element.
Qed.

Lemma xpath_fix_layout (t : node) :
  wf t -> xpath_stylesheet_links (fix_layout t) = xpath_stylesheet_links t.
Proof.
  intros Hwf. unfold xpath_stylesheet_links.
  rewrite (stylesheet_links_fix_layout t Hwf), map_map. apply map_ext.
  intros y. cbn [snd]. apply uid_layout_element.
Qed.

Lemma fix_layout_wf (t : node) : wf t -> wf (fix_layout t).
Proof.
  intros Hwf. rewrite (fix_layout_map_tree t Hwf). unfold wf.
  rewrite (uids_map_tree _ _ uid_layout_element). exact Hwf.
Qed.

(** The loop of [fix_footer] keeps the one stylesheet link of a document. *)
Lemma fix_footer_loop_stylesheet (us : list nat) (t out : node)
      (x0 : option element * element) :
  wf t -> NoDup us ->
  (forall u, In u us ->
             exists e, In e (elements t) /\ uid e = u /\ is_printfooter e = true) ->
  filter is_stylesheet_link (edges None t) = [x0] ->
  for_each fix_footer_body us t = Ok out ->
  wf out /\
  exists x, filter is_stylesheet_link (edges None out) = [x] /\
            uid (snd x) = uid (snd x0) /\ get "href" (snd x) = get "href" (snd x0).
Proof.
  revert t x0. induction us as [|u us IH]; intros t x0 Hwf Hnd Hpend Hone H.
  - cbn in H. injection H as <-. split; [exact Hwf|]. exists x0. auto.
  - cbn in H. destruct (fix_footer_body u t) as [t'|] eqn:Hbody; [|discriminate].
    cbn [bind] in H.
    destruct (Hpend u (or_introl eq_refl)) as (eu & Heu & Hueu & Hpf).
    assert (Hdiv : forall e, In e (elements t) -> uid e = u -> is_tag "div" e = true).
    { intros e He E. rewrite (wf_uid_injective t e eu Hwf He Heu) by congruence.
      exact (is_printfooter_div eu Hpf). }
    assert (Hut : In u (uids t)) by (rewrite <- Hueu; exact (uids_elements_In _ _ Heu)).
    destruct (fix_footer_body_result u t t' Hwf Hdiv Hut Hbody)
      as (Hwf' & _ & _ & Hin' & Hsheet).
    inversion Hnd as [|u0 us0 Hnotin Hnd']; subst u0 us0.
    assert (Hpend' : forall u', In u' us ->
              exists e, In e (elements t') /\ uid e = u' /\ is_printfooter e = true).
    { intros u' Hu'. destruct (Hpend u' (or_intror Hu')) as (e & He & E & Hp).
      exists (to_list_item u e). split; [exact (Hin' e He)|].
      rewrite uid_to_list_item. split; [exact E|].
      rewrite is_printfooter_to_list_item.
      replace (Nat.eqb (uid e) u) with false; [exact Hp|].
      symmetry. apply Nat.eqb_neq. congruence. }
    destruct (IH t' _ Hwf' Hnd' Hpend' (Hsheet x0 Hone) H)
      as (Hwfo & x & Hx & Hu & Hh).
    split; [exact Hwfo|]. exists x. split; [exact Hx|]. cbn [snd] in Hu, Hh.
    rewrite uid_to_list_item in Hu. rewrite get_to_list_item in Hh by discriminate.
    auto.
Qed.

Section Stylesheet.

Variable unquote : string -> string.
Variable wiki : ArchWiki.
Variable relbase : string.

(** When the five steps succeed, their result has one stylesheet link: the
    first one of the document that [strip_page] left, with the local
    stylesheet as its [href]. *)
Lemma transform_stylesheet (root out : node) :
  wf root -> transform unquote wiki relbase root = Ok out ->
  exists t1 first rest x,
    strip_page root = Ok t1 /\ xpath_stylesheet_links t1 = first :: rest /\
    wf out /\ filter is_stylesheet_link (edges None out) = [x] /\
    uid (snd x) = first /\ get "href" (snd x) = Some (css_href relbase).
Proof.
  intros Hwf H. unfold transform in H.
  destruct (strip_page root) as [t1|] eqn:H1; [|discriminate]. cbn [bind] in H.
  destruct (strip_page_result root t1 Hwf H1) as (Hwf1 & _).
  assert (Hwf2 := fix_layout_wf t1 Hwf1).
  assert (Hx12 := xpath_fix_layout t1 Hwf1).
  destruct (replace_css_links relbase (fix_layout t1)) as [t3|] eqn:H3; [|discriminate].
  cbn [bind] in H.
  destruct (xpath_stylesheet_links (fix_layout t1)) as [|first rest] eqn:Hx;
    [unfold replace_css_links in H3; rewrite Hx in H3; discriminate|].
  destruct (replace_css_links_result relbase (fix_layout t1) first rest Hwf2 Hx)
    as (Hrun & Hwf3 & _ & x0 & Hone3 & Hu3 & Hhref3).
  rewrite Hrun in H3. injection H3 as E3. rewrite E3 in Hwf3, Hone3.
  apply (completed_update_links unquote wiki relbase t3 out fix_footer Hwf3) in H
    as [_ H].
  rewrite (update_links_map_tree _ _ _ t3 Hwf3) in H.
  set (U := update_element unquote wiki relbase) in *.
  assert (HU : forall e, uid (U e) = uid e) by (intros e; apply uid_update_element).
  assert (Hwf4 : wf (map_tree U t3))
    by (unfold wf; rewrite (uids_map_tree _ _ HU); exact Hwf3).
  assert (Hsel0 : is_stylesheet_link x0 = true).
  { assert (Hin : In x0 [x0]) by (left; reflexivity).
    rewrite <- Hone3 in Hin. apply filter_In in Hin as [_ Hin]. exact Hin. }
  assert (Hlink : is_tag "link" (snd x0) = true).
  { unfold is_stylesheet_link in Hsel0.
    apply andb_true_iff in Hsel0 as [Hsel0 _].
    apply andb_true_iff in Hsel0 as [_ Hsel0]. exact Hsel0. }
  assert (Hsame : U (snd x0) = snd x0).
  { apply update_element_other;
      apply (is_tag_exclusive "link"); try exact Hlink; discriminate. }
  assert (Hone4 : filter is_stylesheet_link (edges None (map_tree U t3)) =
                  [(option_map U (fst x0), U (snd x0))]).
  { pose proof (edges_map_tree U None t3) as HE. cbn [option_map] in HE.
    rewrite HE, filter_map_swap. rewrite (filter_ext _ is_stylesheet_link).
    { rewrite Hone3. reflexivity. }
    intros y. apply (same_but_stylesheet_link ["href"; "src"]).
    - intros [E|[E|[]]]; discriminate.
    - intros q _. apply same_but_update_element.
    - apply same_but_update_element. }
  assert (Hpend : forall u, In u (select is_printfooter (map_tree U t3)) ->
            exists e, In e (elements (map_tree U t3)) /\ uid e = u /\
                      is_printfooter e = true).
  { intros u Hu. apply select_In in Hu as (e & He & Hp & E). exists e. auto. }
  destruct (fix_footer_loop_stylesheet
              (select is_printfooter (map_tree U t3)) (map_tree U t3) out _
              Hwf4 (select_NoDup is_printfooter _ Hwf4) Hpend Hone4 H)
    as (Hwfo & x & Hone & Hu & Hh).
  exists t1, first, rest, x. split; [reflexivity|]. split; [symmetry; exact Hx12|].
  split; [exact Hwfo|]. split; [exact Hone|]. cbn [snd] in Hu, Hh.
  rewrite Hsame in Hu, Hh. split; [congruence|]. rewrite Hh. exact Hhref3.
Qed.

End Stylesheet.

Lemma unstyled_page_wf : wf Example.unstyled_page.
Proof. apply distinct_NoDup. reflexivity. Qed.

(** * Further properties of the steps *)

(** ** [strip_page] *)

(** X1. After [strip_page], no element of the document has one of the four
    navigation identifiers, and below the root there is no comment and no
    [script] element. The step makes no element and changes none: the root is
    the one of the input, and every element left is an element of the input. *)
Theorem strip_page_removes (root out : node) :
  wf root -> strip_page root = Ok out ->
  (forall e, In e (elements out) -> is_chrome e = false) /\
  (forall e, In e (flat_map elements (children out)) ->
             is_comment (tag e) = false /\ is_script (tag e) = false) /\
  elem out = elem root /\
  (forall e, In e (elements out) -> In e (elements root)).
Proof.
  intros Hwf H.
  destruct (strip_page_result root out Hwf H) as (_ & Hroot & Hsub & Hchrome & Hbelow & _).
  auto.
Qed.

Lemma strip_page_removes_witness :
  exists out,
    strip_page Example.page = Ok out /\
    (forall e, In e (elements out) -> is_chrome e = false) /\
    (forall e, In e (flat_map elements (children out)) ->
               is_comment (tag e) = false /\ is_script (tag e) = false) /\
    elem out = elem Example.page /\
    (forall e, In e (elements out) -> In e (elements Example.page)).
Proof.
  destruct (strip_page Example.page) as [out|] eqn:H; [|vm_compute in H; discriminate H].
  exists out. split; [reflexivity|].
  exact (strip_page_removes Example.page out page_wf H).
Defined.

Lemma select_root (q : element -> bool) (n : node) :
  q (elem n) = true -> exists us, select q n = uid (elem n) :: us.
Proof.
  intros H. destruct n as [e cs]. unfold select. rewrite elements_Node.
  cbn [filter elem] in *. rewrite H. eexists. reflexivity.
Qed.

Lemma remove_root_raises (us : list nat) (n : node) :
  for_each remove_from_parent (uid (elem n) :: us) n = Raise AttributeError.
Proof.
  cbn. unfold remove_from_parent, has_uid. rewrite Nat.eqb_refl. reflexivity.
Qed.

Lemma insert_first_root (parent child : nat) (n n' : node) :
  insert_first parent child n = Ok n' -> elem n' = elem n.
Proof.
  unfold insert_first. destruct (find_node child n) as [x|]; [|intros [= <-]; reflexivity].
  destruct (existsb (Nat.eqb parent) (uids x)); [discriminate|].
  intros [= <-]. rewrite elem_add_child, elem_prune. reflexivity.
Qed.

(** X2. A root element that has one of the navigation identifiers cannot be
    removed from a parent: [strip_page] raises on such a document, and what it
    raises is the [AttributeError] of [e.getparent().remove(e)] when there is
    no language block or no content block to move first. *)
Theorem strip_page_root_navigation (root : node) :
  is_chrome (elem root) = true ->
  (exists err, strip_page root = Raise err) /\
  (cssselect_id "p-lang" root = [] \/ cssselect_id "bodyContent" root = [] ->
   strip_page root = Raise AttributeError).
Proof.
  intros Hc.
  assert (Hraise : forall t0, elem t0 = elem root ->
            (t0' <- for_each remove_from_parent (select is_chrome t0) t0 ;;
             Ok (strip_elements is_script (strip_elements is_comment t0')))
            = Raise AttributeError).
  { intros t0 E. rewrite <- E in Hc. destruct (select_root is_chrome t0 Hc) as [us ->].
    rewrite remove_root_raises. reflexivity. }
  split.
  - rewrite strip_page_relocate. destruct (relocate root) as [t0|err] eqn:Hrel.
    + exists AttributeError. cbn [bind]. apply Hraise.
      unfold relocate in Hrel.
      destruct (cssselect_id "p-lang" root) as [|P ps];
        [injection Hrel as <-; reflexivity|].
      destruct (cssselect_id "bodyContent" root) as [|B bs];
        [injection Hrel as <-; reflexivity|].
      exact (insert_first_root B P root t0 Hrel).
    + exists err. reflexivity.
  - intros Hno. rewrite strip_page_relocate.
    replace (relocate root) with (Ok root).
    + cbn [bind]. apply Hraise. reflexivity.
    + unfold relocate. destruct Hno as [-> | ->]; [reflexivity|].
      destruct (cssselect_id "p-lang" root); reflexivity.
Qed.

Lemma strip_page_root_navigation_witness :
  strip_page (Example.el 0 "html" [("id", "mw-navigation")] [Example.el 1 "body" [] []])
  = Raise AttributeError.
Proof.
  apply (strip_page_root_navigation
           (Example.el 0 "html" [("id", "mw-navigation")] [Example.el 1 "body" [] []])
           eq_refl).
  left. reflexivity.
Defined.

(** X3. [strip_page] leaves a document as it is when there is nothing for it
    to do: the language block, if the document has one and a content block,
    is already the first child of the content block; no element has a
    navigation identifier; and there is no comment and no [script] element
    below the root. *)
Theorem strip_page_nothing_to_do (root : node) :
  wf root ->
  (forall P ps B bs,
      cssselect_id "p-lang" root = P :: ps ->
      cssselect_id "bodyContent" root = B :: bs ->
      first_child B P root = true) ->
  select is_chrome root = [] ->
  (forall e, In e (flat_map elements (children root)) ->
             is_comment (tag e) = false /\ is_script (tag e) = false) ->
  strip_page root = Ok root.
Proof.
  intros Hwf Hlang Hchrome Hbelow. rewrite strip_page_relocate.
  assert (Hrel : relocate root = Ok root).
  { unfold relocate.
    destruct (cssselect_id "p-lang" root) as [|P ps] eqn:HP; [reflexivity|].
    destruct (cssselect_id "bodyContent" root) as [|B bs] eqn:HB; [reflexivity|].
    apply insert_first_first_child; [exact Hwf|].
    exact (Hlang P ps B bs eq_refl eq_refl). }
  rewrite Hrel. cbn [bind]. rewrite Hchrome. cbn [for_each bind].
  unfold strip_elements.
  rewrite (prune_nothing (fun e => is_comment (tag e)) root)
    by (intros e He; exact (proj1 (Hbelow e He))).
  rewrite (prune_nothing (fun e => is_script (tag e)) root)
    by (intros e He; exact (proj2 (Hbelow e He))).
  reflexivity.
Qed.

Lemma strip_page_nothing_to_do_witness :
  strip_page Example.plain_page = Ok Example.plain_page.
Proof.
  apply (strip_page_nothing_to_do Example.plain_page plain_page_wf).
  - intros P ps B bs HP. vm_compute in HP. discriminate HP.
  - reflexivity.
  - intros e He.
    assert (H := proj1 (forallb_forall
                   (fun e => negb (is_comment (tag e)) && negb (is_script (tag e)))
                   (flat_map elements (children Example.plain_page))) eq_refl e He).
    cbv beta in H. apply andb_true_iff in H as [H1 H2].
    split; apply negb_true_iff; assumption.
Defined.

Lemma prune_ext_in (p q : element -> bool) (n : node) :
  (forall e, In e (flat_map elements (children n)) -> p e = q e) ->
  prune p n = prune q n.
Proof.
  induction n as [e cs IH] using node_children_ind. cbn [children].
  intros H. rewrite !prune_Node. f_equal. unfold prune_children.
  induction IH as [|c cs Hc _ IHcs]; cbn; [reflexivity|].
  rewrite <- (H (elem c)) by (cbn; apply in_or_app; left; apply elements_root).
  rewrite Hc, IHcs; [reflexivity| |].
  - intros x Hx. apply H. cbn. apply in_or_app. right. exact Hx.
  - intros x Hx. apply H. cbn. apply in_or_app. left.
    destruct c as [ec ccs]. rewrite elements_Node. right. exact Hx.
Qed.

(** a page with a navigation block, a comment and a script, and no language
    block *)
Definition navigation_page : node :=
  Example.el 0 "html" [] [
    Example.el 1 "head" [] [
      Example.el 2 "link" [("rel", "stylesheet"); ("href", "/load.php")] [] ];
    Example.el 3 "body" [] [
      Example.el 4 "div" [("id", "mw-navigation")] [
        Example.el 5 "ul" [] [ Example.el 6 "a" [("href", "/index.php/Main_page")] [] ] ];
      Example.comment 7 "[if lt IE 7]";
      Example.el 8 "div" [("id", "content")] [
        Example.el 9 "script" [] [];
        Example.el 10 "p" [] [] ] ] ].

Lemma navigation_page_wf : wf navigation_page.
Proof. apply distinct_NoDup. reflexivity. Qed.

(** X4. [strip_page] deletes whole subtrees. On a document whose language
    block needs no move, an element below the root that has a navigation
    identifier, is a comment or is a [script] element is gone after the step
    with everything inside it. *)
Theorem strip_page_deletes_subtrees (root out x : node) (c u : nat) :
  wf root ->
  (forall P ps B bs,
      cssselect_id "p-lang" root = P :: ps ->
      cssselect_id "bodyContent" root = B :: bs ->
      first_child B P root = true) ->
  strip_page root = Ok out ->
  find_node c root = Some x -> c <> uid (elem root) ->
  deleted (elem x) = true ->
  In u (uids x) -> ~ In u (uids out).
Proof.
  intros Hwf Hlang H Hfind Hroot Hdel Hu.
  rewrite strip_page_relocate in H.
  assert (Hrel : relocate root = Ok root).
  { unfold relocate.
    destruct (cssselect_id "p-lang" root) as [|P ps] eqn:HP; [reflexivity|].
    destruct (cssselect_id "bodyContent" root) as [|B bs] eqn:HB; [reflexivity|].
    apply insert_first_first_child; [exact Hwf|].
    exact (Hlang P ps B bs eq_refl eq_refl). }
  rewrite Hrel in H. cbn [bind] in H.
  destruct (for_each remove_from_parent (select is_chrome root) root) as [t|] eqn:Hrm;
    [|discriminate].
  cbn [bind] in H. injection H as <-.
  apply for_each_remove_Ok in Hrm as [_ ->].
  unfold strip_elements. rewrite !prune_prune.
  set (p := fun e => mem_uid (uid e) (select is_chrome root)
                     || (is_comment (tag e) || is_script (tag e))).
  assert (Hex : In (elem x) (elements root))
    by exact (find_node_elements c root x Hfind _ (elements_root x)).
  assert (Hc : uid (elem x) = c) by exact (find_node_uid c root x Hfind).
  assert (Hp : p (elem x) = true).
  { unfold p. rewrite (select_mem is_chrome root (elem x) Hwf Hex).
    unfold deleted in Hdel. rewrite <- orb_assoc in Hdel. exact Hdel. }
  assert (E : prune p root = prune p (prune (has_uid c) root)).
  { rewrite prune_prune. apply prune_ext_in. intros e He.
    destruct (has_uid c e) eqn:Hce; [|reflexivity]. cbn.
    apply Nat.eqb_eq in Hce.
    rewrite (wf_uid_injective root e (elem x) Hwf (elements_children root e He) Hex)
      by congruence.
    exact Hp. }
  rewrite E. intros Hin.
  assert (Hin' : In u (uids (prune (has_uid c) root))).
  { unfold uids in Hin |- *. apply in_map_iff in Hin as (e & <- & He).
    apply in_map. exact (elements_prune p _ e He). }
  assert (Hne : uid (elem root) <> c) by congruence.
  destruct (edges_prune_uid c root None x Hwf Hfind Hne) as (q & _ & Hperm).
  apply (wf_edges None) in Hwf.
  apply (Permutation_map (fun y => uid (snd y))) in Hperm.
  apply (Permutation_NoDup Hperm) in Hwf. rewrite map_app in Hwf.
  rewrite <- !uids_edges in Hwf.
  exact (NoDup_app_disjoint _ _ u Hwf Hin' Hu).
Qed.

Lemma strip_page_deletes_subtrees_witness :
  exists out, strip_page navigation_page = Ok out /\ ~ In 6 (uids out).
Proof.
  destruct (strip_page navigation_page) as [out|] eqn:H; [|vm_compute in H; discriminate H].
  exists out. split; [reflexivity|].
  destruct (find_node 4 navigation_page) as [x|] eqn:Hx; [|vm_compute in Hx; discriminate Hx].
  apply (strip_page_deletes_subtrees navigation_page out x 4 6 navigation_page_wf);
    try assumption.
  - intros P ps B bs HP. vm_compute in HP. discriminate HP.
  - discriminate.
  - vm_compute in Hx. injection Hx as <-. reflexivity.
  - vm_compute in Hx. injection Hx as <-. vm_compute. auto.
Defined.

(** X5. On a document with at most one language block and at most one
    content block, [strip_page] has nothing to do on its own result. *)
Theorem strip_page_idempotent (root out : node) :
  wf root ->
  at_most_one (has_id "p-lang") root ->
  at_most_one (has_id "bodyContent") root ->
  strip_page root = Ok out -> strip_page out = Ok out.
Proof.
  intros Hwf HoneP HoneB H.
  destruct (strip_page_result root out Hwf H)
    as (Hwfo & _ & _ & Hchrome & Hbelow & Hlang).
  specialize (Hlang HoneP HoneB). rewrite strip_page_relocate.
  assert (Hrel : relocate out = Ok out).
  { unfold relocate, cssselect_id.
    destruct (select (has_id "p-lang") out) as [|P ps] eqn:HP; [reflexivity|].
    destruct (select (has_id "bodyContent") out) as [|B bs] eqn:HB; [reflexivity|].
    destruct (select_head _ _ _ _ HP) as (eP & HeP & HidP & <-).
    destruct (select_head _ _ _ _ HB) as (eB & HeB & HidB & <-).
    apply insert_first_first_child; [exact Hwfo|].
    exact (Hlang eB eP HeB HeP HidB HidP). }
  rewrite Hrel. cbn [bind].
  replace (select is_chrome out) with (@nil nat)
    by (symmetry; unfold select; rewrite filter_none; [reflexivity|exact Hchrome]).
  cbn [for_each bind]. unfold strip_elements.
  rewrite (prune_nothing (fun e => is_comment (tag e)) out)
    by (intros e He; exact (proj1 (Hbelow e He))).
  rewrite (prune_nothing (fun e => is_script (tag e)) out)
    by (intros e He; exact (proj2 (Hbelow e He))).
  reflexivity.
Qed.

Lemma strip_page_idempotent_witness :
  exists out, strip_page Example.page = Ok out /\ strip_page out = Ok out.
Proof.
  destruct (strip_page Example.page) as [out|] eqn:H; [|vm_compute in H; discriminate H].
  exists out. split; [reflexivity|].
  apply (strip_page_idempotent Example.page out page_wf); [| |exact H].
  - apply at_most_one_count. vm_compute. lia.
  - apply at_most_one_count. vm_compute. lia.
Defined.

(** ** [fix_layout] *)

Lemma layout_element_cases (e : element) :
  layout_element e =
  if has_id "content" e || has_id "footer" e then set "style" "margin: 0" e else e.
Proof.
  unfold layout_element. destruct (has_id "content" e) eqn:Hc; cbn [orb].
  - rewrite has_id_set by discriminate.
    rewrite (has_id_other "content" "footer" e Hc) by discriminate. reflexivity.
  - reflexivity.
Qed.

(** X6. [fix_layout] gives the value [margin: 0] to the [style] of every
    element whose identifier is [content] or [footer], whatever the attribute
    held before, and changes nothing else: every other attribute of these
    elements, every other element, and the place of every element stay as
    they were. *)
Theorem fix_layout_style (root : node) (e : element) :
  wf root -> In e (elements root) ->
  uids (fix_layout root) = uids root /\
  (has_id "content" e = true \/ has_id "footer" e = true ->
   attribute "style" (uid e) (fix_layout root) = Some "margin: 0") /\
  (forall k, k <> "style" -> attribute k (uid e) (fix_layout root) = get k e) /\
  (has_id "content" e = false -> has_id "footer" e = false ->
   element_of (uid e) (fix_layout root) = Some e).
Proof.
  intros Hwf He. rewrite (fix_layout_map_tree root Hwf).
  assert (Hel : element_of (uid e) (map_tree layout_element root)
                = Some (layout_element e))
    by exact (element_of_map_tree layout_element root e Hwf uid_layout_element He).
  split; [exact (uids_map_tree _ _ uid_layout_element)|]. unfold attribute.
  rewrite Hel, layout_element_cases. split; [|split].
  - intros H. replace (has_id "content" e || has_id "footer" e) with true.
    + apply get_set_same.
    + symmetry. apply orb_true_iff. exact H.
  - intros k Hk. destruct (has_id "content" e || has_id "footer" e); [|reflexivity].
    apply get_set_other. congruence.
  - intros -> ->. reflexivity.
Qed.

Lemma fix_layout_style_witness :
  attribute "style" 8 (fix_layout Example.page) = Some "margin: 0" /\
  attribute "style" 18 (fix_layout Example.page) = Some "margin: 0" /\
  attribute "id" 8 (fix_layout Example.page) = Some "content".
Proof.
  set (e8 := mkElement 8 (Tag "div") [("id", "content")] EmptyString EmptyString).
  set (e18 := mkElement 18 (Tag "div") [("id", "footer")] EmptyString EmptyString).
  assert (He8 : In e8 (elements Example.page))
    by (do 8 right; left; reflexivity).
  assert (He18 : In e18 (elements Example.page))
    by (do 18 right; left; reflexivity).
  destruct (fix_layout_style Example.page e8 page_wf He8) as (_ & Hs8 & Hk8 & _).
  destruct (fix_layout_style Example.page e18 page_wf He18) as (_ & Hs18 & _).
  split; [exact (Hs8 (or_introl eq_refl))|].
  split; [exact (Hs18 (or_intror eq_refl))|].
  exact (Hk8 "id" ltac:(discriminate)).
Defined.

(** X7. [fix_layout] is idempotent: on its own result it changes nothing. *)
Theorem fix_layout_idempotent (root : node) :
  wf root -> fix_layout (fix_layout root) = fix_layout root.
Proof.
  intros Hwf. rewrite (fix_layout_map_tree (fix_layout root) (fix_layout_wf root Hwf)).
  rewrite (fix_layout_map_tree root Hwf). apply map_tree_id.
  intros e He. rewrite elements_map_tree in He. apply in_map_iff in He as (e0 & <- & _).
  apply layout_done_fixed. apply layout_done_layout_element.
Qed.

Lemma fix_layout_idempotent_witness :
  fix_layout (fix_layout Example.page) = fix_layout Example.page.
Proof. exact (fix_layout_idempotent Example.page page_wf). Defined.

(** ** [replace_css_links] *)

Lemma clear_path_kept (p : element -> bool) (u : nat) (n : node) :
  clear_path p u n = true -> In u (uids (prune p n)).
Proof.
  induction n as [e cs IH] using node_children_ind.
  rewrite clear_path_Node, prune_Node, uids_Node. intros H.
  apply andb_true_iff in H as [_ H]. apply orb_true_iff in H as [H|H].
  - left. apply Nat.eqb_eq. exact H.
  - right. apply existsb_exists in H as (c & Hc & H).
    rewrite Forall_forall in IH. apply in_flat_map.
    exists (prune p c). split; [|exact (IH c Hc H)].
    apply In_prune_children; [exact Hc|]. exact (clear_path_root p u c H).
Qed.

Lemma clear_path_map_tree (q : element -> bool) (f : element -> element)
      (u : nat) (n : node) :
  (forall e, q (f e) = q e) -> (forall e, uid (f e) = uid e) ->
  clear_path q u (map_tree f n) = clear_path q u n.
Proof.
  intros Hq Hu. induction n as [e cs IH] using node_children_ind.
  cbn [map_tree]. rewrite !clear_path_Node, Hq. unfold has_uid. rewrite Hu.
  f_equal. f_equal.
  induction IH as [|c cs Hc _ IHcs]; cbn [map existsb]; [reflexivity|].
  rewrite Hc, IHcs. reflexivity.
Qed.

(** X8. [replace_css_links] touches the stylesheet links below a [head] and
    nothing else. Every element of its result is an element of the input,
    the same but for the [href] of the first stylesheet link; and every
    element of the input that is not one of the other stylesheet links, nor
    inside one, is still in the document. *)
Theorem replace_css_links_others (relbase : string) (root : node)
        (first : nat) (rest : list nat) :
  wf root -> xpath_stylesheet_links root = first :: rest ->
  exists root',
    replace_css_links relbase root = Ok root' /\
    (forall e', In e' (elements root') ->
                exists e, In e (elements root) /\
                          e' = if Nat.eqb (uid e) first
                               then set "href" (css_href relbase) e else e) /\
    (forall e, In e (elements root) ->
               clear_path (fun x => mem_uid (uid x) rest) (uid e) root = true ->
               element_of (uid e) root' =
               Some (if Nat.eqb (uid e) first
                     then set "href" (css_href relbase) e else e)).
Proof.
  intros Hwf Hx.
  destruct (replace_css_links_result relbase root first rest Hwf Hx)
    as (Hrun & Hwf' & _).
  set (g := fun e => if Nat.eqb (uid e) first
                     then set "href" (css_href relbase) e else e) in *.
  change (update first (set "href" (css_href relbase)) root) with (map_tree g root) in *.
  set (p := fun x => mem_uid (uid x) rest) in *.
  assert (Hg : forall e, uid (g e) = uid e)
    by (intros e; unfold g; destruct (Nat.eqb (uid e) first); reflexivity).
  assert (Hsub : forall e', In e' (elements (prune p (map_tree g root))) ->
                            exists e, In e (elements root) /\ e' = g e).
  { intros e' He'. apply elements_prune in He'. rewrite elements_map_tree in He'.
    apply in_map_iff in He' as (e & <- & He). exists e. auto. }
  eexists. split; [exact Hrun|]. split; [exact Hsub|].
  intros e He Hclear.
  assert (Hin : In (uid e) (uids (prune p (map_tree g root)))).
  { apply clear_path_kept. rewrite clear_path_map_tree; [exact Hclear| |exact Hg].
    intros x. unfold p. rewrite Hg. reflexivity. }
  apply In_uids in Hin as (e' & He' & Hu).
  destruct (Hsub e' He') as (e0 & He0 & E). subst e'. rewrite Hg in Hu.
  rewrite (wf_uid_injective root e0 e Hwf He0 He Hu) in He'.
  pose proof (element_of_wf _ (g e) Hwf' He') as Hel. rewrite Hg in Hel. exact Hel.
Qed.

Lemma replace_css_links_others_witness :
  exists root',
    replace_css_links ".." Example.page = Ok root' /\
    element_of 1 root' = Some (mkElement 1 (Tag "head") [] EmptyString EmptyString) /\
    element_of 3 root' = Some (mkElement 3 (Tag "script") [] EmptyString EmptyString).
Proof.
  destruct (replace_css_links_others ".." Example.page 2 [4] page_wf eq_refl)
    as (root' & Hrun & _ & Hkept).
  exists root'. split; [exact Hrun|]. split.
  - apply (Hkept (mkElement 1 (Tag "head") [] EmptyString EmptyString));
      [right; left; reflexivity|reflexivity].
  - apply (Hkept (mkElement 3 (Tag "script") [] EmptyString EmptyString));
      [do 3 right; left; reflexivity|reflexivity].
Defined.

(** X9. [replace_css_links] has nothing to do on its own result: the one
    stylesheet link that is left has the local [href] already. *)
Theorem replace_css_links_idempotent (relbase : string) (root out : node) :
  wf root ->
  replace_css_links relbase root = Ok out -> replace_css_links relbase out = Ok out.
Proof.
  intros Hwf H.
  destruct (xpath_stylesheet_links root) as [|first rest] eqn:Hx;
    [unfold replace_css_links in H; rewrite Hx in H; discriminate|].
  destruct (replace_css_links_result relbase root first rest Hwf Hx)
    as (Hrun & Hwfo & _ & x0 & Hone & _ & Hhref).
  rewrite Hrun in H. injection H as E. rewrite E in Hwfo, Hone.
  unfold replace_css_links, xpath_stylesheet_links. rewrite Hone. cbn [map for_each].
  f_equal. unfold update. apply map_tree_id. intros e He.
  destruct (Nat.eqb_spec (uid e) (uid (snd x0))) as [Eu|_]; [|reflexivity].
  assert (Hx0 : In (snd x0) (elements out)).
  { assert (Hin : In x0 [x0]) by (left; reflexivity).
    rewrite <- Hone in Hin. apply filter_In in Hin as [Hin _].
    apply (in_map snd) in Hin. rewrite edges_snd in Hin. exact Hin. }
  rewrite (wf_uid_injective out e (snd x0) Hwfo He Hx0 Eu).
  exact (set_same _ _ _ Hhref).
Qed.

Lemma replace_css_links_idempotent_witness :
  exists out,
    replace_css_links ".." Example.page = Ok out /\
    replace_css_links ".." out = Ok out.
Proof.
  destruct (replace_css_links ".." Example.page) as [out|] eqn:H;
    [|vm_compute in H; discriminate H].
  exists out. split; [reflexivity|].
  exact (replace_css_links_idempotent ".." Example.page out page_wf H).
Defined.

(** ** The pattern of an internal link *)

(** what the optional part of the pattern has matched *)
Definition fragment_text (g : option string) : string :=
  match g with
  | Some f => String "#" f
  | None => EmptyString
  end.

(** the end of the subject: nothing, or one newline *)
Definition line_end (s : string) : Prop := s = EmptyString \/ s = String "010" EmptyString.

Lemma mem_append (c : ascii) (a b : string) :
  Str.mem c (a ++ b) = Str.mem c a || Str.mem c b.
Proof.
  induction a as [|d a IH]; cbn; [reflexivity|]. rewrite IH. apply orb_assoc.
Qed.

Lemma string_append_assoc (a b c : string) : (a ++ b) ++ c = a ++ (b ++ c).
Proof. induction a as [|d a IH]; cbn; [reflexivity|]. rewrite IH. reflexivity. Qed.

Lemma startswith_split (p s : string) :
  Str.startswith p s = true -> s = p ++ Str.drop (length p) s.
Proof.
  revert s. induction p as [|a p IH]; intros s; cbn; [reflexivity|].
  destruct s as [|b s]; [discriminate|]. intros H.
  apply andb_true_iff in H as [Hab H]. apply Ascii.eqb_eq in Hab. subst b.
  rewrite <- (IH s H). reflexivity.
Qed.

Lemma startswith_append (p s : string) : Str.startswith p (p ++ s) = true.
Proof.
  induction p as [|a p IH]; cbn; [reflexivity|]. rewrite Ascii.eqb_refl. exact IH.
Qed.

Lemma drop_append (p s : string) : Str.drop (length p) (p ++ s) = s.
Proof. induction p as [|a p IH]; cbn; [destruct s; reflexivity|exact IH]. Qed.

Lemma is_nl_mem (c : ascii) : Re.is_nl c = Ascii.eqb "010" c.
Proof. unfold Re.is_nl. apply Ascii.eqb_sym. Qed.

Lemma at_end_line_end (s : string) : Re.at_end s = true <-> line_end s.
Proof.
  unfold line_end. destruct s as [|c [|d s]]; cbn.
  - split; auto.
  - unfold Re.is_nl. rewrite Ascii.eqb_eq. split.
    + intros ->. right. reflexivity.
    + intros [H|H]; [discriminate|]. injection H as ->. reflexivity.
  - split; [discriminate|]. intros [H|H]; discriminate.
Qed.

Lemma span_line_sound (s a b : string) :
  Re.span_line s = (a, b) ->
  s = a ++ b /\ Str.mem "010" a = false /\
  (b = EmptyString \/ exists b', b = String "010" b').
Proof.
  revert a b. induction s as [|c s IH]; intros a b; cbn.
  - intros [= <- <-]. auto.
  - destruct (Re.is_nl c) eqn:Hc.
    + intros [= <- <-]. unfold Re.is_nl in Hc. apply Ascii.eqb_eq in Hc. subst c.
      split; [reflexivity|]. split; [reflexivity|]. right. eexists. reflexivity.
    + destruct (Re.span_line s) as [a' b']. intros [= <- <-].
      destruct (IH a' b' eq_refl) as (-> & Ha & Hb).
      split; [reflexivity|]. split; [|exact Hb]. cbn.
      rewrite <- is_nl_mem, Hc. exact Ha.
Qed.

Lemma span_line_append (a b : string) :
  Str.mem "010" a = false -> line_end b -> Re.span_line (a ++ b) = (a, b).
Proof.
  intros Ha Hb. induction a as [|c a IH]; cbn.
  - destruct Hb as [-> | ->]; reflexivity.
  - cbn in Ha. apply orb_false_iff in Ha as [Hc Ha].
    rewrite is_nl_mem, Hc, (IH Ha). reflexivity.
Qed.

Lemma dot_plus_end_sound (s f : string) :
  Re.dot_plus_end s = Some f ->
  exists nl, s = f ++ nl /\ line_end nl /\
             Str.truthy f = true /\ Str.mem "010" f = false.
Proof.
  unfold Re.dot_plus_end. destruct (Re.span_line s) as [a b] eqn:Hs.
  destruct (Str.truthy a) eqn:Ha; cbn; [|discriminate].
  destruct (Re.at_end b) eqn:Hb; [|discriminate]. intros [= <-].
  destruct (span_line_sound s a b Hs) as (-> & Hn & _).
  exists b. split; [reflexivity|]. split; [apply at_end_line_end; exact Hb|]. auto.
Qed.

Lemma dot_plus_end_append (f nl : string) :
  Str.truthy f = true -> Str.mem "010" f = false -> line_end nl ->
  Re.dot_plus_end (f ++ nl) = Some f.
Proof.
  intros Hf Hn Hnl. unfold Re.dot_plus_end.
  rewrite (span_line_append f nl Hn Hnl), Hf.
  rewrite (proj2 (at_end_line_end nl) Hnl). reflexivity.
Qed.

Lemma fragment_end_eq (c : ascii) (s : string) :
  Re.fragment_end (String c s) =
  match (if Ascii.eqb c "#" then Re.dot_plus_end s else None) with
  | Some f => Some (Some f)
  | None => if Re.at_end (String c s) then Some None else None
  end.
Proof. destruct c as [[] [] [] [] [] [] [] []]; reflexivity. Qed.

Lemma lazy_more_eq (s : string) :
  Re.lazy_more s =
  match Re.fragment_end s with
  | Some g2 => Some (EmptyString, g2)
  | None =>
      match s with
      | EmptyString => None
      | String c s' =>
          if Re.is_nl c then None
          else match Re.lazy_more s' with
               | Some (t, g2) => Some (String c t, g2)
               | None => None
               end
      end
  end.
Proof. destruct s; reflexivity. Qed.

Lemma fragment_end_sound (s : string) (g : option string) :
  Re.fragment_end s = Some g ->
  exists nl, s = fragment_text g ++ nl /\ line_end nl /\
             match g with
             | Some f => Str.truthy f = true /\ Str.mem "010" f = false
             | None => True
             end.
Proof.
  destruct s as [|c s].
  - cbn. intros [= <-]. exists EmptyString. split; [reflexivity|].
    split; [left; reflexivity|exact I].
  - rewrite fragment_end_eq.
    destruct (if Ascii.eqb c "#" then Re.dot_plus_end s else None) as [f|] eqn:Hd.
    + intros [= <-]. destruct (Ascii.eqb_spec c "#") as [->|]; [|discriminate].
      destruct (dot_plus_end_sound s f Hd) as (nl & -> & Hnl & Hf).
      exists nl. split; [reflexivity|]. split; assumption.
    + destruct (Re.at_end (String c s)) eqn:He; [|discriminate]. intros [= <-].
      exists (String c s). split; [reflexivity|].
      split; [apply at_end_line_end; exact He|exact I].
Qed.

Lemma fragment_end_append (g : option string) (nl : string) :
  match g with
  | Some f => Str.truthy f = true /\ Str.mem "010" f = false
  | None => True
  end ->
  line_end nl -> Re.fragment_end (fragment_text g ++ nl) = Some g.
Proof.
  intros Hg Hnl. destruct g as [f|]; cbn [fragment_text append].
  - rewrite fragment_end_eq, Ascii.eqb_refl.
    rewrite (dot_plus_end_append f nl (proj1 Hg) (proj2 Hg) Hnl). reflexivity.
  - destruct Hnl as [-> | ->]; reflexivity.
Qed.

Lemma lazy_more_sound (s t : string) (g : option string) :
  Re.lazy_more s = Some (t, g) ->
  exists nl, s = t ++ fragment_text g ++ nl /\ line_end nl /\
             Str.mem "010" t = false /\
             match g with
             | Some f => Str.truthy f = true /\ Str.mem "010" f = false /\
                         Str.mem "#" t = false
             | None => True
             end.
Proof.
  revert t. induction s as [|c s IH]; intros t; rewrite lazy_more_eq.
  - cbn. intros [= <- <-]. exists EmptyString. split; [reflexivity|].
    split; [left; reflexivity|]. auto.
  - destruct (Re.fragment_end (String c s)) as [g2|] eqn:Hfe.
    + intros [= <- <-]. destruct (fragment_end_sound _ _ Hfe) as (nl & E & Hnl & Hg).
      exists nl. split; [exact E|]. split; [exact Hnl|]. split; [reflexivity|].
      destruct g2 as [f|]; [|exact I]. destruct Hg. auto.
    + destruct (Re.is_nl c) eqn:Hc; [discriminate|].
      destruct (Re.lazy_more s) as [[t' g2]|] eqn:Hl; [|discriminate].
      intros [= <- <-]. destruct (IH t' eq_refl) as (nl & -> & Hnl & Hn & Hg).
      exists nl. split; [reflexivity|]. split; [exact Hnl|].
      split; [cbn; rewrite <- is_nl_mem, Hc; exact Hn|].
      destruct g2 as [f|]; [|exact I]. destruct Hg as (Hf & Hfn & Hh).
      split; [exact Hf|]. split; [exact Hfn|]. cbn. rewrite Hh, orb_false_r.
      destruct (Ascii.eqb_spec "#" c) as [<-|]; [|reflexivity]. exfalso.
      rewrite fragment_end_eq, Ascii.eqb_refl in Hfe.
      cbn [fragment_text] in Hfe.
      replace (t' ++ String "#" f ++ nl) with ((t' ++ String "#" f) ++ nl) in Hfe
        by (rewrite string_append_assoc; reflexivity).
      rewrite dot_plus_end_append in Hfe; [discriminate| | |exact Hnl].
      * rewrite truthy_append. cbn. apply orb_true_r.
      * rewrite mem_append, Hn. cbn. exact Hfn.
Qed.

Lemma lazy_more_append (t nl : string) (g : option string) :
  Str.mem "#" t = false -> Str.mem "010" t = false ->
  match g with
  | Some f => Str.truthy f = true /\ Str.mem "010" f = false
  | None => True
  end ->
  line_end nl ->
  Re.lazy_more (t ++ fragment_text g ++ nl) = Some (t, g).
Proof.
  intros Hh Hn Hg Hnl. induction t as [|c t IH].
  - cbn [append]. rewrite lazy_more_eq, (fragment_end_append g nl Hg Hnl). reflexivity.
  - cbn in Hh, Hn. apply orb_false_iff in Hh as [Hc Hh], Hn as [Hcn Hn].
    cbn [append]. rewrite lazy_more_eq, fragment_end_eq.
    rewrite Ascii.eqb_sym, Hc.
    replace (Re.at_end (String c (t ++ fragment_text g ++ nl))) with false.
    + rewrite is_nl_mem, Hcn, (IH Hh Hn). reflexivity.
    + symmetry. cbn. destruct (t ++ fragment_text g ++ nl); [|reflexivity].
      rewrite is_nl_mem. exact Hcn.
Qed.

Lemma index_php_sound (s r : string) :
  Re.index_php s = Some r ->
  exists c, s = "/index" ++ String c ("php/" ++ r) /\ Re.is_nl c = false.
Proof.
  unfold Re.index_php. destruct (Str.startswith "/index" s) eqn:H1; [|discriminate].
  apply startswith_split in H1. cbn [length] in H1.
  destruct (Str.drop 6 s) as [|c s'] eqn:Hd; [discriminate|].
  destruct (Re.is_nl c) eqn:Hc; [discriminate|]. cbn [negb andb].
  destruct (Str.startswith "php/" s') eqn:H2; [|discriminate]. intros [= <-].
  apply startswith_split in H2. cbn [length] in H2.
  exists c. split; [|exact Hc]. rewrite H1 at 1. rewrite H2 at 1. reflexivity.
Qed.

Lemma index_php_any (c : ascii) (r : string) :
  Re.is_nl c = false -> Re.index_php ("/index" ++ String c ("php/" ++ r)) = Some r.
Proof.
  intros Hc. unfold Re.index_php.
  rewrite (startswith_append "/index"), (drop_append "/index"), Hc.
  rewrite (startswith_append "php/"), (drop_append "php/"). reflexivity.
Qed.

(** X10. What the pattern of [update_links] takes as an internal link: the
    text [/index], one character that is not a newline, [php/], a title and,
    optionally, [#] and a fragment, up to the end of the string or to a
    newline that ends it. The title is not empty and has no newline; a
    fragment is not empty and has no newline, and a title that is followed by
    a fragment has no [#] after its first character. *)
Theorem internal_link_sound (s t : string) (g : option string) :
  Re.internal_link s = Some (t, g) ->
  exists c nl,
    s = "/index" ++ String c ("php/" ++ t ++ fragment_text g ++ nl) /\
    Re.is_nl c = false /\ line_end nl /\
    Str.truthy t = true /\ Str.mem "010" t = false /\
    match g with
    | Some f => Str.truthy f = true /\ Str.mem "010" f = false /\
                Str.mem "#" (Str.drop 1 t) = false
    | None => True
    end.
Proof.
  unfold Re.internal_link. destruct (Re.index_php s) as [[|a r]|] eqn:Hi; try discriminate.
  destruct (Re.is_nl a) eqn:Ha; [discriminate|].
  destruct (Re.lazy_more r) as [[t' g2]|] eqn:Hl; [|discriminate].
  intros [= <- <-]. destruct (index_php_sound s _ Hi) as (c & -> & Hc).
  destruct (lazy_more_sound r t' g2 Hl) as (nl & -> & Hnl & Hn & Hg).
  exists c, nl. split; [reflexivity|]. split; [exact Hc|]. split; [exact Hnl|].
  split; [reflexivity|]. split; [cbn; rewrite <- is_nl_mem, Ha; exact Hn|].
  destruct g2 as [f|]; [|exact I]. exact Hg.
Qed.

Lemma internal_link_sound_witness :
  exists c nl,
    "/index.php/Foo#Bar" =
      "/index" ++ String c ("php/" ++ "Foo" ++ fragment_text (Some "Bar") ++ nl) /\
    Re.is_nl c = false /\ line_end nl.
Proof.
  destruct (internal_link_sound "/index.php/Foo#Bar" "Foo" (Some "Bar") eq_refl)
    as (c & nl & E & Hc & Hnl & _).
  exists c, nl. auto.
Defined.

(** X11. The pattern takes every such string: any character but a newline
    stands where the dot of [index.php] is (the dot of the pattern is not
    escaped), and a newline may end the string. With a title that has no
    [#], the first group is the title and the second one the fragment. *)
Theorem internal_link_complete (c : ascii) (t nl : string) (g : option string) :
  Re.is_nl c = false ->
  Str.truthy t = true -> Str.mem "#" t = false -> Str.mem "010" t = false ->
  match g with
  | Some f => Str.truthy f = true /\ Str.mem "010" f = false
  | None => True
  end ->
  line_end nl ->
  Re.internal_link ("/index" ++ String c ("php/" ++ t ++ fragment_text g ++ nl))
  = Some (t, g).
Proof.
  intros Hc Ht Hh Hn Hg Hnl. unfold Re.internal_link. rewrite (index_php_any c _ Hc).
  destruct t as [|a t]; [discriminate|]. cbn [append].
  cbn in Hh, Hn. apply orb_false_iff in Hh as [_ Hh], Hn as [Han Hn].
  rewrite is_nl_mem, Han, (lazy_more_append t nl g Hh Hn Hg Hnl). reflexivity.
Qed.

Lemma internal_link_complete_witness :
  Re.internal_link "/index_php/Foo#Bar" = Some ("Foo", Some "Bar") /\
  Re.internal_link ("/index.php/Foo" ++ String "010" EmptyString) = Some ("Foo", None).
Proof.
  split.
  - exact (internal_link_complete "_" "Foo" EmptyString (Some "Bar")
             eq_refl eq_refl eq_refl eq_refl (conj eq_refl eq_refl)
             (or_introl eq_refl)).
  - exact (internal_link_complete "." "Foo" (String "010" EmptyString) None
             eq_refl eq_refl eq_refl eq_refl I (or_intror eq_refl)).
Defined.

(** ** [update_links] *)

(** a page with links of several kinds *)
Definition links_page : node :=
  Example.el 0 "html" [] [
    Example.el 1 "head" [] [
      Example.el 2 "link" [("rel", "stylesheet"); ("href", "/load.php")] [] ];
    Example.el 3 "body" [] [
      Example.el 4 "a" [("href", "https://www.archlinux.org/")] [];
      Example.el 5 "a" [("href", "#top"); ("class", "internal")] [];
      Example.el 6 "a" [("name", "top")] [];
      Example.el 7 "a" [("href", "/index.php/Foo#")] [];
      Example.el 8 "img" [("src", "https://www.archlinux.org/logo.png")] [];
      Example.el 9 "img" [("alt", "logo")] [];
      Example.el 10 "img" [("src", "/images/a/b/Foo.png"); ("alt", "Foo")] [];
      Example.el 11 "a" [("href", "http://wiki.archlinux.org/index.php/Foo")] [] ] ].

Lemma links_page_wf : wf links_page.
Proof. apply distinct_NoDup. reflexivity. Qed.

Lemma split_once_sound (sep : ascii) (s a b : string) :
  Str.split_once sep s = Some (a, b) ->
  s = a ++ String sep b /\ Str.mem sep a = false.
Proof.
  revert a b. induction s as [|c s IH]; intros a b; cbn; [discriminate|].
  destruct (Ascii.eqb_spec c sep) as [->|Hne]; [intros [= <- <-]; auto|].
  destruct (Str.split_once sep s) as [[a' b']|]; [|discriminate].
  intros [= <- <-]. destruct (IH a' b' eq_refl) as [-> Ha]. split; [reflexivity|].
  cbn. rewrite Ha, orb_false_r. apply Ascii.eqb_neq. congruence.
Qed.

Lemma split_once_none (sep : ascii) (s : string) :
  Str.split_once sep s = None -> Str.mem sep s = false.
Proof.
  induction s as [|c s IH]; cbn; [reflexivity|].
  destruct (Ascii.eqb_spec c sep) as [->|Hne]; [discriminate|].
  destruct (Str.split_once sep s) as [[a b]|]; [discriminate|].
  intros _. rewrite (IH eq_refl), orb_false_r. apply Ascii.eqb_neq. congruence.
Qed.

Lemma path_tail_plain (s : string) : Str.mem "/" (Str.path_tail s) = false.
Proof.
  induction s as [|c s IH]; cbn; [reflexivity|].
  destruct (Str.mem "/" s) eqn:Hs; [exact IH|].
  destruct (Ascii.eqb_spec c "/") as [->|Hne]; [exact Hs|].
  cbn. rewrite Hs, orb_false_r. apply Ascii.eqb_neq. congruence.
Qed.

Lemma path_dir_plain (s : string) :
  Str.mem "/" s = false -> Str.path_dir s = EmptyString.
Proof. destruct s as [|c s]; cbn; [reflexivity|]. intros ->. reflexivity. Qed.

Lemma path_dir_tail (s : string) : Str.path_dir s ++ Str.path_tail s = s.
Proof.
  induction s as [|c s IH]; [reflexivity|].
  cbn [Str.path_dir Str.path_tail Str.mem].
  destruct (Str.mem "/" s) eqn:Hs.
  - rewrite orb_true_r. cbn. rewrite IH. reflexivity.
  - rewrite orb_false_r, (Ascii.eqb_sym "/" c).
    destruct (Ascii.eqb_spec c "/") as [->|Hne]; [|reflexivity].
    rewrite (path_dir_plain s Hs). reflexivity.
Qed.

Lemma path_dir_slash (s : string) :
  Str.mem "/" s = true -> Str.ends_with_slash (Str.path_dir s) = true.
Proof.
  induction s as [|c s IH]; [discriminate|].
  cbn [Str.path_dir Str.mem]. intros H. rewrite H.
  destruct (Str.mem "/" s) eqn:Hs.
  - specialize (IH eq_refl). destruct s as [|d s]; [discriminate|].
    cbn [Str.path_dir] in *. rewrite Hs in *. exact IH.
  - rewrite orb_false_r in H. rewrite (path_dir_plain s Hs). exact (eq_trans (Ascii.eqb_sym _ _) H).
Qed.

Lemma startswith_mem (c : ascii) (p s : string) :
  Str.mem c p = true -> Str.startswith p s = true -> Str.mem c s = true.
Proof.
  revert s. induction p as [|a p IH]; intros s; cbn; [discriminate|].
  destruct s as [|b s]; [discriminate|]. intros Hm H.
  apply andb_true_iff in H as [Hab H]. apply Ascii.eqb_eq in Hab. subst b. cbn.
  apply orb_true_iff in Hm as [Hm|Hm]; [rewrite Hm; reflexivity|].
  rewrite (IH s Hm H). apply orb_true_r.
Qed.

Section LinkFrame.

Variable unquote : string -> string.
Variable wiki : ArchWiki.
Variable relbase : string.

(** X12. An anchor without [href], or with an [href] that the pattern does
    not take as an internal link (once decoded and without the origin of the
    wiki), is left exactly as it is by [update_links], whether the step
    completes or raises: the decoded value is not written back. *)
Theorem update_links_other_anchor (root : node) (a : element) :
  wf root -> In a (elements root) -> is_tag "a" a = true ->
  (forall href, get "href" a = Some href ->
                Re.internal_link (strip_origin (unquote href)) = None) ->
  element_of (uid a) (after (update_links unquote wiki relbase root)) = Some a.
Proof.
  intros Hwf Ha Htag Hno.
  assert (Hw : written unquote wiki relbase a = None).
  { unfold written. rewrite Htag. destruct (get "href" a) as [href|]; [|reflexivity].
    unfold new_href. rewrite (Hno href eq_refl). reflexivity. }
  destruct (update_links_element_of unquote wiki relbase root a Hwf Ha)
    as (_ & [H|[H _]] & _); [exact H|].
  rewrite (written_None unquote wiki relbase a Hw) in H. exact H.
Qed.

(** X13. An image without [src], or with a [src] that does not begin with
    [/images/], is left exactly as it is by [update_links], whether the step
    completes or raises. *)
Theorem update_links_other_image (root : node) (i : element) :
  wf root -> In i (elements root) -> is_tag "img" i = true ->
  (forall src, get "src" i = Some src -> Str.startswith "/images/" src = false) ->
  element_of (uid i) (after (update_links unquote wiki relbase root)) = Some i.
Proof.
  intros Hwf Hi Htag Hno.
  assert (Hw : written unquote wiki relbase i = None).
  { unfold written. rewrite (is_tag_exclusive "img" "a" i Htag) by discriminate.
    rewrite Htag. destruct (get "src" i) as [src|]; [|reflexivity].
    unfold new_src. rewrite (Hno src eq_refl), andb_false_r. reflexivity. }
  destruct (update_links_element_of unquote wiki relbase root i Hwf Hi)
    as (_ & [H|[H _]] & _); [exact H|].
  rewrite (written_None unquote wiki relbase i Hw) in H. exact H.
Qed.

Lemma text_tail_update_element (e : element) :
  text (update_element unquote wiki relbase e) = text e /\
  tail (update_element unquote wiki relbase e) = tail e.
Proof.
  unfold update_element, rewritten_anchor, rewritten_image.
  repeat match goal with
         | |- context [match ?x with _ => _ end] => destruct x
         end; split; reflexivity.
Qed.

(** X14. [update_links] changes nothing but the [href] of anchors and the
    [src] of images, whether it completes or raises: the elements of the
    document and their order, the tag, the text and the tail of every element,
    and every other attribute stay as they were; an element that is neither
    an anchor nor an image is left exactly as it is. *)
Theorem update_links_frame (root : node) (e : element) :
  wf root -> In e (elements root) ->
  uids (after (update_links unquote wiki relbase root)) = uids root /\
  exists e',
    element_of (uid e) (after (update_links unquote wiki relbase root)) = Some e' /\
    tag e' = tag e /\ text e' = text e /\ tail e' = tail e /\
    (forall k, k <> "href" -> k <> "src" -> get k e' = get k e) /\
    (is_tag "a" e = false -> get "href" e' = get "href" e) /\
    (is_tag "img" e = false -> get "src" e' = get "src" e) /\
    (is_tag "a" e = false -> is_tag "img" e = false -> e' = e).
Proof.
  intros Hwf He.
  destruct (update_links_element_of unquote wiki relbase root e Hwf He)
    as (Hu & Hel & _).
  split; [exact Hu|].
  destruct Hel as [Hel|[Hel _]].
  { exists e. split; [exact Hel|]. repeat split; reflexivity. }
  exists (update_element unquote wiki relbase e). split; [exact Hel|].
  destruct (same_but_update_element unquote wiki relbase e) as (_ & Htag & Hget).
  destruct (text_tail_update_element e) as [Htext Htail].
  split; [exact Htag|]. split; [exact Htext|]. split; [exact Htail|].
  split; [|split; [|split]].
  - intros k Hh Hs. apply Hget. intros [E|[E|[]]]; congruence.
  - intros Ha. unfold update_element. rewrite Ha.
    destruct (is_tag "img" e); [|reflexivity].
    unfold rewritten_image. destruct (get "src" e) as [s|]; [|reflexivity].
    destruct (new_src relbase s); [|reflexivity].
    apply get_set_other. discriminate.
  - intros Hi. unfold update_element. destruct (is_tag "a" e) eqn:Ha.
    + replace (is_tag "img" (rewritten_anchor unquote wiki relbase e)) with false.
      * unfold rewritten_anchor. destruct (get "href" e) as [h|]; [|reflexivity].
        destruct (new_href unquote wiki relbase h); [|reflexivity].
        apply get_set_other. discriminate.
      * symmetry. unfold is_tag in *. rewrite tag_update_anchor. exact Hi.
    + rewrite Hi. reflexivity.
  - intros Ha Hi. apply update_element_other; assumption.
Qed.

(** X15. An absolute link to the wiki, with the scheme [https] or [http], is
    rewritten exactly as the link with the same path and no origin. *)
Theorem new_href_origin (href href' path : string) :
  Str.startswith "/" path = true ->
  unquote href' = path ->
  unquote href = "https://wiki.archlinux.org" ++ path \/
  unquote href = "http://wiki.archlinux.org" ++ path ->
  new_href unquote wiki relbase href = new_href unquote wiki relbase href'.
Proof.
  intros Hp H' H. unfold new_href. rewrite H'.
  destruct path as [|c p]; [discriminate|]. cbn in Hp.
  rewrite andb_true_r in Hp. apply Ascii.eqb_eq in Hp. subst c.
  replace (strip_origin (unquote href)) with (String "/" p);
    [reflexivity|].
  destruct H as [-> | ->]; reflexivity.
Qed.

(** X16. The Path Mapper is never asked for a title with a [#] in it: a new
    [href] is the local file name of a title without [#], alone or followed
    by [#] and a fragment that is not empty. *)
Theorem new_href_title (href new : string) :
  new_href unquote wiki relbase href = Some new ->
  exists title,
    Str.mem "#" title = false /\
    (new = get_local_filename wiki title relbase \/
     exists fragment,
       Str.truthy fragment = true /\
       new = get_local_filename wiki title relbase ++ "#" ++ fragment).
Proof.
  unfold new_href.
  destruct (Re.internal_link (strip_origin (unquote href))) as [[g1 g2]|]; [|discriminate].
  intros [= <-]. unfold local_href.
  destruct (split_title (resolve_redirect wiki g1)) as [title fragment] eqn:Hs.
  exists title. split.
  - unfold split_title in Hs.
    destruct (Str.split_once "#" (resolve_redirect wiki g1)) as [[t f]|] eqn:Ho.
    + injection Hs as <- _. exact (proj2 (split_once_sound _ _ _ _ Ho)).
    + injection Hs as <- _. exact (split_once_none _ _ Ho).
  - unfold with_fragment.
    destruct (Str.truthy _) eqn:Ht; [right; eexists; split; [exact Ht|reflexivity]|].
    left. reflexivity.
Qed.

(** X17. The directories of the [src] of an image are dropped: for a [src]
    that begins with [/images/], the new [src] that the image has when
    [update_links] completes is the relative base, a slash unless the base is
    empty or ends with one, [File__] and what follows the last slash of the
    old value. *)
Theorem update_links_image_flat (root : node) (i : element) (src : string) :
  wf root -> In i (elements root) -> is_tag "img" i = true ->
  get "src" i = Some src -> Str.startswith "/images/" src = true ->
  raised (update_links unquote wiki relbase root) = None ->
  exists dir name,
    src = dir ++ name /\ Str.ends_with_slash dir = true /\
    Str.mem "/" name = false /\
    attribute "src" (uid i) (after (update_links unquote wiki relbase root)) =
    Some (relbase
          ++ (if negb (Str.truthy relbase) || Str.ends_with_slash relbase
              then EmptyString else "/")
          ++ "File__" ++ name).
Proof.
  intros Hwf Hi Htag Hsrc Hpre Hr.
  exists (Str.path_dir src), (Str.path_tail src).
  split; [symmetry; apply path_dir_tail|].
  split; [apply path_dir_slash; exact (startswith_mem "/" "/images/" src eq_refl Hpre)|].
  split; [apply path_tail_plain|].
  rewrite (update_links_src unquote wiki relbase root i src Hwf Hi Htag Hsrc Hpre Hr).
  f_equal. unfold Str.path_join.
  change (Str.startswith "/" ("File__" ++ Str.path_tail src)) with false.
  destruct (negb (Str.truthy relbase) || Str.ends_with_slash relbase); reflexivity.
Qed.

Lemma lazy_more_hash_end (t : string) :
  Str.mem "#" t = false -> Str.mem "010" t = false ->
  Re.lazy_more (t ++ "#") = Some (t ++ "#", None).
Proof.
  intros Hh Hn. induction t as [|c t IH]; [reflexivity|].
  cbn in Hh, Hn. apply orb_false_iff in Hh as [Hc Hh], Hn as [Hcn Hn].
  cbn [append]. rewrite lazy_more_eq, fragment_end_eq, Ascii.eqb_sym, Hc.
  replace (Re.at_end (String c (t ++ "#"))) with false
    by (destruct t; reflexivity).
  rewrite is_nl_mem, Hcn, (IH Hh Hn). reflexivity.
Qed.

(** X18. A link that ends with [#] has no fragment for the pattern: the [#]
    is taken into the title, and the resolver is asked for the title with the
    [#] at its end. When the resolver gives that text back, the new [href]
    is the local file name of the title, without a fragment. *)
Theorem new_href_empty_fragment (href t : string) :
  Str.mem "#" t = false -> Str.mem "010" t = false ->
  strip_origin (unquote href) = "/index.php/" ++ t ++ "#" ->
  new_href unquote wiki relbase href = Some (local_href wiki relbase (t ++ "#") None) /\
  (resolve_redirect wiki (t ++ "#") = t ++ "#" ->
   new_href unquote wiki relbase href = Some (get_local_filename wiki t relbase)).
Proof.
  intros Hh Hn Hs.
  assert (Hm : Re.internal_link ("/index.php/" ++ t ++ "#") = Some (t ++ "#", None)).
  { unfold Re.internal_link. rewrite index_php_prefix.
    destruct t as [|c t]; [reflexivity|]. cbn in Hh, Hn.
    apply orb_false_iff in Hh as [_ Hh], Hn as [Hcn Hn]. cbn [append].
    rewrite is_nl_mem, Hcn, (lazy_more_hash_end t Hh Hn). reflexivity. }
  unfold new_href. rewrite Hs, Hm. split; [reflexivity|].
  intros Hr. unfold local_href. rewrite Hr. unfold split_title.
  rewrite (split_once_first "#" t EmptyString Hh). reflexivity.
Qed.

End LinkFrame.

Lemma update_links_other_anchor_witness :
  element_of 4 (after (update_links Example.unquote Example.wiki ".." links_page)) =
    Some (mkElement 4 (Tag "a") [("href", "https://www.archlinux.org/")]
                    EmptyString EmptyString) /\
  element_of 6 (after (update_links Example.unquote Example.wiki ".." links_page)) =
    Some (mkElement 6 (Tag "a") [("name", "top")] EmptyString EmptyString).
Proof.
  split.
  - apply (update_links_other_anchor Example.unquote Example.wiki ".." links_page
             (mkElement 4 (Tag "a") [("href", "https://www.archlinux.org/")]
                        EmptyString EmptyString) links_page_wf).
    + do 4 right. left. reflexivity.
    + reflexivity.
    + intros href [= <-]. reflexivity.
  - apply (update_links_other_anchor Example.unquote Example.wiki ".." links_page
             (mkElement 6 (Tag "a") [("name", "top")] EmptyString EmptyString)
             links_page_wf).
    + do 6 right. left. reflexivity.
    + reflexivity.
    + intros href H. discriminate H.
Defined.

Lemma update_links_other_image_witness :
  element_of 8 (after (update_links Example.unquote Example.wiki ".." links_page)) =
    Some (mkElement 8 (Tag "img") [("src", "https://www.archlinux.org/logo.png")]
                    EmptyString EmptyString).
Proof.
  apply (update_links_other_image Example.unquote Example.wiki ".." links_page
           (mkElement 8 (Tag "img") [("src", "https://www.archlinux.org/logo.png")]
                      EmptyString EmptyString) links_page_wf).
  - do 8 right. left. reflexivity.
  - reflexivity.
  - intros src [= <-]. reflexivity.
Defined.

Lemma update_links_frame_witness :
  uids (after (update_links Example.unquote Example.wiki ".." links_page)) = uids links_page /\
  exists e',
    element_of 10 (after (update_links Example.unquote Example.wiki ".." links_page)) = Some e' /\
    tag e' = Tag "img" /\ get "alt" e' = Some "Foo".
Proof.
  destruct (update_links_frame Example.unquote Example.wiki ".." links_page
              (mkElement 10 (Tag "img") [("src", "/images/a/b/Foo.png"); ("alt", "Foo")]
                         EmptyString EmptyString) links_page_wf)
    as (Hu & e' & He' & Htag & _ & _ & Hget & _).
  - do 10 right. left. reflexivity.
  - split; [exact Hu|]. exists e'. split; [exact He'|]. split; [exact Htag|].
    rewrite Hget by discriminate. reflexivity.
Defined.

Lemma new_href_origin_witness :
  new_href Example.unquote Example.wiki ".." "http://wiki.archlinux.org/index.php/Foo" =
  new_href Example.unquote Example.wiki ".." "/index.php/Foo".
Proof.
  apply (new_href_origin Example.unquote Example.wiki ".." _ _ "/index.php/Foo").
  - reflexivity.
  - reflexivity.
  - right. reflexivity.
Defined.

Lemma new_href_title_witness :
  exists title,
    Str.mem "#" title = false /\
    ("../en/New.html#My_Section" = get_local_filename Example.wiki title ".." \/
     exists fragment,
       Str.truthy fragment = true /\
       "../en/New.html#My_Section" =
       get_local_filename Example.wiki title ".." ++ "#" ++ fragment).
Proof.
  exact (new_href_title Example.unquote Example.wiki ".." "/index.php/Old"
           "../en/New.html#My_Section" eq_refl).
Defined.

Lemma update_links_image_flat_witness :
  exists dir name,
    "/images/a/b/Foo.png" = dir ++ name /\ Str.ends_with_slash dir = true /\
    Str.mem "/" name = false /\
    attribute "src" 10 (after (update_links Example.unquote Example.wiki ".." links_page)) =
    Some ("../File__" ++ name).
Proof.
  destruct (update_links_image_flat Example.unquote Example.wiki ".." links_page
              (mkElement 10 (Tag "img") [("src", "/images/a/b/Foo.png"); ("alt", "Foo")]
                         EmptyString EmptyString)
              "/images/a/b/Foo.png" links_page_wf)
    as (dir & name & E & Hd & Hn & Ha); try reflexivity.
  - do 10 right. left. reflexivity.
  - exists dir, name. auto.
Defined.

Lemma new_href_empty_fragment_witness :
  new_href Example.unquote Example.wiki ".." "/index.php/Foo#" = Some "../en/Foo.html".
Proof.
  exact (proj2 (new_href_empty_fragment Example.unquote Example.wiki ".."
                  "/index.php/Foo#" "Foo" eq_refl eq_refl eq_refl) eq_refl).
Defined.

(** X19. When the local file names are not internal links for the pattern
    and the relative base does not begin with a slash, [update_links] has
    nothing to do on the document that it leaves when it completes: a second
    run of the step completes and changes nothing. *)
Theorem update_links_idempotent
  (unquote : string -> string) (wiki : ArchWiki) (relbase : string) (root : node) :
  (forall g1 g2,
      Re.internal_link (strip_origin (unquote (local_href wiki relbase g1 g2)))
      = None) ->
  Str.startswith "/" relbase = false ->
  wf root ->
  raised (update_links unquote wiki relbase root) = None ->
  update_links unquote wiki relbase (after (update_links unquote wiki relbase root)) =
  mkOutcome (after (update_links unquote wiki relbase root)) None.
Proof.
  intros Hlocal Hrel Hwf Hr.
  rewrite (update_links_completed unquote wiki relbase root Hwf Hr).
  apply update_links_quiet.
  - unfold wf. rewrite uids_map_tree; [exact Hwf|]. apply uid_update_element.
  - intros e He. rewrite elements_map_tree in He.
    apply in_map_iff in He as (e0 & <- & _).
    exact (update_element_settled unquote wiki relbase Hlocal Hrel e0).
Qed.

Lemma update_links_idempotent_witness :
  update_links Example.unquote Example.wiki ".."
    (after (update_links Example.unquote Example.wiki ".." Example.page)) =
  mkOutcome (after (update_links Example.unquote Example.wiki ".." Example.page)) None.
Proof.
  exact (update_links_idempotent Example.unquote Example.wiki ".." Example.page
           example_local_not_internal eq_refl page_wf eq_refl).
Defined.

(** ** [fix_footer] *)

(** what the loop makes of a print footer *)
Definition list_item (e : element) : element := set_tag "li" (pop "class" e).

Lemma to_list_item_cases (u : nat) (e : element) :
  to_list_item u e = if Nat.eqb (uid e) u then list_item e else e.
Proof. reflexivity. Qed.

Lemma fix_footer_body_length (u : nat) (t t' : node) :
  wf t -> In u (uids t) -> fix_footer_body u t = Ok t' ->
  List.length (elements t') = S (List.length (elements t)).
Proof.
  intros Hwf Hut Hbody.
  destruct (fix_footer_body_Ok u t t' Hwf Hut Hbody)
    as (f & x & ef & Hef & Hidf & Hf & Hfind & Hcycle & Hroot & Hwfl & Hwfm & ->).
  set (tl := map_tree (to_list_item u) t) in *.
  set (tm := add_child f 0 x (prune (has_uid u) tl)) in *.
  assert (Hfl : In f (uids tl)) by (rewrite <- Hf; exact (uids_elements_In _ _ Hef)).
  assert (Hpm : Permutation (elements tm) (elements tl))
    by exact (moved_elements f u tl x Hwfl Hfind Hroot Hfl Hcycle).
  assert (Hefm : In ef (elements tm))
    by exact (Permutation_in ef (Permutation_sym Hpm) Hef).
  pose proof (added_br_edges f 3 (fresh tm) tm ef Hwfm Hefm Hf) as Hpe.
  apply (Permutation_map snd) in Hpe. rewrite map_app, !edges_snd in Hpe.
  rewrite (Permutation_length Hpe), length_app, (Permutation_length Hpm).
  unfold tl. rewrite elements_map_tree, length_map. cbn. lia.
Qed.

Lemma fix_footer_loop_result (us : list nat) (t out : node) :
  wf t -> NoDup us ->
  (forall u, In u us ->
             exists e, In e (elements t) /\ uid e = u /\ is_printfooter e = true) ->
  for_each fix_footer_body us t = Ok out ->
  wf out /\ uid (elem out) = uid (elem t) /\
  List.length (elements out) = (List.length (elements t) + List.length us)%nat /\
  (forall e, In e (elements t) ->
             In (if mem_uid (uid e) us then list_item e else e) (elements out)) /\
  (forall e', In e' (elements out) ->
              (exists v, e' = br_element v) \/
              exists e, In e (elements t) /\
                        e' = if mem_uid (uid e) us then list_item e else e).
Proof.
  revert t. induction us as [|u us IH]; intros t Hwf Hnd Hpend H.
  - cbn in H. injection H as <-. split; [exact Hwf|]. split; [reflexivity|].
    split; [cbn; lia|].
    split; [intros e He; exact He|]. intros e' He'. right. exists e'. auto.
  - cbn in H. destruct (fix_footer_body u t) as [t'|] eqn:Hbody; [|discriminate].
    cbn [bind] in H.
    destruct (Hpend u (or_introl eq_refl)) as (eu & Heu & Hueu & Hpf).
    assert (Hdiv : forall e, In e (elements t) -> uid e = u -> is_tag "div" e = true).
    { intros e He E. rewrite (wf_uid_injective t e eu Hwf He Heu) by congruence.
      exact (is_printfooter_div eu Hpf). }
    assert (Hut : In u (uids t)) by (rewrite <- Hueu; exact (uids_elements_In _ _ Heu)).
    destruct (fix_footer_body_result u t t' Hwf Hdiv Hut Hbody)
      as (Hwf' & Hroot' & Hel' & Hin' & _).
    pose proof (fix_footer_body_length u t t' Hwf Hut Hbody) as Hlen.
    inversion Hnd as [|u0 us0 Hnotin Hnd']; subst u0 us0.
    assert (Hpend' : forall u', In u' us ->
              exists e, In e (elements t') /\ uid e = u' /\ is_printfooter e = true).
    { intros u' Hu'. destruct (Hpend u' (or_intror Hu')) as (e & He & E & Hp).
      exists (to_list_item u e). split; [exact (Hin' e He)|].
      rewrite uid_to_list_item. split; [exact E|].
      rewrite is_printfooter_to_list_item.
      replace (Nat.eqb (uid e) u) with false; [exact Hp|].
      symmetry. apply Nat.eqb_neq. congruence. }
    destruct (IH t' Hwf' Hnd' Hpend' H) as (Hwfo & Hrooto & Hleno & Hino & Helo).
    assert (Hstep : forall e,
              (if mem_uid (uid (to_list_item u e)) us
               then list_item (to_list_item u e) else to_list_item u e) =
              (if mem_uid (uid e) (u :: us) then list_item e else e)).
    { intros e. rewrite uid_to_list_item, to_list_item_cases. unfold mem_uid.
      cbn [existsb]. destruct (Nat.eqb_spec (uid e) u) as [E|Hne].
      - replace (existsb (Nat.eqb (uid e)) us) with false; [reflexivity|].
        symmetry. apply (mem_uid_false (uid e) us). congruence.
      - reflexivity. }
    split; [exact Hwfo|]. split; [congruence|].
    split; [rewrite Hleno, Hlen; cbn; lia|]. split.
    + intros e He. rewrite <- Hstep. exact (Hino _ (Hin' e He)).
    + intros e' He'. destruct (Helo e' He') as [Hbr|(e1 & He1 & ->)]; [left; exact Hbr|].
      destruct (Hel' e1 He1) as [[v ->]|(e & He & ->)].
      * left. exists v. destruct (mem_uid (uid (br_element v)) us) eqn:Hm; [|reflexivity].
        exfalso. apply mem_uid_In in Hm.
        destruct (Hpend' _ Hm) as (e2 & He2 & E2 & Hp2).
        rewrite (wf_uid_injective t' e2 (br_element v) Hwf' He2 He1 E2) in Hp2.
        discriminate Hp2.
      * right. exists e. split; [exact He|]. apply Hstep.
Qed.

(** what [fix_footer] leaves, when it succeeds *)
Lemma fix_footer_elements (root out : node) :
  wf root -> fix_footer root = Ok out ->
  wf out /\ uid (elem out) = uid (elem root) /\
  List.length (elements out) =
    (List.length (elements root) + List.length (select is_printfooter root))%nat /\
  (forall e, In e (elements root) ->
             In (if is_printfooter e then list_item e else e) (elements out)) /\
  (forall e', In e' (elements out) ->
              (exists v, e' = br_element v) \/
              exists e, In e (elements root) /\
                        e' = if is_printfooter e then list_item e else e).
Proof.
  intros Hwf H. unfold fix_footer in H.
  assert (Hpend : forall u, In u (select is_printfooter root) ->
            exists e, In e (elements root) /\ uid e = u /\ is_printfooter e = true).
  { intros u Hu. apply select_In in Hu as (e & He & Hp & E). exists e. auto. }
  destruct (fix_footer_loop_result _ root out Hwf (select_NoDup _ _ Hwf) Hpend H)
    as (Hwfo & Hroot & Hlen & Hin & Hel).
  split; [exact Hwfo|]. split; [exact Hroot|]. split; [exact Hlen|]. split.
  - intros e He. rewrite <- (select_mem is_printfooter root e Hwf He). exact (Hin e He).
  - intros e' He'. destruct (Hel e' He') as [Hbr|(e & He & ->)]; [left; exact Hbr|].
    right. exists e. split; [exact He|].
    rewrite (select_mem is_printfooter root e Hwf He). reflexivity.
Qed.

(** X20. When [fix_footer] succeeds, it has deleted no element and added one
    [br] element for every print footer. Every print footer is in the result
    as a list item without its [class]; every other element of the input is
    there as it was; what else is there is a new, empty [br]; and no print
    footer is left. *)
Theorem fix_footer_result (root out : node) :
  wf root -> fix_footer root = Ok out ->
  List.length (elements out) =
    (List.length (elements root) + List.length (select is_printfooter root))%nat /\
  (forall e, In e (elements root) ->
             In (if is_printfooter e then set_tag "li" (pop "class" e) else e)
                (elements out)) /\
  (forall e', In e' (elements out) ->
              (tag e' = Tag "br" /\ attrib e' = [] /\ ~ In (uid e') (uids root)) \/
              exists e, In e (elements root) /\
                        e' = if is_printfooter e
                             then set_tag "li" (pop "class" e) else e) /\
  select is_printfooter out = [].
Proof.
  intros Hwf H.
  destruct (fix_footer_elements root out Hwf H) as (Hwfo & _ & Hlen & Hin' & Hel').
  split; [exact Hlen|]. split; [exact Hin'|]. split.
  - intros e' He'. destruct (Hel' e' He') as [[v ->]|Hold]; [|right; exact Hold].
    destruct (in_dec Nat.eq_dec v (uids root)) as [Hv|Hv];
      [|left; repeat split; exact Hv].
    right. apply In_uids in Hv as (e & He & E). exists e. split; [exact He|].
    apply (wf_uid_injective out _ _ Hwfo He' (Hin' e He)).
    cbn [uid br_element]. rewrite <- E.
    destruct (is_printfooter e); reflexivity.
  - unfold select. rewrite filter_none; [reflexivity|].
    intros e' He'. destruct (Hel' e' He') as [[v ->]|(e & He & ->)]; [reflexivity|].
    destruct (is_printfooter e) eqn:Hp; [reflexivity|exact Hp].
Qed.

Lemma fix_footer_result_witness :
  exists out,
    fix_footer Example.page = Ok out /\
    List.length (elements out) = 23%nat /\
    In (mkElement 14 (Tag "li") [] EmptyString EmptyString) (elements out) /\
    select is_printfooter out = [].
Proof.
  destruct (fix_footer Example.page) as [out|] eqn:H; [|vm_compute in H; discriminate H].
  exists out. split; [reflexivity|].
  destruct (fix_footer_result Example.page out page_wf H) as (Hlen & Hin & _ & Hno).
  split; [exact Hlen|]. split; [|exact Hno].
  apply (Hin (mkElement 14 (Tag "div") [("class", "printfooter")] EmptyString EmptyString)).
  do 14 right. left. reflexivity.
Defined.

(** the children of the element [pu], in their order *)
Definition child_uids (pu : nat) (n : node) : list nat :=
  match find_node pu n with
  | Some x => map (fun c => uid (elem c)) (children x)
  | None => []
  end.

Lemma find_node_map_tree (g : element -> element) (f : nat) (n : node) :
  (forall e, uid (g e) = uid e) ->
  find_node f (map_tree g n) = option_map (map_tree g) (find_node f n).
Proof.
  intros Hg. induction n as [e cs IH] using node_children_ind.
  cbn [map_tree]. rewrite !find_node_Node. unfold has_uid. rewrite Hg.
  destruct (Nat.eqb (uid e) f); [reflexivity|].
  induction IH as [|c cs Hc _ IHcs]; [reflexivity|].
  cbn [map first_some]. rewrite Hc. destruct (find_node f c); [reflexivity|exact IHcs].
Qed.

Lemma child_uids_map_tree (g : element -> element) (f : nat) (n : node) :
  (forall e, uid (g e) = uid e) -> child_uids f (map_tree g n) = child_uids f n.
Proof.
  intros Hg. unfold child_uids. rewrite (find_node_map_tree g f n Hg).
  destruct (find_node f n) as [[e cs]|]; [|reflexivity].
  cbn. rewrite map_map. apply map_ext. intros [ec ccs]. cbn. apply Hg.
Qed.

Lemma find_node_add_child (f i : nat) (y n : node) :
  find_node f (add_child f i y n) =
  option_map
    (fun x => let cs := map (add_child f i y) (children x) in
              Node (elem x) (firstn i cs ++ y :: skipn i cs))
    (find_node f n).
Proof.
  induction n as [e cs IH] using node_children_ind.
  rewrite add_child_Node, !find_node_Node. destruct (has_uid f e); [reflexivity|].
  induction IH as [|c cs Hc _ IHcs]; [reflexivity|].
  cbn [map first_some]. rewrite Hc. destruct (find_node f c); [reflexivity|exact IHcs].
Qed.

Lemma child_uids_add_child (f i : nat) (y n x : node) :
  find_node f n = Some x ->
  child_uids f (add_child f i y n) =
  (firstn i (child_uids f n) ++ uid (elem y) :: skipn i (child_uids f n))%list.
Proof.
  intros Hx. unfold child_uids. rewrite find_node_add_child, Hx. cbn.
  rewrite map_app. cbn [map]. rewrite <- firstn_map, <- skipn_map, map_map.
  replace (map (fun c => uid (elem (add_child f i y c))) (children x))
    with (map (fun c => uid (elem c)) (children x)); [reflexivity|].
  apply map_ext. intros c. rewrite elem_add_child. reflexivity.
Qed.

Lemma prune_children_In (p : element -> bool) (cs : list node) (c' : node) :
  In c' (prune_children p cs) -> exists c, In c cs /\ c' = prune p c.
Proof.
  unfold prune_children. intros H. apply in_flat_map in H as (c & Hc & H).
  destruct (p (elem c)); [contradiction|]. destruct H as [<-|[]]. exists c. auto.
Qed.

Lemma find_node_prune (p : element -> bool) (f : nat) (n : node) :
  wf n -> clear_path p f n = true ->
  find_node f (prune p n) = option_map (prune p) (find_node f n).
Proof.
  induction n as [e cs IH] using node_children_ind. intros Hwf H.
  rewrite prune_Node, !find_node_Node, clear_path_Node in *.
  apply andb_true_iff in H as [_ H]. destruct (has_uid f e); [reflexivity|].
  cbn [orb] in H. apply existsb_exists in H as (c & Hc & H).
  rewrite Forall_forall in IH.
  destruct (in_split c cs Hc) as (l1 & l2 & ->).
  destruct (wf_split e l1 l2 c Hwf) as (Hwfc & _ & Hother).
  assert (Hf : In f (uids c)) by exact (clear_path_In p f c H).
  assert (Hp : p (elem c) = false) by exact (clear_path_root p f c H).
  rewrite first_some_split.
  2:{ intros c' Hc'. apply find_node_absent. apply (Hother f c' Hf).
      apply in_or_app. left. exact Hc'. }
  destruct (find_node_found f c Hf) as [x Hx]. rewrite Hx. cbn [option_map].
  rewrite prune_children_app. unfold prune_children at 2. cbn [flat_map].
  rewrite Hp. cbn [app]. rewrite first_some_split.
  2:{ intros c'' Hc''. apply prune_children_In in Hc'' as (c' & Hc' & ->).
      apply find_node_absent. intros Hin. apply uids_prune in Hin.
      apply (Hother f c' Hf); [apply in_or_app; left; exact Hc'|exact Hin]. }
  rewrite (IH c Hc Hwfc H), Hx. reflexivity.
Qed.

Lemma child_uids_prune (u f : nat) (n : node) :
  wf n -> clear_path (has_uid u) f n = true ->
  child_uids f (prune (has_uid u) n) =
  filter (fun v => negb (Nat.eqb v u)) (child_uids f n).
Proof.
  intros Hwf H. unfold child_uids. rewrite (find_node_prune _ f n Hwf H).
  destruct (find_node f n) as [[e cs]|]; [|reflexivity].
  cbn [option_map]. rewrite prune_Node. cbn [children].
  induction cs as [|c cs IH]; [reflexivity|].
  change (prune_children (has_uid u) (c :: cs))
    with ((if has_uid u (elem c) then [] else [prune (has_uid u) c])
            ++ prune_children (has_uid u) cs)%list.
  cbn [map filter]. unfold has_uid at 1.
  destruct (Nat.eqb (uid (elem c)) u); cbn [negb app map]; [exact IH|].
  rewrite elem_prune, IH. reflexivity.
Qed.

Lemma clear_path_free (q : element -> bool) (f : nat) (n : node) :
  (forall e, In e (elements n) -> q e = false) -> In f (uids n) ->
  clear_path q f n = true.
Proof.
  induction n as [e cs IH] using node_children_ind. intros Hq Hf.
  rewrite clear_path_Node, (Hq e) by (rewrite elements_Node; left; reflexivity).
  cbn [negb andb]. rewrite uids_Node in Hf. destruct Hf as [E|Hf].
  - unfold has_uid. rewrite E, Nat.eqb_refl. reflexivity.
  - apply orb_true_iff. right. apply in_flat_map in Hf as (c & Hc & Hf).
    apply existsb_exists. exists c. split; [exact Hc|].
    rewrite Forall_forall in IH. apply (IH c Hc); [|exact Hf].
    intros x Hx. apply Hq. exact (elements_child e cs c x Hc Hx).
Qed.

Lemma clear_path_outside (u f : nat) (n x : node) :
  wf n -> find_node u n = Some x -> In f (uids n) -> ~ In f (uids x) ->
  clear_path (has_uid u) f n = true.
Proof.
  revert x. induction n as [e cs IH] using node_children_ind.
  intros x Hwf Hfind Hf Hout. rewrite find_node_Node in Hfind.
  rewrite clear_path_Node. destruct (has_uid u e) eqn:Hu.
  - injection Hfind as <-. contradiction.
  - cbn [negb andb]. rewrite uids_Node in Hf. destruct Hf as [E|Hf].
    + unfold has_uid. rewrite E, Nat.eqb_refl. reflexivity.
    + apply orb_true_iff. right. apply in_flat_map in Hf as (c & Hc & Hf).
      apply existsb_exists. exists c. split; [exact Hc|].
      apply first_some_Some in Hfind as (cu & Hcu & Hfind).
      rewrite Forall_forall in IH.
      destruct (in_dec Nat.eq_dec u (uids c)) as [Huc|Huc].
      * assert (Hux : In u (uids cu)).
        { apply (find_node_uids u cu x Hfind).
          rewrite <- (find_node_uid u cu x Hfind).
          apply uids_elements_In, elements_root. }
        rewrite (wf_children_share e cs c cu u Hwf Hc Hcu Huc Hux).
        apply (IH cu Hcu x (wf_child e cs cu Hwf Hcu) Hfind); [|exact Hout].
        rewrite <- (wf_children_share e cs c cu u Hwf Hc Hcu Huc Hux). exact Hf.
      * apply clear_path_free; [|exact Hf].
        intros y Hy. exact (has_uid_absent u c y Huc Hy).
Qed.

(** X21. On a document with one print footer and a list of footer information
    that is not inside it, [fix_footer] succeeds; the print footer becomes the
    first child of the list, and the new [br] element stands after the first
    two of the children that the list had before, or at the end of the list
    when it had fewer than two. *)
Theorem fix_footer_places (root : node) (u f : nat) (fs : list nat) :
  wf root ->
  select is_printfooter root = [u] ->
  cssselect_id "footer-info" root = f :: fs ->
  (forall x, find_node u root = Some x -> ~ In f (uids x)) ->
  exists out br,
    fix_footer root = Ok out /\
    ~ In br (uids root) /\
    let others := filter (fun v => negb (Nat.eqb v u)) (child_uids f root) in
    child_uids f out = (u :: firstn 2 others ++ br :: skipn 2 others)%list.
Proof.
  intros Hwf Hsel Hf Hout.
  assert (Hu : In u (select is_printfooter root)) by (rewrite Hsel; left; reflexivity).
  apply select_In in Hu as (eu & Heu & Hpf & Hueu).
  assert (Hdiv : forall e, In e (elements root) -> uid e = u -> is_tag "div" e = true).
  { intros e He E. rewrite (wf_uid_injective root e eu Hwf He Heu) by congruence.
    exact (is_printfooter_div eu Hpf). }
  assert (Hfin : In f (select (has_id "footer-info") root))
    by (unfold cssselect_id in Hf; rewrite Hf; left; reflexivity).
  apply select_In in Hfin as (ef & Hef & Hidf & Huef).
  assert (Huin : In u (uids root)) by (rewrite <- Hueu; apply uids_elements_In; exact Heu).
  assert (Hfroot : In f (uids root)) by (rewrite <- Huef; apply uids_elements_In; exact Hef).
  destruct (find_node_found u root Huin) as [x Hx].
  specialize (Hout x Hx).
  set (tl := map_tree (to_list_item u) root).
  assert (Hwfl : wf tl)
    by (unfold wf, tl; rewrite (uids_map_tree _ _ (uid_to_list_item u)); exact Hwf).
  assert (Huids : uids tl = uids root) by exact (uids_map_tree _ _ (uid_to_list_item u)).
  assert (Hxl : find_node u tl = Some (map_tree (to_list_item u) x)).
  { unfold tl. rewrite (find_node_map_tree _ u root (uid_to_list_item u)), Hx.
    reflexivity. }
  set (xl := map_tree (to_list_item u) x) in *.
  assert (Hxuids : uids xl = uids x) by exact (uids_map_tree _ _ (uid_to_list_item u)).
  assert (Houtl : ~ In f (uids xl)) by (rewrite Hxuids; exact Hout).
  assert (Hfl : In f (uids tl)) by (rewrite Huids; exact Hfroot).
  assert (Hroot : uid (elem tl) <> u).
  { intros E. apply Nat.eqb_eq in E. rewrite (find_node_root u tl E) in Hxl.
    injection Hxl as E'. rewrite <- E' in Houtl. contradiction. }
  assert (Hself : cssselect_id "footer-info" tl = f :: fs).
  { unfold cssselect_id, tl. rewrite select_map_tree; [exact Hf|apply uid_to_list_item|].
    intros e He. apply has_id_to_list_item. intros E. apply Nat.eqb_eq in E.
    exact (is_tag_is_element _ _ (Hdiv e He E)). }
  set (tp := prune (has_uid u) tl).
  set (tm := add_child f 0 xl tp).
  set (br := fresh tm).
  assert (Hrun : fix_footer root = Ok (add_child f 3 (new_element br "br") tm)).
  { unfold fix_footer. rewrite Hsel. cbn [for_each]. unfold fix_footer_body.
    rewrite update_to_list_item. fold tl. rewrite Hself. unfold insert_first.
    rewrite Hxl. replace (existsb (Nat.eqb f) (uids xl)) with false; [reflexivity|].
    symmetry. apply (mem_uid_false f (uids xl)). exact Houtl. }
  assert (Hfp : In f (uids tp))
    by exact (prune_uid_keeps u f tl xl Hwfl Hxl Hroot Hfl Houtl).
  destruct (find_node_found f tp Hfp) as [xf Hxf].
  assert (Hcp : child_uids f tp =
                filter (fun v => negb (Nat.eqb v u)) (child_uids f root)).
  { unfold tp. rewrite child_uids_prune; [|exact Hwfl|].
    - unfold tl. rewrite (child_uids_map_tree _ f root (uid_to_list_item u)).
      reflexivity.
    - exact (clear_path_outside u f tl xl Hwfl Hxl Hfl Houtl). }
  assert (Hcm : child_uids f tm =
                u :: filter (fun v => negb (Nat.eqb v u)) (child_uids f root)).
  { unfold tm. rewrite (child_uids_add_child f 0 xl tp xf Hxf), Hcp. cbn.
    rewrite (find_node_uid u tl xl Hxl). reflexivity. }
  assert (Hfm : In f (uids tm)).
  { assert (Hp := moved_elements f u tl xl Hwfl Hxl Hroot Hfl Houtl).
    apply (Permutation_map uid) in Hp.
    exact (Permutation_in f (Permutation_sym Hp) Hfl). }
  destruct (find_node_found f tm Hfm) as [xm Hxm].
  exists (add_child f 3 (new_element br "br") tm), br.
  split; [exact Hrun|]. split.
  - intros Hin. apply (fresh_not_in tm). fold br.
    assert (Hp := moved_elements f u tl xl Hwfl Hxl Hroot Hfl Houtl).
    apply (Permutation_map uid) in Hp.
    apply (Permutation_in br (Permutation_sym Hp)). fold (uids tl). rewrite Huids.
    exact Hin.
  - cbn zeta. rewrite (child_uids_add_child f 3 _ tm xm Hxm), Hcm. reflexivity.
Qed.

Lemma fix_footer_places_witness :
  exists out br,
    fix_footer Example.page = Ok out /\ ~ In br (uids Example.page) /\
    child_uids 19 out = [14; 20; 21; br].
Proof.
  destruct (fix_footer_places Example.page 14 19 [] page_wf eq_refl eq_refl)
    as (out & br & Hrun & Hbr & Hc).
  - intros x Hx. vm_compute in Hx. injection Hx as <-. intros [E|[]]. discriminate E.
  - exists out, br. split; [exact Hrun|]. split; [exact Hbr|]. exact Hc.
Defined.

(** X22. [fix_footer] has nothing to do on its own result: no print footer is
    left, and the list of footer information gets no second [br]. *)
Theorem fix_footer_idempotent (root out : node) :
  wf root -> fix_footer root = Ok out -> fix_footer out = Ok out.
Proof.
  intros Hwf H.
  destruct (fix_footer_elements root out Hwf H) as (_ & _ & _ & _ & Hel).
  unfold fix_footer.
  replace (select is_printfooter out) with (@nil nat); [reflexivity|].
  symmetry. unfold select. rewrite filter_none; [reflexivity|].
  intros e' He'. destruct (Hel e' He') as [[v ->]|(e & He & ->)]; [reflexivity|].
  destruct (is_printfooter e) eqn:Hp; [reflexivity|exact Hp].
Qed.

Lemma fix_footer_idempotent_witness :
  exists out, fix_footer Example.page = Ok out /\ fix_footer out = Ok out.
Proof.
  destruct (fix_footer Example.page) as [out|] eqn:H; [|vm_compute in H; discriminate H].
  exists out. split; [reflexivity|].
  exact (fix_footer_idempotent Example.page out page_wf H).
Defined.

(** ** The five steps together *)


Section Pipeline.

Variable unquote : string -> string.
Variable wiki : ArchWiki.
Variable relbase : string.

(** where the elements of the document come from, when the steps before
    [fix_footer] have succeeded *)
Lemma transform_origin (root out : node) :
  wf root -> transform unquote wiki relbase root = Ok out ->
  exists t1 t4,
    strip_page root = Ok t1 /\ wf t4 /\ fix_footer t4 = Ok out /\
    (forall e4, In e4 (elements t4) ->
                layout_done e4 /\
                exists e1, In e1 (elements t1) /\
                           same_but ["style"; "href"; "src"] e1 e4) /\
    (forall e4, In e4 (flat_map elements (children t4)) ->
                exists e1, In e1 (flat_map elements (children t1)) /\ tag e4 = tag e1) /\
    uid (elem t4) = uid (elem t1).
Proof.
  intros Hwf H. unfold transform in H.
  destruct (strip_page root) as [t1|] eqn:H1; [|discriminate]. cbn [bind] in H.
  destruct (strip_page_result root t1 Hwf H1) as (Hwf1 & _).
  rewrite (fix_layout_map_tree t1 Hwf1) in H.
  set (t2 := map_tree layout_element t1) in *.
  assert (Hwf2 : wf t2)
    by (unfold wf, t2; rewrite (uids_map_tree _ _ uid_layout_element); exact Hwf1).
  destruct (replace_css_links relbase t2) as [t3|] eqn:H3; [|discriminate].
  cbn [bind] in H.
  destruct (xpath_stylesheet_links t2) as [|first rest] eqn:Hx;
    [unfold replace_css_links in H3; rewrite Hx in H3; discriminate|].
  destruct (replace_css_links_result relbase t2 first rest Hwf2 Hx)
    as (Hrun & Hwf3 & _).
  rewrite Hrun in H3. injection H3 as E3.
  set (g := fun e => if Nat.eqb (uid e) first
                     then set "href" (css_href relbase) e else e) in *.
  change (update first (set "href" (css_href relbase)) t2) with (map_tree g t2) in *.
  rewrite E3 in Hwf3.
  apply (completed_update_links unquote wiki relbase t3 out fix_footer Hwf3) in H
    as [_ H].
  rewrite (update_links_map_tree _ _ _ t3 Hwf3) in H.
  set (U := update_element unquote wiki relbase) in *.
  assert (HU : forall e, uid (U e) = uid e) by (intros e; apply uid_update_element).
  assert (Hwf4 : wf (map_tree U t3))
    by (unfold wf; rewrite (uids_map_tree _ _ HU); exact Hwf3).
  assert (Hsame : forall e1,
            same_but ["href"; "src"] (layout_element e1) (U (g (layout_element e1))) /\
            same_but ["style"; "href"; "src"] e1 (U (g (layout_element e1)))).
  { intros e1.
    assert (H23 : same_but ["href"; "src"] (layout_element e1) (g (layout_element e1))).
    { apply (same_but_more ["href"]); [|apply same_but_css].
      intros k [<-|[]]. left. reflexivity. }
    assert (H24 := same_but_trans _ _ _ _ H23
                     (same_but_update_element unquote wiki relbase _)).
    split; [exact H24|].
    apply (same_but_trans _ _ (layout_element e1)).
    - apply (same_but_more ["style"]); [|apply same_but_layout_element].
      intros k [<-|[]]. left. reflexivity.
    - apply (same_but_more ["href"; "src"]); [|exact H24].
      intros k Hk. right. exact Hk. }
  exists t1, (map_tree U t3). split; [reflexivity|]. split; [exact Hwf4|].
  split; [exact H|]. split; [|split].
  - intros e4 He4. rewrite elements_map_tree in He4.
    apply in_map_iff in He4 as (e3 & <- & He3). rewrite <- E3 in He3.
    apply elements_prune in He3. rewrite elements_map_tree in He3.
    apply in_map_iff in He3 as (e2 & <- & He2).
    unfold t2 in He2. rewrite elements_map_tree in He2.
    apply in_map_iff in He2 as (e1 & <- & He1).
    destruct (Hsame e1) as [H24 H14]. split.
    + apply (same_but_layout_done ["href"; "src"] (layout_element e1));
        [intros [E|[E|[]]]; discriminate|intros [E|[E|[]]]; discriminate
        |exact H24|apply layout_done_layout_element].
    + exists e1. split; [exact He1|exact H14].
  - intros e4 He4. rewrite children_elements_map_tree in He4.
    apply in_map_iff in He4 as (e3 & <- & He3). rewrite <- E3 in He3.
    apply children_elements_prune in He3.
    rewrite children_elements_map_tree in He3.
    apply in_map_iff in He3 as (e2 & <- & He2).
    unfold t2 in He2. rewrite children_elements_map_tree in He2.
    apply in_map_iff in He2 as (e1 & <- & He1).
    exists e1. split; [exact He1|].
    destruct (Hsame e1) as [_ (_ & Htag & _)]. exact Htag.
  - rewrite <- E3. unfold t2. destruct t1 as [e1 cs1]. cbn.
    exact (proj1 (proj2 (Hsame e1))).
Qed.

Lemma list_item_to_list_item (e : element) : list_item e = to_list_item (uid e) e.
Proof. unfold to_list_item. rewrite Nat.eqb_refl. reflexivity. Qed.

(** X23. When the five steps succeed, their result has no element with a
    navigation identifier, no comment and no [script] element below the root,
    and no print footer; and every element whose identifier is [content] or
    [footer] has the [style] [margin: 0]. *)
Theorem transform_clean (root out : node) :
  wf root -> transform unquote wiki relbase root = Ok out ->
  (forall e, In e (elements out) -> is_chrome e = false) /\
  (forall e, In e (flat_map elements (children out)) ->
             is_comment (tag e) = false /\ is_script (tag e) = false) /\
  select is_printfooter out = [] /\
  (forall e, In e (elements out) ->
             has_id "content" e = true \/ has_id "footer" e = true ->
             get "style" e = Some "margin: 0").
Proof.
  intros Hwf H.
  destruct (transform_origin root out Hwf H)
    as (t1 & t4 & H1 & Hwf4 & H5 & Hel4 & Hbelow4 & _).
  destruct (strip_page_result root t1 Hwf H1) as (_ & _ & _ & Hchrome1 & Hbelow1 & _).
  destruct (fix_footer_elements t4 out Hwf4 H5) as (Hwfo & Hroot & _ & Hin & Hel).
  assert (Hnid : ~ In "id" ["style"; "href"; "src"])
    by (intros [E|[E|[E|[]]]]; discriminate).
  assert (Hdiv : forall e, is_printfooter e = true -> uid e = uid e -> is_tag "div" e = true)
    by (intros e Hp _; exact (is_printfooter_div e Hp)).
  split; [|split; [|split]].
  - intros e' He'. destruct (Hel e' He') as [[v ->]|(e & He & ->)]; [reflexivity|].
    destruct (Hel4 e He) as (_ & e1 & He1 & H14).
    assert (Hc : is_chrome e = false)
      by (rewrite (same_but_is_chrome _ _ _ Hnid H14); exact (Hchrome1 e1 He1)).
    destruct (is_printfooter e) eqn:Hp; [|exact Hc].
    rewrite list_item_to_list_item, is_chrome_to_list_item; [exact Hc|exact (Hdiv e Hp)].
  - intros e' He'.
    assert (Hne := below_root_not_root _ e' Hwfo He').
    destruct (Hel e' (children_elements _ e' He')) as [[v ->]|(e & He & ->)];
      [split; reflexivity|].
    destruct (is_printfooter e) eqn:Hp; [split; reflexivity|].
    rewrite Hroot in Hne.
    destruct (Hbelow4 e (elements_tail t4 e He Hne)) as (e1 & He1 & ->).
    exact (Hbelow1 e1 He1).
  - unfold select. rewrite filter_none; [reflexivity|].
    intros e' He'. destruct (Hel e' He') as [[v ->]|(e & He & ->)]; [reflexivity|].
    destruct (is_printfooter e) eqn:Hp; [reflexivity|exact Hp].
  - intros e' He' Hid. apply orb_true_iff in Hid.
    destruct (Hel e' He') as [[v ->]|(e & He & ->)];
      [cbn in Hid; discriminate|].
    destruct (Hel4 e He) as (Hdone & _).
    destruct (is_printfooter e) eqn:Hp; [|exact (Hdone Hid)].
    rewrite list_item_to_list_item in *.
    exact (layout_done_to_list_item (uid e) e (Hdiv e Hp) Hdone Hid).
Qed.

End Pipeline.

Lemma transform_clean_witness :
  exists out,
    transform Example.unquote Example.wiki ".." Example.page = Ok out /\
    (forall e, In e (elements out) -> is_chrome e = false) /\
    select is_printfooter out = [].
Proof.
  destruct (transform Example.unquote Example.wiki ".." Example.page) as [out|] eqn:H;
    [|vm_compute in H; discriminate H].
  exists out. split; [reflexivity|].
  destruct (transform_clean Example.unquote Example.wiki ".." Example.page out page_wf H)
    as (Hc & _ & Hp & _).
  split; [exact Hc|exact Hp].
Defined.

(** ** [optimize] *)

(** The five steps work on the objects of the parsed document: the root of
    their result is the root that they were given, and an element of their
    result is an element that they were given, or a [br] that [fix_footer]
    has made. *)
Lemma transform_in_place
  (unquote : string -> string) (wiki : ArchWiki) (relbase : string)
  (root out : node) :
  wf root -> transform unquote wiki relbase root = Ok out ->
  uid (elem out) = uid (elem root) /\
  forall e', In e' (elements out) ->
             (exists v, e' = br_element v) \/
             exists e, In e (elements root) /\ uid e' = uid e.
Proof.
  intros Hwf H.
  destruct (transform_origin unquote wiki relbase root out Hwf H)
    as (t1 & t4 & H1 & Hwf4 & H5 & Hel4 & _ & Hroot4).
  destruct (strip_page_result root t1 Hwf H1) as (_ & Hroot1 & Hsub1 & _).
  destruct (fix_footer_elements t4 out Hwf4 H5) as (_ & Hroot & _ & _ & Hel).
  split; [rewrite Hroot, Hroot4, Hroot1; reflexivity|].
  intros e' He'. destruct (Hel e' He') as [Hbr|(e4 & He4 & ->)]; [left; exact Hbr|].
  right. destruct (Hel4 e4 He4) as (_ & e1 & He1 & Hu & _).
  exists e1. split; [exact (Hsub1 e1 He1)|].
  rewrite <- Hu. destruct (is_printfooter e4); reflexivity.
Qed.

(** C9 (amended). [optimize] works on the parsed document in place and, when
    the five steps succeed, on the file system: it calls [os.makedirs] on the
    directory of the output path, where a directory that exists is not an
    error, then writes the serialized document to the output path, and
    returns with the document and the file system that the two calls have
    left. When a step raises, the exception is passed on and the file system
    is as it was; when [os.makedirs] or the writing raises, the exception is
    passed on with the file system that the call has left. The document of
    the result has the root that was parsed, and its elements are the parsed
    ones and the [br] elements of [fix_footer]. *)
Theorem optimize_effects
  (unquote : string -> string) (wiki : ArchWiki) (base_directory : string)
  (relpath : string -> string -> string) (parse : string -> option node)
  (tostring : node -> string) (FS : Type)
  (makedirs : string -> FS -> outcome FS)
  (write_file : string -> string -> FS -> outcome FS)
  (fin fout : string) (fs : FS) (root : node) :
  parse fin = Some root -> wf root ->
  let relbase := relpath base_directory (Str.path_head fout) in
  let run := optimize unquote wiki base_directory relpath parse tostring FS
                      makedirs write_file fin fout fs in
  (forall e, transform unquote wiki relbase root = Raise e -> run = Raised FS e fs) /\
  (forall root',
      transform unquote wiki relbase root = Ok root' ->
      (uid (elem root') = uid (elem root) /\
       forall e', In e' (elements root') ->
                  (exists v, e' = br_element v) \/
                  exists e, In e (elements root) /\ uid e' = uid e) /\
      let made := makedirs (Str.path_head fout) fs in
      let written := write_file fout (tostring root') (after made) in
      match raised made with
      | None | Some FileExistsError =>
          match raised written with
          | None => run = Returned FS root' (after written)
          | Some e => run = Raised FS e (after written)
          end
      | Some e => run = Raised FS e (after made)
      end).
Proof.
  intros Hparse Hwf relbase run. unfold run, optimize. rewrite Hparse. fold relbase.
  split.
  - intros e ->. reflexivity.
  - intros root' Hrun.
    split; [exact (transform_in_place unquote wiki relbase root root' Hwf Hrun)|].
    rewrite Hrun. unfold ensure_directory. cbv zeta.
    destruct (raised (makedirs (Str.path_head fout) fs)) as [[]|] eqn:Hmade;
      cbn [raised after]; rewrite ?Hmade; try reflexivity;
      destruct (raised (write_file fout (tostring root')
                          (after (makedirs (Str.path_head fout) fs))));
      reflexivity.
Qed.

Lemma optimize_effects_witness :
  exists root',
    transform Example.unquote Example.wiki ".." Example.plain_page = Ok root' /\
    optimize Example.unquote Example.wiki "/out" Example.relpath Example.parse
             Example.tostring (list Example.call) Example.makedirs_exists
             Example.write_file "<plain_page>" "/out/en/Foo.html" [] =
    Returned (list Example.call) root'
             [Example.Makedirs "/out/en";
              Example.WriteFile "/out/en/Foo.html" (Example.tostring root')] /\
    optimize Example.unquote Example.wiki "/out" Example.relpath Example.parse
             Example.tostring (list Example.call) Example.makedirs
             Example.write_file_denied "<plain_page>" "/out/en/Foo.html" [] =
    Raised (list Example.call) OSError
           [Example.Makedirs "/out/en";
            Example.WriteFile "/out/en/Foo.html" (Example.tostring root')].
Proof.
  destruct (transform Example.unquote Example.wiki ".." Example.plain_page)
    as [root'|] eqn:Hrun; [|vm_compute in Hrun; discriminate Hrun].
  exists root'. split; [reflexivity|]. split.
  - exact (proj2 (proj2 (optimize_effects Example.unquote Example.wiki "/out"
                     Example.relpath Example.parse Example.tostring
                     (list Example.call) Example.makedirs_exists Example.write_file
                     "<plain_page>" "/out/en/Foo.html" [] Example.plain_page
                     eq_refl plain_page_wf) root' Hrun)).
  - exact (proj2 (proj2 (optimize_effects Example.unquote Example.wiki "/out"
                     Example.relpath Example.parse Example.tostring
                     (list Example.call) Example.makedirs Example.write_file_denied
                     "<plain_page>" "/out/en/Foo.html" [] Example.plain_page
                     eq_refl plain_page_wf) root' Hrun)).
Defined.

(** The claim C9 as it is worded: the file system after the operation is the
    file system before it. *)
Definition optimize_without_io : Prop :=
  forall (unquote : string -> string) (wiki : ArchWiki) (base_directory : string)
         (relpath : string -> string -> string) (parse : string -> option node)
         (tostring : node -> string) (FS : Type)
         (makedirs : string -> FS -> outcome FS)
         (write_file : string -> string -> FS -> outcome FS)
         (fin fout : string) (fs fs' : FS) (root' : node),
    optimize unquote wiki base_directory relpath parse tostring FS
             makedirs write_file fin fout fs = Returned FS root' fs' ->
    fs' = fs.

(** The log of the calls of one run has a directory made and a file written. *)
Lemma optimize_without_io_fails : ~ optimize_without_io.
Proof.
  intros claim.
  pose proof (claim Example.unquote Example.wiki "/out" Example.relpath
                Example.parse Example.tostring (list Example.call)
                Example.makedirs Example.write_file
                "<plain_page>" "/out/en/Foo.html" []) as H.
  vm_compute in H. specialize (H _ _ eq_refl). discriminate H.
Qed.

(** X24. When [optimize] returns, the five steps have succeeded on the parsed
    document, and the text written to the output path is the serialization of
    their result, whose one stylesheet link has as [href] the local
    stylesheet joined to the path from the directory of the output file to
    the base directory. *)
Theorem optimize_written
  (unquote : string -> string) (wiki : ArchWiki) (base_directory : string)
  (relpath : string -> string -> string) (parse : string -> option node)
  (tostring : node -> string) (FS : Type)
  (makedirs : string -> FS -> outcome FS)
  (write_file : string -> string -> FS -> outcome FS)
  (fin fout : string) (fs fs' : FS) (root' : node) :
  (forall root, parse fin = Some root -> wf root) ->
  optimize unquote wiki base_directory relpath parse tostring FS
           makedirs write_file fin fout fs = Returned FS root' fs' ->
  let relbase := relpath base_directory (Str.path_head fout) in
  exists root fs1 link,
    parse fin = Some root /\
    transform unquote wiki relbase root = Ok root' /\
    write_file fout (tostring root') fs1 = mkOutcome fs' None /\
    xpath_stylesheet_links root' = [link] /\
    attribute "href" link root' = Some (Str.path_join relbase "ArchWikiOffline.css").
Proof.
  intros Hparse H relbase. unfold optimize in H. fold relbase in H.
  destruct (parse fin) as [root|] eqn:Hp; [|discriminate].
  destruct (transform unquote wiki relbase root) as [r|] eqn:Ht; [|discriminate].
  cbv zeta in H.
  destruct (raised (ensure_directory FS makedirs (Str.path_head fout) fs));
    [discriminate|].
  set (fs1 := after (ensure_directory FS makedirs (Str.path_head fout) fs)) in *.
  destruct (raised (write_file fout (tostring r) fs1)) eqn:Hw; [discriminate|].
  injection H as <- <-.
  destruct (transform_stylesheet unquote wiki relbase root r (Hparse root eq_refl) Ht)
    as (t1 & first & rest & x & _ & _ & Hwfo & Hone & Hu & Hh).
  exists root, fs1, first. split; [reflexivity|]. split; [exact Ht|].
  split; [exact (outcome_eta _ _ _ eq_refl Hw)|]. split.
  - unfold xpath_stylesheet_links. rewrite Hone. cbn. rewrite Hu. reflexivity.
  - assert (Hin : In x [x]) by (left; reflexivity).
    rewrite <- Hone in Hin. apply filter_In in Hin as [Hin _].
    apply (in_map snd) in Hin. rewrite edges_snd in Hin.
    pose proof (element_of_wf r (snd x) Hwfo Hin) as He.
    rewrite Hu in He. unfold attribute. rewrite He. exact Hh.
Qed.

Lemma optimize_written_witness :
  exists root' fs' link,
    optimize Example.unquote Example.wiki "/out" Example.relpath Example.parse
             Example.tostring (list Example.call) Example.makedirs
             Example.write_file "<plain_page>" "/out/en/Foo.html" [] =
    Returned (list Example.call) root' fs' /\
    xpath_stylesheet_links root' = [link] /\
    attribute "href" link root' = Some "../ArchWikiOffline.css".
Proof.
  destruct (optimize Example.unquote Example.wiki "/out" Example.relpath Example.parse
              Example.tostring (list Example.call) Example.makedirs
              Example.write_file "<plain_page>" "/out/en/Foo.html" [])
    as [root' fs'|] eqn:H; [|vm_compute in H; discriminate H].
  destruct (optimize_written Example.unquote Example.wiki "/out" Example.relpath
              Example.parse Example.tostring (list Example.call) Example.makedirs
              Example.write_file "<plain_page>" "/out/en/Foo.html" [] fs' root')
    as (root & fs1 & link & _ & _ & _ & Hx & Hh).
  - intros root Hp. vm_compute in Hp. injection Hp as <-. exact plain_page_wf.
  - exact H.
  - exists root', fs', link. split; [reflexivity|]. split; [exact Hx|exact Hh].
Defined.

(** ** The stylesheet link of the five steps *)

(** the content block is inside the language block: the first statement of
    [strip_page] would put the language block below itself *)
Definition language_cycle (root : node) : bool :=
  match cssselect_id "p-lang" root, cssselect_id "bodyContent" root with
  | p :: _, b :: _ =>
      match find_node p root with
      | Some x => mem_uid b (uids x)
      | None => false
      end
  | _, _ => false
  end.

(** the language block is a stylesheet link once it is in the content block:
    the content block is a [head], and the language block a [link] with
    [rel="stylesheet"] *)
Definition language_stylesheet (root : node) : bool :=
  match cssselect_id "p-lang" root, cssselect_id "bodyContent" root with
  | p :: _, b :: _ =>
      match element_of p root, element_of b root with
      | Some ep, Some eb => is_stylesheet_link (Some eb, ep)
      | _, _ => false
      end
  | _, _ => false
  end.

Lemma relocate_cycle (root : node) :
  wf root ->
  if language_cycle root then relocate root = Raise ValueError
  else exists t0, relocate root = Ok t0.
Proof.
  intros Hwf. unfold language_cycle, relocate, cssselect_id.
  destruct (select (has_id "p-lang") root) as [|P ps] eqn:HP;
    [exists root; reflexivity|].
  destruct (select (has_id "bodyContent") root) as [|B bs] eqn:HB;
    [exists root; reflexivity|].
  destruct (select_head _ _ _ _ HP) as (eP & HeP & _ & HuP).
  destruct (find_node_found P root) as [x Hfind];
    [rewrite <- HuP; exact (uids_elements_In _ _ HeP)|].
  unfold insert_first. rewrite Hfind. unfold mem_uid.
  destruct (existsb (Nat.eqb B) (uids x)); [reflexivity|].
  eexists. reflexivity.
Qed.

(** How [strip_page] ends: with the [ValueError] of the move of the language
    block, with the [AttributeError] of the removal of the root, or with a
    document. *)
Lemma strip_page_outcome (root : node) :
  wf root ->
  if language_cycle root then strip_page root = Raise ValueError
  else if is_chrome (elem root) then strip_page root = Raise AttributeError
  else exists t1, strip_page root = Ok t1.
Proof.
  intros Hwf. rewrite strip_page_relocate.
  assert (Hrel := relocate_cycle root Hwf).
  destruct (language_cycle root); [rewrite Hrel; reflexivity|].
  destruct Hrel as [t0 Hrel]. rewrite Hrel. cbn [bind].
  destruct (relocate_result root t0 Hwf Hrel) as (Hwf0 & Hroot0 & _).
  destruct (is_chrome (elem root)) eqn:Hc.
  - rewrite <- Hroot0 in Hc. destruct (select_root is_chrome t0 Hc) as [us ->].
    rewrite remove_root_raises. reflexivity.
  - rewrite for_each_remove; [eexists; reflexivity|].
    intros Hin. apply select_In in Hin as (e & He & Hce & E).
    rewrite (wf_uid_injective t0 e (elem t0) Hwf0 He (elements_root t0) E) in Hce.
    rewrite Hroot0 in Hce. congruence.
Qed.

(** The move of the language block makes no stylesheet link, unless the block
    becomes one. *)
Lemma relocate_no_stylesheet (root t0 : node) :
  wf root -> language_stylesheet root = false ->
  xpath_stylesheet_links root = [] ->
  relocate root = Ok t0 ->
  xpath_stylesheet_links t0 = [].
Proof.
  intros Hwf Hlang Hx Hrel. unfold xpath_stylesheet_links in *.
  apply map_eq_nil in Hx. unfold relocate in Hrel.
  unfold language_stylesheet in Hlang. unfold cssselect_id in *.
  destruct (select (has_id "p-lang") root) as [|P ps] eqn:HP;
    [injection Hrel as <-; rewrite Hx; reflexivity|].
  destruct (select (has_id "bodyContent") root) as [|B bs] eqn:HB;
    [injection Hrel as <-; rewrite Hx; reflexivity|].
  destruct (select_head _ _ _ _ HP) as (eP & HeP & HidP & HuP).
  destruct (select_head _ _ _ _ HB) as (eB & HeB & HidB & HuB).
  rewrite <- HuP, <- HuB in Hlang.
  rewrite (element_of_wf root eP Hwf HeP), (element_of_wf root eB Hwf HeB) in Hlang.
  unfold insert_first in Hrel.
  destruct (find_node_found P root) as [x Hfind];
    [rewrite <- HuP; exact (uids_elements_In _ _ HeP)|].
  rewrite Hfind in Hrel.
  destruct (existsb (Nat.eqb B) (uids x)) eqn:Hcycle; [discriminate|].
  injection Hrel as <-. apply (mem_uid_false B (uids x)) in Hcycle.
  assert (Hroot : uid (elem root) <> P).
  { intros E. apply Nat.eqb_eq in E. rewrite (find_node_root P root E) in Hfind.
    injection Hfind as <-. apply Hcycle. rewrite <- HuB.
    exact (uids_elements_In _ _ HeB). }
  assert (Ex : elem x = eP).
  { assert (Hin : In (elem x) (elements root))
      by exact (find_node_elements P root x Hfind _ (elements_root x)).
    apply (wf_uid_injective root _ _ Hwf Hin HeP).
    rewrite (find_node_uid P root x Hfind). symmetry. exact HuP. }
  destruct (edges_moved B P root x eB Hwf Hfind Hroot HeB HuB Hcycle)
    as (q & l & rest & _ & Hold & Hnew).
  apply (Permutation_filter_same is_stylesheet_link) in Hold, Hnew.
  rewrite Hx in Hold. cbn [filter] in Hold, Hnew.
  rewrite Ex, Hlang in Hnew.
  destruct (is_stylesheet_link (Some q, elem x)).
  - apply Permutation_nil in Hold. discriminate.
  - apply Permutation_nil in Hold. rewrite Hold in Hnew.
    apply Permutation_sym, Permutation_nil in Hnew. rewrite Hnew. reflexivity.
Qed.

Lemma strip_page_keeps_no_stylesheet (root t1 : node) :
  wf root -> language_stylesheet root = false ->
  xpath_stylesheet_links root = [] ->
  strip_page root = Ok t1 ->
  xpath_stylesheet_links t1 = [].
Proof.
  intros Hwf Hlang Hx H. rewrite strip_page_relocate in H.
  destruct (relocate root) as [t0|] eqn:Hrel; [|discriminate]. cbn [bind] in H.
  assert (H0 := relocate_no_stylesheet root t0 Hwf Hlang Hx Hrel).
  unfold xpath_stylesheet_links in *. apply map_eq_nil in H0.
  destruct (for_each remove_from_parent (select is_chrome t0) t0) as [t0'|] eqn:Hrm;
    [|discriminate].
  cbn [bind] in H. injection H as <-.
  apply for_each_remove_Ok in Hrm as [_ ->].
  unfold strip_elements. rewrite !prune_prune.
  rewrite filter_none; [reflexivity|]. intros y Hy.
  apply (filter_empty_In _ _ y H0).
  exact (subseq_In _ _ y (edges_prune_subseq _ None t0) Hy).
Qed.

Section StylesheetClaims.

Variable unquote : string -> string.
Variable wiki : ArchWiki.
Variable relbase : string.

(** C3 (amended). On a document with at least one stylesheet link below a
    [head], [replace_css_links] succeeds and leaves exactly one such link: the
    first one in document order, with the local stylesheet joined to the
    relative base as its [href]; every other one is gone from the document.
    And whenever the five steps succeed on a document, their result has
    exactly one stylesheet link below a [head]: the first one in document
    order of what [strip_page] kept, with that [href]. *)
Theorem replace_css_links_keeps_first (root : node) (first : nat) (rest : list nat) :
  wf root ->
  xpath_stylesheet_links root = first :: rest ->
  (exists root',
      replace_css_links relbase root = Ok root' /\
      xpath_stylesheet_links root' = [first] /\
      attribute "href" first root' =
        Some (Str.path_join relbase "ArchWikiOffline.css") /\
      (forall u, In u rest -> ~ In u (uids root')) /\
      wf root') /\
  (forall out,
      transform unquote wiki relbase root = Ok out ->
      exists t1 link others,
        strip_page root = Ok t1 /\
        xpath_stylesheet_links t1 = link :: others /\
        xpath_stylesheet_links out = [link] /\
        attribute "href" link out =
          Some (Str.path_join relbase "ArchWikiOffline.css")).
Proof.
  intros Hwf Hx. split; [exact (replace_css_links_first relbase root first rest Hwf Hx)|].
  intros out Hrun.
  destruct (transform_stylesheet unquote wiki relbase root out Hwf Hrun)
    as (t1 & link & others & x & H1 & Hx1 & Hwfo & Hone & Hu & Hh).
  exists t1, link, others. split; [exact H1|]. split; [exact Hx1|]. split.
  - unfold xpath_stylesheet_links. rewrite Hone. cbn. rewrite Hu. reflexivity.
  - assert (Hin : In x [x]) by (left; reflexivity).
    rewrite <- Hone in Hin. apply filter_In in Hin as [Hin _].
    apply (in_map snd) in Hin. rewrite edges_snd in Hin.
    pose proof (element_of_wf out (snd x) Hwfo Hin) as He.
    rewrite Hu in He. unfold attribute. rewrite He. exact Hh.
Qed.

(** C4 (amended). On a document without a stylesheet link below a [head],
    [replace_css_links] raises the [IndexError] of [links[0]]. The five steps
    fail with it on such a document when [strip_page] does not end them
    before and makes no stylesheet link: that is, when the content block is
    not inside the language block, the root has no navigation identifier, and
    the language block is not a stylesheet [link] that the step moves into a
    content block that is a [head]. When the content block is inside the
    language block, the five steps raise the [ValueError] of the move; when
    it is not and the root has a navigation identifier, they raise the
    [AttributeError] of its removal. *)
Theorem replace_css_links_no_stylesheet (root : node) :
  xpath_stylesheet_links root = [] ->
  replace_css_links relbase root = Raise IndexError /\
  (wf root ->
   (language_cycle root = true ->
    transform unquote wiki relbase root = Raise ValueError) /\
   (language_cycle root = false -> is_chrome (elem root) = true ->
    transform unquote wiki relbase root = Raise AttributeError) /\
   (language_cycle root = false -> is_chrome (elem root) = false ->
    language_stylesheet root = false ->
    transform unquote wiki relbase root = Raise IndexError)).
Proof.
  intros Hx. split; [exact (replace_css_links_empty relbase root Hx)|].
  intros Hwf. assert (Hstrip := strip_page_outcome root Hwf).
  split; [|split].
  - intros Hc. rewrite Hc in Hstrip. unfold transform. rewrite Hstrip. reflexivity.
  - intros Hc Hr. rewrite Hc, Hr in Hstrip. unfold transform. rewrite Hstrip.
    reflexivity.
  - intros Hc Hr Hlang. rewrite Hc, Hr in Hstrip.
    destruct Hstrip as [t1 H1]. unfold transform. rewrite H1. cbn [bind].
    destruct (strip_page_result root t1 Hwf H1) as (Hwf1 & _).
    rewrite (replace_css_links_empty relbase (fix_layout t1)); [reflexivity|].
    rewrite (xpath_fix_layout t1 Hwf1).
    exact (strip_page_keeps_no_stylesheet root t1 Hwf Hlang Hx H1).
Qed.

End StylesheetClaims.

Lemma replace_css_links_keeps_first_witness :
  (exists root',
      replace_css_links ".." Example.page = Ok root' /\
      xpath_stylesheet_links root' = [2] /\
      attribute "href" 2 root' = Some "../ArchWikiOffline.css" /\
      (forall u, In u [4] -> ~ In u (uids root')) /\
      wf root') /\
  (exists out,
      transform Example.unquote Example.wiki ".." Example.page = Ok out /\
      xpath_stylesheet_links out = [2] /\
      attribute "href" 2 out = Some "../ArchWikiOffline.css").
Proof.
  destruct (replace_css_links_keeps_first Example.unquote Example.wiki ".."
              Example.page 2 [4] page_wf eq_refl) as [Hstep Hrun].
  split; [exact Hstep|].
  destruct (transform Example.unquote Example.wiki ".." Example.page) as [out|] eqn:Hout;
    [|vm_compute in Hout; discriminate Hout].
  exists out. split; [reflexivity|].
  destruct (Hrun out eq_refl) as (t1 & link & others & H1 & Hx1 & Hxo & Hh).
  vm_compute in H1. injection H1 as <-.
  vm_compute in Hx1. injection Hx1 as <- <-.
  split; [exact Hxo|exact Hh].
Defined.

(** The claim C3 as it is worded: when the five steps succeed, the stylesheet
    link that is left is the first one of the document. *)
Definition first_stylesheet_link_survives : Prop :=
  forall (unquote : string -> string) (wiki : ArchWiki) (relbase : string)
         (root out : node) (first : nat) (rest : list nat),
    wf root ->
    xpath_stylesheet_links root = first :: rest ->
    transform unquote wiki relbase root = Ok out ->
    xpath_stylesheet_links out = [first].

Lemma navigation_link_page_wf : wf Example.navigation_link_page.
Proof. apply distinct_NoDup. reflexivity. Qed.

(** A first stylesheet link with the identifier [mw-head-base] is deleted by
    [strip_page], and the second one is the one that is left. *)
Lemma first_stylesheet_link_survives_fails : ~ first_stylesheet_link_survives.
Proof.
  intros claim.
  destruct (transform Example.unquote Example.wiki ".." Example.navigation_link_page)
    as [out|] eqn:Hrun; [|vm_compute in Hrun; discriminate Hrun].
  assert (H := claim Example.unquote Example.wiki ".." Example.navigation_link_page
                 out 2 [3] navigation_link_page_wf eq_refl Hrun).
  vm_compute in Hrun. injection Hrun as <-.
  vm_compute in H. discriminate H.
Qed.

Lemma replace_css_links_no_stylesheet_witness :
  replace_css_links ".." Example.unstyled_page = Raise IndexError /\
  transform Example.unquote Example.wiki ".." Example.unstyled_page = Raise IndexError.
Proof.
  destruct (replace_css_links_no_stylesheet Example.unquote Example.wiki ".."
              Example.unstyled_page eq_refl) as [Hstep Hrun].
  split; [exact Hstep|].
  exact (proj2 (proj2 (Hrun unstyled_page_wf)) eq_refl eq_refl eq_refl).
Defined.

(** The claim C4 as it is worded: without a stylesheet link below a [head],
    the five steps fail. *)
Definition missing_stylesheet_raises : Prop :=
  forall (unquote : string -> string) (wiki : ArchWiki) (relbase : string)
         (root : node),
    wf root ->
    xpath_stylesheet_links root = [] ->
    exists err, transform unquote wiki relbase root = Raise err.

Lemma language_link_page_wf : wf Example.language_link_page.
Proof. apply distinct_NoDup. reflexivity. Qed.

(** A [link] with [rel="stylesheet"] and the identifier [p-lang] in the body
    is no stylesheet link for the path; [strip_page] moves it into the
    [head] of identifier [bodyContent], where it is one, and the five steps
    succeed. *)
Lemma missing_stylesheet_raises_fails : ~ missing_stylesheet_raises.
Proof.
  intros claim.
  destruct (claim Example.unquote Example.wiki ".." Example.language_link_page
              language_link_page_wf eq_refl) as [err H].
  vm_compute in H. discriminate H.
Qed.

(** * The second run of the five steps *)

(** ** Paths under a move *)

(** A path of the document is a path of the document with a new child. *)
Lemma clear_path_add_child_keep (q : element -> bool) (v f i : nat) (y n : node) :
  clear_path q v n = true -> clear_path q v (add_child f i y n) = true.
Proof.
  induction n as [e cs IH] using node_children_ind.
  rewrite add_child_Node, !clear_path_Node. intros H.
  apply andb_true_iff in H as [Hq H]. rewrite Hq. cbn [andb].
  apply orb_true_iff in H as [H|H]; [rewrite H; reflexivity|].
  apply orb_true_iff. right.
  apply existsb_exists in H as (c & Hc & H). rewrite Forall_forall in IH.
  apply existsb_exists. exists (add_child f i y c). split; [|exact (IH c Hc H)].
  assert (Hin : In (add_child f i y c) (map (add_child f i y) cs))
    by (apply in_map; exact Hc).
  destruct (has_uid f e); [apply In_insert_at_old|]; exact Hin.
Qed.

(** A path to the new parent goes on into the new child. *)
Lemma clear_path_add_child_new (q : element -> bool) (v f i : nat) (y n : node) :
  clear_path q f n = true -> clear_path q v y = true ->
  clear_path q v (add_child f i y n) = true.
Proof.
  intros Hf Hy. induction n as [e cs IH] using node_children_ind.
  rewrite add_child_Node, clear_path_Node. rewrite clear_path_Node in Hf.
  apply andb_true_iff in Hf as [Hq Hf]. rewrite Hq. cbn [andb].
  apply orb_true_iff. right. apply existsb_exists.
  destruct (has_uid f e) eqn:Hfe.
  - exists y. split; [|exact Hy]. apply in_or_app. right. left. reflexivity.
  - cbn [orb] in Hf. apply existsb_exists in Hf as (c & Hc & Hf).
    rewrite Forall_forall in IH. exists (add_child f i y c).
    split; [apply in_map; exact Hc|exact (IH c Hc Hf)].
Qed.

(** A path to an element inside a subtree ends with a path of the subtree. *)
Lemma clear_path_sub (q : element -> bool) (v u : nat) (n : node) :
  forall x,
    wf n -> clear_path q v n = true -> find_node u n = Some x -> In v (uids x) ->
    clear_path q v x = true.
Proof.
  induction n as [e cs IH] using node_children_ind. intros x Hwf H Hfind Hv.
  rewrite find_node_Node in Hfind. destruct (has_uid u e) eqn:Hu.
  { injection Hfind as <-. exact H. }
  apply first_some_Some in Hfind as (cu & Hcu & Hfind).
  assert (Hvcu : In v (uids cu)) by exact (find_node_uids u cu x Hfind v Hv).
  rewrite clear_path_Node in H. apply andb_true_iff in H as [_ H].
  apply orb_true_iff in H as [H|H].
  - exfalso. apply Nat.eqb_eq in H. apply (wf_root_not_below e cs cu Hwf Hcu).
    rewrite H. exact Hvcu.
  - apply existsb_exists in H as (c & Hc & H). rewrite Forall_forall in IH.
    assert (E : c = cu)
      by exact (wf_children_share e cs c cu v Hwf Hc Hcu (clear_path_In q v c H) Hvcu).
    subst c. exact (IH cu Hcu x (wf_child e cs cu Hwf Hcu) H Hfind Hv).
Qed.

(** The path to an element is one path. *)
Lemma clear_path_both (q1 q2 : element -> bool) (v : nat) (n : node) :
  wf n -> clear_path q1 v n = true -> clear_path q2 v n = true ->
  clear_path (fun e => q1 e || q2 e) v n = true.
Proof.
  induction n as [e cs IH] using node_children_ind. intros Hwf H1 H2.
  rewrite clear_path_Node in *.
  apply andb_true_iff in H1 as [Hq1 H1]. apply andb_true_iff in H2 as [Hq2 H2].
  apply negb_true_iff in Hq1, Hq2. rewrite Hq1, Hq2. cbn [orb negb andb].
  apply orb_true_iff in H1 as [H1|H1]; [rewrite H1; reflexivity|].
  apply orb_true_iff in H2 as [H2|H2]; [rewrite H2; reflexivity|].
  apply orb_true_iff. right.
  apply existsb_exists in H1 as (c1 & Hc1 & H1).
  apply existsb_exists in H2 as (c2 & Hc2 & H2).
  assert (E : c1 = c2)
    by exact (wf_children_share e cs c1 c2 v Hwf Hc1 Hc2
                (clear_path_In q1 v c1 H1) (clear_path_In q2 v c2 H2)).
  subst c2. rewrite Forall_forall in IH. apply existsb_exists. exists c1.
  split; [exact Hc1|]. exact (IH c1 Hc1 (wf_child e cs c1 Hwf Hc1) H1 H2).
Qed.

(** An element that a path reaches without going through [u] is not inside
    the element [u]. *)
Lemma clear_path_not_inside (u v : nat) (n x : node) :
  wf n -> clear_path (has_uid u) v n = true -> find_node u n = Some x ->
  ~ In v (uids x).
Proof.
  intros Hwf H Hfind Hin.
  assert (Hno := clear_path_not_below (fun _ => false) u v n x Hwf Hfind Hin).
  cbn [orb] in Hno. rewrite (clear_path_weaken (has_uid u) (fun e => has_uid u e) v n) in Hno;
    [discriminate|auto|exact H].
Qed.
(** ** The first element of a selection under a move *)

Lemma subseq_filter {A : Type} (q : A -> bool) (l1 l2 : list A) :
  subseq l1 l2 -> subseq (filter q l1) (filter q l2).
Proof.
  induction 1 as [|a l1 l2 _ IH|a l1 l2 _ IH]; cbn.
  - constructor.
  - destruct (q a); [apply subseq_skip|]; exact IH.
  - destruct (q a); [apply subseq_keep|]; exact IH.
Qed.

Lemma subseq_head {A : Type} (l r : list A) (a : A) :
  subseq l (a :: r) -> In a l -> ~ In a r -> exists l', l = a :: l'.
Proof.
  intros H Ha Hr. inversion H as [|b l1 l2 Hs|b l1 l2 Hs]; subst.
  - exfalso. exact (Hr (subseq_In _ _ _ Hs Ha)).
  - eexists. reflexivity.
Qed.

(** The first selected element stays the first one when elements are
    deleted and it is not. *)
Lemma select_head_prune (q p : element -> bool) (f : nat) (fs : list nat) (n : node) :
  wf n -> select q n = f :: fs -> In f (uids (prune p n)) ->
  exists fs', select q (prune p n) = f :: fs'.
Proof.
  intros Hwf Hsel Hf. apply (subseq_head _ fs).
  - rewrite <- Hsel. unfold select. apply subseq_map, subseq_filter.
    apply elements_prune_subseq.
  - destruct (select_head q n f fs Hsel) as (ef & Hef & Hq & Hu).
    apply In_uids in Hf as (e' & He' & Hu').
    assert (E : e' = ef).
    { apply (wf_uid_injective n e' ef Hwf); [|exact Hef|congruence].
      exact (elements_prune p n e' He'). }
    subst e'. apply select_In. exists ef. auto.
  - assert (Hnd := select_NoDup q n Hwf). rewrite Hsel in Hnd.
    inversion Hnd. assumption.
Qed.

(** The part of the document up to the new parent is not touched. *)
Lemma elements_add_child_prefix (f i : nat) (y n : node) :
  forall pre ef post,
    wf n -> elements n = (pre ++ ef :: post)%list -> uid ef = f ->
    exists post', elements (add_child f i y n) = (pre ++ ef :: post')%list.
Proof.
  induction n as [e cs IH] using node_children_ind.
  intros pre ef post Hwf Heq Hu. rewrite elements_Node in Heq.
  rewrite add_child_Node, elements_Node.
  destruct pre as [|x pre]; cbn [app] in Heq |- *.
  { injection Heq as <- _. eexists. reflexivity. }
  injection Heq as <- Heq.
  assert (Hne : has_uid f e = false).
  { apply Nat.eqb_neq. intros E. destruct (wf_Node e cs Hwf) as [Hroot _].
    apply Hroot. rewrite E, <- Hu.
    assert (Hin : In ef (flat_map elements cs))
      by (rewrite Heq; apply in_or_app; right; left; reflexivity).
    apply in_flat_map in Hin as (c & Hc & Hin). apply in_flat_map.
    exists c. split; [exact Hc|]. exact (uids_elements_In c ef Hin). }
  rewrite Hne.
  enough (exists post', flat_map elements (map (add_child f i y) cs)
                        = (pre ++ ef :: post')%list)
    as [post' ->] by (eexists; reflexivity).
  destruct (wf_Node e cs Hwf) as [_ Hnd]. clear Hwf Hne.
  revert pre Heq Hnd.
  induction IH as [|c cs Hc _ IHcs]; intros pre Heq Hnd.
  - destruct pre; discriminate.
  - cbn [flat_map map] in Heq, Hnd |- *.
    assert (Hwfc : wf c) by exact (NoDup_app_remove_r _ _ Hnd).
    apply app_eq_app in Heq as [mid [[Hl Hr]|[Hl Hr]]].
    + destruct mid as [|m mid].
      * (* the prefix ends with this child *)
        rewrite app_nil_r in Hl. cbn [app] in Hr.
        rewrite (add_child_absent f i y c).
        -- destruct (IHcs [] (eq_sym Hr) (NoDup_app_remove_l _ _ Hnd)) as [post' Hpost].
           rewrite Hpost, Hl. exists post'. reflexivity.
        -- intros Hin. apply (NoDup_app_disjoint _ _ f Hnd Hin).
           rewrite <- Hu.
           assert (Hef : In ef (flat_map elements cs))
             by (rewrite <- Hr; left; reflexivity).
           apply in_flat_map in Hef as (c' & Hc' & Hef). apply in_flat_map.
           exists c'. split; [exact Hc'|]. exact (uids_elements_In c' ef Hef).
      * (* the new parent is in this child *)
        cbn [app] in Hr. injection Hr as <- Hr.
        destruct (Hc pre ef mid Hwfc Hl Hu) as [post' Hpost]. rewrite Hpost.
        exists (post' ++ flat_map elements (map (add_child f i y) cs))%list.
        rewrite <- app_assoc. reflexivity.
    + (* the new parent is in a later child *)
      rewrite (add_child_absent f i y c).
      * destruct (IHcs mid Hr (NoDup_app_remove_l _ _ Hnd)) as [post' Hpost].
        rewrite Hpost, Hl. exists post'. rewrite <- app_assoc. reflexivity.
      * intros Hin. apply (NoDup_app_disjoint _ _ f Hnd Hin).
        rewrite <- Hu.
        assert (Hef : In ef (flat_map elements cs))
          by (rewrite Hr; apply in_or_app; right; left; reflexivity).
        apply in_flat_map in Hef as (c' & Hc' & Hef). apply in_flat_map.
        exists c'. split; [exact Hc'|]. exact (uids_elements_In c' ef Hef).
Qed.

(** The first selected element stays the first one when it gets a new
    child. *)
Lemma select_head_add_child (q : element -> bool) (f i : nat) (fs : list nat)
      (y n : node) :
  wf n -> select q n = f :: fs ->
  exists fs', select q (add_child f i y n) = f :: fs'.
Proof.
  intros Hwf Hsel. unfold select in *.
  destruct (filter q (elements n)) as [|ef r] eqn:Hfil; [discriminate|].
  cbn [map] in Hsel. injection Hsel as Hu _.
  destruct (filter_first q _ _ _ Hfil) as (pre & post & Heq & Hpre & Hq & _).
  destruct (elements_add_child_prefix f i y n pre ef post Hwf Heq Hu) as [post' ->].
  rewrite filter_app, Hpre. cbn [app filter]. rewrite Hq. cbn [map]. rewrite Hu.
  eexists. reflexivity.
Qed.
(** ** The language block through the loop of [fix_footer] *)

(** one turn of the loop, with the list of footer information that it uses *)
Lemma fix_footer_body_head (u : nat) (t t' : node) :
  wf t -> In u (uids t) -> fix_footer_body u t = Ok t' ->
  exists f fs x,
    let tl := map_tree (to_list_item u) t in
    let tm := add_child f 0 x (prune (has_uid u) tl) in
    select (has_id "footer-info") tl = f :: fs /\
    find_node u tl = Some x /\ ~ In f (uids x) /\ In f (uids tl) /\
    wf tl /\ wf tm /\
    t' = add_child f 3 (new_element (fresh tm) "br") tm.
Proof.
  intros Hwf Hu H. unfold fix_footer_body in H.
  rewrite update_to_list_item in H. set (tl := map_tree (to_list_item u) t) in *.
  assert (Hwfl : wf tl)
    by (unfold wf, tl; rewrite (uids_map_tree _ _ (uid_to_list_item u)); exact Hwf).
  assert (Hul : In u (uids tl))
    by (unfold tl; rewrite (uids_map_tree _ _ (uid_to_list_item u)); exact Hu).
  unfold cssselect_id in H.
  destruct (select (has_id "footer-info") tl) as [|f fs] eqn:Hsel; [discriminate|].
  destruct (select_head _ _ _ _ Hsel) as (ef & Hef & Hid & Hf).
  unfold insert_first in H. destruct (find_node_found u tl Hul) as [x Hfind].
  rewrite Hfind in H.
  destruct (existsb (Nat.eqb f) (uids x)) eqn:Hcycle; [discriminate|].
  apply (mem_uid_false f (uids x)) in Hcycle. cbn [bind] in H. injection H as <-.
  assert (Hfl : In f (uids tl)) by (rewrite <- Hf; exact (uids_elements_In _ _ Hef)).
  assert (Hroot : uid (elem tl) <> u).
  { intros E. apply Nat.eqb_eq in E. rewrite (find_node_root u tl E) in Hfind.
    injection Hfind as <-. contradiction. }
  exists f, fs, x. cbn zeta. repeat split; try assumption.
  exact (moved_wf f u tl x Hwfl Hfind Hroot Hfl Hcycle).
Qed.

(** Where the language block is, for the move of [strip_page]: it is the
    first child of the content block, or the content block and the list of
    footer information are not inside it. *)
Definition placed (t : node) : Prop :=
  forall b p,
    In b (elements t) -> In p (elements t) ->
    has_id "bodyContent" b = true -> has_id "p-lang" p = true ->
    first_child (uid b) (uid p) t = true \/
    (is_tag "link" p = false /\
     clear_path (has_uid (uid p)) (uid b) t = true /\
     forall f fs, select (has_id "footer-info") t = f :: fs ->
                  clear_path (has_uid (uid p)) f t = true).

Lemma placed_body (u : nat) (t t' : node) :
  wf t ->
  (exists e, In e (elements t) /\ uid e = u /\ is_printfooter e = true) ->
  placed t -> fix_footer_body u t = Ok t' ->
  placed t'.
Proof.
  intros Hwf (eu & Heu & Hueu & Hpf) Hplaced Hbody.
  assert (Hdiv : forall e, In e (elements t) -> uid e = u -> is_tag "div" e = true).
  { intros e He E. rewrite (wf_uid_injective t e eu Hwf He Heu) by congruence.
    exact (is_printfooter_div eu Hpf). }
  assert (Hut : In u (uids t)) by (rewrite <- Hueu; exact (uids_elements_In _ _ Heu)).
  destruct (fix_footer_body_result u t t' Hwf Hdiv Hut Hbody)
    as (Hwf' & Hroot' & Hel' & Hin' & Hsheet).
  destruct (fix_footer_body_head u t t' Hwf Hut Hbody)
    as (f & fs & x & Hsel & Hfind & Hcycle & Hfl & Hwfl & Hwfm & ->).
  set (tl := map_tree (to_list_item u) t) in *.
  set (tp := prune (has_uid u) tl) in *.
  set (tm := add_child f 0 x tp) in *.
  set (br := new_element (fresh tm) "br") in *.
  assert (Hid : forall i e, In e (elements t) ->
                            has_id i (to_list_item u e) = has_id i e).
  { intros i e He. apply has_id_to_list_item. intros E. apply Nat.eqb_eq in E.
    exact (is_tag_is_element _ _ (Hdiv e He E)). }
  assert (Hselt : select (has_id "footer-info") t = f :: fs).
  { rewrite <- Hsel. symmetry. unfold tl.
    apply select_map_tree; [apply uid_to_list_item|]. intros e He. apply Hid. exact He. }
  destruct (select_head _ _ _ _ Hsel) as (ef & Hef & Hidf & Hf).
  assert (Hroot : uid (elem tl) <> u).
  { intros E. apply Nat.eqb_eq in E. rewrite (find_node_root u tl E) in Hfind.
    injection Hfind as <-. contradiction. }
  (* the list of footer information stays the first one *)
  assert (Hhead : forall f' fs', select (has_id "footer-info") (add_child f 3 br tm)
                                 = f' :: fs' -> f' = f).
  { intros f' fs' H'.
    destruct (select_head_prune (has_id "footer-info") (has_uid u) f fs tl Hwfl Hsel)
      as [fs1 H1];
      [exact (prune_uid_keeps u f tl x Hwfl Hfind Hroot Hfl Hcycle)|].
    fold tp in H1.
    destruct (select_head_add_child (has_id "footer-info") f 0 fs1 x tp
                (prune_wf _ tl Hwfl) H1) as [fs2 H2].
    fold tm in H2.
    destruct (select_head_add_child (has_id "footer-info") f 3 fs2 br tm Hwfm H2)
      as [fs3 H3].
    rewrite H3 in H'. congruence. }
  (* the step, once the content block and the list are outside the block *)
  assert (Hstep : forall B P,
            In B (uids tl) ->
            clear_path (has_uid P) B tl = true ->
            clear_path (has_uid P) f tl = true ->
            clear_path (has_uid P) B (add_child f 3 br tm) = true /\
            clear_path (has_uid P) f (add_child f 3 br tm) = true).
  { intros B P HB HCB HCf.
    assert (Hout : forall v, In v (uids tl) -> ~ In v (uids x) ->
                             clear_path (has_uid P) v tl = true ->
                             clear_path (has_uid P) v tp = true).
    { intros v Hv Hvx HCv. apply clear_path_prune.
      apply (clear_path_both (has_uid P) (has_uid u) v tl Hwfl HCv).
      exact (clear_path_outside u v tl x Hwfl Hfind Hv Hvx). }
    assert (HCfp : clear_path (has_uid P) f tp = true) by exact (Hout f Hfl Hcycle HCf).
    split.
    - apply clear_path_add_child_keep.
      destruct (in_dec Nat.eq_dec B (uids x)) as [HBx|HBx].
      + apply clear_path_add_child_new; [exact HCfp|].
        exact (clear_path_sub (has_uid P) B u tl x Hwfl HCB Hfind HBx).
      + apply clear_path_add_child_keep. exact (Hout B HB HBx HCB).
    - apply clear_path_add_child_keep, clear_path_add_child_keep. exact HCfp. }
  intros b p Hb Hp Hidb Hidp.
  destruct (Hel' b Hb) as [[v ->]|(b0 & Hb0 & ->)];
    [rewrite has_id_br in Hidb; discriminate|].
  destruct (Hel' p Hp) as [[v ->]|(p0 & Hp0 & ->)];
    [rewrite has_id_br in Hidp; discriminate|].
  rewrite (Hid _ b0 Hb0) in Hidb. rewrite (Hid _ p0 Hp0) in Hidp.
  rewrite !uid_to_list_item.
  assert (HBl : In (uid b0) (uids tl)).
  { unfold tl. rewrite (uids_map_tree _ _ (uid_to_list_item u)).
    exact (uids_elements_In t b0 Hb0). }
  assert (Hmap : forall v, clear_path (has_uid (uid p0)) v tl
                           = clear_path (has_uid (uid p0)) v t).
  { intros v. unfold tl. apply clear_path_map_tree; [|apply uid_to_list_item].
    intros e. unfold has_uid. rewrite uid_to_list_item. reflexivity. }
  assert (Hright : is_tag "link" (to_list_item u p0) = false ->
                   clear_path (has_uid (uid p0)) (uid b0) tl = true ->
                   clear_path (has_uid (uid p0)) f tl = true ->
                   is_tag "link" (to_list_item u p0) = false /\
                   clear_path (has_uid (uid p0)) (uid b0) (add_child f 3 br tm) = true /\
                   forall f' fs', select (has_id "footer-info") (add_child f 3 br tm)
                                  = f' :: fs' ->
                                  clear_path (has_uid (uid p0)) f' (add_child f 3 br tm)
                                  = true).
  { intros Htag HCB HCf. destruct (Hstep (uid b0) (uid p0) HBl HCB HCf) as [H1 H2].
    split; [exact Htag|]. split; [exact H1|].
    intros f' fs' H'. rewrite (Hhead f' fs' H'). exact H2. }
  destruct (Hplaced b0 p0 Hb0 Hp0 Hidb Hidp) as [Hfirst|(Htag & HCB & HCf)].
  - destruct (Nat.eq_dec u (uid p0)) as [E|Hne].
    + (* the turn of the language block *)
      right.
      assert (Hfirstl : first_child (uid b0) (uid p0) tl = true)
        by (unfold tl; rewrite first_child_map_tree;
            [exact Hfirst|apply uid_to_list_item]).
      assert (Hfindp : find_node (uid p0) tl = Some x)
        by (rewrite <- E; exact Hfind).
      destruct (move_first_child (uid b0) (uid p0) tl Hwfl Hfirstl)
        as (x' & Hfind' & HBx & _).
      rewrite Hfindp in Hfind'. injection Hfind' as <-.
      apply Hright.
      * unfold to_list_item. rewrite <- E, Nat.eqb_refl. reflexivity.
      * exact (clear_path_outside (uid p0) (uid b0) tl x Hwfl Hfindp HBl HBx).
      * exact (clear_path_outside (uid p0) f tl x Hwfl Hfindp Hfl Hcycle).
    + (* the turn of another print footer *)
      left.
      assert (HfB : f <> uid b0).
      { intros E. rewrite <- Hf in E.
        assert (Hbl : In (to_list_item u b0) (elements tl))
          by (unfold tl; rewrite elements_map_tree; apply in_map; exact Hb0).
        rewrite <- (uid_to_list_item u b0) in E.
        rewrite (wf_uid_injective tl ef _ Hwfl Hef Hbl E) in Hidf.
        rewrite (Hid _ b0 Hb0) in Hidf.
        rewrite (has_id_other _ "footer-info" b0 Hidb) in Hidf; discriminate. }
      apply first_child_add_other; [exact HfB|].
      apply (moved_first_child f u (uid b0) (uid p0) tl x Hwfl); try assumption.
      unfold tl. rewrite first_child_map_tree; [exact Hfirst|apply uid_to_list_item].
  - right. apply Hright.
    + rewrite (is_tag_to_list_item "link" u p0 (Hdiv p0 Hp0)) by discriminate.
      exact Htag.
    + rewrite Hmap. exact HCB.
    + rewrite Hmap. exact (HCf f fs Hselt).
Qed.

Lemma language_first_placed (t : node) : language_first t -> placed t.
Proof. intros H b p Hb Hp Hidb Hidp. left. exact (H b p Hb Hp Hidb Hidp). Qed.

Section SecondRun.

Variable unquote : string -> string.
Variable wiki : ArchWiki.
Variable relbase : string.

(** The loop of [fix_footer] leaves the language block where the move of a
    second run can take it. *)
Lemma placed_loop (us : list nat) (t out : node) :
  footer_invariant unquote wiki relbase us t -> placed t ->
  for_each fix_footer_body us t = Ok out ->
  placed out.
Proof.
  revert t. induction us as [|u us IH]; intros t Hinv Hpl H.
  - cbn in H. injection H as <-. exact Hpl.
  - cbn in H. destruct (fix_footer_body u t) as [t'|] eqn:Hbody; [|discriminate].
    cbn [bind] in H.
    assert (Hinv' := footer_invariant_body unquote wiki relbase u us t t' Hinv Hbody).
    destruct Hinv as ((Hwf & _) & _ & Hpend).
    apply (IH t' Hinv'); [|exact H].
    exact (placed_body u t t' Hwf (Hpend u (or_introl eq_refl)) Hpl Hbody).
Qed.

(** On a tidy document whose language block is placed, [strip_page] moves the
    language block and deletes nothing, and leaves the document tidy. *)
Lemma tidy_relocate (t : node) :
  tidy unquote wiki relbase t -> placed t ->
  exists t0,
    relocate t = Ok t0 /\ strip_page t = Ok t0 /\
    tidy unquote wiki relbase t0 /\
    Permutation (elements t0) (elements t).
Proof.
  intros Htidy Hpl.
  assert (Hsame : relocate t = Ok t ->
            exists t0, relocate t = Ok t0 /\ strip_page t = Ok t0 /\
                       tidy unquote wiki relbase t0 /\
                       Permutation (elements t0) (elements t)).
  { intros Hrel. exists t. split; [exact Hrel|]. split; [|split; [exact Htidy|]].
    - apply (tidy_strip_page unquote wiki relbase t t Htidy Hrel); auto.
    - apply Permutation_refl. }
  assert (Htidy' := Htidy).
  destruct Htidy' as (Hwf & Hel & Hbelow & x0 & Hone & Hhref).
  unfold relocate, cssselect_id in *.
  destruct (select (has_id "p-lang") t) as [|P ps] eqn:HP; [exact (Hsame eq_refl)|].
  destruct (select (has_id "bodyContent") t) as [|B bs] eqn:HB; [exact (Hsame eq_refl)|].
  destruct (select_head _ _ _ _ HP) as (eP & HeP & HidP & HuP).
  destruct (select_head _ _ _ _ HB) as (eB & HeB & HidB & HuB).
  destruct (Hpl eB eP HeB HeP HidB HidP) as [Hfirst|(Htag & HCB & _)].
  { apply Hsame. rewrite <- HuP, <- HuB.
    exact (insert_first_first_child (uid eB) (uid eP) t Hwf Hfirst). }
  rewrite HuP, HuB in HCB.
  destruct (find_node_found P t) as [x Hfind];
    [rewrite <- HuP; exact (uids_elements_In _ _ HeP)|].
  assert (Hcycle : ~ In B (uids x))
    by exact (clear_path_not_inside P B t x Hwf HCB Hfind).
  assert (HBin : In B (uids t)) by (rewrite <- HuB; exact (uids_elements_In _ _ HeB)).
  assert (Hroot : uid (elem t) <> P).
  { intros E. apply Nat.eqb_eq in E. rewrite (find_node_root P t E) in Hfind.
    injection Hfind as <-. contradiction. }
  assert (Ex : elem x = eP).
  { assert (Hin : In (elem x) (elements t))
      by exact (find_node_elements P t x Hfind _ (elements_root x)).
    apply (wf_uid_injective t _ _ Hwf Hin HeP).
    rewrite (find_node_uid P t x Hfind). symmetry. exact HuP. }
  set (t0 := add_child B 0 x (prune (has_uid P) t)).
  assert (Hrel : insert_first B P t = Ok t0).
  { unfold insert_first. rewrite Hfind.
    apply (mem_uid_false B (uids x)) in Hcycle. unfold mem_uid in Hcycle.
    rewrite Hcycle. reflexivity. }
  assert (Hwf0 : wf t0) by exact (moved_wf B P t x Hwf Hfind Hroot HBin Hcycle).
  assert (Hperm : Permutation (elements t0) (elements t))
    by exact (moved_elements B P t x Hwf Hfind Hroot HBin Hcycle).
  assert (Hsub : forall e, In e (elements t0) -> In e (elements t))
    by (intros e He; exact (Permutation_in e Hperm He)).
  assert (Hsubc : forall e, In e (flat_map elements (children t0)) ->
                            In e (flat_map elements (children t))).
  { intros e He. apply elements_tail; [exact (Hsub e (children_elements t0 e He))|].
    assert (Hne := below_root_not_root t0 e Hwf0 He).
    unfold t0 in Hne. rewrite elem_add_child, elem_prune in Hne. exact Hne. }
  exists t0. split; [exact Hrel|].
  assert (Htidy0 : tidy unquote wiki relbase t0).
  { split; [exact Hwf0|]. split; [|split].
    - intros e He. exact (Hel e (Hsub e He)).
    - intros e He. exact (Hbelow e (Hsubc e He)).
    - exists x0. split; [|exact Hhref].
      assert (Hlink : is_tag "link" (elem x) = false) by (rewrite Ex; exact Htag).
      pose proof (moved_links B P t x Hwf Hfind Hroot HBin Hcycle Hlink) as Hpl0.
      fold t0 in Hpl0. rewrite Hone in Hpl0.
      exact (Permutation_length_1_inv (Permutation_sym Hpl0)). }
  split; [|split; [exact Htidy0|exact Hperm]].
  apply (tidy_strip_page unquote wiki relbase t t0 Htidy); try assumption.
  unfold relocate, cssselect_id. rewrite HP, HB. exact Hrel.
Qed.

Hypothesis local_not_internal :
  forall g1 g2,
    Re.internal_link (strip_origin (unquote (local_href wiki relbase g1 g2))) = None.
Hypothesis relbase_relative : Str.startswith "/" relbase = false.

(** The five steps leave every identifier on its element. *)
Lemma transform_ids (root out : node) (i : string) (e : element) :
  wf root -> transform unquote wiki relbase root = Ok out ->
  In e (elements out) -> has_id i e = true ->
  exists e0, In e0 (elements root) /\ uid e0 = uid e /\ has_id i e0 = true.
Proof.
  intros Hwf H He Hid.
  destruct (transform_footer_invariant unquote wiki relbase
              local_not_internal relbase_relative root out Hwf H)
    as (t1 & t4 & H1 & ((Hwf4 & _) & _) & H5 & _ & Hfrom).
  destruct (strip_page_result root t1 Hwf H1) as (_ & _ & Hsub1 & _).
  destruct (fix_footer_elements t4 out Hwf4 H5) as (_ & _ & _ & _ & Hel).
  destruct (Hel e He) as [[v ->]|(e4 & He4 & ->)];
    [rewrite has_id_br in Hid; discriminate|].
  destruct (Hfrom e4 He4) as (e1 & He1 & H14).
  exists e1. split; [exact (Hsub1 e1 He1)|].
  assert (Hid4 : has_id i e4 = true /\
                 uid (if is_printfooter e4 then list_item e4 else e4) = uid e4).
  { destruct (is_printfooter e4) eqn:Hp; [|auto].
    rewrite list_item_to_list_item in Hid |- *.
    rewrite uid_to_list_item. split; [|reflexivity].
    rewrite has_id_to_list_item in Hid; [exact Hid|].
    intros _. exact (is_tag_is_element _ _ (is_printfooter_div e4 Hp)). }
  destruct Hid4 as [Hid4 ->].
  split; [symmetry; exact (proj1 H14)|].
  rewrite (same_but_has_id ["style"; "href"; "src"] _ e1) in Hid4
    by (try exact H14; intros [E|[E|[E|[]]]]; discriminate).
  exact Hid4.
Qed.

Lemma transform_at_most_one (root out : node) (i : string) :
  wf root -> transform unquote wiki relbase root = Ok out ->
  at_most_one (has_id i) root -> at_most_one (has_id i) out.
Proof.
  intros Hwf H Hone e e' He He' Hid Hid'.
  destruct (transform_ids root out i e Hwf H He Hid) as (e0 & He0 & E0 & Hid0).
  destruct (transform_ids root out i e' Hwf H He' Hid') as (e0' & He0' & E0' & Hid0').
  assert (Hwfo : wf out)
    by exact (proj1 (transform_tidy unquote wiki relbase
                       local_not_internal relbase_relative root out Hwf H)).
  apply (wf_uid_injective out e e' Hwfo He He').
  rewrite <- E0, <- E0', (Hone e0 e0' He0 He0' Hid0 Hid0'). reflexivity.
Qed.

(** The five steps leave the language block where the move of a second run
    can take it. *)
Lemma transform_placed (root out : node) :
  wf root ->
  at_most_one (has_id "p-lang") root ->
  at_most_one (has_id "bodyContent") root ->
  transform unquote wiki relbase root = Ok out ->
  placed out.
Proof.
  intros Hwf HoneP HoneB H.
  destruct (transform_footer_invariant unquote wiki relbase
              local_not_internal relbase_relative root out Hwf H)
    as (t1 & t4 & H1 & Hinv & H5 & Hlang & _).
  destruct (strip_page_result root t1 Hwf H1) as (_ & _ & _ & _ & _ & Hlang1).
  apply (placed_loop _ t4 out Hinv); [|exact H5].
  apply language_first_placed. exact (Hlang (Hlang1 HoneP HoneB)).
Qed.

(** A second run moves the language block back to the head of the content
    block, when the first run has put it with the footer information, and
    does nothing else; a third run does nothing. *)
Lemma transform_again (root out : node) :
  wf root ->
  at_most_one (has_id "p-lang") root ->
  at_most_one (has_id "bodyContent") root ->
  transform unquote wiki relbase root = Ok out ->
  exists out',
    relocate out = Ok out' /\
    transform unquote wiki relbase out = Ok out' /\
    settled unquote wiki relbase out' /\
    Permutation (elements out') (elements out).
Proof.
  intros Hwf HoneP HoneB H.
  assert (Htidy := transform_tidy unquote wiki relbase
                     local_not_internal relbase_relative root out Hwf H).
  destruct (tidy_relocate out Htidy (transform_placed root out Hwf HoneP HoneB H))
    as (out' & Hrel & Hstrip & Htidy' & Hperm).
  exists out'. split; [exact Hrel|].
  split; [exact (tidy_transform unquote wiki relbase out out' Hstrip Htidy')|].
  split; [|exact Hperm]. split; [exact Htidy'|].
  destruct (relocate_result out out' (proj1 Htidy) Hrel) as (_ & _ & _ & Hlang).
  apply Hlang.
  - exact (transform_at_most_one root out "p-lang" Hwf H HoneP).
  - exact (transform_at_most_one root out "bodyContent" Hwf H HoneB).
Qed.

End SecondRun.

(** C8 (amended). On a document with at most one language block and at most
    one content block, with local file names that are not internal links and
    a relative base that does not begin with a slash: when the five steps
    succeed, their result has one stylesheet link, the local one, no print
    footer, and no link for [update_links] to rewrite, and running the steps
    again on it succeeds. The second run does one thing at most: it moves the
    language block, with its subtree, to the head of the content block, where
    the first run has moved it to the footer information as a print footer;
    it adds and deletes no element. A third run changes nothing. When the
    language block of the input is not a print footer, the second run changes
    nothing. *)
Theorem transform_twice
  (unquote : string -> string) (wiki : ArchWiki) (relbase : string)
  (root out : node) :
  wf root ->
  at_most_one (has_id "p-lang") root ->
  at_most_one (has_id "bodyContent") root ->
  (forall g1 g2,
      Re.internal_link (strip_origin (unquote (local_href wiki relbase g1 g2)))
      = None) ->
  Str.startswith "/" relbase = false ->
  transform unquote wiki relbase root = Ok out ->
  (exists link,
      xpath_stylesheet_links out = [link] /\
      attribute "href" link out = Some (Str.path_join relbase "ArchWikiOffline.css")) /\
  select is_printfooter out = [] /\
  update_links unquote wiki relbase out = mkOutcome out None /\
  exists out',
    transform unquote wiki relbase out = Ok out' /\
    relocate out = Ok out' /\
    Permutation (elements out') (elements out) /\
    transform unquote wiki relbase out' = Ok out' /\
    ((forall e, In e (elements root) -> has_id "p-lang" e = true ->
                is_printfooter e = false) ->
     out' = out).
Proof.
  intros Hwf HoneP HoneB Hlocal Hrel Hrun.
  assert (Htidy : tidy unquote wiki relbase out)
    by exact (transform_tidy unquote wiki relbase Hlocal Hrel root out Hwf Hrun).
  split; [|split; [|split]].
  - destruct Htidy as (Hwfo & _ & _ & x0 & Hone & Hhref).
    exists (uid (snd x0)). split.
    + unfold xpath_stylesheet_links. rewrite Hone. reflexivity.
    + unfold attribute. rewrite (element_of_wf out (snd x0) Hwfo); [exact Hhref|].
      assert (Hin : In x0 [x0]) by (left; reflexivity).
      rewrite <- Hone in Hin. apply filter_In in Hin as [Hin _].
      apply (in_map snd) in Hin. rewrite edges_snd in Hin. exact Hin.
  - destruct Htidy as (_ & Hel & _). unfold select.
    rewrite filter_none; [reflexivity|].
    intros e He. exact (proj2 (proj2 (proj2 (Hel e He)))).
  - exact (tidy_update_links unquote wiki relbase out Htidy).
  - destruct (transform_again unquote wiki relbase Hlocal Hrel root out
                Hwf HoneP HoneB Hrun) as (out' & Hmove & Hsecond & Hs & Hperm).
    exists out'. split; [exact Hsecond|]. split; [exact Hmove|].
    split; [exact Hperm|].
    split; [exact (settled_transform unquote wiki relbase out' Hs)|].
    intros Hnpf.
    assert (Hso : settled unquote wiki relbase out)
      by exact (transform_settled unquote wiki relbase Hlocal Hrel root out
                  Hwf HoneP HoneB Hnpf Hrun).
    rewrite (settled_transform unquote wiki relbase out Hso) in Hsecond.
    injection Hsecond as <-. reflexivity.
Qed.

Lemma footer_language_page_wf : wf Example.footer_language_page.
Proof. apply distinct_NoDup. reflexivity. Qed.

Lemma transform_twice_witness :
  exists out out',
    transform Example.unquote Example.wiki ".." Example.footer_language_page = Ok out /\
    transform Example.unquote Example.wiki ".." out = Ok out' /\
    transform Example.unquote Example.wiki ".." out' = Ok out'.
Proof.
  destruct (transform Example.unquote Example.wiki ".." Example.footer_language_page)
    as [out|] eqn:Hrun; [|vm_compute in Hrun; discriminate Hrun].
  destruct (transform_twice Example.unquote Example.wiki ".."
              Example.footer_language_page out footer_language_page_wf)
    as (_ & _ & _ & out' & Hsecond & _ & _ & Hthird & _).
  - apply at_most_one_count. vm_compute. lia.
  - apply at_most_one_count. vm_compute. lia.
  - exact example_local_not_internal.
  - reflexivity.
  - exact Hrun.
  - exists out, out'. split; [reflexivity|]. split; [exact Hsecond|exact Hthird].
Defined.

(** A language block that is a print footer goes to the footer information
    in the first run, and back to the content block in the second: the
    second run changes the document. *)
Lemma second_run_moves_language_block :
  exists out out',
    transform Example.unquote Example.wiki ".." Example.footer_language_page = Ok out /\
    transform Example.unquote Example.wiki ".." out = Ok out' /\
    out' <> out /\
    first_child 6 5 out = true /\ first_child 4 5 out' = true.
Proof.
  destruct (transform Example.unquote Example.wiki ".." Example.footer_language_page)
    as [out|] eqn:Hrun; [|vm_compute in Hrun; discriminate Hrun].
  vm_compute in Hrun. injection Hrun as <-.
  eexists. eexists. split; [reflexivity|]. split; [vm_compute; reflexivity|].
  split; [discriminate|]. split; reflexivity.
Qed.

(** The claim C8 as it is worded, in its first part: with local file names
    that are not internal links and a relative base that is a relative path,
    a second run on the result of the five steps does not raise. *)
Definition second_run_safe : Prop :=
  forall (unquote : string -> string) (wiki : ArchWiki) (relbase : string)
         (root out : node),
    wf root ->
    (forall g1 g2,
        Re.internal_link (strip_origin (unquote (local_href wiki relbase g1 g2)))
        = None) ->
    Str.startswith "/" relbase = false ->
    transform unquote wiki relbase root = Ok out ->
    exists out', transform unquote wiki relbase out = Ok out'.

Lemma twin_language_page_wf : wf Example.twin_language_page.
Proof. apply distinct_NoDup. reflexivity. Qed.

(** Of two language blocks, the first run moves the first one into the
    content block. When the second one is around the content block, it is the
    first one in document order after that: the second run has to move it
    into the content block that it contains, and [insert] raises
    [ValueError]. *)
Lemma second_run_safe_fails : ~ second_run_safe.
Proof.
  intros claim.
  destruct (transform Example.unquote Example.wiki ".." Example.twin_language_page)
    as [out|] eqn:Hrun; [|vm_compute in Hrun; discriminate Hrun].
  destruct (claim Example.unquote Example.wiki ".." Example.twin_language_page
              out twin_language_page_wf example_local_not_internal eq_refl Hrun)
    as [out' H].
  vm_compute in Hrun. injection Hrun as <-.
  vm_compute in H. discriminate H.
Qed.
